(** * The .agd damage index: codec, writer, reader and detector

    A shallow embedding of [include/agp/damage_index.hpp],
    [src/damage_index_writer.cpp] and [src/damage_index_reader.cpp].

    - unsigned machine integers are [Z] with the wrap-around written out;
    - [std::string_view] is a list of characters;
    - [float] and [double] are the binary32 and binary64 instances of the
      standard library's IEEE 754 specification ([SpecFloat]);
    - a file is the list of its bytes, little-endian as the format says. *)

From Stdlib Require Import ZArith List Ascii String Bool Lia QArith Lqa.
From Stdlib Require Import Floats.SpecFloat.
From stdpp Require Import base tactics option list.
From Stdlib Require Import Qpower Qabs Qround.

Local Open Scope Z_scope.

(** ** Machine integers *)

Definition wrap8 (z : Z) : Z := z mod 2 ^ 8.
Definition wrap16 (z : Z) : Z := z mod 2 ^ 16.
Definition wrap32 (z : Z) : Z := z mod 2 ^ 32.
Definition wrap64 (z : Z) : Z := z mod 2 ^ 64.

(** ** Strings *)

Abbreviation string_view := (list ascii).

Definition sv (s : string) : string_view := list_ascii_of_string s.

(** [static_cast<uint8_t>(c)]. *)
Definition uchar (c : ascii) : Z := Z.of_N (N_of_ascii c).

(** [std::string_view::size]. *)
Definition size {A} (l : list A) : Z := Z.of_nat (length l).

(** ** FNV-1a (damage_index.hpp, lines 76-89) *)

Definition FNV_OFFSET_BASIS : Z := 14695981039346656037.
Definition FNV_PRIME : Z := 1099511628211.

Definition fnv1a_step (hash : Z) (c : ascii) : Z :=
  wrap64 (Z.lxor hash (uchar c) * FNV_PRIME).

Definition fnv1a_hash (str : string_view) : Z :=
  fold_left fnv1a_step str FNV_OFFSET_BASIS.

(** ** strip_agp_suffix (damage_index.hpp, lines 97-109) *)

Definition char_in_range (lo hi c : ascii) : bool :=
  (uchar lo <=? uchar c) && (uchar c <=? uchar hi).

Definition is_agp_suffix (s : string_view) : bool :=
  match s with
  | [c0; c1; c2; c3] =>
      Ascii.eqb c0 "_" && (Ascii.eqb c1 "+" || Ascii.eqb c1 "-") &&
      Ascii.eqb c2 "_" && char_in_range "0" "2" c3
  | _ => false
  end.

Definition strip_agp_suffix (id : string_view) : string_view :=
  if 4 <=? size id then
    let pos := Z.to_nat (size id - 4) in
    if is_agp_suffix (drop pos id) then take pos id else id
  else id.

(** ** Codon encoding (damage_index.hpp, lines 121-178) *)

Definition encode_nucleotide (nt : ascii) : Z :=
  if Ascii.eqb nt "T" || Ascii.eqb nt "t" then 0
  else if Ascii.eqb nt "C" || Ascii.eqb nt "c" then 1
  else if Ascii.eqb nt "A" || Ascii.eqb nt "a" then 2
  else if Ascii.eqb nt "G" || Ascii.eqb nt "g" then 3
  else -1.

Definition encode_codon (c0 c1 c2 : ascii) : Z :=
  let b0 := encode_nucleotide c0 in
  let b1 := encode_nucleotide c1 in
  let b2 := encode_nucleotide c2 in
  if (b0 <? 0) || (b1 <? 0) || (b2 <? 0) then 255
  else wrap8 (Z.lor (Z.lor (Z.shiftl b0 4) (Z.shiftl b1 2)) b2).

Definition BASES (i : Z) : ascii :=
  match i with
  | 0 => "T" | 1 => "C" | 2 => "A" | _ => "G"
  end%char.

Definition decode_codon (idx : Z) : ascii * ascii * ascii :=
  if 63 <? idx then ("N", "N", "N")%char
  else (BASES (Z.land (Z.shiftr idx 4) 3),
        BASES (Z.land (Z.shiftr idx 2) 3),
        BASES (Z.land idx 3)).

(** [pack_nucleotides_4]: one round of the loop, [packed |= (val << (6 - 2 * i))]
    with [val] the code of [nts[i]] or 0, and the four rounds. *)
Definition pack_round (packed : Z) (i : Z) (nt : ascii) : Z :=
  let val := encode_nucleotide nt in
  let val := if val <? 0 then 0 else val in
  wrap8 (Z.lor packed (Z.shiftl val (6 - 2 * i))).

Definition pack_nucleotides_4 (n0 n1 n2 n3 : ascii) : Z :=
  pack_round (pack_round (pack_round (pack_round 0 0 n0) 1 n1) 2 n2) 3 n3.

(** [unpack_nucleotides_4]: [out[i] = BASES[(packed >> (6 - 2 * i)) & 3]]. *)
Definition unpack_nucleotides_4 (packed : Z) : ascii * ascii * ascii * ascii :=
  (BASES (Z.land (Z.shiftr packed 6) 3), BASES (Z.land (Z.shiftr packed 4) 3),
   BASES (Z.land (Z.shiftr packed 2) 3), BASES (Z.land (Z.shiftr packed 0) 3)).

(** ** Frame and strand (damage_index.hpp, lines 187-203) *)

Definition encode_frame_strand (frame : Z) (is_reverse : bool) : Z :=
  wrap8 (Z.lor (Z.land frame 3) (if is_reverse then 128 else 0)).

Definition decode_frame (fs : Z) : Z := Z.land fs 3.

Definition decode_is_reverse (fs : Z) : bool := negb (Z.land fs 128 =? 0).

(** ** Floating point (IEEE 754 binary32 and binary64)

    [float] is [spec_float] at precision 24 and [double] at precision 53;
    the operations are the standard library's correctly rounded ones
    (round to nearest, ties to even). *)

Definition f32_mul := SFmul 24 128.
Definition f32_add := SFadd 24 128.
Definition f32_div := SFdiv 24 128.
Definition f32_leb := SFleb.
Definition f32_ltb := SFltb.
Definition f32_of_Z (z : Z) : spec_float := binary_normalize 24 128 z 0 false.

Definition f64_mul := SFmul 53 1024.
Definition f64_add := SFadd 53 1024.
Definition f64_of_Z (z : Z) : spec_float := binary_normalize 53 1024 z 0 false.

(** The literals of the sources. *)
Definition f32_0 : spec_float := S754_zero false.
Definition f32_0_5 : spec_float := S754_finite false 8388608 (-24).
Definition f32_1 : spec_float := S754_finite false 8388608 (-23).
Definition f32_2 : spec_float := S754_finite false 8388608 (-22).
Definition f32_100 : spec_float := S754_finite false 13107200 (-17).
Definition f32_255 : spec_float := S754_finite false 16711680 (-16).
Definition f32_0_05 : spec_float := S754_finite false 13421773 (-28).
Definition f64_1_33 : spec_float := S754_finite false 5989787504402760 (-52).

(** The value of a float, truncated toward zero; infinities and NaN have
    none. *)
Definition SFtrunc (f : spec_float) : option Z :=
  match f with
  | S754_zero _ => Some 0
  | S754_finite s m e =>
      Some (cond_Zopp s (if 0 <=? e then Z.pos m * 2 ^ e else Z.pos m / 2 ^ (- e)))
  | _ => None
  end.

(** The exact value of a float as a rational (0 for infinities and NaN,
    which [SFfinite] excludes). *)
Definition SF2Q (f : spec_float) : Q :=
  match f with
  | S754_finite s m e => inject_Z (cond_Zopp s (Z.pos m)) * Qpower 2 e
  | _ => 0
  end%Q.

Definition SFfinite (f : spec_float) : bool :=
  match f with
  | S754_zero _ | S754_finite _ _ _ => true
  | _ => false
  end.

(** ** Results of operations that can throw or leave defined behaviour

    [Throw what] is a [std::runtime_error]; [Undefined] marks what the C++
    standard leaves undefined (a read outside the string, a float to integer
    conversion out of range). *)

Inductive res (A : Type) : Type :=
  | Ok (a : A)
  | Throw (what : string)
  | Undefined.
Arguments Ok {A} a.
Arguments Throw {A} what.
Arguments Undefined {A}.

Definition res_bind {A B} (m : res A) (f : A -> res B) : res B :=
  match m with
  | Ok a => f a
  | Throw w => Throw w
  | Undefined => Undefined
  end.

Notation "'do' x <- m ; f" := (res_bind m (fun x => f))
  (at level 10, x name, m at level 100, f at level 200).

Definition of_option {A} (o : option A) : res A :=
  match o with Some a => Ok a | None => Undefined end.

(** [static_cast<uint8_t>(x)] for a float [x]. *)
Definition float_to_u8 (f : spec_float) : res Z :=
  match SFtrunc f with
  | Some z => if (0 <=? z) && (z <=? 255) then Ok z else Undefined
  | None => Undefined
  end.

(** [static_cast<uint64_t>(x)] for a double [x]. *)
Definition double_to_u64 (f : spec_float) : res Z :=
  match SFtrunc f with
  | Some z => if (0 <=? z) && (z <? 2 ^ 64) then Ok z else Undefined
  | None => Undefined
  end.

(** ** Quantization (damage_index.hpp, lines 212-239) *)

Definition quantize_damage_pct (pct : spec_float) : res Z :=
  if f32_leb pct f32_0 then Ok 0
  else if f32_leb f32_100 pct then Ok 200
  else float_to_u8 (f32_add (f32_mul pct f32_2) f32_0_5).

Definition dequantize_damage_pct (q : Z) : spec_float :=
  f32_mul (f32_of_Z q) f32_0_5.

Definition quantize_probability (p : spec_float) : res Z :=
  if f32_leb p f32_0 then Ok 0
  else if f32_leb f32_1 p then Ok 255
  else float_to_u8 (f32_add (f32_mul p f32_255) f32_0_5).

Definition dequantize_probability (q : Z) : spec_float :=
  f32_div (f32_of_Z q) f32_255.

(** ** Records (damage_index.hpp, lines 47-61) *)

Record AgdRecord : Type := mkRecord {
  id_hash : Z;
  seq_len : Z;
  frame_strand : Z;
  damage_pct_q : Z;
  p_damaged_q : Z;
  n_5prime : Z;
  n_3prime : Z;
  pad_ : Z;
  codons_5prime : list Z;
  codons_3prime : list Z;
  nt_5prime : list Z;
  nt_3prime : list Z
}.

(** [std::memset(&rec, 0, sizeof(rec))]. *)
Definition zero_record : AgdRecord :=
  mkRecord 0 0 0 0 0 0 0 0 (replicate 5 0) (replicate 5 0)
           (replicate 3 0) (replicate 3 0).

Definition set_codons_5prime (f : list Z -> list Z) (n : Z) (r : AgdRecord) :=
  mkRecord (id_hash r) (seq_len r) (frame_strand r) (damage_pct_q r)
    (p_damaged_q r) n (n_3prime r) (pad_ r) (f (codons_5prime r))
    (codons_3prime r) (nt_5prime r) (nt_3prime r).

Definition set_codons_3prime (f : list Z -> list Z) (n : Z) (r : AgdRecord) :=
  mkRecord (id_hash r) (seq_len r) (frame_strand r) (damage_pct_q r)
    (p_damaged_q r) (n_5prime r) n (pad_ r) (codons_5prime r)
    (f (codons_3prime r)) (nt_5prime r) (nt_3prime r).

Definition set_nt_5prime (f : list Z -> list Z) (r : AgdRecord) :=
  mkRecord (id_hash r) (seq_len r) (frame_strand r) (damage_pct_q r)
    (p_damaged_q r) (n_5prime r) (n_3prime r) (pad_ r) (codons_5prime r)
    (codons_3prime r) (f (nt_5prime r)) (nt_3prime r).

Definition set_nt_3prime (f : list Z -> list Z) (r : AgdRecord) :=
  mkRecord (id_hash r) (seq_len r) (frame_strand r) (damage_pct_q r)
    (p_damaged_q r) (n_5prime r) (n_3prime r) (pad_ r) (codons_5prime r)
    (codons_3prime r) (nt_5prime r) (f (nt_3prime r)).

(** An array element written in place: [a[i] = v] when [i] is inside the
    array (the loops below never write outside). *)
Definition store (i : Z) (v : Z) (a : list Z) : list Z :=
  <[Z.to_nat i := v]> a.

(** [a[i] |= v] on bytes. *)
Definition store_or (i : Z) (v : Z) (a : list Z) : list Z :=
  alter (fun old => wrap8 (Z.lor old v)) (Z.to_nat i) a.

(** ** Terminal codons (damage_index_writer.cpp, lines 59-145) *)

(** [dna[pos]], a read that must stay inside the string. *)
Definition char_at (dna : string_view) (pos : Z) : res ascii :=
  if (0 <=? pos) && (pos <? size dna) then of_option (dna !! Z.to_nat pos)
  else Undefined.

(** [encode_codon(dna.data() + pos)]. *)
Definition encode_codon_at (dna : string_view) (pos : Z) : res Z :=
  do c0 <- char_at dna pos;
  do c1 <- char_at dna (pos + 1);
  do c2 <- char_at dna (pos + 2);
  Ok (encode_codon c0 c1 c2).

Definition complement (nt : ascii) : ascii :=
  if Ascii.eqb nt "A" || Ascii.eqb nt "a" then "T"
  else if Ascii.eqb nt "T" || Ascii.eqb nt "t" then "A"
  else if Ascii.eqb nt "G" || Ascii.eqb nt "g" then "C"
  else if Ascii.eqb nt "C" || Ascii.eqb nt "c" then "G"
  else "N".

(** The inner loop of the reverse strand: [codon[j] = complement(dna[pos+2-j])]
    for j = 0, 1, 2, then [encode_codon(codon)]. *)
Definition revcomp_codon_at (dna : string_view) (pos : Z) : res Z :=
  do c0 <- char_at dna (pos + 2);
  do c1 <- char_at dna (pos + 1);
  do c2 <- char_at dna pos;
  Ok (encode_codon (complement c0) (complement c1) (complement c2)).

(** The four loops. [fuel] is 5 at every call: the loops stop at [i = 5]. *)

(** [for (i = 0; i < 5 && pos + 3 <= len; ++i, pos += 3)], forward 5'. *)
Fixpoint fwd_5prime_loop (fuel : nat) (dna : string_view) (i pos : Z)
    (rec : AgdRecord) : res AgdRecord :=
  match fuel with
  | O => Ok rec
  | S fuel' =>
      if (i <? 5) && (wrap64 (pos + 3) <=? size dna) then
        do c <- encode_codon_at dna pos;
        fwd_5prime_loop fuel' dna (i + 1) (wrap64 (pos + 3))
          (set_codons_5prime (store i c) (wrap8 (i + 1)) rec)
      else Ok rec
  end.

(** [for (i = 0; i < 5 && pos >= frame; ++i, pos -= 3) { ...;
    if (pos < 3) break; }], forward 3'. *)
Fixpoint fwd_3prime_loop (fuel : nat) (dna : string_view) (frame i pos : Z)
    (rec : AgdRecord) : res AgdRecord :=
  match fuel with
  | O => Ok rec
  | S fuel' =>
      if (i <? 5) && (frame <=? pos) then
        do c <- encode_codon_at dna pos;
        let rec' := set_codons_3prime (store i c) (wrap8 (i + 1)) rec in
        if pos <? 3 then Ok rec'
        else fwd_3prime_loop fuel' dna frame (i + 1) (wrap64 (pos - 3)) rec'
      else Ok rec
  end.

(** [for (i = 0; i < 5 && pos + 3 <= len; ++i) { ...; if (pos < 3) break;
    pos -= 3; }], reverse 5'. *)
Fixpoint rev_5prime_loop (fuel : nat) (dna : string_view) (i pos : Z)
    (rec : AgdRecord) : res AgdRecord :=
  match fuel with
  | O => Ok rec
  | S fuel' =>
      if (i <? 5) && (wrap64 (pos + 3) <=? size dna) then
        do c <- revcomp_codon_at dna pos;
        let rec' := set_codons_5prime (store i c) (wrap8 (i + 1)) rec in
        if pos <? 3 then Ok rec'
        else rev_5prime_loop fuel' dna (i + 1) (wrap64 (pos - 3)) rec'
      else Ok rec
  end.

(** [for (i = 0; i < 5 && pos + 3 <= len; ++i, pos += 3)], reverse 3'. *)
Fixpoint rev_3prime_loop (fuel : nat) (dna : string_view) (i pos : Z)
    (rec : AgdRecord) : res AgdRecord :=
  match fuel with
  | O => Ok rec
  | S fuel' =>
      if (i <? 5) && (wrap64 (pos + 3) <=? size dna) then
        do c <- revcomp_codon_at dna pos;
        rev_3prime_loop fuel' dna (i + 1) (wrap64 (pos + 3))
          (set_codons_3prime (store i c) (wrap8 (i + 1)) rec)
      else Ok rec
  end.

(** [frame] is the [int] argument; where the source mixes it with [size_t]
    it is converted, which is [wrap64]. *)
Definition extract_terminal_codons (dna : string_view) (frame : Z)
    (is_reverse : bool) (rec : AgdRecord) : res AgdRecord :=
  let rec0 :=
    set_codons_3prime (fun _ => replicate 5 255) 0
      (set_codons_5prime (fun _ => replicate 5 255) 0 rec) in
  let len := size dna in
  if len <? 3 then Ok rec0
  else if negb is_reverse then
    do rec1 <- fwd_5prime_loop 5 dna 0 (wrap64 frame) rec0;
    let coding_len := wrap64 (wrap64 (len - frame) / 3 * 3) in
    if 3 <=? coding_len then
      fwd_3prime_loop 5 dna (wrap64 frame) 0
        (wrap64 (frame + coding_len - 3)) rec1
    else Ok rec1
  else
    let coding_len := wrap64 (wrap64 (len - frame) / 3 * 3) in
    if coding_len <? 3 then Ok rec0
    else
      do rec1 <- rev_5prime_loop 5 dna 0 (wrap64 (len - frame - 3)) rec0;
      rev_3prime_loop 5 dna 0 (wrap64 frame) rec1.

(** ** Terminal nucleotides (damage_index_writer.cpp, lines 147-214) *)

(** [encode_nucleotide] with [if (val < 0) val = 0]. *)
Definition nt_code (c : ascii) : Z :=
  let val := encode_nucleotide c in
  if val <? 0 then 0 else val.

(** The [switch] of the reverse strand: the code of the complement. *)
Definition complement_code (nt : ascii) : Z :=
  if Ascii.eqb nt "A" || Ascii.eqb nt "a" then 0
  else if Ascii.eqb nt "T" || Ascii.eqb nt "t" then 2
  else if Ascii.eqb nt "G" || Ascii.eqb nt "g" then 1
  else if Ascii.eqb nt "C" || Ascii.eqb nt "c" then 3
  else 0.

Definition packed (i val : Z) : Z := Z.shiftl val (6 - 2 * (i mod 4)).

(** [for (size_t i = 0; i < 12 && i < len; ++i) body], at most 12 rounds. *)
Fixpoint pack_loop (fuel : nat) (body : Z -> AgdRecord -> res AgdRecord)
    (len i : Z) (rec : AgdRecord) : res AgdRecord :=
  match fuel with
  | O => Ok rec
  | S fuel' =>
      if (i <? 12) && (i <? len) then
        do rec' <- body i rec;
        pack_loop fuel' body len (i + 1) rec'
      else Ok rec
  end.

Definition pack_fwd_5prime (dna : string_view) (i : Z) (rec : AgdRecord) :=
  do c <- char_at dna i;
  Ok (set_nt_5prime (store_or (i / 4) (packed i (nt_code c))) rec).

Definition pack_fwd_3prime (dna : string_view) (i : Z) (rec : AgdRecord) :=
  let pos := wrap64 (size dna - 12 + i) in
  if size dna <=? pos then Ok rec
  else
    do c <- char_at dna pos;
    Ok (set_nt_3prime (store_or (i / 4) (packed i (nt_code c))) rec).

Definition pack_rev_5prime (dna : string_view) (i : Z) (rec : AgdRecord) :=
  let pos := wrap64 (size dna - 1 - i) in
  do c <- char_at dna pos;
  Ok (set_nt_5prime (store_or (i / 4) (packed i (complement_code c))) rec).

Definition pack_rev_3prime (dna : string_view) (i : Z) (rec : AgdRecord) :=
  let pos := wrap64 (11 - i) in
  if size dna <=? pos then Ok rec
  else
    do c <- char_at dna pos;
    Ok (set_nt_3prime (store_or (i / 4) (packed i (complement_code c))) rec).

Definition pack_terminal_nucleotides (dna : string_view) (is_reverse : bool)
    (rec : AgdRecord) : res AgdRecord :=
  let rec0 :=
    set_nt_3prime (fun _ => replicate 3 0)
      (set_nt_5prime (fun _ => replicate 3 0) rec) in
  let len := size dna in
  if negb is_reverse then
    do rec1 <- pack_loop 12 (pack_fwd_5prime dna) len 0 rec0;
    pack_loop 12 (pack_fwd_3prime dna) len 0 rec1
  else
    do rec1 <- pack_loop 12 (pack_rev_5prime dna) len 0 rec0;
    pack_loop 12 (pack_rev_3prime dna) len 0 rec1.

(** ** The writer (damage_index_writer.cpp) *)

(** Modelled from the spec: [Gene] (types.hpp is not among the sources), "a
    Gene-like value with read_id (string), frame (0-2), is_forward (bool),
    damage_score (0-100), ancient_prob (0-1)"; the two scores are the
    [float] arguments the quantizers take. *)
Record Gene : Type := mkGene {
  read_id : string_view;
  frame : Z;
  is_forward : bool;
  damage_score : spec_float;
  ancient_prob : spec_float
}.

(** Modelled from the spec: [SampleDamageProfile] (frame_selector.hpp is not
    among the sources), "a sample damage profile with d_max, lambda,
    library_type"; the two floats are kept as their binary32 bit patterns,
    which is what the header stores. *)
Record SampleDamageProfile : Type := mkProfile {
  profile_d_max : Z;
  profile_lambda : Z;
  profile_library_type : string
}.

Definition AGD_MAGIC : Z := 0x01444741.
Definition AGD_VERSION : Z := 1.

Record AgdHeader : Type := mkHeader {
  magic : Z;
  version : Z;
  num_records : Z;
  num_buckets : Z;
  d_max : Z;
  lambda : Z;
  library_type : Z
}.

Record AgdBucket : Type := mkBucket {
  record_offset : Z;
  next_offset : Z
}.

Record DamageIndexWriter : Type := mkWriter {
  path_ : string;
  header_ : AgdHeader;
  records_ : list AgdRecord;
  finalized_ : bool
}.

Definition new_writer (path : string) (profile : SampleDamageProfile)
    : DamageIndexWriter :=
  let lt :=
    if String.eqb (profile_library_type profile) "single-stranded" then 1
    else if String.eqb (profile_library_type profile) "double-stranded" then 2
    else 0 in
  mkWriter path
    (mkHeader AGD_MAGIC AGD_VERSION 0 0 (profile_d_max profile)
       (profile_lambda profile) lt)
    [] false.

Definition add_record (w : DamageIndexWriter) (gene : Gene)
    (dna_sequence : string_view) : res DamageIndexWriter :=
  if finalized_ w then Throw "Cannot add records after finalize()"
  else
    let base_id := strip_agp_suffix (read_id gene) in
    do dq <- quantize_damage_pct (damage_score gene);
    do pq <- quantize_probability (ancient_prob gene);
    let rec :=
      mkRecord (fnv1a_hash base_id)
        (wrap16 (Z.min (size dna_sequence) 65535))
        (encode_frame_strand (frame gene) (negb (is_forward gene)))
        dq pq 0 0 0 (replicate 5 0) (replicate 5 0)
        (replicate 3 0) (replicate 3 0) in
    do rec1 <- extract_terminal_codons dna_sequence (frame gene)
                 (negb (is_forward gene)) rec;
    do rec2 <- pack_terminal_nucleotides dna_sequence
                 (negb (is_forward gene)) rec1;
    Ok (mkWriter (path_ w) (header_ w) (records_ w ++ [rec2]) (finalized_ w)).

(** A sequence of [add_record] calls on one writer; the first that throws
    ends it. *)
Fixpoint add_records (w : DamageIndexWriter)
    (inputs : list (Gene * string_view)) : res DamageIndexWriter :=
  match inputs with
  | [] => Ok w
  | (gene, dna) :: rest =>
      do w' <- add_record w gene dna;
      add_records w' rest
  end.

(** [record_count()] of the writer. *)
Definition writer_record_count (w : DamageIndexWriter) : Z := size (records_ w).

(** [static_cast<uint64_t>(records_.size() * 1.33 + 1)]. *)
Definition bucket_count (n : Z) : res Z :=
  double_to_u64 (f64_add (f64_mul (f64_of_Z n) f64_1_33) (f64_of_Z 1)).

Definition EMPTY : Z := 0xFFFFFFFF.

Definition bucket_at (buckets : list AgdBucket) (idx : Z) : AgdBucket :=
  default (mkBucket EMPTY EMPTY) (buckets !! Z.to_nat idx).

(** The insertion loop of [finalize] (lines 248-258), from record [i] on. *)
Fixpoint build_table (recs : list AgdRecord) (i : Z) (nbuckets : Z)
    (buckets : list AgdBucket) (next_chain : list Z)
    : list AgdBucket * list Z :=
  match recs with
  | [] => (buckets, next_chain)
  | r :: rest =>
      let bucket_idx := id_hash r mod nbuckets in
      let b := bucket_at buckets bucket_idx in
      let b' := mkBucket (wrap32 i) (next_offset b) in
      if record_offset b =? EMPTY then
        build_table rest (i + 1) nbuckets
          (<[Z.to_nat bucket_idx := b']> buckets) next_chain
      else
        build_table rest (i + 1) nbuckets
          (<[Z.to_nat bucket_idx := b']> buckets)
          (<[Z.to_nat i := record_offset b]> next_chain)
  end.

(** ** The file (all integers little-endian) *)

Fixpoint le_bytes (n : nat) (v : Z) : list Z :=
  match n with
  | O => []
  | S n' => v mod 256 :: le_bytes n' (v / 256)
  end.

Fixpoint le_value (bs : list Z) : Z :=
  match bs with
  | [] => 0
  | b :: bs' => b + 256 * le_value bs'
  end.

(** The 64 bytes of an [AgdHeader]: 33 bytes of fields, [_reserved[27]] and
    the 4 bytes that pad the struct to its alignment, all zeroed by the
    constructor's [memset]. *)
Definition header_bytes (h : AgdHeader) : list Z :=
  le_bytes 4 (magic h) ++ le_bytes 4 (version h) ++
  le_bytes 8 (num_records h) ++ le_bytes 8 (num_buckets h) ++
  le_bytes 4 (d_max h) ++ le_bytes 4 (lambda h) ++
  [library_type h] ++ replicate 27 0 ++ replicate 4 0.

Definition bucket_bytes (b : AgdBucket) : list Z :=
  le_bytes 4 (record_offset b) ++ le_bytes 4 (next_offset b).

Definition record_bytes (r : AgdRecord) : list Z :=
  le_bytes 8 (id_hash r) ++ le_bytes 2 (seq_len r) ++
  [frame_strand r; damage_pct_q r; p_damaged_q r; n_5prime r; n_3prime r;
   pad_ r] ++
  codons_5prime r ++ codons_3prime r ++ nt_5prime r ++ nt_3prime r.

Definition file_bytes (h : AgdHeader) (buckets : list AgdBucket)
    (records : list AgdRecord) (next_chain : list Z) : list Z :=
  header_bytes h ++ concat (map bucket_bytes buckets) ++
  concat (map record_bytes records) ++ concat (map (le_bytes 4) next_chain).

(** What [finalize] leaves behind: the file it wrote, or nothing on the
    second call. *)
Inductive written : Type :=
  | NoFile
  | File (bytes : list Z).

(** [can_open] and [write_ok] say whether the output stream opens and
    whether it is still good after the writes. *)
Definition finalize (can_open write_ok : bool) (w : DamageIndexWriter)
    : res (DamageIndexWriter * written) :=
  if finalized_ w then Ok (w, NoFile)
  else
    let h := header_ w in
    match records_ w with
    | [] =>
        let h' := mkHeader (magic h) (version h) 0 0 (d_max h) (lambda h)
                    (library_type h) in
        if negb can_open then
          Throw ("Failed to open output file: " ++ path_ w)
        else Ok (mkWriter (path_ w) h' [] true, File (header_bytes h'))
    | _ :: _ =>
        let n := size (records_ w) in
        do nb <- bucket_count n;
        let h' := mkHeader (magic h) (version h) (wrap64 n) nb (d_max h)
                    (lambda h) (library_type h) in
        if nb =? 0 then Undefined
        else
          let '(buckets, next_chain) :=
            build_table (records_ w) 0 nb
              (replicate (Z.to_nat nb) (mkBucket EMPTY EMPTY))
              (replicate (Z.to_nat n) EMPTY) in
          if negb can_open then
            Throw ("Failed to open output file: " ++ path_ w)
          else if negb write_ok then
            Throw ("Failed to write output file: " ++ path_ w)
          else
            Ok (mkWriter (path_ w) h' (records_ w) true,
                File (file_bytes h' buckets (records_ w) next_chain))
    end.

(** ** The reader (damage_index_reader.cpp, lines 14-168) *)

(** The mapped file. [file_size_] is the length of [data_]; the section
    pointers are offsets from the start of the mapping, computed from the
    header's counts as the constructor does. *)
Record DamageIndexReader : Type := mkReader {
  data_ : list Z;
  file_size_ : Z
}.

(** An aligned load of [n] bytes at offset [off] of the mapping; a load
    outside the mapping is undefined. *)
Definition load (n : nat) (r : DamageIndexReader) (off : Z) : res Z :=
  if (0 <=? off) && (off + Z.of_nat n <=? file_size_ r) then
    Ok (le_value (take n (drop (Z.to_nat off) (data_ r))))
  else Undefined.

Definition load_bytes (n : nat) (r : DamageIndexReader) (off : Z)
    : res (list Z) :=
  if (0 <=? off) && (off + Z.of_nat n <=? file_size_ r) then
    Ok (take n (drop (Z.to_nat off) (data_ r)))
  else Undefined.

Definition HEADER_SIZE : Z := 64.
Definition BUCKET_SIZE : Z := 8.
Definition RECORD_SIZE : Z := 32.

Definition hdr_magic (r : DamageIndexReader) := load 4 r 0.
Definition hdr_version (r : DamageIndexReader) := load 4 r 4.
Definition hdr_num_records (r : DamageIndexReader) := load 8 r 8.
Definition hdr_num_buckets (r : DamageIndexReader) := load 8 r 16.

(** [record_count()]. *)
Definition record_count (r : DamageIndexReader) : res Z := hdr_num_records r.

(** [d_max()], [lambda()] (the bit patterns of the two floats) and
    [library_type()]. *)
Definition reader_d_max (r : DamageIndexReader) : res Z := load 4 r 24.
Definition reader_lambda (r : DamageIndexReader) : res Z := load 4 r 28.
Definition reader_library_type (r : DamageIndexReader) : res Z := load 1 r 32.

(** [sizeof(AgdHeader) + num_buckets * sizeof(AgdBucket) + num_records *
    sizeof(AgdRecord) + num_records * sizeof(uint32_t)] in [size_t]. *)
Definition expected_size (nbuckets nrecords : Z) : Z :=
  wrap64 (HEADER_SIZE + wrap64 (nbuckets * BUCKET_SIZE) +
          wrap64 (nrecords * RECORD_SIZE) + wrap64 (nrecords * 4)).

(** What the environment does to the system calls of the constructor. *)
Record io_env : Type := mkEnv {
  open_ok : bool;
  fstat_ok : bool;
  mmap_ok : bool
}.

Definition io_fine : io_env := mkEnv true true true.

(** The constructor, on the file [file] found at [path]. *)
Definition open_reader (env : io_env) (path : string) (file : list Z)
    : res DamageIndexReader :=
  if negb (open_ok env) then
    Throw ("Failed to open damage index: " ++ path)
  else if negb (fstat_ok env) then
    Throw ("Failed to stat damage index: " ++ path)
  else
    let r := mkReader file (size file) in
    if file_size_ r <? HEADER_SIZE then
      Throw ("Damage index too small: " ++ path)
    else if negb (mmap_ok env) then
      Throw ("Failed to mmap damage index: " ++ path)
    else
      do m <- hdr_magic r;
      if negb (m =? AGD_MAGIC) then
        Throw ("Invalid damage index magic: " ++ path)
      else
        do v <- hdr_version r;
        if negb (v =? AGD_VERSION) then
          Throw ("Unsupported damage index version: " ++ path)
        else
          do nb <- hdr_num_buckets r;
          do nr <- hdr_num_records r;
          if file_size_ r <? expected_size nb nr then
            Throw ("Damage index file truncated: " ++ path)
          else Ok r.

(** The section offsets the constructor computes ([buckets_], [records_],
    [chain_]), in [size_t]. *)
Definition buckets_off : Z := HEADER_SIZE.
Definition records_off (nb : Z) : Z :=
  wrap64 (HEADER_SIZE + wrap64 (nb * BUCKET_SIZE)).
Definition chain_off (nb nr : Z) : Z :=
  wrap64 (records_off nb + wrap64 (nr * RECORD_SIZE)).

(** [records_[idx]], all 32 bytes decoded. *)
Definition record_of_bytes (bs : list Z) : AgdRecord :=
  mkRecord (le_value (take 8 bs)) (le_value (take 2 (drop 8 bs)))
    (bs !!! 10%nat) (bs !!! 11%nat) (bs !!! 12%nat) (bs !!! 13%nat)
    (bs !!! 14%nat) (bs !!! 15%nat)
    (take 5 (drop 16 bs)) (take 5 (drop 21 bs))
    (take 3 (drop 26 bs)) (take 3 (drop 29 bs)).

Definition record_at (r : DamageIndexReader) (nb idx : Z) : res AgdRecord :=
  do bs <- load_bytes 32 r (records_off nb + idx * RECORD_SIZE);
  Ok (record_of_bytes bs).

(** What [find] returns: a pointer to a record of the mapping (its index
    and contents) or [nullptr]. [OutOfFuel] stands for a loop that has not
    ended within the rounds it was given. *)
Inductive find_result : Type :=
  | Found (idx : Z) (rec : AgdRecord)
  | NotFound
  | FindUndefined
  | OutOfFuel.

(** [while (rec_idx != 0xFFFFFFFF && rec_idx < header_->num_records)]. *)
Fixpoint find_loop (fuel : nat) (r : DamageIndexReader) (nb nr hash : Z)
    (rec_idx : Z) : find_result :=
  if negb (rec_idx =? EMPTY) && (rec_idx <? nr) then
    match fuel with
    | O => OutOfFuel
    | S fuel' =>
        match record_at r nb rec_idx with
        | Ok rec =>
            if id_hash rec =? hash then Found rec_idx rec
            else
              match load 4 r (chain_off nb nr + rec_idx * 4) with
              | Ok next => find_loop fuel' r nb nr hash next
              | _ => FindUndefined
              end
        | _ => FindUndefined
        end
    end
  else NotFound.

Definition find (fuel : nat) (r : DamageIndexReader) (read_id : string_view)
    : find_result :=
  match hdr_num_buckets r, hdr_num_records r with
  | Ok nb, Ok nr =>
      if nb =? 0 then NotFound
      else
        let base_id := strip_agp_suffix read_id in
        let hash := fnv1a_hash base_id in
        let bucket_idx := hash mod nb in
        match load 4 r (buckets_off + bucket_idx * BUCKET_SIZE) with
        | Ok rec_idx => find_loop fuel r nb nr hash rec_idx
        | _ => FindUndefined
        end
  | _, _ => FindUndefined
  end.

Definition get_record (r : DamageIndexReader) (idx : Z) : res (option AgdRecord) :=
  do nb <- hdr_num_buckets r;
  do nr <- hdr_num_records r;
  if nr <=? idx then Ok None
  else do rec <- record_at r nb idx; Ok (Some rec).

(** ** Synonymous damage (damage_index_reader.cpp, lines 174-325) *)

Definition CODON_TO_AA : list ascii :=
  ["F"; "F"; "L"; "L";  "S"; "S"; "S"; "S";
   "Y"; "Y"; "*"; "*";  "C"; "C"; "*"; "W";
   "L"; "L"; "L"; "L";  "P"; "P"; "P"; "P";
   "H"; "H"; "Q"; "Q";  "R"; "R"; "R"; "R";
   "I"; "I"; "I"; "M";  "T"; "T"; "T"; "T";
   "N"; "N"; "K"; "K";  "S"; "S"; "R"; "R";
   "V"; "V"; "V"; "V";  "A"; "A"; "A"; "A";
   "D"; "D"; "E"; "E";  "G"; "G"; "G"; "G"]%char.

Definition aa_of (codon_idx : Z) : ascii :=
  default "000"%char (CODON_TO_AA !! Z.to_nat codon_idx).

(** The nucleotide code at [nt_pos] of a codon index. *)
Definition observed_nt_of (codon_idx nt_pos : Z) : Z :=
  Z.land (Z.shiftr codon_idx (4 - 2 * nt_pos)) 3.

Definition is_ct_synonymous (codon_idx nt_pos : Z) : bool :=
  if 63 <? codon_idx then false
  else
    let shift := 4 - 2 * nt_pos in
    if negb (observed_nt_of codon_idx nt_pos =? 0) then false
    else
      let alt_codon_idx := Z.lxor codon_idx (Z.shiftl 1 shift) in
      Ascii.eqb (aa_of codon_idx) (aa_of alt_codon_idx).

Definition is_ga_synonymous (codon_idx nt_pos : Z) : bool :=
  if 63 <? codon_idx then false
  else
    let shift := 4 - 2 * nt_pos in
    if negb (observed_nt_of codon_idx nt_pos =? 2) then false
    else
      let alt_codon_idx := Z.lxor codon_idx (Z.shiftl 1 shift) in
      Ascii.eqb (aa_of codon_idx) (aa_of alt_codon_idx).

Record DamageSite : Type := mkSite {
  codon_idx : Z;
  nt_position : Z;
  observed_nt : ascii;
  expected_nt : ascii;
  is_synonymous : bool
}.

Record SynonymousDamageResult : Type := mkResult {
  has_synonymous_damage : bool;
  synonymous_5prime : Z;
  synonymous_3prime : Z;
  nonsynonymous_5prime : Z;
  nonsynonymous_3prime : Z;
  sites : list DamageSite
}.

Definition empty_result : SynonymousDamageResult :=
  mkResult false 0 0 0 0 [].

Definition record_5prime (site : DamageSite) (result : SynonymousDamageResult) :=
  if is_synonymous site then
    mkResult true (synonymous_5prime result + 1) (synonymous_3prime result)
      (nonsynonymous_5prime result) (nonsynonymous_3prime result)
      (sites result ++ [site])
  else
    mkResult (has_synonymous_damage result) (synonymous_5prime result)
      (synonymous_3prime result) (nonsynonymous_5prime result + 1)
      (nonsynonymous_3prime result) (sites result ++ [site]).

Definition record_3prime (site : DamageSite) (result : SynonymousDamageResult) :=
  if is_synonymous site then
    mkResult true (synonymous_5prime result) (synonymous_3prime result + 1)
      (nonsynonymous_5prime result) (nonsynonymous_3prime result)
      (sites result ++ [site])
  else
    mkResult (has_synonymous_damage result) (synonymous_5prime result)
      (synonymous_3prime result) (nonsynonymous_5prime result)
      (nonsynonymous_3prime result + 1) (sites result ++ [site]).

Section Detector.

(** [std::exp] on [float] comes from the C library, not from the
    repository: the detector is stated for any such function. *)
Variable expf : spec_float -> spec_float.

Definition P_THRESHOLD : spec_float := f32_0_05.

(** [d_max * std::exp(-lambda * dist)] for the [int] distance [dist]. *)
Definition p_damage (d_max lambda : spec_float) (dist : Z) : spec_float :=
  f32_mul d_max (expf (f32_mul (SFopp lambda) (f32_of_Z dist))).

(** The body of the inner loop over [nt_pos], 5' side. *)
Definition step_5prime (d_max lambda : spec_float) (i codon nt_pos : Z)
    (result : SynonymousDamageResult) : SynonymousDamageResult :=
  let read_pos := i * 3 + nt_pos in
  if f32_ltb (p_damage d_max lambda read_pos) P_THRESHOLD then result
  else if observed_nt_of codon nt_pos =? 0 then
    record_5prime (mkSite i nt_pos "T" "C" (is_ct_synonymous codon nt_pos)) result
  else result.

Definition step_3prime (d_max lambda : spec_float) (i codon nt_pos : Z)
    (result : SynonymousDamageResult) : SynonymousDamageResult :=
  let dist_from_3prime := i * 3 + (2 - nt_pos) in
  if f32_ltb (p_damage d_max lambda dist_from_3prime) P_THRESHOLD then result
  else if observed_nt_of codon nt_pos =? 2 then
    record_3prime (mkSite i nt_pos "A" "G" (is_ga_synonymous codon nt_pos)) result
  else result.

(** One round of an outer loop: [codons[i]] is read (reading past the five
    entries of the array is undefined), sentinels are skipped, and the three
    positions are visited in order. *)
Definition codon_round
    (step : spec_float -> spec_float -> Z -> Z -> Z ->
            SynonymousDamageResult -> SynonymousDamageResult)
    (codons : list Z) (d_max lambda : spec_float) (i : Z)
    (result : SynonymousDamageResult) : res SynonymousDamageResult :=
  match codons !! Z.to_nat i with
  | None => Undefined
  | Some codon =>
      if 63 <? codon then Ok result
      else
        Ok (step d_max lambda i codon 2
              (step d_max lambda i codon 1 (step d_max lambda i codon 0 result)))
  end.

(** [for (int i = 0; i < n; ++i)] over one of the two codon arrays. *)
Fixpoint codon_loop
    (step : spec_float -> spec_float -> Z -> Z -> Z ->
            SynonymousDamageResult -> SynonymousDamageResult)
    (fuel : nat) (codons : list Z) (n : Z) (d_max lambda : spec_float)
    (i : Z) (result : SynonymousDamageResult) : res SynonymousDamageResult :=
  match fuel with
  | O => Ok result
  | S fuel' =>
      if i <? n then
        do result' <- codon_round step codons d_max lambda i result;
        codon_loop step fuel' codons n d_max lambda (i + 1) result'
      else Ok result
  end.

Definition detect_synonymous_damage (rec : AgdRecord)
    (d_max lambda : spec_float) : res SynonymousDamageResult :=
  do res1 <- codon_loop step_5prime (Z.to_nat (n_5prime rec))
               (codons_5prime rec) (n_5prime rec) d_max lambda 0 empty_result;
  codon_loop step_3prime (Z.to_nat (n_3prime rec))
    (codons_3prime rec) (n_3prime rec) d_max lambda 0 res1.

End Detector.

(** * Properties *)

(** ** The literals are the correctly rounded decimals *)

Example f32_0_05_is_literal : f32_div (f32_of_Z 5) (f32_of_Z 100) = f32_0_05.
Proof. reflexivity. Qed.

Example f64_1_33_is_literal :
  SFdiv 53 1024 (f64_of_Z 133) (f64_of_Z 100) = f64_1_33.
Proof. reflexivity. Qed.

Example f32_literals :
  (f32_of_Z 0, f32_of_Z 1, f32_of_Z 2, f32_of_Z 100, f32_of_Z 255,
   f32_div (f32_of_Z 1) (f32_of_Z 2))
  = (f32_0, f32_1, f32_2, f32_100, f32_255, f32_0_5).
Proof. reflexivity. Qed.

(** ** Machine integers *)

Lemma wrap64_small z : 0 <= z < 2 ^ 64 -> wrap64 z = z.
Proof. intros. unfold wrap64. now apply Z.mod_small. Qed.

Lemma wrap32_small z : 0 <= z < 2 ^ 32 -> wrap32 z = z.
Proof. intros. unfold wrap32. now apply Z.mod_small. Qed.

Lemma wrap16_small z : 0 <= z < 2 ^ 16 -> wrap16 z = z.
Proof. intros. unfold wrap16. now apply Z.mod_small. Qed.

Lemma wrap8_small z : 0 <= z < 2 ^ 8 -> wrap8 z = z.
Proof. intros. unfold wrap8. now apply Z.mod_small. Qed.

Lemma size_nonneg {A} (l : list A) : 0 <= size l.
Proof. unfold size. lia. Qed.

Lemma size_app {A} (l1 l2 : list A) : size (l1 ++ l2) = size l1 + size l2.
Proof. unfold size. rewrite length_app. lia. Qed.

(** ** Key derivation *)

Lemma fnv1a_hash_nil : fnv1a_hash [] = FNV_OFFSET_BASIS.
Proof. reflexivity. Qed.

Lemma fnv1a_hash_snoc (str : string_view) (c : ascii) :
  fnv1a_hash (str ++ [c])
  = (Z.lxor (fnv1a_hash str) (uchar c) * FNV_PRIME) mod 2 ^ 64.
Proof. unfold fnv1a_hash. now rewrite fold_left_app. Qed.

Lemma fnv1a_hash_range (str : string_view) : 0 <= fnv1a_hash str < 2 ^ 64.
Proof.
  induction str as [|c str _] using rev_ind.
  - rewrite fnv1a_hash_nil. unfold FNV_OFFSET_BASIS. lia.
  - rewrite fnv1a_hash_snoc. apply Z.mod_pos_bound. lia.
Qed.

Definition strand_char (c : ascii) : Prop := c = "+"%char \/ c = "-"%char.
Definition frame_char (c : ascii) : Prop :=
  c = "0"%char \/ c = "1"%char \/ c = "2"%char.

Lemma is_agp_suffix_spec (s : string_view) :
  is_agp_suffix s = true <->
  exists c1 c3, s = ["_"%char; c1; "_"%char; c3] /\ strand_char c1 /\ frame_char c3.
Proof.
  unfold strand_char, frame_char. split.
  - destruct s as [|c0 [|c1 [|c2 [|c3 [|]]]]]; simpl; try discriminate.
    intros H.
    apply andb_true_iff in H as [H H3].
    apply andb_true_iff in H as [H H2].
    apply andb_true_iff in H as [H0 H1].
    apply Ascii.eqb_eq in H0, H2. subst c0 c2.
    exists c1, c3. split; [reflexivity|]. split.
    + apply orb_true_iff in H1 as [H1|H1]; apply Ascii.eqb_eq in H1; auto.
    + destruct c3 as [[] [] [] [] [] [] [] []]; try discriminate H3; auto.
  - intros (c1 & c3 & -> & H1 & H3).
    destruct H1 as [->| ->]; destruct H3 as [->|[->| ->]]; reflexivity.
Qed.

Lemma strip_agp_suffix_strips (base : string_view) (c1 c3 : ascii) :
  strand_char c1 -> frame_char c3 ->
  strip_agp_suffix (base ++ ["_"%char; c1; "_"%char; c3]) = base.
Proof.
  intros H1 H3. unfold strip_agp_suffix.
  rewrite size_app. change (size ["_"%char; c1; "_"%char; c3]) with 4.
  pose proof (size_nonneg base).
  destruct (Z.leb_spec 4 (size base + 4)); [|lia].
  replace (Z.to_nat (size base + 4 - 4)) with (length base)
    by (unfold size; lia).
  rewrite drop_app_length, take_app_length.
  replace (is_agp_suffix _) with true; [reflexivity|].
  symmetry. apply is_agp_suffix_spec. eauto.
Qed.

Lemma strip_agp_suffix_cases (id : string_view) :
  (strip_agp_suffix id = id /\
   forall base c1 c3, strand_char c1 -> frame_char c3 ->
     id <> base ++ ["_"%char; c1; "_"%char; c3]) \/
  (exists base c1 c3, strand_char c1 /\ frame_char c3 /\
     id = base ++ ["_"%char; c1; "_"%char; c3] /\ strip_agp_suffix id = base).
Proof.
  destruct (is_agp_suffix (drop (length id - 4) id)) eqn:E.
  - right. apply is_agp_suffix_spec in E as (c1 & c3 & E & H1 & H3).
    exists (take (length id - 4) id), c1, c3.
    assert (Hid : id = take (length id - 4) id ++ ["_"%char; c1; "_"%char; c3])
      by (rewrite <- E; symmetry; apply take_drop).
    repeat split; try assumption.
    rewrite Hid at 1. now apply strip_agp_suffix_strips.
  - left. split.
    + unfold strip_agp_suffix. destruct (4 <=? size id); [|reflexivity].
      replace (Z.to_nat (size id - 4)) with (length id - 4)%nat
        by (unfold size; lia).
      now rewrite E.
    + intros base c1 c3 H1 H3 ->.
      rewrite length_app in E. simpl in E.
      replace (length base + 4 - 4)%nat with (length base) in E by lia.
      rewrite drop_app_length in E.
      assert (is_agp_suffix ["_"%char; c1; "_"%char; c3] = true)
        by (apply is_agp_suffix_spec; eauto).
      congruence.
Qed.

(** ** Terminal codons *)

(** The codon that starts at position [p] of the sequence, and the codon of
    the reverse complement that covers the same three bases. *)
Definition char_or_N (dna : string_view) (p : Z) : ascii :=
  default "N"%char (dna !! Z.to_nat p).

Definition codon_of (dna : string_view) (p : Z) : Z :=
  encode_codon (char_or_N dna p) (char_or_N dna (p + 1)) (char_or_N dna (p + 2)).

Definition revcomp_codon_of (dna : string_view) (p : Z) : Z :=
  encode_codon (complement (char_or_N dna (p + 2)))
    (complement (char_or_N dna (p + 1))) (complement (char_or_N dna p)).

(** The groups of fields a loop leaves alone. *)
Definition meta (r : AgdRecord) :=
  (id_hash r, seq_len r, frame_strand r, damage_pct_q r, p_damaged_q r, pad_ r).
Definition five (r : AgdRecord) := (n_5prime r, codons_5prime r).
Definition three (r : AgdRecord) := (n_3prime r, codons_3prime r).
Definition nts (r : AgdRecord) := (nt_5prime r, nt_3prime r).

Definition eq_but_5prime (r r' : AgdRecord) : Prop :=
  meta r = meta r' /\ three r = three r' /\ nts r = nts r'.
Definition eq_but_3prime (r r' : AgdRecord) : Prop :=
  meta r = meta r' /\ five r = five r' /\ nts r = nts r'.
Definition eq_but_nts (r r' : AgdRecord) : Prop :=
  meta r = meta r' /\ five r = five r' /\ three r = three r'.

Lemma char_at_ok (dna : string_view) (p : Z) :
  0 <= p < size dna -> char_at dna p = Ok (char_or_N dna p).
Proof.
  intros Hp. unfold char_at, char_or_N.
  destruct (Z.leb_spec 0 p); [|lia].
  destruct (Z.ltb_spec p (size dna)); [|lia]. simpl.
  destruct (lookup_lt_is_Some_2 dna (Z.to_nat p)) as [c Hc].
  { unfold size in *. lia. }
  now rewrite Hc.
Qed.

Lemma encode_codon_at_ok (dna : string_view) (p : Z) :
  0 <= p -> p + 3 <= size dna -> encode_codon_at dna p = Ok (codon_of dna p).
Proof.
  intros. unfold encode_codon_at.
  rewrite !char_at_ok by lia. reflexivity.
Qed.

Lemma revcomp_codon_at_ok (dna : string_view) (p : Z) :
  0 <= p -> p + 3 <= size dna ->
  revcomp_codon_at dna p = Ok (revcomp_codon_of dna p).
Proof.
  intros. unfold revcomp_codon_at.
  rewrite !char_at_ok by lia. reflexivity.
Qed.

Lemma encode_nucleotide_range (c : ascii) : -1 <= encode_nucleotide c <= 3.
Proof.
  unfold encode_nucleotide.
  repeat match goal with |- context [if ?b then _ else _] => destruct b end; lia.
Qed.

Lemma encode_codon_range (c0 c1 c2 : ascii) :
  0 <= encode_codon c0 c1 c2 <= 63 \/ encode_codon c0 c1 c2 = 255.
Proof.
  unfold encode_codon.
  pose proof (encode_nucleotide_range c0).
  pose proof (encode_nucleotide_range c1).
  pose proof (encode_nucleotide_range c2).
  destruct (_ || _)%bool eqn:E; [now right|left].
  apply orb_false_iff in E as [E E2]. apply orb_false_iff in E as [E0 E1].
  apply Z.ltb_ge in E0, E1, E2.
  assert (H0' : encode_nucleotide c0 = 0 \/ encode_nucleotide c0 = 1 \/
               encode_nucleotide c0 = 2 \/ encode_nucleotide c0 = 3) by lia.
  assert (H1' : encode_nucleotide c1 = 0 \/ encode_nucleotide c1 = 1 \/
               encode_nucleotide c1 = 2 \/ encode_nucleotide c1 = 3) by lia.
  assert (H2' : encode_nucleotide c2 = 0 \/ encode_nucleotide c2 = 1 \/
               encode_nucleotide c2 = 2 \/ encode_nucleotide c2 = 3) by lia.
  destruct H0' as [->|[->|[->| ->]]]; destruct H1' as [->|[->|[->| ->]]];
    destruct H2' as [->|[->|[->| ->]]]; vm_compute; split; discriminate.
Qed.

Lemma store_length (i v : Z) (a : list Z) : length (store i v a) = length a.
Proof. unfold store. apply length_insert. Qed.

Lemma store_lookup_eq (i v : Z) (a : list Z) :
  0 <= i < size a -> store i v a !! Z.to_nat i = Some v.
Proof.
  intros. unfold store. apply list_lookup_insert_eq. unfold size in *. lia.
Qed.

Lemma store_lookup_ne (i v : Z) (a : list Z) (j : nat) :
  0 <= i -> Z.of_nat j <> i -> store i v a !! j = a !! j.
Proof.
  intros. unfold store. apply list_lookup_insert_ne. lia.
Qed.

(** The forward 5' loop, from round [i] at position [pos]: it writes
    [k = min(rounds left, codons left)] entries. *)
Lemma fwd_5prime_loop_spec (dna : string_view) (fuel : nat) :
  size dna < 2 ^ 63 ->
  forall (i pos : Z) (rec : AgdRecord),
  0 <= i -> i + Z.of_nat fuel = 5 -> 0 <= pos <= size dna ->
  length (codons_5prime rec) = 5%nat ->
  exists rec',
    fwd_5prime_loop fuel dna i pos rec = Ok rec' /\
    eq_but_5prime rec rec' /\
    length (codons_5prime rec') = 5%nat /\
    let k := Z.min (Z.of_nat fuel) ((size dna - pos) / 3) in
    n_5prime rec' = (if k =? 0 then n_5prime rec else i + k) /\
    (forall j : nat, i <= Z.of_nat j < i + k ->
       codons_5prime rec' !! j = Some (codon_of dna (pos + 3 * (Z.of_nat j - i)))) /\
    (forall j : nat, Z.of_nat j < i \/ i + k <= Z.of_nat j ->
       codons_5prime rec' !! j = codons_5prime rec !! j).
Proof.
  intros Hlen. induction fuel as [|fuel IH]; intros i pos rec Hi Hfuel Hpos Hl.
  - exists rec. simpl. change (Z.of_nat 0) with 0.
    assert (Hk : Z.min 0 ((size dna - pos) / 3) = 0).
    { assert (0 <= (size dna - pos) / 3) by (apply Z.div_pos; lia). lia. }
    rewrite Hk. simpl. repeat split; auto. intros j Hj. lia.
  - cbn [fwd_5prime_loop].
    destruct (Z.ltb_spec i 5); [|lia].
    rewrite wrap64_small by lia. cbn [andb].
    destruct (Z.leb_spec (pos + 3) (size dna)) as [Hin|Hout].
    + rewrite encode_codon_at_ok by lia. cbn [res_bind].
      set (rec1 := set_codons_5prime _ _ rec).
      destruct (IH (i + 1) (pos + 3) rec1) as (rec' & Hrun & Heq & Hl' & Hn & Hw & Hk);
        try lia.
      { unfold rec1. simpl. now rewrite store_length. }
      exists rec'. split; [exact Hrun|]. split.
      { destruct Heq as (? & ? & ?). unfold rec1 in *. repeat split; assumption. }
      split; [exact Hl'|].
      assert (Hdiv : (size dna - pos) / 3 = (size dna - (pos + 3)) / 3 + 1).
      { replace (size dna - pos) with (size dna - (pos + 3) + 1 * 3) by lia.
        now rewrite Z.div_add by lia. }
      assert (0 <= (size dna - (pos + 3)) / 3) by (apply Z.div_pos; lia).
      cbv zeta in Hn, Hw, Hk |- *.
      set (k' := Z.min (Z.of_nat fuel) ((size dna - (pos + 3)) / 3)) in *.
      assert (Hkk : Z.min (Z.of_nat (S fuel)) ((size dna - pos) / 3) = k' + 1)
        by (unfold k'; lia).
      rewrite Hkk.
      assert (0 <= k') by (unfold k'; lia).
      clearbody k'.
      destruct (Z.eqb_spec (k' + 1) 0); [lia|].
      split; [|split].
      * rewrite Hn. destruct (Z.eqb_spec k' 0) as [Hk0|Hk0].
        -- unfold rec1. simpl. rewrite wrap8_small; lia.
        -- lia.
      * intros j Hj. destruct (Z.eq_dec (Z.of_nat j) i) as [Heqj|Hne].
        -- rewrite Hk by lia. unfold rec1. simpl.
           replace j with (Z.to_nat i) by lia.
           rewrite store_lookup_eq by (unfold size; lia).
           f_equal. f_equal. lia.
        -- rewrite Hw by lia. f_equal. f_equal. lia.
      * intros j Hj. rewrite Hk by lia. unfold rec1. simpl.
        apply store_lookup_ne; lia.
    + exists rec.
      assert (Hz : (size dna - pos) / 3 = 0) by (apply Z.div_small; lia).
      rewrite Hz. replace (Z.min (Z.of_nat (S fuel)) 0) with 0 by lia.
      simpl. repeat split; auto. intros j Hj. lia.
Qed.

(** The reverse 3' loop walks like the forward 5' loop. *)
Lemma rev_3prime_loop_spec (dna : string_view) (fuel : nat) :
  size dna < 2 ^ 63 ->
  forall (i pos : Z) (rec : AgdRecord),
  0 <= i -> i + Z.of_nat fuel = 5 -> 0 <= pos <= size dna ->
  length (codons_3prime rec) = 5%nat ->
  exists rec',
    rev_3prime_loop fuel dna i pos rec = Ok rec' /\
    eq_but_3prime rec rec' /\
    length (codons_3prime rec') = 5%nat /\
    let k := Z.min (Z.of_nat fuel) ((size dna - pos) / 3) in
    n_3prime rec' = (if k =? 0 then n_3prime rec else i + k) /\
    (forall j : nat, i <= Z.of_nat j < i + k ->
       codons_3prime rec' !! j
       = Some (revcomp_codon_of dna (pos + 3 * (Z.of_nat j - i)))) /\
    (forall j : nat, Z.of_nat j < i \/ i + k <= Z.of_nat j ->
       codons_3prime rec' !! j = codons_3prime rec !! j).
Proof.
  intros Hlen. induction fuel as [|fuel IH]; intros i pos rec Hi Hfuel Hpos Hl.
  - exists rec. simpl. change (Z.of_nat 0) with 0.
    assert (Hk : Z.min 0 ((size dna - pos) / 3) = 0).
    { assert (0 <= (size dna - pos) / 3) by (apply Z.div_pos; lia). lia. }
    rewrite Hk. simpl. repeat split; auto. intros j Hj. lia.
  - cbn [rev_3prime_loop].
    destruct (Z.ltb_spec i 5); [|lia].
    rewrite wrap64_small by lia. cbn [andb].
    destruct (Z.leb_spec (pos + 3) (size dna)) as [Hin|Hout].
    + rewrite revcomp_codon_at_ok by lia. cbn [res_bind].
      set (rec1 := set_codons_3prime _ _ rec).
      destruct (IH (i + 1) (pos + 3) rec1) as (rec' & Hrun & Heq & Hl' & Hn & Hw & Hk);
        try lia.
      { unfold rec1. simpl. now rewrite store_length. }
      exists rec'. split; [exact Hrun|]. split.
      { destruct Heq as (? & ? & ?). unfold rec1 in *. repeat split; assumption. }
      split; [exact Hl'|].
      assert (Hdiv : (size dna - pos) / 3 = (size dna - (pos + 3)) / 3 + 1).
      { replace (size dna - pos) with (size dna - (pos + 3) + 1 * 3) by lia.
        now rewrite Z.div_add by lia. }
      assert (0 <= (size dna - (pos + 3)) / 3) by (apply Z.div_pos; lia).
      cbv zeta in Hn, Hw, Hk |- *.
      set (k' := Z.min (Z.of_nat fuel) ((size dna - (pos + 3)) / 3)) in *.
      assert (Hkk : Z.min (Z.of_nat (S fuel)) ((size dna - pos) / 3) = k' + 1)
        by (unfold k'; lia).
      rewrite Hkk.
      assert (0 <= k') by (unfold k'; lia).
      clearbody k'.
      destruct (Z.eqb_spec (k' + 1) 0); [lia|].
      split; [|split].
      * rewrite Hn. destruct (Z.eqb_spec k' 0) as [Hk0|Hk0].
        -- unfold rec1. simpl. rewrite wrap8_small; lia.
        -- lia.
      * intros j Hj. destruct (Z.eq_dec (Z.of_nat j) i) as [Heqj|Hne].
        -- rewrite Hk by lia. unfold rec1. simpl.
           replace j with (Z.to_nat i) by lia.
           rewrite store_lookup_eq by (unfold size; lia).
           f_equal. f_equal. lia.
        -- rewrite Hw by lia. f_equal. f_equal. lia.
      * intros j Hj. rewrite Hk by lia. unfold rec1. simpl.
        apply store_lookup_ne; lia.
    + exists rec.
      assert (Hz : (size dna - pos) / 3 = 0) by (apply Z.div_small; lia).
      rewrite Hz. replace (Z.min (Z.of_nat (S fuel)) 0) with 0 by lia.
      simpl. repeat split; auto. intros j Hj. lia.
Qed.

(** The number of codons a backward walk from [pos] finds before it would
    step below [low]. *)
Definition codons_down (low pos : Z) : Z := Z.max 0 ((pos - low + 3) / 3).

Lemma codons_down_step (low pos : Z) :
  low <= pos -> codons_down low pos = codons_down low (pos - 3) + 1.
Proof.
  intros. unfold codons_down.
  replace (pos - low + 3) with (pos - 3 - low + 3 + 1 * 3) by lia.
  rewrite Z.div_add by lia.
  assert (0 <= (pos - 3 - low + 3) / 3) by (apply Z.div_pos; lia). lia.
Qed.

Lemma codons_down_last (low pos : Z) :
  0 <= low <= pos -> pos < 3 -> codons_down low pos = 1.
Proof.
  intros. unfold codons_down.
  replace (pos - low + 3) with (pos - low + 1 * 3) by lia.
  rewrite Z.div_add, Z.div_small by lia. reflexivity.
Qed.

Lemma codons_down_none (low pos : Z) : pos < low -> codons_down low pos = 0.
Proof.
  intros. unfold codons_down.
  assert ((pos - low + 3) / 3 <= 0); [|lia].
  apply Z.lt_succ_r. apply Z.div_lt_upper_bound; lia.
Qed.

Lemma codons_down_nonneg (low pos : Z) : 0 <= codons_down low pos.
Proof. unfold codons_down. lia. Qed.

(** The forward 3' loop walks backward from [pos] and never below [frame]. *)
Lemma fwd_3prime_loop_spec (dna : string_view) (fuel : nat) :
  size dna < 2 ^ 63 ->
  forall (frame i pos : Z) (rec : AgdRecord),
  0 <= i -> i + Z.of_nat fuel = 5 -> 0 <= frame -> 0 <= pos ->
  pos + 3 <= size dna ->
  length (codons_3prime rec) = 5%nat ->
  exists rec',
    fwd_3prime_loop fuel dna frame i pos rec = Ok rec' /\
    eq_but_3prime rec rec' /\
    length (codons_3prime rec') = 5%nat /\
    let k := Z.min (Z.of_nat fuel) (codons_down frame pos) in
    n_3prime rec' = (if k =? 0 then n_3prime rec else i + k) /\
    (forall j : nat, i <= Z.of_nat j < i + k ->
       codons_3prime rec' !! j = Some (codon_of dna (pos - 3 * (Z.of_nat j - i)))) /\
    (forall j : nat, Z.of_nat j < i \/ i + k <= Z.of_nat j ->
       codons_3prime rec' !! j = codons_3prime rec !! j).
Proof.
  intros Hlen. induction fuel as [|fuel IH];
    intros frame i pos rec Hi Hfuel Hframe Hpos Hin Hl.
  - exists rec. simpl. change (Z.of_nat 0) with 0.
    pose proof (codons_down_nonneg frame pos).
    replace (Z.min 0 (codons_down frame pos)) with 0 by lia.
    simpl. repeat split; auto. intros j Hj. lia.
  - cbn [fwd_3prime_loop].
    destruct (Z.ltb_spec i 5); [|lia]. cbn [andb].
    destruct (Z.leb_spec frame pos) as [Hge|Hlt].
    + rewrite encode_codon_at_ok by lia. cbn [res_bind]. cbv zeta.
      set (rec1 := set_codons_3prime _ _ rec).
      assert (Hl1 : length (codons_3prime rec1) = 5%nat).
      { unfold rec1. simpl. now rewrite store_length. }
      assert (Heq1 : eq_but_3prime rec rec1) by (unfold rec1; repeat split).
      assert (Hn1 : n_3prime rec1 = i + 1).
      { unfold rec1. simpl. apply wrap8_small. lia. }
      assert (Hat : codons_3prime rec1 !! Z.to_nat i = Some (codon_of dna pos)).
      { unfold rec1. simpl. apply store_lookup_eq. unfold size. lia. }
      assert (Hother : forall j : nat, Z.of_nat j <> i ->
                codons_3prime rec1 !! j = codons_3prime rec !! j).
      { intros j Hj. unfold rec1. simpl. apply store_lookup_ne; lia. }
      clearbody rec1.
      destruct (Z.ltb_spec pos 3) as [Hbreak|Hgo].
      * exists rec1. rewrite codons_down_last by lia.
        replace (Z.min (Z.of_nat (S fuel)) 1) with 1 by lia. simpl.
        repeat split; try apply Heq1; auto.
        -- intros j Hj. replace j with (Z.to_nat i) by lia. rewrite Hat.
           f_equal. f_equal. lia.
        -- intros j Hj. apply Hother. lia.
      * rewrite wrap64_small by lia.
        destruct (IH frame (i + 1) (pos - 3) rec1)
          as (rec' & Hrun & Heq & Hl' & Hn & Hw & Hk); try lia.
        exists rec'. split; [exact Hrun|]. split.
        { destruct Heq as (? & ? & ?), Heq1 as (? & ? & ?).
          repeat split; congruence. }
        split; [exact Hl'|].
        cbv zeta in Hn, Hw, Hk |- *.
        rewrite (codons_down_step frame pos) by lia.
        pose proof (codons_down_nonneg frame (pos - 3)).
        set (k' := Z.min (Z.of_nat fuel) (codons_down frame (pos - 3))) in *.
        replace (Z.min (Z.of_nat (S fuel)) (codons_down frame (pos - 3) + 1))
          with (k' + 1) by (unfold k'; lia).
        assert (0 <= k') by (unfold k'; lia).
        clearbody k'.
        destruct (Z.eqb_spec (k' + 1) 0); [lia|].
        split; [|split].
        -- rewrite Hn. destruct (Z.eqb_spec k' 0); lia.
        -- intros j Hj. destruct (Z.eq_dec (Z.of_nat j) i) as [Heqj|Hne].
           ++ rewrite Hk by lia. replace j with (Z.to_nat i) by lia.
              rewrite Hat. f_equal. f_equal. lia.
           ++ rewrite Hw by lia. f_equal. f_equal. lia.
        -- intros j Hj. rewrite Hk by lia. apply Hother. lia.
    + exists rec. rewrite codons_down_none by lia.
      replace (Z.min (Z.of_nat (S fuel)) 0) with 0 by lia.
      simpl. repeat split; auto. intros j Hj. lia.
Qed.

(** The reverse 5' loop walks backward from [pos] down to position 0. *)
Lemma rev_5prime_loop_spec (dna : string_view) (fuel : nat) :
  size dna < 2 ^ 63 ->
  forall (i pos : Z) (rec : AgdRecord),
  0 <= i -> i + Z.of_nat fuel = 5 -> 0 <= pos ->
  pos + 3 <= size dna ->
  length (codons_5prime rec) = 5%nat ->
  exists rec',
    rev_5prime_loop fuel dna i pos rec = Ok rec' /\
    eq_but_5prime rec rec' /\
    length (codons_5prime rec') = 5%nat /\
    let k := Z.min (Z.of_nat fuel) (codons_down 0 pos) in
    n_5prime rec' = (if k =? 0 then n_5prime rec else i + k) /\
    (forall j : nat, i <= Z.of_nat j < i + k ->
       codons_5prime rec' !! j
       = Some (revcomp_codon_of dna (pos - 3 * (Z.of_nat j - i)))) /\
    (forall j : nat, Z.of_nat j < i \/ i + k <= Z.of_nat j ->
       codons_5prime rec' !! j = codons_5prime rec !! j).
Proof.
  intros Hlen. induction fuel as [|fuel IH];
    intros i pos rec Hi Hfuel Hpos Hin Hl.
  - exists rec. simpl. change (Z.of_nat 0) with 0.
    pose proof (codons_down_nonneg 0 pos).
    replace (Z.min 0 (codons_down 0 pos)) with 0 by lia.
    simpl. repeat split; auto. intros j Hj. lia.
  - cbn [rev_5prime_loop].
    destruct (Z.ltb_spec i 5); [|lia]. cbn [andb].
    rewrite wrap64_small by lia.
    destruct (Z.leb_spec (pos + 3) (size dna)); [|lia].
    rewrite revcomp_codon_at_ok by lia. cbn [res_bind]. cbv zeta.
    set (rec1 := set_codons_5prime _ _ rec).
    assert (Hl1 : length (codons_5prime rec1) = 5%nat).
    { unfold rec1. simpl. now rewrite store_length. }
    assert (Heq1 : eq_but_5prime rec rec1) by (unfold rec1; repeat split).
    assert (Hn1 : n_5prime rec1 = i + 1).
    { unfold rec1. simpl. apply wrap8_small. lia. }
    assert (Hat : codons_5prime rec1 !! Z.to_nat i
                  = Some (revcomp_codon_of dna pos)).
    { unfold rec1. simpl. apply store_lookup_eq. unfold size. lia. }
    assert (Hother : forall j : nat, Z.of_nat j <> i ->
              codons_5prime rec1 !! j = codons_5prime rec !! j).
    { intros j Hj. unfold rec1. simpl. apply store_lookup_ne; lia. }
    clearbody rec1.
    destruct (Z.ltb_spec pos 3) as [Hbreak|Hgo].
    + exists rec1. rewrite codons_down_last by lia.
      replace (Z.min (Z.of_nat (S fuel)) 1) with 1 by lia. simpl.
      repeat split; try apply Heq1; auto.
      * intros j Hj. replace j with (Z.to_nat i) by lia. rewrite Hat.
        f_equal. f_equal. lia.
      * intros j Hj. apply Hother. lia.
    + rewrite wrap64_small by lia.
      destruct (IH (i + 1) (pos - 3) rec1)
        as (rec' & Hrun & Heq & Hl' & Hn & Hw & Hk); try lia.
      exists rec'. split; [exact Hrun|]. split.
      { destruct Heq as (? & ? & ?), Heq1 as (? & ? & ?).
        repeat split; congruence. }
      split; [exact Hl'|].
      cbv zeta in Hn, Hw, Hk |- *.
      rewrite (codons_down_step 0 pos) by lia.
      pose proof (codons_down_nonneg 0 (pos - 3)).
      set (k' := Z.min (Z.of_nat fuel) (codons_down 0 (pos - 3))) in *.
      replace (Z.min (Z.of_nat (S fuel)) (codons_down 0 (pos - 3) + 1))
        with (k' + 1) by (unfold k'; lia).
      assert (0 <= k') by (unfold k'; lia).
      clearbody k'.
      destruct (Z.eqb_spec (k' + 1) 0); [lia|].
      split; [|split].
      * rewrite Hn. destruct (Z.eqb_spec k' 0); lia.
      * intros j Hj. destruct (Z.eq_dec (Z.of_nat j) i) as [Heqj|Hne].
        -- rewrite Hk by lia. replace j with (Z.to_nat i) by lia.
           rewrite Hat. f_equal. f_equal. lia.
        -- rewrite Hw by lia. f_equal. f_equal. lia.
      * intros j Hj. rewrite Hk by lia. apply Hother. lia.
Qed.

(** The number of codons stored at each end: the complete codons from
    [frame] on, at most 5. *)
Definition codon_count (len frame : Z) : Z :=
  Z.max 0 (Z.min 5 ((len - frame) / 3)).

(** The coding length: the largest multiple of 3 that is at most
    [len - frame]. *)
Definition coding_length (len frame : Z) : Z := 3 * ((len - frame) / 3).

Lemma sentinel_lookup (j : nat) : (j < 5)%nat -> replicate 5 255 !! j = Some 255.
Proof. intros. now apply lookup_replicate_2. Qed.

Lemma extract_forward_spec (dna : string_view) (frame : Z) (rec : AgdRecord) :
  size dna < 2 ^ 63 -> 0 <= frame <= 2 ->
  exists rec',
    extract_terminal_codons dna frame false rec = Ok rec' /\
    meta rec' = meta rec /\ nts rec' = nts rec /\
    length (codons_5prime rec') = 5%nat /\
    length (codons_3prime rec') = 5%nat /\
    n_5prime rec' = codon_count (size dna) frame /\
    n_3prime rec' = codon_count (size dna) frame /\
    (forall j : nat, Z.of_nat j < codon_count (size dna) frame ->
       codons_5prime rec' !! j = Some (codon_of dna (frame + 3 * Z.of_nat j)) /\
       codons_3prime rec' !! j
       = Some (codon_of dna (frame + coding_length (size dna) frame - 3
                             - 3 * Z.of_nat j))) /\
    (forall j : nat, codon_count (size dna) frame <= Z.of_nat j < 5 ->
       codons_5prime rec' !! j = Some 255 /\
       codons_3prime rec' !! j = Some 255).
Proof.
  intros Hlen Hframe. pose proof (size_nonneg dna) as Hnn.
  unfold extract_terminal_codons. cbv zeta.
  set (rec0 := set_codons_3prime _ _ _).
  assert (H0m : meta rec0 = meta rec) by reflexivity.
  assert (H0n : nts rec0 = nts rec) by reflexivity.
  assert (H05 : codons_5prime rec0 = replicate 5 255) by reflexivity.
  assert (H03 : codons_3prime rec0 = replicate 5 255) by reflexivity.
  assert (H0a : n_5prime rec0 = 0) by reflexivity.
  assert (H0b : n_3prime rec0 = 0) by reflexivity.
  clearbody rec0. unfold codon_count, coding_length.
  destruct (Z.ltb_spec (size dna) 3) as [Hshort|Hlong].
  - exists rec0.
    assert (Hd : (size dna - frame) / 3 <= 0).
    { apply Z.lt_succ_r. apply Z.div_lt_upper_bound; lia. }
    replace (Z.max 0 (Z.min 5 ((size dna - frame) / 3))) with 0 by lia.
    rewrite H05, H03. repeat split; auto; try lia;
      apply sentinel_lookup; lia.
  - cbn [negb].
    rewrite (wrap64_small frame) by lia.
    rewrite (wrap64_small (size dna - frame)) by lia.
    assert (Hq : 0 <= (size dna - frame) / 3) by (apply Z.div_pos; lia).
    assert (Hq' : (size dna - frame) / 3 * 3 <= size dna - frame).
    { rewrite Z.mul_comm. apply Z.mul_div_le. lia. }
    rewrite (wrap64_small ((size dna - frame) / 3 * 3)) by lia.
    destruct (fwd_5prime_loop_spec dna 5 Hlen 0 frame rec0)
      as (rec1 & Hrun1 & Heq1 & Hl1 & Hn1 & Hw1 & Hk1); try lia.
    { now rewrite H05. }
    rewrite Hrun1. cbn [res_bind].
    cbv zeta in Hn1, Hw1, Hk1. change (Z.of_nat 5) with 5 in *.
    set (q := (size dna - frame) / 3) in *.
    replace (Z.max 0 (Z.min 5 q)) with (Z.min 5 q) by lia.
    destruct Heq1 as (Hm1 & Ht1 & Hs1).
    assert (Hl13 : length (codons_3prime rec1) = 5%nat).
    { injection Ht1 as _ <-. now rewrite H03. }
    destruct (Z.leb_spec 3 (q * 3)) as [Hsome|Hnone].
    + rewrite (wrap64_small (frame + q * 3 - 3)) by lia.
      destruct (fwd_3prime_loop_spec dna 5 Hlen frame 0 (frame + q * 3 - 3) rec1)
        as (rec2 & Hrun2 & Heq2 & Hl2 & Hn2 & Hw2 & Hk2); try lia.
      exists rec2. split; [exact Hrun2|].
      cbv zeta in Hn2, Hw2, Hk2. change (Z.of_nat 5) with 5 in *.
      assert (Hcd : codons_down frame (frame + q * 3 - 3) = q).
      { unfold codons_down.
        replace (frame + q * 3 - 3 - frame + 3) with (q * 3) by lia.
        rewrite Z.div_mul by lia. lia. }
      rewrite Hcd in *.
      destruct Heq2 as (Hm2 & Hf2 & Hs2).
      assert (E5 : codons_5prime rec2 = codons_5prime rec1)
        by (injection Hf2 as _ ->; reflexivity).
      assert (En5 : n_5prime rec2 = n_5prime rec1)
        by (injection Hf2 as -> _; reflexivity).
      destruct (Z.eqb_spec (Z.min 5 q) 0); [lia|].
      split; [congruence|]. split; [congruence|].
      split; [congruence|]. split; [exact Hl2|].
      split; [lia|]. split; [lia|]. split.
      * intros j Hj. split.
        -- rewrite E5, Hw1 by lia. f_equal. f_equal. lia.
        -- rewrite Hw2 by lia. f_equal. f_equal. lia.
      * intros j Hj. split.
        -- rewrite E5, Hk1, H05 by lia. apply sentinel_lookup. lia.
        -- rewrite Hk2 by lia. injection Ht1 as _ <-. rewrite H03.
           apply sentinel_lookup. lia.
    + exists rec1. split; [reflexivity|].
      assert (q = 0) by lia.
      replace (Z.min 5 q) with 0 in * by lia. simpl in Hn1.
      split; [congruence|]. split; [congruence|].
      split; [exact Hl1|]. split; [exact Hl13|].
      split; [congruence|]. split; [injection Ht1 as <- _; exact H0b|].
      split; [intros j Hj; lia|].
      intros j Hj. split.
      * rewrite Hk1, H05 by lia. apply sentinel_lookup. lia.
      * injection Ht1 as _ <-. rewrite H03. apply sentinel_lookup. lia.
Qed.

Lemma extract_reverse_spec (dna : string_view) (frame : Z) (rec : AgdRecord) :
  size dna < 2 ^ 63 -> 0 <= frame <= 2 ->
  exists rec',
    extract_terminal_codons dna frame true rec = Ok rec' /\
    meta rec' = meta rec /\ nts rec' = nts rec /\
    length (codons_5prime rec') = 5%nat /\
    length (codons_3prime rec') = 5%nat /\
    n_5prime rec' = codon_count (size dna) frame /\
    n_3prime rec' = codon_count (size dna) frame /\
    (forall j : nat, Z.of_nat j < codon_count (size dna) frame ->
       codons_5prime rec' !! j
       = Some (revcomp_codon_of dna (size dna - frame - 3 - 3 * Z.of_nat j)) /\
       codons_3prime rec' !! j
       = Some (revcomp_codon_of dna (frame + 3 * Z.of_nat j))) /\
    (forall j : nat, codon_count (size dna) frame <= Z.of_nat j < 5 ->
       codons_5prime rec' !! j = Some 255 /\
       codons_3prime rec' !! j = Some 255).
Proof.
  intros Hlen Hframe. pose proof (size_nonneg dna) as Hnn.
  unfold extract_terminal_codons. cbv zeta.
  set (rec0 := set_codons_3prime _ _ _).
  assert (H0m : meta rec0 = meta rec) by reflexivity.
  assert (H0n : nts rec0 = nts rec) by reflexivity.
  assert (H05 : codons_5prime rec0 = replicate 5 255) by reflexivity.
  assert (H03 : codons_3prime rec0 = replicate 5 255) by reflexivity.
  assert (H0a : n_5prime rec0 = 0) by reflexivity.
  assert (H0b : n_3prime rec0 = 0) by reflexivity.
  clearbody rec0. unfold codon_count.
  destruct (Z.ltb_spec (size dna) 3) as [Hshort|Hlong].
  - exists rec0.
    assert (Hd : (size dna - frame) / 3 <= 0).
    { apply Z.lt_succ_r. apply Z.div_lt_upper_bound; lia. }
    replace (Z.max 0 (Z.min 5 ((size dna - frame) / 3))) with 0 by lia.
    rewrite H05, H03. repeat split; auto; try lia;
      apply sentinel_lookup; lia.
  - cbn [negb].
    rewrite (wrap64_small (size dna - frame)) by lia.
    assert (Hq : 0 <= (size dna - frame) / 3) by (apply Z.div_pos; lia).
    assert (Hq' : (size dna - frame) / 3 * 3 <= size dna - frame).
    { rewrite Z.mul_comm. apply Z.mul_div_le. lia. }
    rewrite (wrap64_small ((size dna - frame) / 3 * 3)) by lia.
    set (q := (size dna - frame) / 3) in *.
    replace (Z.max 0 (Z.min 5 q)) with (Z.min 5 q) by lia.
    destruct (Z.ltb_spec (q * 3) 3) as [Hnone|Hsome].
    + exists rec0. replace (Z.min 5 q) with 0 by lia.
      rewrite H05, H03. repeat split; auto; try lia;
        apply sentinel_lookup; lia.
    + rewrite (wrap64_small (size dna - frame - 3)) by lia.
      rewrite (wrap64_small frame) by lia.
      destruct (rev_5prime_loop_spec dna 5 Hlen 0 (size dna - frame - 3) rec0)
        as (rec1 & Hrun1 & Heq1 & Hl1 & Hn1 & Hw1 & Hk1); try lia.
      { now rewrite H05. }
      rewrite Hrun1. cbn [res_bind].
      destruct Heq1 as (Hm1 & Ht1 & Hs1).
      assert (Hl13 : length (codons_3prime rec1) = 5%nat).
      { injection Ht1 as _ <-. now rewrite H03. }
      destruct (rev_3prime_loop_spec dna 5 Hlen 0 frame rec1)
        as (rec2 & Hrun2 & Heq2 & Hl2 & Hn2 & Hw2 & Hk2); try lia.
      exists rec2. split; [exact Hrun2|].
      cbv zeta in Hn1, Hw1, Hk1, Hn2, Hw2, Hk2. change (Z.of_nat 5) with 5 in *.
      fold q in Hn2, Hw2, Hk2.
      assert (Hcd : codons_down 0 (size dna - frame - 3) = q).
      { unfold codons_down.
        replace (size dna - frame - 3 - 0 + 3) with (size dna - frame) by lia.
        fold q. lia. }
      rewrite Hcd in *.
      destruct Heq2 as (Hm2 & Hf2 & Hs2).
      assert (E5 : codons_5prime rec2 = codons_5prime rec1)
        by (injection Hf2 as _ ->; reflexivity).
      assert (En5 : n_5prime rec2 = n_5prime rec1)
        by (injection Hf2 as -> _; reflexivity).
      destruct (Z.eqb_spec (Z.min 5 q) 0); [lia|].
      split; [congruence|]. split; [congruence|].
      split; [congruence|]. split; [exact Hl2|].
      split; [lia|]. split; [lia|]. split.
      * intros j Hj. split.
        -- rewrite E5, Hw1 by lia. f_equal. f_equal. lia.
        -- rewrite Hw2 by lia. f_equal. f_equal. lia.
      * intros j Hj. split.
        -- rewrite E5, Hk1, H05 by lia. apply sentinel_lookup. lia.
        -- rewrite Hk2 by lia. injection Ht1 as _ <-. rewrite H03.
           apply sentinel_lookup. lia.
Qed.

(** ** Terminal nucleotides: defined, and the other fields are kept *)

Lemma pack_loop_spec (body : Z -> AgdRecord -> res AgdRecord) (len : Z) :
  (forall i rec, 0 <= i < 12 -> i < len ->
     exists rec', body i rec = Ok rec' /\ eq_but_nts rec rec') ->
  forall (fuel : nat) (i : Z) (rec : AgdRecord), 0 <= i ->
  exists rec', pack_loop fuel body len i rec = Ok rec' /\ eq_but_nts rec rec'.
Proof.
  intros Hbody. induction fuel as [|fuel IH]; intros i rec Hi.
  - exists rec. repeat split.
  - cbn [pack_loop].
    destruct (Z.ltb_spec i 12); cbn [andb]; [|exists rec; repeat split].
    destruct (Z.ltb_spec i len); [|exists rec; repeat split].
    destruct (Hbody i rec) as (rec1 & -> & H1); try lia. cbn [res_bind].
    destruct (IH (i + 1) rec1) as (rec2 & -> & H2); try lia.
    exists rec2. split; [reflexivity|].
    destruct H1 as (? & ? & ?), H2 as (? & ? & ?). repeat split; congruence.
Qed.

Lemma pack_terminal_nucleotides_spec (dna : string_view) (is_reverse : bool)
    (rec : AgdRecord) :
  size dna < 2 ^ 63 ->
  exists rec', pack_terminal_nucleotides dna is_reverse rec = Ok rec' /\
               eq_but_nts rec rec'.
Proof.
  intros Hlen. pose proof (size_nonneg dna) as Hnn.
  unfold pack_terminal_nucleotides. cbv zeta.
  set (rec0 := set_nt_3prime _ _).
  assert (H0 : eq_but_nts rec rec0) by (repeat split). clearbody rec0.
  assert (Hf5 : forall i r, 0 <= i < 12 -> i < size dna ->
            exists r', pack_fwd_5prime dna i r = Ok r' /\ eq_but_nts r r').
  { intros i r Hi Hl. unfold pack_fwd_5prime. rewrite char_at_ok by lia.
    eexists. split; [reflexivity|]. repeat split. }
  assert (Hf3 : forall i r, 0 <= i < 12 -> i < size dna ->
            exists r', pack_fwd_3prime dna i r = Ok r' /\ eq_but_nts r r').
  { intros i r Hi Hl. unfold pack_fwd_3prime. cbv zeta.
    destruct (Z.leb_spec (size dna) (wrap64 (size dna - 12 + i))) as [|Hin].
    - exists r. repeat split.
    - assert (0 <= size dna - 12 + i).
      { destruct (Z.le_gt_cases 0 (size dna - 12 + i)) as [|Hneg]; [assumption|].
        exfalso. unfold wrap64 in Hin.
        replace (size dna - 12 + i) with (size dna - 12 + i + 2 ^ 64 + (-1) * 2 ^ 64)
          in Hin by lia.
        rewrite Z.mod_add, Z.mod_small in Hin by lia. lia. }
      rewrite wrap64_small in * by lia. rewrite char_at_ok by lia.
      eexists. split; [reflexivity|]. repeat split. }
  assert (Hr5 : forall i r, 0 <= i < 12 -> i < size dna ->
            exists r', pack_rev_5prime dna i r = Ok r' /\ eq_but_nts r r').
  { intros i r Hi Hl. unfold pack_rev_5prime. cbv zeta.
    rewrite wrap64_small by lia. rewrite char_at_ok by lia.
    eexists. split; [reflexivity|]. repeat split. }
  assert (Hr3 : forall i r, 0 <= i < 12 -> i < size dna ->
            exists r', pack_rev_3prime dna i r = Ok r' /\ eq_but_nts r r').
  { intros i r Hi Hl. unfold pack_rev_3prime. cbv zeta.
    rewrite wrap64_small by lia.
    destruct (Z.leb_spec (size dna) (11 - i)).
    - exists r. repeat split.
    - rewrite char_at_ok by lia.
      eexists. split; [reflexivity|]. repeat split. }
  destruct is_reverse; cbn [negb].
  - destruct (pack_loop_spec _ _ Hr5 12 0 rec0) as (rec1 & -> & H1); [lia|].
    cbn [res_bind].
    destruct (pack_loop_spec _ _ Hr3 12 0 rec1) as (rec2 & -> & H2); [lia|].
    exists rec2. split; [reflexivity|].
    destruct H0 as (? & ? & ?), H1 as (? & ? & ?), H2 as (? & ? & ?).
    repeat split; congruence.
  - destruct (pack_loop_spec _ _ Hf5 12 0 rec0) as (rec1 & -> & H1); [lia|].
    cbn [res_bind].
    destruct (pack_loop_spec _ _ Hf3 12 0 rec1) as (rec2 & -> & H2); [lia|].
    exists rec2. split; [reflexivity|].
    destruct H0 as (? & ? & ?), H1 as (? & ? & ?), H2 as (? & ? & ?).
    repeat split; congruence.
Qed.

(** ** add_record *)

(** What the two ends of a stored record hold, for a sequence, a frame and
    a strand. *)
Definition codon_5prime_of (dna : string_view) (frame : Z) (is_reverse : bool)
    (j : Z) : Z :=
  if is_reverse then revcomp_codon_of dna (size dna - frame - 3 - 3 * j)
  else codon_of dna (frame + 3 * j).

Definition codon_3prime_of (dna : string_view) (frame : Z) (is_reverse : bool)
    (j : Z) : Z :=
  if is_reverse then revcomp_codon_of dna (frame + 3 * j)
  else codon_of dna (frame + coding_length (size dna) frame - 3 - 3 * j).

Lemma add_record_spec (w : DamageIndexWriter) (gene : Gene)
    (dna : string_view) (dq pq : Z) :
  finalized_ w = false ->
  size dna < 2 ^ 63 -> 0 <= frame gene <= 2 ->
  quantize_damage_pct (damage_score gene) = Ok dq ->
  quantize_probability (ancient_prob gene) = Ok pq ->
  exists rec,
    add_record w gene dna
    = Ok (mkWriter (path_ w) (header_ w) (records_ w ++ [rec]) false) /\
    meta rec = (fnv1a_hash (strip_agp_suffix (read_id gene)),
                Z.min (size dna) 65535,
                encode_frame_strand (frame gene) (negb (is_forward gene)),
                dq, pq, 0) /\
    length (codons_5prime rec) = 5%nat /\
    length (codons_3prime rec) = 5%nat /\
    n_5prime rec = codon_count (size dna) (frame gene) /\
    n_3prime rec = codon_count (size dna) (frame gene) /\
    (forall j : nat, Z.of_nat j < codon_count (size dna) (frame gene) ->
       codons_5prime rec !! j
       = Some (codon_5prime_of dna (frame gene) (negb (is_forward gene)) (Z.of_nat j)) /\
       codons_3prime rec !! j
       = Some (codon_3prime_of dna (frame gene) (negb (is_forward gene)) (Z.of_nat j))) /\
    (forall j : nat, codon_count (size dna) (frame gene) <= Z.of_nat j < 5 ->
       codons_5prime rec !! j = Some 255 /\
       codons_3prime rec !! j = Some 255).
Proof.
  intros Hfin Hlen Hframe Hdq Hpq. pose proof (size_nonneg dna) as Hnn.
  unfold add_record. rewrite Hfin, Hdq, Hpq. cbn [res_bind]. cbv zeta.
  rewrite wrap16_small by lia.
  set (rec0 := mkRecord _ _ _ _ _ _ _ _ _ _ _ _).
  assert (Hex : exists rec1,
    extract_terminal_codons dna (frame gene) (negb (is_forward gene)) rec0 = Ok rec1 /\
    meta rec1 = meta rec0 /\
    length (codons_5prime rec1) = 5%nat /\
    length (codons_3prime rec1) = 5%nat /\
    n_5prime rec1 = codon_count (size dna) (frame gene) /\
    n_3prime rec1 = codon_count (size dna) (frame gene) /\
    (forall j : nat, Z.of_nat j < codon_count (size dna) (frame gene) ->
       codons_5prime rec1 !! j
       = Some (codon_5prime_of dna (frame gene) (negb (is_forward gene)) (Z.of_nat j)) /\
       codons_3prime rec1 !! j
       = Some (codon_3prime_of dna (frame gene) (negb (is_forward gene)) (Z.of_nat j))) /\
    (forall j : nat, codon_count (size dna) (frame gene) <= Z.of_nat j < 5 ->
       codons_5prime rec1 !! j = Some 255 /\
       codons_3prime rec1 !! j = Some 255)).
  { unfold codon_5prime_of, codon_3prime_of.
    destruct (is_forward gene); cbn [negb].
    - destruct (extract_forward_spec dna (frame gene) rec0 Hlen Hframe)
        as (r & ? & ? & ? & ? & ? & ? & ? & ? & ?).
      exists r. repeat (split; [assumption|]). assumption.
    - destruct (extract_reverse_spec dna (frame gene) rec0 Hlen Hframe)
        as (r & ? & ? & ? & ? & ? & ? & ? & ? & ?).
      exists r. repeat (split; [assumption|]). assumption. }
  destruct Hex as (rec1 & -> & Hm1 & Hl5 & Hl3 & Hn5 & Hn3 & Hin & Hout).
  cbn [res_bind].
  destruct (pack_terminal_nucleotides_spec dna (negb (is_forward gene)) rec1 Hlen)
    as (rec2 & -> & Hm2 & Hf2 & Ht2).
  cbn [res_bind]. exists rec2. split; [reflexivity|].
  assert (E5 : codons_5prime rec2 = codons_5prime rec1)
    by (injection Hf2 as _ ->; reflexivity).
  assert (En5 : n_5prime rec2 = n_5prime rec1)
    by (injection Hf2 as -> _; reflexivity).
  assert (E3 : codons_3prime rec2 = codons_3prime rec1)
    by (injection Ht2 as _ ->; reflexivity).
  assert (En3 : n_3prime rec2 = n_3prime rec1)
    by (injection Ht2 as -> _; reflexivity).
  rewrite E5, E3, En5, En3. split; [|auto 10].
  rewrite <- Hm2, Hm1. reflexivity.
Qed.

(** ** Rounding: what [binary_round_aux] computes *)

(** [SpecFloat] is written with the core library's integer operations;
    this turns them into the standard library's, which [lia] knows. *)
Ltac zops :=
  change IntDef.Z.max with Z.max in *;
  change IntDef.Z.min with Z.min in *;
  change IntDef.Z.add with Z.add in *;
  change IntDef.Z.sub with Z.sub in *;
  change IntDef.Z.mul with Z.mul in *;
  change IntDef.Z.opp with Z.opp in *;
  change IntDef.Z.leb with Z.leb in *;
  change IntDef.Z.eqb with Z.eqb in *;
  change IntDef.Z.even with Z.even in *;
  change IntDef.Z.compare with Z.compare in *;
  change PosDef.Pos.mul with Pos.mul in *;
  change PosDef.Pos.succ with Pos.succ in *;
  change @PosDef.Pos.iter with @Pos.iter in *.

Lemma fexp_eq (prec emax e : Z) :
  fexp prec emax e = Z.max (e - prec) (3 - emax - prec).
Proof. reflexivity. Qed.

Lemma emin_eq (prec emax : Z) : emin prec emax = 3 - emax - prec.
Proof. reflexivity. Qed.

(** Round to nearest, ties to even, of [m / 2^n]. *)
Definition rne (m n : Z) : Z :=
  let q := m / 2 ^ n in
  match 2 * (m mod 2 ^ n) ?= 2 ^ n with
  | Lt => q
  | Eq => if Z.even q then q else q + 1
  | Gt => q + 1
  end.

(** The location of a remainder [r] of a division by [2^n]. *)
Definition loc_of_rem (r n : Z) : location :=
  if r =? 0 then loc_Exact else loc_Inexact (2 * r ?= 2 ^ n).

Lemma digits2_pos_bounds (m : positive) :
  2 ^ (Z.pos (digits2_pos m) - 1) <= Z.pos m < 2 ^ Z.pos (digits2_pos m).
Proof.
  induction m as [m IH|m IH|]; cbn [digits2_pos].
  - rewrite Pos2Z.inj_succ.
    replace (Z.succ (Z.pos (digits2_pos m)) - 1) with (Z.pos (digits2_pos m) - 1 + 1) by lia.
    rewrite Z.pow_succ_r, Z.pow_add_r by lia. lia.
  - rewrite Pos2Z.inj_succ.
    replace (Z.succ (Z.pos (digits2_pos m)) - 1) with (Z.pos (digits2_pos m) - 1 + 1) by lia.
    rewrite Z.pow_succ_r, Z.pow_add_r by lia. lia.
  - simpl. lia.
Qed.

Lemma Zdigits2_bounds (m : Z) :
  0 < m -> 2 ^ (Zdigits2 m - 1) <= m < 2 ^ Zdigits2 m.
Proof.
  destruct m as [|p|p]; try lia. intros _. apply digits2_pos_bounds.
Qed.

Lemma Zdigits2_nonneg (m : Z) : 0 <= Zdigits2 m.
Proof. destruct m; simpl; lia. Qed.

Lemma Zdigits2_le (m k : Z) : 0 <= k -> 0 <= m < 2 ^ k -> Zdigits2 m <= k.
Proof.
  intros Hk Hm. destruct (Z.eq_dec m 0) as [->|]; [simpl; lia|].
  destruct (Zdigits2_bounds m) as [Hlo _]; [lia|].
  destruct (Z.le_gt_cases (Zdigits2 m) k) as [|Hgt]; [assumption|exfalso].
  assert (2 ^ k <= 2 ^ (Zdigits2 m - 1)) by (apply Z.pow_le_mono_r; lia).
  lia.
Qed.

Lemma Zdigits2_ge (m k : Z) : 2 ^ k <= m -> k < Zdigits2 m.
Proof.
  intros Hm.
  destruct (Z.lt_ge_cases k 0) as [|Hk]; [pose proof (Zdigits2_nonneg m); lia|].
  assert (0 < m) by (pose proof (Z.pow_pos_nonneg 2 k); lia).
  destruct (Zdigits2_bounds m) as [_ Hhi]; [lia|].
  destruct (Z.lt_ge_cases k (Zdigits2 m)) as [|Hge]; [assumption|exfalso].
  assert (2 ^ Zdigits2 m <= 2 ^ k) by (apply Z.pow_le_mono_r; lia).
  lia.
Qed.

Lemma iter_pos_nat {A} (f : A -> A) (p : positive) (x : A) :
  SpecFloat.iter_pos f p x = Nat.iter (Pos.to_nat p) f x.
Proof.
  revert x. induction p as [p IH|p IH|]; intros x; cbn [SpecFloat.iter_pos].
  - rewrite !IH, Pos2Nat.inj_xI.
    replace (S (2 * Pos.to_nat p)) with (Pos.to_nat p + (Pos.to_nat p + 1))%nat by lia.
    rewrite !Nat.iter_add. simpl. reflexivity.
  - rewrite !IH, Pos2Nat.inj_xO.
    replace (2 * Pos.to_nat p)%nat with (Pos.to_nat p + Pos.to_nat p)%nat by lia.
    now rewrite Nat.iter_add.
  - reflexivity.
Qed.

(** A shift record that stands for [m] shifted right by [n] bits. *)
Definition shifted (m n : Z) (mrs : shr_record) : Prop :=
  shr_m mrs = m / 2 ^ n /\
  loc_of_shr_record mrs = loc_of_rem (m mod 2 ^ n) n.

Lemma shifted_0 (m : Z) : shifted m 0 (Build_shr_record m false false).
Proof.
  split; simpl.
  - now rewrite Z.div_1_r.
  - now rewrite Z.mod_1_r.
Qed.

Lemma shr_1_nonneg (m : Z) (r s : bool) :
  0 <= m ->
  shr_1 (Build_shr_record m r s)
  = Build_shr_record (m / 2) (Z.odd m) (r || s).
Proof.
  intros Hm. destruct m as [|p|p]; [reflexivity| |lia].
  destruct p as [p|p|]; cbn [shr_1].
  - f_equal. rewrite Pos2Z.inj_xI.
    apply Z.div_unique with 1; lia.
  - f_equal. rewrite Pos2Z.inj_xO.
    apply Z.div_unique with 0; lia.
  - reflexivity.
Qed.

Lemma shifted_step (m n : Z) (mrs : shr_record) :
  0 <= m -> 0 <= n -> shifted m n mrs -> shifted m (n + 1) (shr_1 mrs).
Proof.
  intros Hm Hn [Hq Hl]. destruct mrs as [q r s]. cbn [shr_m] in Hq.
  assert (Hp : 0 < 2 ^ n) by (apply Z.pow_pos_nonneg; lia).
  assert (Hq0 : 0 <= q) by (subst q; apply Z.div_pos; lia).
  rewrite shr_1_nonneg by assumption.
  pose proof (Z.mod_pos_bound m (2 ^ n) Hp) as Hrem.
  pose proof (Z.div_mod m (2 ^ n) ltac:(lia)) as Hdm. rewrite <- Hq in Hdm.
  assert (Hpow : 2 ^ (n + 1) = 2 * 2 ^ n) by (rewrite Z.pow_add_r; lia).
  pose proof (Z.div_mod q 2 ltac:(lia)) as Hq2.
  pose proof (Z.mod_pos_bound q 2 ltac:(lia)) as Hq2b.
  assert (Hdiv : m / 2 ^ (n + 1) = q / 2).
  { symmetry. rewrite Hpow.
    apply Z.div_unique with (m mod 2 ^ n + (q mod 2) * 2 ^ n); nia. }
  assert (Hmod : m mod 2 ^ (n + 1) = m mod 2 ^ n + (q mod 2) * 2 ^ n).
  { symmetry. rewrite Hpow.
    apply Z.mod_unique with (q / 2); nia. }
  split; cbn [shr_m]; [now rewrite Hdiv|].
  unfold loc_of_rem at 1. rewrite Hmod, Hpow.
  assert (Hrs : (r || s)%bool = negb (m mod 2 ^ n =? 0)).
  { unfold loc_of_rem in Hl.
    destruct (Z.eqb_spec (m mod 2 ^ n) 0); destruct r, s; simpl in *;
      try reflexivity; try discriminate. }
  rewrite Hrs. clear Hq2 Hq2b Hdiv Hmod.
  rewrite (Zmod_odd q). destruct (Z.odd q).
  2:{ simpl Z.eqb. cbn [negb]. rewrite Z.mul_0_l, Z.add_0_r.
    destruct (Z.eqb_spec (m mod 2 ^ n) 0) as [E|E]; simpl; [reflexivity|].
    replace (2 * (m mod 2 ^ n) ?= 2 * 2 ^ n) with Lt; [reflexivity|].
    symmetry. apply Z.compare_lt_iff. lia. }
  - simpl Z.eqb. rewrite Z.mul_1_l.
    destruct (Z.eqb_spec (m mod 2 ^ n + 2 ^ n) 0) as [E|E]; [lia|].
    destruct (Z.eqb_spec (m mod 2 ^ n) 0) as [E0|E0]; simpl.
    + rewrite E0. simpl. rewrite Z.compare_refl. reflexivity.
    + replace (2 * (m mod 2 ^ n + 2 ^ n) ?= 2 * 2 ^ n) with Gt; [reflexivity|].
      symmetry. apply Z.compare_gt_iff. lia.
Qed.

Lemma shifted_iter (m : Z) (n : nat) :
  0 <= m ->
  shifted m (Z.of_nat n) (Nat.iter n shr_1 (Build_shr_record m false false)).
Proof.
  intros Hm. induction n as [|n IH].
  - apply shifted_0.
  - rewrite Nat2Z.inj_succ. cbn [Nat.iter]. unfold Z.succ.
    apply shifted_step; [assumption|lia|assumption].
Qed.

Lemma round_nearest_even_rne (m n : Z) :
  0 <= n ->
  round_nearest_even (m / 2 ^ n) (loc_of_rem (m mod 2 ^ n) n) = rne m n.
Proof.
  intros Hn. unfold rne, loc_of_rem. cbv zeta.
  assert (Hp : 0 < 2 ^ n) by (apply Z.pow_pos_nonneg; lia).
  destruct (Z.eqb_spec (m mod 2 ^ n) 0) as [E|E].
  - rewrite E. cbn [round_nearest_even]. change (2 * 0) with 0.
    destruct (Z.compare_spec 0 (2 ^ n)); [lia|reflexivity|lia].
  - simpl. destruct (2 * (m mod 2 ^ n) ?= 2 ^ n); reflexivity.
Qed.

Lemma rne_0 (m : Z) : rne m 0 = m.
Proof.
  unfold rne. cbv zeta. change (2 ^ 0) with 1.
  rewrite Z.mod_1_r, Z.div_1_r. reflexivity.
Qed.

Lemma rne_bounds (m n : Z) : 0 <= n -> m / 2 ^ n <= rne m n <= m / 2 ^ n + 1.
Proof.
  intros Hn. unfold rne. cbv zeta.
  destruct (_ ?= _); [destruct (Z.even _)| |]; lia.
Qed.

Lemma rne_exact (m n : Z) : 0 <= n -> m mod 2 ^ n = 0 -> rne m n = m / 2 ^ n.
Proof.
  intros Hn E. unfold rne. cbv zeta. rewrite E. change (2 * 0) with 0.
  assert (0 < 2 ^ n) by (apply Z.pow_pos_nonneg; lia).
  destruct (Z.compare_spec 0 (2 ^ n)); [lia|reflexivity|lia].
Qed.

Lemma rne_close (m n : Z) :
  0 <= n -> 2 * Z.abs (rne m n * 2 ^ n - m) <= 2 ^ n.
Proof.
  intros Hn. unfold rne. cbv zeta.
  assert (Hp : 0 < 2 ^ n) by (apply Z.pow_pos_nonneg; lia).
  pose proof (Z.div_mod m (2 ^ n) ltac:(lia)) as Hdm.
  pose proof (Z.mod_pos_bound m (2 ^ n) Hp) as Hrem.
  destruct (Z.compare_spec (2 * (m mod 2 ^ n)) (2 ^ n));
    [destruct (Z.even _)| |]; nia.
Qed.

Lemma rne_ge (t m n : Z) : 0 <= n -> t * 2 ^ n <= m -> t <= rne m n.
Proof.
  intros Hn Ht.
  assert (Hp : 0 < 2 ^ n) by (apply Z.pow_pos_nonneg; lia).
  pose proof (rne_bounds m n Hn).
  assert (t <= m / 2 ^ n) by (apply Z.div_le_lower_bound; lia). lia.
Qed.

Lemma rne_le (t m n : Z) : 0 <= n -> m <= t * 2 ^ n -> rne m n <= t.
Proof.
  intros Hn Ht.
  assert (Hp : 0 < 2 ^ n) by (apply Z.pow_pos_nonneg; lia).
  pose proof (rne_bounds m n Hn).
  pose proof (Z.div_mod m (2 ^ n) ltac:(lia)) as Hdm.
  pose proof (Z.mod_pos_bound m (2 ^ n) Hp) as Hrem.
  destruct (Z.eq_dec (m mod 2 ^ n) 0) as [E|E].
  - rewrite rne_exact by assumption. nia.
  - assert (m / 2 ^ n < t) by nia. lia.
Qed.

Lemma rne_nonneg (m n : Z) : 0 <= n -> 0 <= m -> 0 <= rne m n.
Proof.
  intros Hn Hm. apply rne_ge; [assumption|lia].
Qed.

Section Rounding.

Variables prec emax : Z.
Hypothesis Hprec : 0 < prec.

(** The number of low bits the rounding of [m * 2^e] drops, and the
    exponent of the result's last place. *)
Definition round_shift (m e : Z) : Z :=
  Z.max 0 (fexp prec emax (Zdigits2 m + e) - e).

Lemma digits2_eq (m : positive) : Z.pos (digits2_pos m) = Zdigits2 (Z.pos m).
Proof. reflexivity. Qed.

Lemma round_shift_nonneg (m e : Z) : 0 <= round_shift m e.
Proof. unfold round_shift. lia. Qed.

Lemma round_shift_exp (m e : Z) :
  e + round_shift m e
  = Z.max e (Z.max (Zdigits2 m + e - prec) (emin prec emax)).
Proof. unfold round_shift. rewrite fexp_eq, emin_eq. lia. Qed.

Lemma shr_fexp_spec (m e : Z) :
  0 <= m ->
  exists mrs,
    shr_fexp prec emax m e loc_Exact = (mrs, e + round_shift m e) /\
    shifted m (round_shift m e) mrs.
Proof.
  intros Hm. unfold shr_fexp, shr, round_shift. cbn [shr_record_of_loc].
  destruct (fexp prec emax (Zdigits2 m + e) - e) as [|p|p] eqn:E.
  - eexists. split; [rewrite Z.add_0_r; reflexivity|]. apply shifted_0.
  - eexists. split; [reflexivity|].
    rewrite iter_pos_nat. replace (Z.max 0 (Z.pos p)) with (Z.of_nat (Pos.to_nat p))
      by (rewrite positive_nat_Z; lia).
    now apply shifted_iter.
  - eexists. split; [rewrite Z.add_0_r; reflexivity|]. apply shifted_0.
Qed.

Lemma shr_fexp_exact (q e : Z) :
  0 <= q < 2 ^ prec -> emin prec emax <= e ->
  shr_fexp prec emax q e loc_Exact = (Build_shr_record q false false, e).
Proof.
  intros Hq He. unfold shr_fexp, shr. cbn [shr_record_of_loc].
  assert (Hd : Zdigits2 q <= prec) by (apply Zdigits2_le; lia).
  assert (Hf : fexp prec emax (Zdigits2 q + e) - e <= 0)
    by (rewrite fexp_eq; rewrite emin_eq in He; lia).
  destruct (fexp prec emax (Zdigits2 q + e) - e); try reflexivity; lia.
Qed.

Lemma shr_fexp_carry (e : Z) :
  emin prec emax <= e ->
  shr_fexp prec emax (2 ^ prec) e loc_Exact
  = (Build_shr_record (2 ^ (prec - 1)) false false, e + 1).
Proof.
  intros He. unfold shr_fexp, shr. cbn [shr_record_of_loc].
  assert (Hd : Zdigits2 (2 ^ prec) = prec + 1).
  { assert (0 < 2 ^ prec) by (apply Z.pow_pos_nonneg; lia).
    pose proof (Zdigits2_bounds (2 ^ prec) ltac:(lia)) as [Hlo Hhi].
    pose proof (Zdigits2_ge (2 ^ prec) prec ltac:(lia)).
    assert (Zdigits2 (2 ^ prec) <= prec + 1); [|lia].
    apply Zdigits2_le; [lia|]. rewrite Z.pow_add_r by lia. lia. }
  rewrite Hd.
  replace (fexp prec emax (prec + 1 + e) - e) with 1
    by (rewrite fexp_eq; rewrite emin_eq in He; lia).
  cbn [SpecFloat.iter_pos]. rewrite shr_1_nonneg by (apply Z.pow_nonneg; lia).
  f_equal. f_equal.
  - replace prec with (prec - 1 + 1) at 1 by lia.
    rewrite Z.pow_add_r by lia. change (2 ^ 1) with 2.
    now rewrite Z.div_mul by lia.
  - replace prec with (prec - 1 + 1) by lia.
    rewrite Z.pow_add_r by lia. change (2 ^ 1) with 2.
    rewrite Z.mul_comm. rewrite Z.odd_mul. reflexivity.
Qed.

(** The mantissa and exponent [binary_round_aux] ends with. *)
Definition rounded (s : bool) (q e : Z) : spec_float :=
  if q =? 2 ^ prec then S754_finite s (Z.to_pos (2 ^ (prec - 1))) (e + 1)
  else
    match q with
    | Z.pos q' => S754_finite s q' e
    | _ => S754_zero s
    end.

Lemma binary_round_aux_spec (s : bool) (m : positive) (e : Z) :
  let n := round_shift (Z.pos m) e in
  e + n + 1 <= emax - prec ->
  binary_round_aux prec emax s (Z.pos m) e loc_Exact
  = rounded s (rne (Z.pos m) n) (e + n).
Proof.
  intros n Hov. unfold binary_round_aux. zops.
  destruct (shr_fexp_spec (Z.pos m) e) as (mrs & -> & [Hq Hl]); [lia|].
  fold n. rewrite Hq, Hl, round_nearest_even_rne by apply round_shift_nonneg.
  fold n.
  pose proof (round_shift_nonneg (Z.pos m) e) as Hn. fold n in Hn.
  pose proof (rne_nonneg (Z.pos m) n Hn ltac:(lia)) as Hq0.
  assert (Hp : 0 < 2 ^ prec) by (apply Z.pow_pos_nonneg; lia).
  (* the rounded mantissa has at most [prec] bits, or is [2^prec] *)
  assert (Hcases : (n = 0 /\ rne (Z.pos m) n = Z.pos m /\ Z.pos m < 2 ^ prec /\
                    fexp prec emax (Zdigits2 (Z.pos m) + e) <= e) \/
                   (0 < n /\ emin prec emax <= e + n /\ rne (Z.pos m) n <= 2 ^ prec)).
  { pose proof (round_shift_exp (Z.pos m) e) as He. fold n in He.
    destruct (Z.eq_dec n 0) as [E0|E0].
    - left. rewrite E0, rne_0. repeat split; try lia.
      + assert (Zdigits2 (Z.pos m) <= prec) by lia.
        pose proof (Zdigits2_bounds (Z.pos m) ltac:(lia)) as [_ Hhi].
        assert (2 ^ Zdigits2 (Z.pos m) <= 2 ^ prec)
          by (apply Z.pow_le_mono_r; lia).
        lia.
      + unfold n, round_shift in E0. lia.
    - right. split; [lia|]. split; [lia|].
      pose proof (rne_bounds (Z.pos m) n Hn).
      assert (Z.pos m / 2 ^ n < 2 ^ prec); [|lia].
      apply Z.div_lt_upper_bound; [apply Z.pow_pos_nonneg; lia|].
      rewrite <- Z.pow_add_r by lia.
      pose proof (Zdigits2_bounds (Z.pos m) ltac:(lia)) as [_ Hhi].
      assert (2 ^ Zdigits2 (Z.pos m) <= 2 ^ (n + prec))
        by (apply Z.pow_le_mono_r; lia).
      lia. }
  unfold rounded.
  destruct Hcases as [(E0 & Eq & Hlt & Hf)|(Hpos & Hmin & Hle)].
  - rewrite Eq, E0, Z.add_0_r.
    destruct (Z.eqb_spec (Z.pos m) (2 ^ prec)); [lia|].
    assert (Hs : shr_fexp prec emax (Z.pos m) e loc_Exact
                 = (Build_shr_record (Z.pos m) false false, e)).
    { unfold shr_fexp, shr. cbn [shr_record_of_loc].
      destruct (fexp prec emax (Zdigits2 (Z.pos m) + e) - e) eqn:E;
        try reflexivity; lia. }
    rewrite Hs. cbn [shr_m].
    destruct (Z.leb_spec e (emax - prec)); [reflexivity|lia].
  - destruct (Z.eqb_spec (rne (Z.pos m) n) (2 ^ prec)) as [E|E].
    + rewrite E, shr_fexp_carry by assumption. cbn [shr_m].
      assert (Hpp : 0 < 2 ^ (prec - 1)) by (apply Z.pow_pos_nonneg; lia).
      destruct (2 ^ (prec - 1)) as [|pp|pp] eqn:Epp; try lia.
      destruct (Z.leb_spec (e + n + 1) (emax - prec)); [|lia].
      reflexivity.
    + rewrite shr_fexp_exact by lia. cbn [shr_m].
      destruct (rne (Z.pos m) n) as [|qq|qq]; try lia; [reflexivity|].
      destruct (Z.leb_spec (e + n) (emax - prec)); [reflexivity|lia].
Qed.

End Rounding.

(** ** Values *)

Local Open Scope Q_scope.

Definition pow2 (e : Z) : Q := 2 ^ e.

(** The rational [m * 2^e]. *)
Definition Qval (m e : Z) : Q := inject_Z m * pow2 e.

Lemma Qabs_inject_Z (z : Z) : Qabs (inject_Z z) = inject_Z (Z.abs z).
Proof. reflexivity. Qed.

Lemma pow2_pos (e : Z) : 0 < pow2 e.
Proof. apply Qpower_0_lt. reflexivity. Qed.

Lemma pow2_add (a b : Z) : pow2 (a + b) == pow2 a * pow2 b.
Proof. apply Qpower_plus. discriminate. Qed.

Lemma pow2_inj (n : Z) : (0 <= n)%Z -> inject_Z (2 ^ n) == pow2 n.
Proof. intros. now apply Zpower_Qpower. Qed.

Lemma pow2_le (a b : Z) : (a <= b)%Z -> pow2 a <= pow2 b.
Proof.
  intros H. replace b with (a + (b - a))%Z by lia. rewrite pow2_add.
  rewrite <- (Qmult_1_r (pow2 a)) at 1.
  apply Qmult_le_l; [apply pow2_pos|].
  rewrite <- pow2_inj by lia. change 1 with (inject_Z 1).
  rewrite <- Zle_Qle. assert (0 < 2 ^ (b - a))%Z by (apply Z.pow_pos_nonneg; lia).
  lia.
Qed.

Lemma pow2_lt (a b : Z) : (a < b)%Z -> pow2 a < pow2 b.
Proof.
  intros H. replace b with (a + (b - a))%Z by lia. rewrite pow2_add.
  rewrite <- (Qmult_1_r (pow2 a)) at 1.
  apply Qmult_lt_l; [apply pow2_pos|].
  rewrite <- pow2_inj by lia. change 1 with (inject_Z 1).
  rewrite <- Zlt_Qlt.
  assert (2 ^ 1 <= 2 ^ (b - a))%Z by (apply Z.pow_le_mono_r; lia).
  lia.
Qed.

Lemma Qval_shift (t w e : Z) :
  (e <= w)%Z -> Qval t w == Qval (t * 2 ^ (w - e)) e.
Proof.
  intros H. unfold Qval. rewrite inject_Z_mult, pow2_inj by lia.
  replace w with ((w - e) + e)%Z at 1 by lia. rewrite pow2_add. ring.
Qed.

Lemma Qval_le (a b e : Z) : Qval a e <= Qval b e <-> (a <= b)%Z.
Proof.
  unfold Qval. rewrite Zle_Qle. split; intros H.
  - apply Qmult_le_r in H; [assumption|apply pow2_pos].
  - apply Qmult_le_r; [apply pow2_pos|assumption].
Qed.

Lemma Qval_lt (a b e : Z) : Qval a e < Qval b e <-> (a < b)%Z.
Proof.
  unfold Qval. rewrite Zlt_Qlt. split; intros H.
  - apply Qmult_lt_r in H; [assumption|apply pow2_pos].
  - apply Qmult_lt_r; [apply pow2_pos|assumption].
Qed.

Lemma Qval_digits (m e : Z) :
  (0 < m)%Z ->
  pow2 (Zdigits2 m + e - 1) <= Qval m e /\ Qval m e < pow2 (Zdigits2 m + e).
Proof.
  intros Hm. destruct (Zdigits2_bounds m Hm) as [Hlo Hhi].
  assert (Hd : (0 < Zdigits2 m)%Z).
  { destruct m; try lia. simpl. lia. }
  split.
  - replace (Zdigits2 m + e - 1)%Z with ((Zdigits2 m - 1) + e)%Z by lia.
    rewrite pow2_add, <- pow2_inj by lia.
    apply Qmult_le_r; [apply pow2_pos|]. now rewrite <- Zle_Qle.
  - rewrite pow2_add, <- pow2_inj by lia.
    apply Qmult_lt_r; [apply pow2_pos|]. now rewrite <- Zlt_Qlt.
Qed.

Lemma Qval_digits_upper (m e K : Z) :
  (0 < m)%Z -> Qval m e < pow2 K -> (Zdigits2 m + e <= K)%Z.
Proof.
  intros Hm H. destruct (Qval_digits m e Hm) as [Hlo _].
  destruct (Z.le_gt_cases (Zdigits2 m + e) K) as [|Hgt]; [assumption|exfalso].
  assert (pow2 K <= pow2 (Zdigits2 m + e - 1)) by (apply pow2_le; lia).
  apply (Qlt_irrefl (pow2 K)).
  eapply Qle_lt_trans; [eassumption|]. eapply Qle_lt_trans; eassumption.
Qed.

Lemma Qval_digits_lower (m e K : Z) :
  (0 < m)%Z -> pow2 K <= Qval m e -> (K < Zdigits2 m + e)%Z.
Proof.
  intros Hm H. destruct (Qval_digits m e Hm) as [_ Hhi].
  destruct (Z.lt_ge_cases K (Zdigits2 m + e)) as [|Hge]; [assumption|exfalso].
  assert (pow2 (Zdigits2 m + e) <= pow2 K) by (apply pow2_le; lia).
  apply (Qlt_irrefl (pow2 K)).
  eapply Qle_lt_trans; [eassumption|]. eapply Qlt_le_trans; eassumption.
Qed.

(** A float that is zero or positive, with its exponent at most [emax']. *)
Definition nonneg_float (emax' : Z) (f : spec_float) : Prop :=
  match f with
  | S754_zero false => True
  | S754_finite false _ e => (e <= emax')%Z
  | _ => False
  end.

Lemma nonneg_float_finite (emax' : Z) (f : spec_float) :
  nonneg_float emax' f -> SFfinite f = true.
Proof. destruct f as [[]|[]| |[] m e]; simpl; tauto. Qed.

Lemma nonneg_float_value (emax' : Z) (f : spec_float) :
  nonneg_float emax' f -> 0 <= SF2Q f.
Proof.
  destruct f as [[]|[]| |[] m e]; simpl; try tauto; intros _.
  - apply Qle_refl.
  - apply Qmult_le_0_compat; [|apply Qlt_le_weak, pow2_pos].
    now change 0 with (inject_Z 0); rewrite <- Zle_Qle.
Qed.

Lemma nonneg_float_weaken (e1 e2 : Z) (f : spec_float) :
  (e1 <= e2)%Z -> nonneg_float e1 f -> nonneg_float e2 f.
Proof. destruct f as [[]|[]| |[] m e]; simpl; try tauto. lia. Qed.

Lemma nonneg_float_pos (emax' : Z) (f : spec_float) :
  nonneg_float emax' f -> 0 < SF2Q f ->
  exists m e, f = S754_finite false m e /\ (e <= emax')%Z.
Proof.
  destruct f as [[]|[]| |[] m e]; simpl; try tauto; intros H Hp.
  - exfalso. revert Hp. apply Qlt_irrefl.
  - eauto.
Qed.

Section RoundingValues.

Variables prec emax : Z.
Hypothesis Hprec : (0 < prec)%Z.

Lemma rounded_value (q e : Z) :
  (0 <= q)%Z ->
  nonneg_float (e + 1) (rounded prec false q e) /\
  SF2Q (rounded prec false q e) == Qval q e.
Proof.
  intros Hq. unfold rounded.
  destruct (Z.eqb_spec q (2 ^ prec)) as [E|E].
  - assert (Hpp : (0 < 2 ^ (prec - 1))%Z) by (apply Z.pow_pos_nonneg; lia).
    split; [simpl; lia|].
    unfold SF2Q. cbn [cond_Zopp]. rewrite Z2Pos.id by assumption.
    rewrite E. fold (Qval (2 ^ (prec - 1)) (e + 1)).
    rewrite (Qval_shift (2 ^ (prec - 1)) (e + 1) e) by lia.
    replace (e + 1 - e)%Z with 1%Z by lia.
    rewrite <- Z.pow_add_r by lia. replace (prec - 1 + 1)%Z with prec by lia.
    reflexivity.
  - destruct q as [|q|q]; try lia.
    + split; [exact I|]. unfold Qval. simpl. ring.
    + split; [simpl; lia|]. reflexivity.
Qed.

(** What rounding a positive [m * 2^e] to nearest gives: a float within
    half a unit in the last place, on the same side of every number that is
    a multiple of that unit. *)
Definition rounds_to (m e : Z) (r : spec_float) : Prop :=
  let v := fexp prec emax (Zdigits2 m + e) in
  nonneg_float (Z.max e v + 1) r /\
  2 * Qabs (SF2Q r - Qval m e) <= pow2 v /\
  (forall t w, (v <= w)%Z -> Qval t w <= Qval m e -> Qval t w <= SF2Q r) /\
  (forall t w, (v <= w)%Z -> Qval m e <= Qval t w -> SF2Q r <= Qval t w).

Lemma rounds_to_exact (m e : Z) (r : spec_float) :
  nonneg_float (Z.max e (fexp prec emax (Zdigits2 m + e)) + 1) r ->
  SF2Q r == Qval m e -> rounds_to m e r.
Proof.
  intros Hnn Hv. split; [assumption|]. split; [|split].
  - rewrite Hv.
    setoid_replace (Qval m e - Qval m e) with 0 using relation Qeq by ring.
    simpl. apply Qlt_le_weak, pow2_pos.
  - intros t w Hw Hle. now rewrite Hv.
  - intros t w Hw Hle. now rewrite Hv.
Qed.

Lemma binary_round_aux_rounds (m : positive) (e : Z) :
  let v := fexp prec emax (Zdigits2 (Z.pos m) + e) in
  (e + 1 <= emax - prec)%Z -> (v + 1 <= emax - prec)%Z ->
  rounds_to (Z.pos m) e (binary_round_aux prec emax false (Z.pos m) e loc_Exact).
Proof.
  intros v He Hv.
  pose proof (round_shift_nonneg prec emax (Z.pos m) e) as Hn.
  assert (Hu : (e + round_shift prec emax (Z.pos m) e = Z.max e v)%Z).
  { unfold round_shift. fold v. lia. }
  rewrite binary_round_aux_spec by (try assumption; lia).
  set (n := round_shift prec emax (Z.pos m) e) in *.
  pose proof (rne_nonneg (Z.pos m) n Hn ltac:(lia)) as Hq0.
  destruct (rounded_value (rne (Z.pos m) n) (e + n) Hq0) as [Hnn Hval].
  destruct (Z.eq_dec n 0) as [E0|E0].
  - apply rounds_to_exact.
    + fold v. rewrite <- Hu. exact Hnn.
    + rewrite Hval, E0, rne_0, Z.add_0_r. reflexivity.
  - assert (Hvn : (e + n = v)%Z) by (unfold n, round_shift in *; fold v in E0 |- *; lia).
    assert (Hp : (0 < 2 ^ n)%Z) by (apply Z.pow_pos_nonneg; lia).
    unfold rounds_to. cbv zeta. fold v.
    split; [rewrite <- Hu; exact Hnn|]. rewrite Hvn in Hval |- *.
    split; [|split].
    + rewrite Hval. pose proof (rne_close (Z.pos m) n Hn) as Hc.
      rewrite (Qval_shift (rne (Z.pos m) n) v e) by lia.
      replace (v - e)%Z with n by lia.
      unfold Qval. 
      setoid_replace (inject_Z (rne (Z.pos m) n * 2 ^ n) * pow2 e
                      - inject_Z (Z.pos m) * pow2 e)
        with (inject_Z (rne (Z.pos m) n * 2 ^ n - Z.pos m) * pow2 e)
        using relation Qeq
        by (unfold Z.sub; rewrite inject_Z_plus, inject_Z_opp; ring).
      rewrite Qabs_Qmult, (Qabs_pos (pow2 e)) by apply Qlt_le_weak, pow2_pos.
      rewrite Qabs_inject_Z.
      replace v with (n + e)%Z by lia.
      rewrite (pow2_add n e), <- (pow2_inj n) by lia.
      rewrite Qmult_assoc. apply Qmult_le_r; [apply pow2_pos|].
      change 2 with (inject_Z 2). rewrite <- inject_Z_mult, <- Zle_Qle. exact Hc.
    + intros t w Hw Hle. rewrite Hval.
      rewrite (Qval_shift t w v) by lia. apply Qval_le.
      apply rne_ge; [assumption|].
      rewrite (Qval_shift t w e) in Hle by lia. apply Qval_le in Hle.
      replace (w - e)%Z with ((w - v) + n)%Z in Hle by lia.
      rewrite Z.pow_add_r in Hle by lia. lia.
    + intros t w Hw Hle. rewrite Hval.
      rewrite (Qval_shift t w v) by lia. apply Qval_le.
      apply rne_le; [assumption|].
      rewrite (Qval_shift t w e) in Hle by lia. apply Qval_le in Hle.
      replace (w - e)%Z with ((w - v) + n)%Z in Hle by lia.
      rewrite Z.pow_add_r in Hle by lia. lia.
Qed.

End RoundingValues.

Lemma Zdigits2_mul_pow2 (m d : Z) :
  (0 < m)%Z -> (0 <= d)%Z -> Zdigits2 (m * 2 ^ d) = (Zdigits2 m + d)%Z.
Proof.
  intros Hm Hd. destruct (Zdigits2_bounds m Hm) as [Hlo Hhi].
  assert (Hp : (0 < 2 ^ d)%Z) by (apply Z.pow_pos_nonneg; lia).
  assert (Hdm : (0 < Zdigits2 m)%Z) by (destruct m; simpl; lia).
  apply Z.le_antisymm.
  - apply Zdigits2_le; [lia|]. rewrite Z.pow_add_r by lia. nia.
  - assert (Zdigits2 m + d - 1 < Zdigits2 (m * 2 ^ d))%Z; [|lia].
    apply Zdigits2_ge.
    replace (Zdigits2 m + d - 1)%Z with ((Zdigits2 m - 1) + d)%Z by lia.
    rewrite Z.pow_add_r by lia. nia.
Qed.

Lemma shl_align_fst (mx : positive) (ex ez : Z) :
  (ez <= ex)%Z ->
  Z.pos (fst (shl_align mx ex ez)) = (Z.pos mx * 2 ^ (ex - ez))%Z.
Proof.
  intros H. unfold shl_align. zops.
  destruct (ez - ex)%Z as [|d|d] eqn:E; cbn [fst].
  - replace (ex - ez)%Z with 0%Z by lia. simpl. lia.
  - lia.
  - replace (ex - ez)%Z with (Z.pos d) by lia.
    change (Pos.iter xO mx d) with (shift_pos d mx).
    rewrite shift_pos_correct, Z.pow_pos_fold. lia.
Qed.

Section Operations.

Variables prec emax : Z.
Hypothesis Hprec : (0 < prec)%Z.

(** [r] is the rounding of the positive rational [X < 2^K]; its exponent is
    at most [E]. *)
Definition rounds_val (X : Q) (K E : Z) (r : spec_float) : Prop :=
  let v := fexp prec emax K in
  nonneg_float E r /\
  2 * Qabs (SF2Q r - X) <= pow2 v /\
  (forall t w, (v <= w)%Z -> Qval t w <= X -> Qval t w <= SF2Q r) /\
  (forall t w, (v <= w)%Z -> X <= Qval t w -> SF2Q r <= Qval t w).

Lemma fexp_mono (a b : Z) : (a <= b)%Z -> (fexp prec emax a <= fexp prec emax b)%Z.
Proof. intros. rewrite !fexp_eq. lia. Qed.

Lemma rounds_to_val (m e K E : Z) (X : Q) (r : spec_float) :
  (0 < m)%Z -> Qval m e == X -> X < pow2 K ->
  (Z.max e (fexp prec emax K) + 1 <= E)%Z ->
  rounds_to prec emax m e r -> rounds_val X K E r.
Proof.
  intros Hm HX HK HE (Hnn & Hc & Hlo & Hhi).
  assert (Hk : (Zdigits2 m + e <= K)%Z).
  { apply Qval_digits_upper; [assumption|]. now rewrite HX. }
  pose proof (fexp_mono _ _ Hk) as Hv.
  split; [|split; [|split]].
  - eapply nonneg_float_weaken; [|exact Hnn]. lia.
  - rewrite <- HX. eapply Qle_trans; [exact Hc|]. now apply pow2_le.
  - intros t w Hw Hle. apply Hlo; [cbv zeta in Hw; lia|]. now rewrite HX.
  - intros t w Hw Hle. apply Hhi; [cbv zeta in Hw; lia|]. now rewrite HX.
Qed.

Lemma binary_round_rounds (m : positive) (e : Z) :
  let v := fexp prec emax (Zdigits2 (Z.pos m) + e) in
  (e + 1 <= emax - prec)%Z -> (v + 1 <= emax - prec)%Z ->
  rounds_to prec emax (Z.pos m) e (binary_round prec emax false m e).
Proof.
  intros v He Hv. unfold binary_round.
  rewrite digits2_eq. fold v.
  destruct (Z.le_gt_cases e v) as [Hle|Hgt].
  - assert (Hs : shl_align m e v = (m, e)).
    { unfold shl_align. zops. destruct (v - e)%Z eqn:E; try reflexivity; lia. }
    rewrite Hs. now apply binary_round_aux_rounds.
  - pose proof (shl_align_fst m e v ltac:(lia)) as Hm.
    assert (Hs : snd (shl_align m e v) = v).
    { unfold shl_align. zops. destruct (v - e)%Z eqn:E; try reflexivity; lia. }
    destruct (shl_align m e v) as [mz ez]. cbn [fst snd] in Hm, Hs. subst ez.
    assert (Hd : (Zdigits2 (Z.pos mz) + v = Zdigits2 (Z.pos m) + e)%Z).
    { rewrite Hm, Zdigits2_mul_pow2 by lia. lia. }
    pose proof (binary_round_aux_rounds prec emax Hprec mz v) as Hr.
    cbv zeta in Hr. rewrite Hd in Hr. fold v in Hr.
    destruct Hr as (Hnn & Hc & Hlo & Hhi); try lia.
    assert (HX : Qval (Z.pos mz) v == Qval (Z.pos m) e).
    { rewrite Hm. symmetry. apply Qval_shift. lia. }
    unfold rounds_to. cbv zeta. fold v. rewrite Hd in *. fold v in Hnn, Hc, Hlo, Hhi |- *.
    split; [|split; [|split]].
    + eapply nonneg_float_weaken; [|exact Hnn]. lia.
    + now rewrite <- HX.
    + intros t w Hw Hle. apply Hlo; [assumption|]. now rewrite HX.
    + intros t w Hw Hle. apply Hhi; [assumption|]. now rewrite HX.
Qed.

Lemma SF2Q_pos (m : positive) (e : Z) :
  SF2Q (S754_finite false m e) = Qval (Z.pos m) e.
Proof. reflexivity. Qed.

Lemma rounds_to_pos (m e : Z) (r : spec_float) :
  (0 < m)%Z -> pow2 (emin prec emax) <= Qval m e ->
  rounds_to prec emax m e r -> 0 < SF2Q r.
Proof.
  intros Hm Hmin (_ & _ & Hlo & _).
  set (v := fexp prec emax (Zdigits2 m + e)) in *.
  eapply Qlt_le_trans; [apply (pow2_pos v)|].
  assert (Hv : pow2 v == Qval 1 v) by (unfold Qval; ring).
  rewrite Hv. apply Hlo; [lia|]. rewrite <- Hv.
  destruct (Qval_digits m e Hm) as [Hd _].
  unfold v. rewrite fexp_eq.
  destruct (Z.max_spec (Zdigits2 m + e - prec) (3 - emax - prec)) as [[_ ->]|[_ ->]].
  - exact Hmin.
  - eapply Qle_trans; [|exact Hd]. apply pow2_le. lia.
Qed.

Lemma rounds_to_representable (m e t w : Z) (r : spec_float) :
  (fexp prec emax (Zdigits2 m + e) <= w)%Z -> Qval m e == Qval t w ->
  rounds_to prec emax m e r -> SF2Q r == Qval m e.
Proof.
  intros Hw HX (_ & _ & Hlo & Hhi). apply Qle_antisym.
  - rewrite HX. apply Hhi; [assumption|]. rewrite HX. apply Qle_refl.
  - rewrite HX. apply Hlo; [assumption|]. rewrite HX. apply Qle_refl.
Qed.

Lemma SFmul_is_round (mx my : positive) (ex ey : Z) :
  SFmul prec emax (S754_finite false mx ex) (S754_finite false my ey)
  = binary_round_aux prec emax false (Z.pos (mx * my)) (ex + ey) loc_Exact.
Proof. reflexivity. Qed.

Lemma SFmul_value (mx my : positive) (ex ey : Z) :
  Qval (Z.pos (mx * my)) (ex + ey)
  == SF2Q (S754_finite false mx ex) * SF2Q (S754_finite false my ey).
Proof.
  rewrite !SF2Q_pos. unfold Qval.
  rewrite Pos2Z.inj_mul, inject_Z_mult, pow2_add. ring.
Qed.

Lemma SFmul_rounds (mx my : positive) (ex ey K E : Z) :
  let X := SF2Q (S754_finite false mx ex) * SF2Q (S754_finite false my ey) in
  X < pow2 K ->
  (ex + ey + 1 <= emax - prec)%Z -> (fexp prec emax K + 1 <= emax - prec)%Z ->
  (Z.max (ex + ey) (fexp prec emax K) + 1 <= E)%Z ->
  rounds_val X K E
    (SFmul prec emax (S754_finite false mx ex) (S754_finite false my ey)) /\
  (pow2 (emin prec emax) <= X ->
   0 < SF2Q (SFmul prec emax (S754_finite false mx ex) (S754_finite false my ey))).
Proof.
  intros X HK He Hv HE.
  pose proof (SFmul_value mx my ex ey) as HX. fold X in HX.
  assert (Hr : rounds_to prec emax (Z.pos (mx * my)) (ex + ey)
                 (SFmul prec emax (S754_finite false mx ex) (S754_finite false my ey))).
  { rewrite SFmul_is_round.
    apply binary_round_aux_rounds; [assumption|lia|].
    assert (Hk : (Zdigits2 (Z.pos (mx * my)) + (ex + ey) <= K)%Z).
    { apply Qval_digits_upper; [lia|]. now rewrite HX. }
    pose proof (fexp_mono _ _ Hk). lia. }
  split.
  - apply (rounds_to_val (Z.pos (mx * my)) (ex + ey)); try assumption. lia.
  - intros Hmin.
    apply (rounds_to_pos (Z.pos (mx * my)) (ex + ey)); [lia| |exact Hr].
    now rewrite HX.
Qed.

Lemma SFadd_rounds (mx my : positive) (ex ey K E : Z) :
  let X := SF2Q (S754_finite false mx ex) + SF2Q (S754_finite false my ey) in
  X < pow2 K ->
  (Z.min ex ey + 1 <= emax - prec)%Z -> (fexp prec emax K + 1 <= emax - prec)%Z ->
  (Z.max (Z.min ex ey) (fexp prec emax K) + 1 <= E)%Z ->
  rounds_val X K E
    (SFadd prec emax (S754_finite false mx ex) (S754_finite false my ey)).
Proof.
  intros X HK He Hv HE.
  set (ez := Z.min ex ey) in *.
  pose proof (shl_align_fst mx ex ez ltac:(lia)) as Hx.
  pose proof (shl_align_fst my ey ez ltac:(lia)) as Hy.
  assert (Hadd : SFadd prec emax (S754_finite false mx ex) (S754_finite false my ey)
                 = binary_round prec emax false
                     (fst (shl_align mx ex ez) + fst (shl_align my ey ez)) ez)
    by reflexivity.
  rewrite Hadd.
  set (s := (fst (shl_align mx ex ez) + fst (shl_align my ey ez))%positive).
  assert (HX : Qval (Z.pos s) ez == X).
  { unfold s, X. rewrite Pos2Z.inj_add, Hx, Hy, !SF2Q_pos.
    rewrite (Qval_shift (Z.pos mx) ex ez), (Qval_shift (Z.pos my) ey ez) by lia.
    unfold Qval. rewrite inject_Z_plus. ring. }
  apply (rounds_to_val (Z.pos s) ez); try assumption; [lia|].
  apply binary_round_rounds; [assumption|].
  assert (Hk : (Zdigits2 (Z.pos s) + ez <= K)%Z).
  { apply Qval_digits_upper; [lia|]. now rewrite HX. }
  pose proof (fexp_mono _ _ Hk). lia.
Qed.

End Operations.

(** ** Truncation *)

Lemma inject_Z_Qval (a : Z) : inject_Z a == Qval a 0.
Proof. unfold Qval, pow2. simpl. ring. Qed.

Lemma SFtrunc_floor (E a : Z) (f : spec_float) :
  nonneg_float E f ->
  inject_Z a <= SF2Q f -> SF2Q f < inject_Z (a + 1) ->
  SFtrunc f = Some a.
Proof.
  destruct f as [[]|[]| |[] m e]; cbn [nonneg_float]; try tauto; intros _ Hlo Hhi.
  - cbn [SFtrunc SF2Q] in *. f_equal. change 0 with (inject_Z 0) in Hlo, Hhi.
    rewrite <- Zle_Qle in Hlo. rewrite <- Zlt_Qlt in Hhi. lia.
  - rewrite SF2Q_pos in Hlo, Hhi. cbn [SFtrunc cond_Zopp]. f_equal.
    rewrite inject_Z_Qval in Hlo, Hhi.
    destruct (Z.leb_spec 0 e) as [He|He].
    + rewrite (Qval_shift (Z.pos m) e 0) in Hlo, Hhi by lia.
      apply Qval_le in Hlo. apply Qval_lt in Hhi.
      rewrite Z.sub_0_r in Hlo, Hhi. lia.
    + rewrite (Qval_shift a 0 e) in Hlo by lia.
      rewrite (Qval_shift (a + 1) 0 e) in Hhi by lia.
      apply Qval_le in Hlo. apply Qval_lt in Hhi.
      replace (0 - e)%Z with (- e)%Z in Hlo, Hhi by lia.
      assert (0 < 2 ^ (- e))%Z by (apply Z.pow_pos_nonneg; lia).
      symmetry. apply Z.div_unique with (Z.pos m - a * 2 ^ (- e))%Z; lia.
Qed.

(** ** The bucket count *)

Definition Q_1_33 : Q := SF2Q f64_1_33.

Lemma Q_1_33_bounds : 133 # 100 <= Q_1_33 /\ Q_1_33 <= (133 # 100) + (1 # 2 ^ 53).
Proof. split; vm_compute; discriminate. Qed.

Lemma f64_of_Z_exact (n : Z) :
  (1 <= n < 2 ^ 32)%Z ->
  exists m e, f64_of_Z n = S754_finite false m e /\ (e <= 1)%Z /\
              SF2Q (f64_of_Z n) == inject_Z n.
Proof.
  intros Hn. destruct n as [|p|p]; try lia.
  change (f64_of_Z (Z.pos p)) with (binary_round 53 1024 false p 0).
  assert (Hd : (Zdigits2 (Z.pos p) <= 32)%Z) by (apply Zdigits2_le; lia).
  pose proof (Zdigits2_nonneg (Z.pos p)) as Hd0.
  destruct (binary_round_rounds 53 1024 ltac:(lia) p 0) as (Hnn & _ & Hlo & Hhi).
  { lia. }
  { rewrite fexp_eq. lia. }
  assert (Hv : (fexp 53 1024 (Zdigits2 (Z.pos p) + 0) <= 0)%Z)
    by (rewrite fexp_eq; lia).
  assert (Hval : SF2Q (binary_round 53 1024 false p 0) == inject_Z (Z.pos p)).
  { rewrite inject_Z_Qval. apply Qle_antisym.
    - apply Hhi; [assumption|apply Qle_refl].
    - apply Hlo; [assumption|apply Qle_refl]. }
  destruct (nonneg_float_pos _ _ Hnn) as (m & e & Hm & He).
  { rewrite Hval. change 0 with (inject_Z 0). rewrite <- Zlt_Qlt. lia. }
  exists m, e. split; [assumption|]. split; [|assumption].
  rewrite fexp_eq in He. lia.
Qed.

Lemma bucket_count_exact (n : Z) :
  (1 <= n < 2 ^ 32)%Z -> bucket_count n = Ok (n * 133 / 100 + 1)%Z.
Proof.
  intros Hn. unfold bucket_count.
  destruct (f64_of_Z_exact n Hn) as (mx & ex & Hx & Hex & Hxv).
  rewrite Hx in *.
  set (F := (n * 133 / 100)%Z).
  assert (HF : (100 * F <= n * 133 <= 100 * F + 99)%Z).
  { unfold F. pose proof (Z.div_mod (n * 133) 100 ltac:(lia)).
    pose proof (Z.mod_pos_bound (n * 133) 100 ltac:(lia)). lia. }
  destruct Q_1_33_bounds as [Hclo Hchi].
  assert (Hn0 : 1 <= inject_Z n) by (change 1 with (inject_Z 1); rewrite <- Zle_Qle; lia).
  assert (Hn1 : inject_Z n <= inject_Z (2 ^ 32)) by (rewrite <- Zle_Qle; lia).
  assert (HF0 : inject_Z 100 * inject_Z F <= inject_Z n * inject_Z 133)
    by (rewrite <- !inject_Z_mult, <- Zle_Qle; lia).
  assert (HF1 : inject_Z n * inject_Z 133 <= inject_Z 100 * inject_Z F + inject_Z 99)
    by (rewrite <- !inject_Z_mult, <- inject_Z_plus, <- Zle_Qle; lia).
  (* the product *)
  set (X := SF2Q (S754_finite false mx ex) * SF2Q f64_1_33).
  assert (HXn : X == inject_Z n * Q_1_33) by (unfold X; rewrite Hxv; reflexivity).
  assert (HXlo : inject_Z F <= X).
  { rewrite HXn. change (inject_Z 100) with 100 in *.
    change (inject_Z 133) with 133 in *. change (inject_Z 99) with 99 in *.
    nra. }
  assert (HXhi : X <= inject_Z F + (127 # 128)).
  { rewrite HXn. change (inject_Z 100) with 100 in *.
    change (inject_Z 133) with 133 in *. change (inject_Z 99) with 99 in *.
    change (inject_Z (2 ^ 32)) with (4294967296 # 1) in Hn1.
    change (1 # 2 ^ 53) with (1 # 9007199254740992) in Hchi. nra. }
  assert (HFn : inject_Z F <= inject_Z n * (133 # 100)).
  { change (inject_Z 100) with 100 in *. change (inject_Z 133) with 133 in *. lra. }
  destruct (SFmul_rounds 53 1024 ltac:(lia) mx 5989787504402760 ex (-52) 33 (-19))
    as ((Hynn & _ & Hylo & Hyhi) & _).
  { fold f64_1_33. fold X. 
    eapply Qle_lt_trans; [exact HXhi|].
    assert (inject_Z F <= inject_Z (2 ^ 33 - 1)).
    { rewrite <- Zle_Qle. lia. }
    change (inject_Z (2 ^ 33 - 1)) with (8589934591 # 1) in *.
    change (pow2 33) with (8589934592 # 1). lra. }
  { lia. }
  { rewrite fexp_eq. lia. }
  { rewrite fexp_eq. lia. }
  fold f64_1_33 in Hynn, Hylo, Hyhi |- *. fold X in Hylo, Hyhi.
  change (f64_mul (S754_finite false mx ex) f64_1_33)
    with (SFmul 53 1024 (S754_finite false mx ex) f64_1_33).
  set (y := SFmul 53 1024 (S754_finite false mx ex) f64_1_33) in *.
  assert (Hv33 : fexp 53 1024 33 = (-20)%Z) by reflexivity.
  rewrite Hv33 in *.
  assert (Hy1 : inject_Z F <= SF2Q y).
  { rewrite inject_Z_Qval. apply Hylo; [lia|]. now rewrite <- inject_Z_Qval. }
  assert (HQ : forall G : Z, Qval (G * 128 + 127) (-7) == inject_Z G + (127 # 128)).
  { intros G. unfold Qval. rewrite inject_Z_plus, inject_Z_mult.
    change (pow2 (-7)) with (1 # 128). change (inject_Z 128) with 128.
    change (inject_Z 127) with 127. field. }
  assert (Hy2 : SF2Q y <= inject_Z F + (127 # 128)).
  { rewrite <- HQ. apply Hyhi; [lia|]. now rewrite HQ. }
  assert (Hy0 : 0 < SF2Q y).
  { eapply Qlt_le_trans; [|apply Hylo with (t := 1%Z) (w := 0%Z)]; [reflexivity|lia|].
    rewrite <- inject_Z_Qval. change (inject_Z 1) with 1.
    rewrite HXn. nra. }
  destruct (nonneg_float_pos _ _ Hynn Hy0) as (my & ey & Hy & Hey).
  clearbody y. subst y.
  (* the sum *)
  change (f64_of_Z 1) with (S754_finite false 4503599627370496 (-52)).
  change (f64_add (S754_finite false my ey) (S754_finite false 4503599627370496 (-52)))
    with (SFadd 53 1024 (S754_finite false my ey)
            (S754_finite false 4503599627370496 (-52))).
  assert (H1v : SF2Q (S754_finite false 4503599627370496 (-52)) == 1)
    by reflexivity.
  destruct (SFadd_rounds 53 1024 ltac:(lia) my 4503599627370496 ey (-52) 34 0)
    as (Hznn & _ & Hzlo & Hzhi).
  { rewrite H1v.
    assert (inject_Z F <= inject_Z (2 ^ 33 - 1)).
    { rewrite <- Zle_Qle. lia. }
    change (inject_Z (2 ^ 33 - 1)) with (8589934591 # 1) in *.
    change (pow2 34) with (17179869184 # 1). lra. }
  { lia. }
  { rewrite fexp_eq. lia. }
  { rewrite fexp_eq. lia. }
  set (z := SFadd 53 1024 _ _) in *.
  assert (Hv34 : fexp 53 1024 34 = (-19)%Z) by reflexivity.
  rewrite Hv34 in Hzlo, Hzhi.
  assert (Hz1 : inject_Z (F + 1) <= SF2Q z).
  { rewrite inject_Z_Qval. apply Hzlo; [lia|]. rewrite <- inject_Z_Qval, H1v.
    rewrite inject_Z_plus. change (inject_Z 1) with 1. lra. }
  assert (Hz2 : SF2Q z < inject_Z (F + 1 + 1)).
  { eapply Qle_lt_trans.
    - apply Hzhi with (t := ((F + 1) * 128 + 127)%Z) (w := (-7)%Z); [lia|].
      rewrite H1v, HQ, inject_Z_plus. change (inject_Z 1) with 1. lra.
    - rewrite HQ, !inject_Z_plus. change (inject_Z 1) with 1. lra. }
  unfold double_to_u64. rewrite (SFtrunc_floor 0 (F + 1) z Hznn Hz1 Hz2).
  destruct (Z.leb_spec 0 (F + 1)); [|lia].
  destruct (Z.ltb_spec (F + 1) (2 ^ 64)); [reflexivity|lia].
Qed.

(** ** The bucket count of a large index

    How far the formula holds: up to the first count whose product with
    1.33 the doubles round up to the next integer. *)

(** A product of at least [2^K] is a multiple of the unit in the last place
    of its binade. *)
Lemma SFmul_grid (prec emax : Z) (mx my : positive) (ex ey K K' : Z) :
  (0 < prec)%Z ->
  let X := SF2Q (S754_finite false mx ex) * SF2Q (S754_finite false my ey) in
  pow2 K <= X -> X < pow2 K' ->
  (ex + ey + 1 <= emax - prec)%Z -> (fexp prec emax K' + 1 <= emax - prec)%Z ->
  exists q,
    SF2Q (SFmul prec emax (S754_finite false mx ex) (S754_finite false my ey))
    == Qval q (fexp prec emax (K + 1)).
Proof.
  intros Hprec X HK HK' He Hv.
  pose proof (SFmul_value mx my ex ey) as HX. fold X in HX.
  assert (Hk' : (Zdigits2 (Z.pos (mx * my)) + (ex + ey) <= K')%Z).
  { apply Qval_digits_upper; [lia|]. now rewrite HX. }
  assert (Hk : (K < Zdigits2 (Z.pos (mx * my)) + (ex + ey))%Z).
  { apply Qval_digits_lower; [lia|]. now rewrite HX. }
  pose proof (fexp_mono prec emax _ _ Hk') as Hv1.
  assert (Hv2 : (fexp prec emax (K + 1)
                 <= fexp prec emax (Zdigits2 (Z.pos (mx * my)) + (ex + ey)))%Z)
    by (apply fexp_mono; lia).
  rewrite SFmul_is_round.
  pose proof (round_shift_nonneg prec emax (Z.pos (mx * my)) (ex + ey)) as Hn.
  rewrite binary_round_aux_spec by (try assumption; unfold round_shift; lia).
  set (n := round_shift prec emax (Z.pos (mx * my)) (ex + ey)) in *.
  pose proof (rne_nonneg (Z.pos (mx * my)) n Hn ltac:(lia)) as Hq0.
  destruct (rounded_value prec Hprec (rne (Z.pos (mx * my)) n) (ex + ey + n) Hq0)
    as [_ Hval].
  assert (Hw : (fexp prec emax (K + 1) <= ex + ey + n)%Z)
    by (unfold n, round_shift; lia).
  eexists. rewrite Hval. apply Qval_shift. exact Hw.
Qed.

Lemma Q_1_33_value : Q_1_33 == (133 # 100) + (1 # 14073748835532800).
Proof. apply Qeq_bool_iff. vm_compute. reflexivity. Qed.

Lemma f64_of_Z_exact_53 (n : Z) :
  (1 <= n < 2 ^ 53)%Z ->
  exists m e, f64_of_Z n = S754_finite false m e /\ (e <= 1)%Z /\
              SF2Q (f64_of_Z n) == inject_Z n.
Proof.
  intros Hn. destruct n as [|p|p]; try lia.
  change (f64_of_Z (Z.pos p)) with (binary_round 53 1024 false p 0).
  assert (Hd : (Zdigits2 (Z.pos p) <= 53)%Z) by (apply Zdigits2_le; lia).
  pose proof (Zdigits2_nonneg (Z.pos p)) as Hd0.
  destruct (binary_round_rounds 53 1024 ltac:(lia) p 0) as (Hnn & _ & Hlo & Hhi).
  { lia. }
  { rewrite fexp_eq. lia. }
  assert (Hv : (fexp 53 1024 (Zdigits2 (Z.pos p) + 0) <= 0)%Z)
    by (rewrite fexp_eq; lia).
  assert (Hval : SF2Q (binary_round 53 1024 false p 0) == inject_Z (Z.pos p)).
  { rewrite inject_Z_Qval. apply Qle_antisym.
    - apply Hhi; [assumption|apply Qle_refl].
    - apply Hlo; [assumption|apply Qle_refl]. }
  destruct (nonneg_float_pos _ _ Hnn) as (m & e & Hm & He).
  { rewrite Hval. change 0 with (inject_Z 0). rewrite <- Zlt_Qlt. lia. }
  exists m, e. split; [assumption|]. split; [|assumption].
  rewrite fexp_eq in He. lia.
Qed.

(** Below [2^46]: the product is at most 127/128 above [floor(n * 1.33)],
    either because it is that small or because it is rounded to a multiple
    of 1/128 less than 1/256 away. *)
Lemma bucket_count_below_2_46 (n : Z) :
  (1 <= n <= 52908830208769)%Z -> bucket_count n = Ok (n * 133 / 100 + 1)%Z.
Proof.
  intros Hn. unfold bucket_count.
  destruct (f64_of_Z_exact_53 n ltac:(lia)) as (mx & ex & Hx & Hex & Hxv).
  rewrite Hx in *.
  set (F := (n * 133 / 100)%Z).
  assert (HF : (100 * F <= n * 133 <= 100 * F + 99)%Z).
  { unfold F. pose proof (Z.div_mod (n * 133) 100 ltac:(lia)).
    pose proof (Z.mod_pos_bound (n * 133) 100 ltac:(lia)). lia. }
  assert (HFmax : (0 <= F <= 70368744177662)%Z) by lia.
  assert (Hn0 : 1 <= inject_Z n) by (change 1 with (inject_Z 1); rewrite <- Zle_Qle; lia).
  assert (Hn1 : inject_Z n <= inject_Z 52908830208769) by (rewrite <- Zle_Qle; lia).
  assert (HF0 : inject_Z 100 * inject_Z F <= inject_Z n * inject_Z 133)
    by (rewrite <- !inject_Z_mult, <- Zle_Qle; lia).
  assert (HF1 : inject_Z n * inject_Z 133 <= inject_Z 100 * inject_Z F + inject_Z 99)
    by (rewrite <- !inject_Z_mult, <- inject_Z_plus, <- Zle_Qle; lia).
  assert (HF2 : inject_Z F <= inject_Z 70368744177662) by (rewrite <- Zle_Qle; lia).
  change (inject_Z 100) with 100 in *. change (inject_Z 133) with 133 in *.
  change (inject_Z 99) with 99 in *.
  change (inject_Z 52908830208769) with (52908830208769 # 1) in *.
  change (inject_Z 70368744177662) with (70368744177662 # 1) in *.
  (* the product *)
  set (X := SF2Q (S754_finite false mx ex) * SF2Q f64_1_33).
  assert (HXn : X == inject_Z n * ((133 # 100) + (1 # 14073748835532800))).
  { unfold X. rewrite Hxv. fold Q_1_33. now rewrite Q_1_33_value. }
  assert (HXlo : inject_Z F <= X) by (rewrite HXn; lra).
  assert (HXhi : X < inject_Z F + (255 # 256)) by (rewrite HXn; lra).
  assert (HX46 : X < pow2 46).
  { change (pow2 46) with (70368744177664 # 1). lra. }
  destruct (SFmul_rounds 53 1024 ltac:(lia) mx 5989787504402760 ex (-52) 46 (-6))
    as ((Hynn & Hyc & Hylo & Hyhi) & _).
  { exact HX46. }
  { lia. }
  { rewrite fexp_eq. lia. }
  { rewrite fexp_eq. lia. }
  fold f64_1_33 in Hynn, Hyc, Hylo, Hyhi |- *. fold X in Hyc, Hylo, Hyhi.
  assert (Hv46 : fexp 53 1024 46 = (-7)%Z) by reflexivity.
  rewrite Hv46 in Hyc, Hylo, Hyhi.
  assert (HQ : forall G : Z, Qval (G * 128 + 127) (-7) == inject_Z G + (127 # 128)).
  { intros G. unfold Qval. rewrite inject_Z_plus, inject_Z_mult.
    change (pow2 (-7)) with (1 # 128). change (inject_Z 128) with 128.
    change (inject_Z 127) with 127. field. }
  assert (HQ1 : forall G : Z, Qval (G * 128) (-7) == inject_Z G).
  { intros G. unfold Qval. rewrite inject_Z_mult.
    change (pow2 (-7)) with (1 # 128). change (inject_Z 128) with 128. field. }
  assert (Hy2 : SF2Q (SFmul 53 1024 (S754_finite false mx ex) f64_1_33)
                <= inject_Z F + (127 # 128)).
  { destruct (Z.le_gt_cases n 30786325577728) as [Hsmall|Hbig].
    - (* the product itself is at most 127/128 above *)
      assert (inject_Z n <= inject_Z 30786325577728) by (rewrite <- Zle_Qle; lia).
      change (inject_Z 30786325577728) with (30786325577728 # 1) in *.
      rewrite <- HQ. apply Hyhi; [lia|]. rewrite HQ, HXn. lra.
    - (* the product is at least 2^45: its rounding is a multiple of 1/128 *)
      assert (inject_Z 30786325577729 <= inject_Z n) by (rewrite <- Zle_Qle; lia).
      change (inject_Z 30786325577729) with (30786325577729 # 1) in *.
      destruct (SFmul_grid 53 1024 mx 5989787504402760 ex (-52) 45 46 ltac:(lia))
        as (q & Hq).
      { fold f64_1_33. fold X. rewrite HXn.
        change (pow2 45) with (35184372088832 # 1). lra. }
      { fold f64_1_33. fold X. exact HX46. }
      { lia. }
      { rewrite fexp_eq. lia. }
      fold f64_1_33 in Hq. change (fexp 53 1024 (45 + 1)) with (-7)%Z in Hq.
      set (y := SF2Q (SFmul 53 1024 (S754_finite false mx ex) f64_1_33)) in *.
      assert (Hc : Qabs (y - X) <= 1 # 256).
      { assert (E : pow2 (-7) == 2 * (1 # 256)) by reflexivity.
        rewrite E in Hyc. apply Qmult_le_l in Hyc; [exact Hyc|reflexivity]. }
      apply Qabs_Qle_condition in Hc as [_ Hc].
      assert (Hlt : Qval q (-7) < Qval ((F + 1) * 128) (-7)).
      { rewrite <- Hq, HQ1, inject_Z_plus. change (inject_Z 1) with 1. lra. }
      apply Qval_lt in Hlt.
      rewrite Hq, <- HQ. apply Qval_le. lia. }
  assert (Hy1 : inject_Z F <= SF2Q (SFmul 53 1024 (S754_finite false mx ex) f64_1_33)).
  { rewrite inject_Z_Qval. apply Hylo; [lia|]. now rewrite <- inject_Z_Qval. }
  change (f64_mul (S754_finite false mx ex) f64_1_33)
    with (SFmul 53 1024 (S754_finite false mx ex) f64_1_33).
  set (y := SFmul 53 1024 (S754_finite false mx ex) f64_1_33) in *.
  assert (Hy0 : 0 < SF2Q y).
  { eapply Qlt_le_trans; [|apply Hylo with (t := 1%Z) (w := 0%Z)]; [reflexivity|lia|].
    rewrite <- inject_Z_Qval. change (inject_Z 1) with 1. rewrite HXn. lra. }
  destruct (nonneg_float_pos _ _ Hynn Hy0) as (my & ey & Hy & Hey).
  clearbody y. subst y.
  (* the sum *)
  change (f64_of_Z 1) with (S754_finite false 4503599627370496 (-52)).
  change (f64_add (S754_finite false my ey) (S754_finite false 4503599627370496 (-52)))
    with (SFadd 53 1024 (S754_finite false my ey)
            (S754_finite false 4503599627370496 (-52))).
  assert (H1v : SF2Q (S754_finite false 4503599627370496 (-52)) == 1)
    by reflexivity.
  destruct (SFadd_rounds 53 1024 ltac:(lia) my 4503599627370496 ey (-52) 46 0)
    as (Hznn & _ & Hzlo & Hzhi).
  { rewrite H1v. change (pow2 46) with (70368744177664 # 1). lra. }
  { lia. }
  { rewrite fexp_eq. lia. }
  { rewrite fexp_eq. lia. }
  set (z := SFadd 53 1024 _ _) in *.
  rewrite Hv46 in Hzlo, Hzhi.
  assert (Hz1 : inject_Z (F + 1) <= SF2Q z).
  { rewrite inject_Z_Qval. apply Hzlo; [lia|]. rewrite <- inject_Z_Qval, H1v.
    rewrite inject_Z_plus. change (inject_Z 1) with 1. lra. }
  assert (Hz2 : SF2Q z < inject_Z (F + 1 + 1)).
  { eapply Qle_lt_trans.
    - apply Hzhi with (t := ((F + 1) * 128 + 127)%Z) (w := (-7)%Z); [lia|].
      rewrite H1v, HQ, inject_Z_plus. change (inject_Z 1) with 1. lra.
    - rewrite HQ, !inject_Z_plus. change (inject_Z 1) with 1. lra. }
  unfold double_to_u64. rewrite (SFtrunc_floor 0 (F + 1) z Hznn Hz1 Hz2).
  destruct (Z.leb_spec 0 (F + 1)); [|lia].
  destruct (Z.ltb_spec (F + 1) (2 ^ 64)); [reflexivity|lia].
Qed.

(** The counts from there to the first failure, one by one. *)
Lemma bucket_count_last_33 (n : Z) :
  (52908830208770 <= n <= 52908830208802)%Z ->
  bucket_count n = Ok (n * 133 / 100 + 1)%Z.
Proof.
  intros Hn.
  assert (Hb : forallb (fun k => match bucket_count (52908830208770 + k) with
                                 | Ok v => (v =? (52908830208770 + k) * 133 / 100 + 1)%Z
                                 | _ => false
                                 end)
                 (map Z.of_nat (seq 0 33)) = true)
    by (vm_compute; reflexivity).
  rewrite forallb_forall in Hb.
  specialize (Hb (n - 52908830208770)%Z).
  replace (52908830208770 + (n - 52908830208770))%Z with n in Hb by lia.
  destruct (bucket_count n) as [v| |].
  - f_equal. apply Z.eqb_eq. apply Hb. apply in_map_iff.
    exists (Z.to_nat (n - 52908830208770)). split; [lia|]. apply in_seq. lia.
  - discriminate Hb. apply in_map_iff.
    exists (Z.to_nat (n - 52908830208770)). split; [lia|]. apply in_seq. lia.
  - discriminate Hb. apply in_map_iff.
    exists (Z.to_nat (n - 52908830208770)). split; [lia|]. apply in_seq. lia.
Qed.

(** The formula holds for every count below 52908830208803. *)
Lemma bucket_count_floor (n : Z) :
  (1 <= n < 52908830208803)%Z -> bucket_count n = Ok (n * 133 / 100 + 1)%Z.
Proof.
  intros Hn. destruct (Z.le_gt_cases n 52908830208769).
  - apply bucket_count_below_2_46. lia.
  - apply bucket_count_last_33. lia.
Qed.

(** At 52908830208803 the product, 70368744177707.99 and a little, is
    rounded to 70368744177708, and the count is one more than the formula
    gives. *)
Lemma bucket_count_first_failure :
  bucket_count 52908830208803 = Ok 70368744177709%Z /\
  (52908830208803 * 133 / 100 + 1 = 70368744177708)%Z.
Proof. split; vm_compute; reflexivity. Qed.

(** ** binary32: validity and comparison *)

Lemma bounded_spec (prec emax : Z) (m : positive) (e : Z) :
  bounded prec emax m e = true ->
  (emin prec emax <= e <= emax - prec)%Z /\
  (Zdigits2 (Z.pos m) <= prec)%Z /\
  ((emin prec emax < e)%Z -> Zdigits2 (Z.pos m) = prec).
Proof.
  unfold bounded, canonical_mantissa. zops. intros H.
  apply andb_true_iff in H as [H1 H2].
  apply Z.eqb_eq in H1. apply Z.leb_le in H2.
  rewrite digits2_eq, fexp_eq in H1. rewrite emin_eq. lia.
Qed.

Lemma SFleb_finite (m : positive) (e : Z) (mc : positive) (ec : Z) :
  SFleb (S754_finite false m e) (S754_finite false mc ec) = true <->
  (e < ec)%Z \/ (e = ec /\ (Z.pos m <= Z.pos mc)%Z).
Proof.
  unfold SFleb, SFcompare. zops.
  change (PosDef.Pos.compare_cont Eq m mc) with (Pos.compare m mc).
  destruct (Z.compare_spec e ec) as [->|Hlt|Hgt].
  - destruct (Pos.compare_spec m mc) as [->|H|H]; split; intros H'; try lia;
      try reflexivity; try discriminate.
  - split; [lia|reflexivity].
  - split; [discriminate|lia].
Qed.

Lemma f32_le_const (m : positive) (e : Z) (mc : positive) (ec : Z) :
  bounded 24 128 m e = true -> (2 ^ 23 <= Z.pos mc)%Z ->
  SFleb (S754_finite false m e) (S754_finite false mc ec) = true ->
  Qval (Z.pos m) e <= Qval (Z.pos mc) ec.
Proof.
  intros Hb Hc Hle. apply bounded_spec in Hb as (He & Hd & _).
  assert (Hm : (Z.pos m < 2 ^ 24)%Z).
  { pose proof (Zdigits2_bounds (Z.pos m) ltac:(lia)) as [_ Hhi].
    assert (2 ^ Zdigits2 (Z.pos m) <= 2 ^ 24)%Z by (apply Z.pow_le_mono_r; lia).
    lia. }
  apply SFleb_finite in Hle as [Hlt|[-> Hmm]].
  - rewrite (Qval_shift (Z.pos mc) ec e) by lia. apply Qval_le.
    assert (2 ^ 1 <= 2 ^ (ec - e))%Z by (apply Z.pow_le_mono_r; lia).
    nia.
  - now apply Qval_le.
Qed.

(** ** Dequantization, by enumeration of the 256 bytes *)





Lemma SFtrunc_Qfloor (E : Z) (f : spec_float) :
  nonneg_float E f -> SFtrunc f = Some (Qfloor (SF2Q f)).
Proof.
  intros H. apply (SFtrunc_floor E); [assumption|apply Qfloor_le|apply Qlt_floor].
Qed.

(** ** binary32: doubling is exact *)

Lemma f32_mul_2 (m : positive) (e : Z) :
  bounded 24 128 m e = true -> (e <= 100)%Z ->
  exists my ey,
    f32_mul (S754_finite false m e) f32_2 = S754_finite false my ey /\
    (ey <= e + 2)%Z /\ Qval (Z.pos my) ey == 2 * Qval (Z.pos m) e.
Proof.
  intros Hb He. apply bounded_spec in Hb as (Hemin & Hd & _).
  rewrite emin_eq in Hemin.
  unfold f32_mul, f32_2. rewrite SFmul_is_round.
  assert (Hdig : Zdigits2 (Z.pos (m * 8388608)) = (Zdigits2 (Z.pos m) + 23)%Z).
  { rewrite Pos2Z.inj_mul. change (Z.pos 8388608) with (2 ^ 23)%Z.
    apply Zdigits2_mul_pow2; lia. }
  pose proof (Zdigits2_nonneg (Z.pos m)) as Hd0.
  assert (Hv : (fexp 24 128 (Zdigits2 (Z.pos (m * 8388608)) + (e + -22)) <= e + 1)%Z).
  { rewrite Hdig, fexp_eq. lia. }
  pose proof (binary_round_aux_rounds 24 128 ltac:(lia) (m * 8388608) (e + -22)
                ltac:(lia) ltac:(lia)) as Hr.
  assert (HX : Qval (Z.pos (m * 8388608)) (e + -22) == Qval (Z.pos m) (e + 1)).
  { rewrite Pos2Z.inj_mul. change (Z.pos 8388608) with (2 ^ 23)%Z.
    symmetry. rewrite (Qval_shift (Z.pos m) (e + 1) (e + -22)) by lia.
    replace (e + 1 - (e + -22))%Z with 23%Z by lia. reflexivity. }
  pose proof (rounds_to_representable 24 128 _ _ _ _ _ Hv HX Hr) as Hval.
  destruct Hr as (Hnn & _).
  assert (H2 : Qval (Z.pos m) (e + 1) == 2 * Qval (Z.pos m) e).
  { unfold Qval. rewrite pow2_add. change (pow2 1) with 2. ring. }
  destruct (nonneg_float_pos _ _ Hnn) as (my & ey & Hy & Hey).
  { rewrite Hval, HX, H2. unfold Qval.
    pose proof (pow2_pos e).
    assert (0 < inject_Z (Z.pos m)) by (change 0 with (inject_Z 0); now rewrite <- Zlt_Qlt).
    nra. }
  exists my, ey. split; [exact Hy|]. split; [lia|].
  rewrite <- SF2Q_pos, <- Hy, Hval, HX, H2. reflexivity.
Qed.

(** ** binary32: the percentage quantizer *)

Lemma half_value : SF2Q f32_0_5 == 1 # 2.
Proof. reflexivity. Qed.

Lemma Qfloor_nonneg (x : Q) : 0 <= x -> (0 <= Qfloor x)%Z.
Proof. intros H. apply (Qfloor_resp_le 0 x) in H. exact H. Qed.

Lemma Qfloor_lt_Z (x : Q) (k : Z) : x < inject_Z k -> (Qfloor x < k)%Z.
Proof.
  intros H. rewrite Zlt_Qlt. eapply Qle_lt_trans; [apply Qfloor_le|exact H].
Qed.

Lemma quantize_damage_pct_finite (m : positive) (e : Z) :
  bounded 24 128 m e = true ->
  SFleb (S754_finite false m e) f32_100 = true ->
  exists q,
    quantize_damage_pct (S754_finite false m e) = Ok q /\ (0 <= q <= 200)%Z /\
    inject_Z q - (1 # 2) - (1 # 2 ^ 25) <= 2 * Qval (Z.pos m) e /\
    2 * Qval (Z.pos m) e < inject_Z q + (1 # 2).
Proof.
  intros Hb Hle.
  pose proof (f32_le_const m e 13107200 (-17) Hb ltac:(lia) Hle) as HP.
  assert (H100 : Qval (Z.pos 13107200) (-17) == 100) by reflexivity.
  rewrite H100 in HP. clear H100.
  pose proof Hle as Hle'. apply SFleb_finite in Hle'.
  pose proof (bounded_spec _ _ _ _ Hb) as (Hemin & Hd & Hnorm).
  rewrite emin_eq in Hemin, Hnorm.
  assert (Hm24 : (Z.pos m < 2 ^ 24)%Z).
  { pose proof (Zdigits2_bounds (Z.pos m) ltac:(lia)) as [_ Hhi].
    assert (2 ^ Zdigits2 (Z.pos m) <= 2 ^ 24)%Z by (apply Z.pow_le_mono_r; lia).
    lia. }
  set (P := Qval (Z.pos m) e) in *.
  assert (HP0 : 0 < P).
  { unfold P, Qval. pose proof (pow2_pos e).
    assert (0 < inject_Z (Z.pos m)) by (change 0 with (inject_Z 0); now rewrite <- Zlt_Qlt).
    nra. }
  unfold quantize_damage_pct.
  change (f32_leb (S754_finite false m e) f32_0) with false. cbv iota.
  destruct (f32_leb f32_100 (S754_finite false m e)) eqn:Hge.
  - (* p = 100 *)
    unfold f32_leb, f32_100 in Hge. apply SFleb_finite in Hge.
    assert (He : e = (-17)%Z) by lia. assert (Hm : Z.pos m = 13107200%Z) by lia.
    exists 200%Z. split; [reflexivity|]. split; [lia|].
    assert (HPv : P == 100 # 1).
    { unfold P. rewrite He, Hm. reflexivity. }
    rewrite HPv. split; vm_compute; [discriminate|reflexivity].
  - (* 0 < p < 100 *)
    destruct (f32_mul_2 m e Hb ltac:(lia)) as (my & ey & Hy & Hey & Hyv).
    fold P in Hyv. rewrite Hy.
    unfold f32_add, f32_0_5.
    set (z := SFadd 24 128 (S754_finite false my ey) (S754_finite false 8388608 (-24))).
    set (X := SF2Q (S754_finite false my ey) + SF2Q (S754_finite false 8388608 (-24))).
    assert (HX : X == 2 * P + (1 # 2)).
    { unfold X. rewrite (SF2Q_pos my ey), Hyv.
      assert (Hh : SF2Q (S754_finite false 8388608 (-24)) == 1 # 2) by reflexivity.
      rewrite Hh. reflexivity. }
    destruct (SFadd_rounds 24 128 ltac:(lia) my 8388608 ey (-24) 8 (-15))
      as (Hznn & _ & Hzlo & Hzhi).
    { fold X. rewrite HX. change (pow2 8) with (256 # 1). lra. }
    { lia. }
    { rewrite fexp_eq. lia. }
    { rewrite fexp_eq. lia. }
    fold X in Hzlo, Hzhi. fold z in Hznn, Hzlo, Hzhi.
    change (fexp 24 128 8) with (-16)%Z in Hzlo, Hzhi.
    set (q := Qfloor (SF2Q z)).
    pose proof (Qfloor_le (SF2Q z)) as Hq1. pose proof (Qlt_floor (SF2Q z)) as Hq2.
    fold q in Hq1, Hq2. rewrite inject_Z_plus in Hq2. change (inject_Z 1) with 1 in Hq2.
    pose proof (nonneg_float_value _ _ Hznn) as Hz0.
    assert (Hzmax : SF2Q z <= 401 # 2).
    { change (401 # 2) with (Qval 401 (-1)). apply Hzhi; [lia|].
      change (Qval 401 (-1)) with (401 # 2). lra. }
    assert (Hq0 : (0 <= q)%Z) by (apply Qfloor_nonneg; assumption).
    assert (Hq200 : (q <= 200)%Z).
    { assert (q < 201)%Z; [|lia]. apply Qfloor_lt_Z.
      change (inject_Z 201) with (201 # 1). lra. }
    exists q. split.
    { unfold float_to_u8. rewrite (SFtrunc_Qfloor _ _ Hznn). fold q.
      destruct (Z.leb_spec 0 q); [|lia]. destruct (Z.leb_spec q 255); [reflexivity|lia]. }
    split; [lia|]. split.
    + (* the lower side *)
      destruct (Qlt_le_dec X 1) as [Hsmall|Hbig].
      * destruct (SFadd_rounds 24 128 ltac:(lia) my 8388608 ey (-24) 0 200)
          as (_ & Hc & _ & _).
        { exact Hsmall. }
        { lia. }
        { rewrite fexp_eq. lia. }
        { rewrite fexp_eq. lia. }
        fold X z in Hc. change (pow2 (fexp 24 128 0)) with (1 # 2 ^ 24) in Hc.
        assert (Hc' : Qabs (SF2Q z - X) <= 1 # 2 ^ 25).
        { assert (E24 : 1 # 2 ^ 24 == 2 * (1 # 2 ^ 25)) by reflexivity.
          rewrite E24 in Hc.
          apply Qmult_le_l in Hc; [exact Hc|reflexivity]. }
        apply Qabs_Qle_condition in Hc' as [Hc1 Hc2].
        change (- (1 # 2 ^ 25)) with (- (1 # 33554432)) in Hc1.
        change (1 # 2 ^ 25) with (1 # 33554432) in *. lra.
      * assert (HqX : inject_Z q <= X); [|change (1 # 2 ^ 25) with (1 # 33554432); lra].
        (* p is normal and 2p < 2^i *)
        assert (He26 : (-26 < e)%Z).
        { destruct (Z.lt_ge_cases (-26) e) as [|Hsm]; [assumption|exfalso].
          assert (Hq4 : Qval 1 (-2) <= P).
          { change (Qval 1 (-2)) with (1 # 4). lra. }
          unfold P in Hq4. rewrite (Qval_shift 1 (-2) e) in Hq4 by lia.
          apply Qval_le in Hq4.
          assert (2 ^ 24 <= 2 ^ (-2 - e))%Z by (apply Z.pow_le_mono_r; lia).
          lia. }
        set (i := (e + 25)%Z).
        assert (H2P : 2 * P < pow2 i).
        { assert (Hlt : Qval (Z.pos m) (e + 1) < Qval (2 ^ 24) (e + 1))
            by now apply Qval_lt.
          assert (E1 : Qval (Z.pos m) (e + 1) == 2 * P).
          { unfold P, Qval. rewrite pow2_add. change (pow2 1) with 2. ring. }
          assert (E2 : Qval (2 ^ 24) (e + 1) == pow2 i).
          { unfold Qval, i. rewrite pow2_inj by lia. rewrite <- pow2_add.
            replace (24 + (e + 1))%Z with (e + 25)%Z by lia. reflexivity. }
          now rewrite <- E1, <- E2. }
        assert (Hi : inject_Z (2 ^ i) == pow2 i) by (apply pow2_inj; lia).
        destruct (Qlt_le_dec X (pow2 i)) as [Hin|Hcross].
        -- (* the sum stays in the binade of 2p: it is representable *)
           destruct (SFadd_rounds 24 128 ltac:(lia) my 8388608 ey (-24) i 200)
             as (_ & _ & _ & Hhi').
           { exact Hin. }
           { lia. }
           { rewrite fexp_eq. lia. }
           { rewrite fexp_eq. lia. }
           fold X z in Hhi'.
           assert (HXr : X == Qval (Z.pos m + 2 ^ (- e - 2)) (e + 1)).
           { rewrite HX. unfold Qval. rewrite inject_Z_plus.
             assert (Hh : inject_Z (2 ^ (- e - 2)) * pow2 (e + 1) == 1 # 2).
             { rewrite pow2_inj, <- pow2_add by lia.
               replace (- e - 2 + (e + 1))%Z with (-1)%Z by lia. reflexivity. }
             unfold P, Qval. rewrite pow2_add. change (pow2 1) with 2.
             rewrite pow2_add in Hh. change (pow2 1) with 2 in Hh.
             lra. }
           eapply Qle_trans; [exact Hq1|]. rewrite HXr.
           apply Hhi'; [rewrite fexp_eq; unfold i; lia|]. rewrite HXr. apply Qle_refl.
        -- (* the sum crosses into the next binade, below the next integer *)
           assert (Hz2 : SF2Q z <= inject_Z (2 ^ i) + (1 # 2)).
           { assert (Hb2 : Qval (2 * 2 ^ i + 1) (-1) == inject_Z (2 ^ i) + (1 # 2)).
             { unfold Qval. rewrite inject_Z_plus, inject_Z_mult.
               change (pow2 (-1)) with (1 # 2). change (inject_Z 2) with 2.
               change (inject_Z 1) with 1. field. }
             rewrite <- Hb2. apply Hzhi; [lia|]. rewrite Hb2, Hi. lra. }
           assert (Hqi : (q <= 2 ^ i)%Z).
           { assert (q < 2 ^ i + 1)%Z; [|lia]. rewrite Zlt_Qlt.
             rewrite inject_Z_plus. change (inject_Z 1) with 1. lra. }
           rewrite Zle_Qle in Hqi. rewrite Hi in Hqi. lra.
    + (* the upper side *)
      destruct (Qlt_le_dec X (inject_Z q + 1)) as [Hlt|Hge']; [lra|exfalso].
      assert (Hc : Qval (q + 1) 0 <= SF2Q z).
      { apply Hzlo; [lia|]. rewrite <- inject_Z_Qval, inject_Z_plus.
        exact Hge'. }
      rewrite <- inject_Z_Qval, inject_Z_plus in Hc. change (inject_Z 1) with 1 in Hc.
      lra.
Qed.

(** ** binary32: the probability quantizer *)

Lemma Qval_int_plus (q c k : Z) :
  (0 <= k)%Z -> Qval (q * 2 ^ k + c) (- k) == inject_Z q + Qval c (- k).
Proof.
  intros Hk. unfold Qval. rewrite inject_Z_plus, inject_Z_mult, pow2_inj by lia.
  assert (E : pow2 k * pow2 (- k) == 1).
  { rewrite <- pow2_add. replace (k + - k)%Z with 0%Z by lia. reflexivity. }
  transitivity (inject_Z q * (pow2 k * pow2 (- k)) + inject_Z c * pow2 (- k));
    [ring|]. rewrite E. ring.
Qed.

Lemma quantize_probability_finite (m : positive) (e : Z) :
  bounded 24 128 m e = true ->
  SFleb (S754_finite false m e) f32_1 = true ->
  exists q,
    quantize_probability (S754_finite false m e) = Ok q /\ (0 <= q <= 255)%Z /\
    inject_Z q - (1 # 2) - (1 # 2 ^ 17) <= 255 * Qval (Z.pos m) e /\
    255 * Qval (Z.pos m) e < inject_Z q + (1 # 2).
Proof.
  intros Hb Hle.
  pose proof (f32_le_const m e 8388608 (-23) Hb ltac:(lia) Hle) as HP.
  assert (H1 : Qval (Z.pos 8388608) (-23) == 1) by reflexivity.
  rewrite H1 in HP. clear H1.
  pose proof Hle as Hle'. apply SFleb_finite in Hle'.
  pose proof (bounded_spec _ _ _ _ Hb) as (Hemin & Hd & Hnorm).
  rewrite emin_eq in Hemin, Hnorm.
  set (P := Qval (Z.pos m) e) in *.
  assert (HPmin : pow2 (-149) <= P).
  { assert (Hv : pow2 (-149) == Qval 1 (-149)) by (unfold Qval; ring).
    rewrite Hv. unfold P. rewrite (Qval_shift (Z.pos m) e (-149)) by lia.
    apply Qval_le.
    assert (0 < 2 ^ (e - -149))%Z by (apply Z.pow_pos_nonneg; lia). nia. }
  pose proof (pow2_pos (-149)) as Hpp.
  unfold quantize_probability.
  change (f32_leb (S754_finite false m e) f32_0) with false. cbv iota.
  destruct (f32_leb f32_1 (S754_finite false m e)) eqn:Hge.
  - (* p = 1 *)
    unfold f32_leb, f32_1 in Hge. apply SFleb_finite in Hge.
    assert (He : e = (-23)%Z) by lia. assert (Hm : Z.pos m = 8388608%Z) by lia.
    exists 255%Z. split; [reflexivity|]. split; [lia|].
    assert (HPv : P == 1).
    { unfold P. rewrite He, Hm. reflexivity. }
    rewrite HPv. split; vm_compute; [discriminate|reflexivity].
  - (* 0 < p < 1 *)
    unfold f32_mul, f32_255.
    set (a := SFmul 24 128 (S754_finite false m e) (S754_finite false 16711680 (-16))).
    assert (H255 : SF2Q (S754_finite false 16711680 (-16)) == 255) by reflexivity.
    destruct (SFmul_rounds 24 128 ltac:(lia) m 16711680 e (-16) 8 (-15))
      as ((Hann & Hac & Halo & Hahi) & Hapos).
    { rewrite H255, SF2Q_pos. fold P. change (pow2 8) with (256 # 1). lra. }
    { lia. }
    { rewrite fexp_eq. lia. }
    { rewrite fexp_eq. lia. }
    fold a in Hann, Hac, Halo, Hahi, Hapos.
    rewrite SF2Q_pos in Hac, Halo, Hahi, Hapos. fold P in Hac, Halo, Hahi, Hapos.
    change (fexp 24 128 8) with (-16)%Z in Hac, Halo, Hahi.
    assert (Ha0 : 0 < SF2Q a).
    { apply Hapos. rewrite H255. change (emin 24 128) with (-149)%Z. lra. }
    assert (Hamax : SF2Q a <= 255).
    { change 255 with (Qval 255 0). apply Hahi; [lia|].
      rewrite H255. change (Qval 255 0) with (255 # 1). lra. }
    assert (Hac' : Qabs (SF2Q a - P * 255) <= 1 # 2 ^ 17).
    { rewrite H255 in Hac.
      assert (E16 : pow2 (-16) == 2 * (1 # 2 ^ 17)) by reflexivity.
      rewrite E16 in Hac. apply Qmult_le_l in Hac; [exact Hac|reflexivity]. }
    apply Qabs_Qle_condition in Hac' as [Hac1 Hac2].
    assert (Hgrid : pow2 7 <= P * 255 -> exists qa, SF2Q a == Qval qa (-16)).
    { intros Hbig.
      destruct (SFmul_grid 24 128 m 16711680 e (-16) 7 8 ltac:(lia)) as (qa & Hqa).
      { rewrite H255, SF2Q_pos. fold P. exact Hbig. }
      { rewrite H255, SF2Q_pos. fold P. change (pow2 8) with (256 # 1). lra. }
      { lia. }
      { rewrite fexp_eq. lia. }
      exists qa. exact Hqa. }
    assert (Hahi7 : P * 255 < pow2 7 ->
              forall t w, (-17 <= w)%Z -> P * 255 <= Qval t w -> SF2Q a <= Qval t w).
    { intros Hsmall.
      destruct (SFmul_rounds 24 128 ltac:(lia) m 16711680 e (-16) 7 (-15))
        as ((_ & _ & _ & Hhi7) & _).
      { rewrite H255, SF2Q_pos. fold P. exact Hsmall. }
      { lia. }
      { rewrite fexp_eq. lia. }
      { rewrite fexp_eq. lia. }
      fold a in Hhi7. intros t w Hw Htw.
      apply Hhi7; [rewrite fexp_eq; lia|]. rewrite H255, SF2Q_pos. exact Htw. }
    destruct (nonneg_float_pos _ _ Hann Ha0) as (ma & ea & Ha & Hea).
    clearbody a. subst a.
    unfold f32_add, f32_0_5.
    set (b := SFadd 24 128 (S754_finite false ma ea) (S754_finite false 8388608 (-24))).
    assert (Hh : SF2Q (S754_finite false 8388608 (-24)) == 1 # 2) by reflexivity.
    destruct (SFadd_rounds 24 128 ltac:(lia) ma 8388608 ea (-24) 8 (-15))
      as (Hbnn & Hbc & Hblo & Hbhi).
    { rewrite Hh. change (pow2 8) with (256 # 1). lra. }
    { lia. }
    { rewrite fexp_eq. lia. }
    { rewrite fexp_eq. lia. }
    fold b in Hbnn, Hbc, Hblo, Hbhi.
    change (fexp 24 128 8) with (-16)%Z in Hbc, Hblo, Hbhi.
    assert (Hbc' : Qabs (SF2Q b - (SF2Q (S754_finite false ma ea) + (1 # 2))) <= 1 # 2 ^ 17).
    { rewrite Hh in Hbc.
      assert (E16 : pow2 (-16) == 2 * (1 # 2 ^ 17)) by reflexivity.
      rewrite E16 in Hbc. apply Qmult_le_l in Hbc; [exact Hbc|reflexivity]. }
    apply Qabs_Qle_condition in Hbc' as [Hbc1 Hbc2].
    set (q := Qfloor (SF2Q b)).
    pose proof (Qfloor_le (SF2Q b)) as Hq1. pose proof (Qlt_floor (SF2Q b)) as Hq2.
    fold q in Hq1, Hq2. rewrite inject_Z_plus in Hq2. change (inject_Z 1) with 1 in Hq2.
    pose proof (nonneg_float_value _ _ Hbnn) as Hb0.
    assert (Hbmax : SF2Q b <= 511 # 2).
    { change (511 # 2) with (Qval 511 (-1)). apply Hbhi; [lia|].
      rewrite Hh. change (Qval 511 (-1)) with (511 # 2). lra. }
    assert (Hq0 : (0 <= q)%Z) by (apply Qfloor_nonneg; assumption).
    assert (Hq255 : (q <= 255)%Z).
    { assert (q < 256)%Z; [|lia]. apply Qfloor_lt_Z.
      change (inject_Z 256) with (256 # 1). lra. }
    exists q. split.
    { unfold float_to_u8. rewrite (SFtrunc_Qfloor _ _ Hbnn). fold q.
      destruct (Z.leb_spec 0 q); [|lia]. destruct (Z.leb_spec q 255); [reflexivity|lia]. }
    split; [lia|].
    assert (Hbhi7 : SF2Q (S754_finite false ma ea) + (1 # 2) < pow2 7 ->
              forall t w, (-17 <= w)%Z ->
                SF2Q (S754_finite false ma ea) + (1 # 2) <= Qval t w ->
                SF2Q b <= Qval t w).
    { intros Hsmall.
      destruct (SFadd_rounds 24 128 ltac:(lia) ma 8388608 ea (-24) 7 (-15))
        as (_ & _ & _ & Hhi7).
      { rewrite Hh. exact Hsmall. }
      { lia. }
      { rewrite fexp_eq. lia. }
      { rewrite fexp_eq. lia. }
      fold b in Hhi7. intros t w Hw Htw.
      apply Hhi7; [rewrite fexp_eq; lia|]. rewrite Hh. exact Htw. }
    change (- (1 # 2 ^ 17)) with (- (1 # 131072)) in *.
    change (1 # 2 ^ 17) with (1 # 131072) in *.
    change (pow2 7) with (128 # 1) in *.
    split.
    + (* the byte is not above the half-up rounding by more than the slip *)
      destruct (Qlt_le_dec (P * 255) (inject_Z q - (1 # 2) - (1 # 131072)))
        as [Hbad|Hok]; [exfalso|lra].
      assert (Hq1' : (1 <= q)%Z).
      { destruct (Z.le_gt_cases 1 q) as [|Hq']; [assumption|exfalso].
        assert (inject_Z q <= 0) by (change 0 with (inject_Z 0); rewrite <- Zle_Qle; lia).
        lra. }
      destruct (Qlt_le_dec (P * 255) (128 # 1)) as [Hsmall|Hbig].
      * assert (HG : Qval (q * 2 ^ 17 + -65537) (- 17)
                     == inject_Z q - (1 # 2) - (1 # 131072)).
        { rewrite Qval_int_plus by lia.
          assert (E : Qval (-65537) (- 17) == - (1 # 2) - (1 # 131072)) by reflexivity.
          rewrite E. ring. }
        assert (Ha1 : SF2Q (S754_finite false ma ea)
                      <= inject_Z q - (1 # 2) - (1 # 131072)).
        { rewrite <- HG. apply (Hahi7 Hsmall); [lia|]. rewrite HG. lra. }
        assert (Ha128 : SF2Q (S754_finite false ma ea) <= 128 # 1).
        { change (128 # 1) with (Qval 128 0). apply Hahi; [lia|].
          rewrite H255. change (Qval 128 0) with (128 # 1). lra. }
        assert (Hq128 : (q <= 128)%Z).
        { assert (Hb128 : SF2Q b <= 257 # 2).
          { change (257 # 2) with (Qval 257 (-1)). apply Hbhi; [lia|].
            rewrite Hh. change (Qval 257 (-1)) with (257 # 2). lra. }
          assert (q < 129)%Z; [|lia]. apply Qfloor_lt_Z.
          change (inject_Z 129) with (129 # 1). lra. }
        assert (Hq128' : inject_Z q <= 128 # 1)
          by (change (128 # 1) with (inject_Z 128); rewrite <- Zle_Qle; lia).
        assert (HG2 : Qval (q * 2 ^ 17 + -1) (- 17) == inject_Z q - (1 # 131072)).
        { rewrite Qval_int_plus by lia.
          assert (E : Qval (-1) (- 17) == - (1 # 131072)) by reflexivity.
          rewrite E. ring. }
        assert (Hb1 : SF2Q b <= inject_Z q - (1 # 131072)).
        { rewrite <- HG2. apply Hbhi7; [lra|lia|]. rewrite HG2. lra. }
        lra.
      * destruct (Hgrid Hbig) as (qa & Hqa).
        assert (HG3 : Qval (q * 2 ^ 16 + -32768) (- 16) == inject_Z q - (1 # 2)).
        { rewrite Qval_int_plus by lia.
          assert (E : Qval (-32768) (- 16) == - (1 # 2)) by reflexivity.
          rewrite E. ring. }
        assert (Hlt : Qval qa (-16) < Qval (q * 2 ^ 16 + -32768) (- 16)).
        { rewrite <- Hqa, HG3. lra. }
        apply Qval_lt in Hlt.
        assert (HG4 : Qval (q * 2 ^ 16 + -32769) (- 16)
                      == inject_Z q - (1 # 2) - (1 # 65536)).
        { rewrite Qval_int_plus by lia.
          assert (E : Qval (-32769) (- 16) == - (1 # 2) - (1 # 65536)) by reflexivity.
          rewrite E. ring. }
        assert (Ha1 : SF2Q (S754_finite false ma ea)
                      <= inject_Z q - (1 # 2) - (1 # 65536)).
        { rewrite Hqa, <- HG4. apply Qval_le. lia. }
        assert (HG5 : Qval (q * 2 ^ 16 + -1) (- 16) == inject_Z q - (1 # 65536)).
        { rewrite Qval_int_plus by lia.
          assert (E : Qval (-1) (- 16) == - (1 # 65536)) by reflexivity.
          rewrite E. ring. }
        assert (Hb1 : SF2Q b <= inject_Z q - (1 # 65536)).
        { rewrite <- HG5. apply Hbhi; [lia|]. rewrite Hh, HG5. lra. }
        lra.
    + (* the byte is never below the half-up rounding *)
      destruct (Qlt_le_dec (P * 255) (inject_Z q + (1 # 2))) as [Hok|Hbad];
        [lra|exfalso].
      assert (HG : Qval (q * 2 ^ 1 + 1) (- 1) == inject_Z q + (1 # 2)).
      { rewrite Qval_int_plus by lia.
        assert (E : Qval 1 (- 1) == 1 # 2) by reflexivity.
        rewrite E. ring. }
      assert (Ha1 : inject_Z q + (1 # 2) <= SF2Q (S754_finite false ma ea)).
      { rewrite <- HG. apply Halo; [lia|]. rewrite H255, HG. exact Hbad. }
      assert (Hb1 : inject_Z (q + 1) <= SF2Q b).
      { rewrite inject_Z_Qval. apply Hblo; [lia|].
        rewrite Hh, <- inject_Z_Qval, inject_Z_plus. change (inject_Z 1) with 1. lra. }
      rewrite inject_Z_plus in Hb1. change (inject_Z 1) with 1 in Hb1. lra.
Qed.

Local Close Scope Q_scope.

(** ** Quantizers are defined on every number *)

Lemma SFleb_total_finite (m : positive) (e : Z) (mc : positive) (ec : Z) :
  SFleb (S754_finite false mc ec) (S754_finite false m e) = false ->
  SFleb (S754_finite false m e) (S754_finite false mc ec) = true.
Proof.
  intros H. apply SFleb_finite.
  destruct (SFleb_finite mc ec m e) as [_ Hback].
  destruct (Z.lt_trichotomy e ec) as [?|[->|?]]; [lia| |].
  - destruct (Z.le_gt_cases (Z.pos m) (Z.pos mc)); [lia|].
    rewrite Hback in H by lia. discriminate.
  - rewrite Hback in H by lia. discriminate.
Qed.

Definition is_nan (f : spec_float) : bool :=
  match f with S754_nan => true | _ => false end.

Lemma quantize_damage_pct_total (pct : spec_float) :
  valid_binary 24 128 pct = true -> is_nan pct = false ->
  exists q, quantize_damage_pct pct = Ok q /\ 0 <= q <= 200.
Proof.
  intros Hv Hn. destruct pct as [s|[]| |[] m e]; try discriminate Hn.
  - exists 0. split; [destruct s; reflexivity|lia].
  - exists 0. split; [reflexivity|lia].
  - exists 200. split; [reflexivity|lia].
  - exists 0. split; [reflexivity|lia].
  - unfold quantize_damage_pct.
    change (f32_leb (S754_finite false m e) f32_0) with false. cbv iota.
    destruct (f32_leb f32_100 (S754_finite false m e)) eqn:Hge.
    + exists 200. split; [reflexivity|lia].
    + apply SFleb_total_finite in Hge.
      destruct (quantize_damage_pct_finite m e Hv Hge) as (q & Hq & Hr & _).
      exists q. split; [|exact Hr].
      unfold quantize_damage_pct in Hq.
      change (f32_leb (S754_finite false m e) f32_0) with false in Hq.
      cbv iota in Hq.
      destruct (f32_leb f32_100 (S754_finite false m e)) eqn:Hge'; [|exact Hq].
      unfold f32_leb, f32_100 in Hge'. apply SFleb_finite in Hge'.
      apply SFleb_finite in Hge. injection Hq as <-.
      assert (He : e = -17) by lia. assert (Hm : m = 13107200%positive) by lia.
      subst e m. reflexivity.
Qed.

Lemma quantize_probability_total (p : spec_float) :
  valid_binary 24 128 p = true -> is_nan p = false ->
  exists q, quantize_probability p = Ok q /\ 0 <= q <= 255.
Proof.
  intros Hv Hn. destruct p as [s|[]| |[] m e]; try discriminate Hn.
  - exists 0. split; [destruct s; reflexivity|lia].
  - exists 0. split; [reflexivity|lia].
  - exists 255. split; [reflexivity|lia].
  - exists 0. split; [reflexivity|lia].
  - unfold quantize_probability.
    change (f32_leb (S754_finite false m e) f32_0) with false. cbv iota.
    destruct (f32_leb f32_1 (S754_finite false m e)) eqn:Hge.
    + exists 255. split; [reflexivity|lia].
    + apply SFleb_total_finite in Hge.
      destruct (quantize_probability_finite m e Hv Hge) as (q & Hq & Hr & _).
      exists q. split; [|exact Hr].
      unfold quantize_probability in Hq.
      change (f32_leb (S754_finite false m e) f32_0) with false in Hq.
      cbv iota in Hq.
      destruct (f32_leb f32_1 (S754_finite false m e)) eqn:Hge'; [|exact Hq].
      unfold f32_leb, f32_1 in Hge'. apply SFleb_finite in Hge'.
      apply SFleb_finite in Hge. injection Hq as <-.
      assert (He : e = -23) by lia. assert (Hm : m = 8388608%positive) by lia.
      subst e m. reflexivity.
Qed.

(** * The specification, statement by statement *)

(** ** Terminal codons *)

Lemma coding_length_spec (len frame : Z) :
  coding_length len frame mod 3 = 0 /\
  coding_length len frame <= len - frame < coding_length len frame + 3.
Proof.
  unfold coding_length.
  pose proof (Z.div_mod (len - frame) 3 ltac:(lia)).
  pose proof (Z.mod_pos_bound (len - frame) 3 ltac:(lia)).
  split; [|lia]. rewrite Z.mul_comm. apply Z.mod_mul. lia.
Qed.

Lemma codon_count_range (len frame : Z) : 0 <= codon_count len frame <= 5.
Proof. unfold codon_count. lia. Qed.

Lemma codon_count_fits (len frame j : Z) :
  0 <= j < codon_count len frame ->
  frame + 3 * j + 3 <= len /\
  frame <= frame + coding_length len frame - 3 - 3 * j /\
  frame + coding_length len frame - 3 - 3 * j + 3 <= len.
Proof.
  unfold codon_count. intros Hj.
  pose proof (coding_length_spec len frame) as [_ Hc].
  unfold coding_length in *. lia.
Qed.

Lemma codon_count_stops (len frame : Z) :
  0 <= frame -> codon_count len frame < 5 ->
  len < frame + 3 * codon_count len frame + 3.
Proof.
  unfold codon_count. intros Hf Hn.
  pose proof (coding_length_spec len frame) as [_ Hc].
  unfold coding_length in *. lia.
Qed.

(** C2. Forward strand: the 5' array holds the codons that start at
    [frame], [frame + 3], ... (at most 5, as long as 3 bases remain), the 3'
    array holds the codons that start at [frame + coding_len - 3] and walk
    back by 3 (at most 5), none of them before [frame]; [coding_len] is the
    largest multiple of 3 that is at most [len - frame]. *)
Theorem forward_terminal_codons (dna : string_view) (frame : Z)
    (rec : AgdRecord) :
  size dna < 2 ^ 63 -> 0 <= frame <= 2 ->
  exists rec',
    extract_terminal_codons dna frame false rec = Ok rec' /\
    let len := size dna in
    let n := codon_count len frame in
    let coding_len := coding_length len frame in
    n_5prime rec' = n /\ n_3prime rec' = n /\ 0 <= n <= 5 /\
    (coding_len mod 3 = 0 /\ coding_len <= len - frame < coding_len + 3) /\
    (n < 5 -> len < frame + 3 * n + 3) /\
    (forall j : nat, Z.of_nat j < n ->
       frame + 3 * Z.of_nat j + 3 <= len /\
       codons_5prime rec' !! j = Some (codon_of dna (frame + 3 * Z.of_nat j)) /\
       frame <= frame + coding_len - 3 - 3 * Z.of_nat j /\
       frame + coding_len - 3 - 3 * Z.of_nat j + 3 <= len /\
       codons_3prime rec' !! j
       = Some (codon_of dna (frame + coding_len - 3 - 3 * Z.of_nat j))) /\
    (forall j : nat, n <= Z.of_nat j < 5 ->
       codons_5prime rec' !! j = Some 255 /\ codons_3prime rec' !! j = Some 255).
Proof.
  intros Hlen Hframe.
  destruct (extract_forward_spec dna frame rec Hlen Hframe)
    as (rec' & Hrun & _ & _ & _ & _ & Hn5 & Hn3 & Hin & Hout).
  exists rec'. split; [exact Hrun|]. cbv zeta.
  split; [exact Hn5|]. split; [exact Hn3|].
  split; [apply codon_count_range|].
  split; [apply coding_length_spec|].
  split; [apply codon_count_stops; lia|].
  split; [|exact Hout].
  intros j Hj. destruct (Hin j Hj) as [H5 H3].
  destruct (codon_count_fits (size dna) frame (Z.of_nat j)) as (? & ? & ?); [lia|].
  auto 10.
Qed.

Lemma forward_terminal_codons_witness :
  exists rec',
    extract_terminal_codons (sv "ACGTNACGTACGTAAGGTTCA") 1 false zero_record
    = Ok rec' /\
    let len := size (sv "ACGTNACGTACGTAAGGTTCA") in
    let n := codon_count len 1 in
    let coding_len := coding_length len 1 in
    n_5prime rec' = n /\ n_3prime rec' = n /\ 0 <= n <= 5 /\
    (coding_len mod 3 = 0 /\ coding_len <= len - 1 < coding_len + 3) /\
    (n < 5 -> len < 1 + 3 * n + 3) /\
    (forall j : nat, Z.of_nat j < n ->
       1 + 3 * Z.of_nat j + 3 <= len /\
       codons_5prime rec' !! j
       = Some (codon_of (sv "ACGTNACGTACGTAAGGTTCA") (1 + 3 * Z.of_nat j)) /\
       1 <= 1 + coding_len - 3 - 3 * Z.of_nat j /\
       1 + coding_len - 3 - 3 * Z.of_nat j + 3 <= len /\
       codons_3prime rec' !! j
       = Some (codon_of (sv "ACGTNACGTACGTAAGGTTCA")
                 (1 + coding_len - 3 - 3 * Z.of_nat j))) /\
    (forall j : nat, n <= Z.of_nat j < 5 ->
       codons_5prime rec' !! j = Some 255 /\ codons_3prime rec' !! j = Some 255).
Proof.
  apply (forward_terminal_codons (sv "ACGTNACGTACGTAAGGTTCA") 1 zero_record).
  - vm_compute. reflexivity.
  - lia.
Defined.

Example forward_terminal_codons_example :
  extract_terminal_codons (sv "ACGTNACGTACGTAAGGTTCA") 1 false zero_record
  = Ok (mkRecord 0 0 0 0 0 5 5 0 [28; 255; 50; 28; 43] [48; 43; 28; 50; 255]
          [0; 0; 0] [0; 0; 0]).
Proof. reflexivity. Qed.

(** ** Records *)

(** What is asked of the arguments of [add_record]: the sequence fits in
    memory, the frame is 0, 1 or 2, and the two scores are binary32 numbers
    (not NaN); and of the writer, that it is not finalized. *)
Definition valid_input (gene : Gene) (dna : string_view) : bool :=
  (size dna <? 2 ^ 63) && (0 <=? frame gene) && (frame gene <=? 2) &&
  valid_binary 24 128 (damage_score gene) && negb (is_nan (damage_score gene)) &&
  valid_binary 24 128 (ancient_prob gene) && negb (is_nan (ancient_prob gene)).

Definition add_record_pre (w : DamageIndexWriter) (gene : Gene)
    (dna : string_view) : bool :=
  negb (finalized_ w) && valid_input gene dna.

Lemma add_record_total (w : DamageIndexWriter) (gene : Gene) (dna : string_view) :
  add_record_pre w gene dna = true ->
  exists rec dq pq,
    add_record w gene dna
    = Ok (mkWriter (path_ w) (header_ w) (records_ w ++ [rec]) false) /\
    0 <= dq <= 200 /\ 0 <= pq <= 255 /\
    meta rec = (fnv1a_hash (strip_agp_suffix (read_id gene)),
                Z.min (size dna) 65535,
                encode_frame_strand (frame gene) (negb (is_forward gene)),
                dq, pq, 0) /\
    length (codons_5prime rec) = 5%nat /\
    length (codons_3prime rec) = 5%nat /\
    n_5prime rec = codon_count (size dna) (frame gene) /\
    n_3prime rec = codon_count (size dna) (frame gene) /\
    (forall j : nat, Z.of_nat j < codon_count (size dna) (frame gene) ->
       codons_5prime rec !! j
       = Some (codon_5prime_of dna (frame gene) (negb (is_forward gene)) (Z.of_nat j)) /\
       codons_3prime rec !! j
       = Some (codon_3prime_of dna (frame gene) (negb (is_forward gene)) (Z.of_nat j))) /\
    (forall j : nat, codon_count (size dna) (frame gene) <= Z.of_nat j < 5 ->
       codons_5prime rec !! j = Some 255 /\
       codons_3prime rec !! j = Some 255).
Proof.
  unfold add_record_pre. intros H.
  apply andb_true_iff in H as [Hf H]. apply negb_true_iff in Hf.
  unfold valid_input in H. repeat (apply andb_true_iff in H as [H ?]).
  repeat match goal with
         | Hn : negb _ = true |- _ => apply negb_true_iff in Hn
         | Hl : (_ <? _) = true |- _ => apply Z.ltb_lt in Hl
         | Hl : (_ <=? _) = true |- _ => apply Z.leb_le in Hl
         end.
  destruct (quantize_damage_pct_total (damage_score gene)) as (dq & Hdq & ?);
    try assumption.
  destruct (quantize_probability_total (ancient_prob gene)) as (pq & Hpq & ?);
    try assumption.
  destruct (add_record_spec w gene dna dq pq) as (rec & ? & ? & ?);
    try assumption; [lia|].
  exists rec, dq, pq. auto.
Qed.

Lemma codon_slot_range (dna : string_view) (frame : Z) (is_reverse : bool) (j : Z) :
  let c5 := codon_5prime_of dna frame is_reverse j in
  let c3 := codon_3prime_of dna frame is_reverse j in
  (0 <= c5 <= 63 \/ c5 = 255) /\ (0 <= c3 <= 63 \/ c3 = 255).
Proof.
  unfold codon_5prime_of, codon_3prime_of, codon_of, revcomp_codon_of.
  destruct is_reverse; split; apply encode_codon_range.
Qed.

(** C3. Every record [add_record] produces has [n_5prime] and [n_3prime] at
    most 5; each is the number of codons stored in its array, which fill the
    first entries (each a codon index 0..63, or 255 for a codon with a
    non-ACGT base, which is stored and counted all the same); the entries
    after them are the sentinel 255. *)
Theorem record_codon_counts (w : DamageIndexWriter) (gene : Gene)
    (dna : string_view) :
  add_record_pre w gene dna = true ->
  exists rec,
    add_record w gene dna
    = Ok (mkWriter (path_ w) (header_ w) (records_ w ++ [rec]) false) /\
    0 <= n_5prime rec <= 5 /\ 0 <= n_3prime rec <= 5 /\
    n_5prime rec = codon_count (size dna) (frame gene) /\
    n_3prime rec = codon_count (size dna) (frame gene) /\
    length (codons_5prime rec) = 5%nat /\
    length (codons_3prime rec) = 5%nat /\
    (forall j : nat, Z.of_nat j < n_5prime rec ->
       exists c, codons_5prime rec !! j = Some c /\ (0 <= c <= 63 \/ c = 255) /\
         c = codon_5prime_of dna (frame gene) (negb (is_forward gene)) (Z.of_nat j)) /\
    (forall j : nat, Z.of_nat j < n_3prime rec ->
       exists c, codons_3prime rec !! j = Some c /\ (0 <= c <= 63 \/ c = 255) /\
         c = codon_3prime_of dna (frame gene) (negb (is_forward gene)) (Z.of_nat j)) /\
    (forall j : nat, n_5prime rec <= Z.of_nat j < 5 ->
       codons_5prime rec !! j = Some 255) /\
    (forall j : nat, n_3prime rec <= Z.of_nat j < 5 ->
       codons_3prime rec !! j = Some 255).
Proof.
  intros Hpre.
  destruct (add_record_total w gene dna Hpre)
    as (rec & dq & pq & Hrun & _ & _ & _ & Hl5 & Hl3 & Hn5 & Hn3 & Hin & Hout).
  pose proof (codon_count_range (size dna) (frame gene)) as Hr.
  exists rec. split; [exact Hrun|]. rewrite Hn5, Hn3.
  repeat (split; [first [exact Hl5|exact Hl3|reflexivity|lia]|]).
  split; [|split; [|split]].
  - intros j Hj. destruct (Hin j Hj) as [H5 _]. eexists. split; [exact H5|].
    split; [|reflexivity]. apply codon_slot_range.
  - intros j Hj. destruct (Hin j Hj) as [_ H3]. eexists. split; [exact H3|].
    split; [|reflexivity]. apply codon_slot_range.
  - intros j Hj. now destruct (Hout j Hj).
  - intros j Hj. now destruct (Hout j Hj).
Qed.

(** A gene and a writer for the examples. *)
Definition example_writer : DamageIndexWriter :=
  new_writer "out.agd" (mkProfile 0 0 "single-stranded").

Definition example_gene (id : string) (frame : Z) (is_forward : bool) : Gene :=
  mkGene (sv id) frame is_forward (S754_finite false 13107200 (-19)) f32_0_5.

Lemma record_codon_counts_witness :
  exists rec,
    add_record example_writer (example_gene "read42_+_1" 0 true) (sv "NNNACGT")
    = Ok (mkWriter "out.agd" (header_ example_writer) [rec] false) /\
    0 <= n_5prime rec <= 5 /\ 0 <= n_3prime rec <= 5 /\
    n_5prime rec = 2 /\ n_3prime rec = 2 /\
    length (codons_5prime rec) = 5%nat /\
    length (codons_3prime rec) = 5%nat /\
    (forall j : nat, Z.of_nat j < n_5prime rec ->
       exists c, codons_5prime rec !! j = Some c /\ (0 <= c <= 63 \/ c = 255) /\
         c = codon_5prime_of (sv "NNNACGT") 0 false (Z.of_nat j)) /\
    (forall j : nat, Z.of_nat j < n_3prime rec ->
       exists c, codons_3prime rec !! j = Some c /\ (0 <= c <= 63 \/ c = 255) /\
         c = codon_3prime_of (sv "NNNACGT") 0 false (Z.of_nat j)) /\
    (forall j : nat, n_5prime rec <= Z.of_nat j < 5 ->
       codons_5prime rec !! j = Some 255) /\
    (forall j : nat, n_3prime rec <= Z.of_nat j < 5 ->
       codons_3prime rec !! j = Some 255).
Proof.
  apply (record_codon_counts example_writer (example_gene "read42_+_1" 0 true)
           (sv "NNNACGT")).
  vm_compute. reflexivity.
Defined.

(** A codon with a non-ACGT base is stored as 255 and counted. *)
Example sentinel_is_counted :
  exists w rec,
    add_record example_writer (example_gene "read42_+_1" 0 true) (sv "NNNACGT")
    = Ok w /\ records_ w = [rec] /\
    n_5prime rec = 2 /\ codons_5prime rec = [255; 39; 255; 255; 255].
Proof. eexists _, _. vm_compute. repeat split. Qed.

(** C10. The stored [seq_len] is the sequence length capped at 65535. *)
Theorem seq_len_saturates (w : DamageIndexWriter) (gene : Gene)
    (dna : string_view) :
  add_record_pre w gene dna = true ->
  exists rec,
    add_record w gene dna
    = Ok (mkWriter (path_ w) (header_ w) (records_ w ++ [rec]) false) /\
    seq_len rec = Z.min (size dna) 65535 /\
    (65535 < size dna -> seq_len rec = 65535).
Proof.
  intros Hpre.
  destruct (add_record_total w gene dna Hpre)
    as (rec & dq & pq & Hrun & _ & _ & Hm & _).
  exists rec. split; [exact Hrun|].
  assert (Hs : seq_len rec = Z.min (size dna) 65535).
  { unfold meta in Hm. now injection Hm as _ -> _ _ _ _. }
  split; [exact Hs|]. intros. lia.
Qed.

Definition long_dna : string_view := replicate (Z.to_nat 70000) "A"%char.

Lemma seq_len_saturates_witness :
  exists rec,
    add_record example_writer (example_gene "r" 0 true)
      long_dna
    = Ok (mkWriter "out.agd" (header_ example_writer) [rec] false) /\
    seq_len rec = Z.min (size long_dna) 65535 /\
    (65535 < size long_dna -> seq_len rec = 65535).
Proof.
  apply (seq_len_saturates example_writer (example_gene "r" 0 true)
           long_dna).
  vm_compute. reflexivity.
Defined.

(** ** The key of a record *)

Lemma find_loop_found (fuel : nat) (r : DamageIndexReader) (nb nr hash : Z)
    (rec_idx idx : Z) (rec : AgdRecord) :
  find_loop fuel r nb nr hash rec_idx = Found idx rec ->
  id_hash rec = hash /\ record_at r nb idx = Ok rec /\ idx < nr.
Proof.
  revert rec_idx. induction fuel as [|fuel IH]; intros rec_idx; simpl.
  - destruct (_ && _); discriminate.
  - destruct (negb (rec_idx =? EMPTY) && (rec_idx <? nr)) eqn:Hc;
      [|discriminate].
    destruct (record_at r nb rec_idx) as [rec0| |] eqn:Hrec; try discriminate.
    destruct (id_hash rec0 =? hash) eqn:Hh.
    + intros [= <- <-]. apply Z.eqb_eq in Hh.
      apply andb_true_iff in Hc as [_ Hlt]. apply Z.ltb_lt in Hlt.
      auto.
    + destruct (load 4 r _) as [next| |]; try discriminate. apply IH.
Qed.

Lemma find_found_hash (fuel : nat) (r : DamageIndexReader) (id : string_view)
    (idx : Z) (rec : AgdRecord) :
  find fuel r id = Found idx rec ->
  id_hash rec = fnv1a_hash (strip_agp_suffix id).
Proof.
  unfold find.
  destruct (hdr_num_buckets r) as [nb| |]; try discriminate.
  destruct (hdr_num_records r) as [nr| |]; try discriminate.
  destruct (nb =? 0); [discriminate|].
  destruct (load 4 r _) as [rec_idx| |]; try discriminate.
  intros H. apply find_loop_found in H. tauto.
Qed.

Lemma find_by_key (fuel : nat) (r : DamageIndexReader) (id id' : string_view) :
  fnv1a_hash (strip_agp_suffix id) = fnv1a_hash (strip_agp_suffix id') ->
  find fuel r id = find fuel r id'.
Proof. unfold find. now intros ->. Qed.

(** The hash of a short identifier, and the key of a record added under an
    identifier that carries a suffix. *)
Example fnv1a_hash_a : fnv1a_hash (sv "a") = 0xaf63dc4c8601ec8c.
Proof. reflexivity. Qed.

Example add_record_key :
  exists w rec,
    add_record example_writer (example_gene "read42_-_2" 2 false) (sv "ACGTACGT")
    = Ok w /\ records_ w = [rec] /\
    id_hash rec = fnv1a_hash (sv "read42").
Proof. eexists _, _. vm_compute. repeat split. Qed.

(** ** The number of buckets *)

(** Rounding half up, and the bucket count as the specification words it:
    [round(n * 1.33) + 1] on the exact product. *)
Definition round_half_up (x : Q) : Z := Qfloor (x + (1 # 2)).

Definition rounded_bucket_count (n : Z) : Z :=
  round_half_up (inject_Z n * (133 # 100)) + 1.

Lemma rounded_bucket_count_eq (n : Z) :
  rounded_bucket_count n = (2 * 133 * n + 100) / 200 + 1.
Proof.
  unfold rounded_bucket_count, round_half_up. f_equal.
  assert (E : (inject_Z n * (133 # 100) + (1 # 2) == (2 * 133 * n + 100) # 200)%Q).
  { unfold Qeq, Qmult, Qplus, inject_Z. simpl. lia. }
  rewrite E. reflexivity.
Qed.

Lemma floor_or_round (n : Z) :
  0 <= n ->
  n * 133 / 100 + 1 = rounded_bucket_count n \/
  n * 133 / 100 + 1 = rounded_bucket_count n - 1.
Proof.
  intros Hn. rewrite rounded_bucket_count_eq.
  pose proof (Z.div_mod (n * 133) 100 ltac:(lia)) as E1.
  pose proof (Z.mod_pos_bound (n * 133) 100 ltac:(lia)) as B1.
  pose proof (Z.div_mod (2 * 133 * n + 100) 200 ltac:(lia)) as E2.
  pose proof (Z.mod_pos_bound (2 * 133 * n + 100) 200 ltac:(lia)) as B2.
  lia.
Qed.

Lemma finalize_file (w : DamageIndexWriter) (nb : Z) :
  finalized_ w = false -> 1 <= size (records_ w) < 2 ^ 64 ->
  bucket_count (size (records_ w)) = Ok nb -> nb <> 0 ->
  exists buckets next_chain,
    let n := size (records_ w) in
    let h := header_ w in
    let h' := mkHeader (magic h) (version h) n nb (d_max h)
                (lambda h) (library_type h) in
    build_table (records_ w) 0 nb
      (replicate (Z.to_nat nb) (mkBucket EMPTY EMPTY))
      (replicate (Z.to_nat n) EMPTY) = (buckets, next_chain) /\
    finalize true true w
    = Ok (mkWriter (path_ w) h' (records_ w) true,
          File (file_bytes h' buckets (records_ w) next_chain)).
Proof.
  intros Hf Hn Hnb Hnz. unfold finalize. rewrite Hf.
  destruct (records_ w) as [|r0 rs] eqn:Hrecs.
  { unfold size in Hn. simpl in Hn. lia. }
  rewrite <- Hrecs in *. clear r0 rs Hrecs.
  rewrite Hnb. cbn [res_bind].
  rewrite wrap64_small by lia.
  destruct (Z.eqb_spec nb 0) as [E|_]; [contradiction|].
  destruct (build_table _ _ _ _ _) as [buckets next_chain].
  exists buckets, next_chain. split; reflexivity.
Qed.

Lemma finalize_header (w : DamageIndexWriter) :
  finalized_ w = false -> 1 <= size (records_ w) < 2 ^ 32 ->
  exists buckets next_chain,
    let n := size (records_ w) in
    let h := header_ w in
    let h' := mkHeader (magic h) (version h) n (n * 133 / 100 + 1) (d_max h)
                (lambda h) (library_type h) in
    build_table (records_ w) 0 (n * 133 / 100 + 1)
      (replicate (Z.to_nat (n * 133 / 100 + 1)) (mkBucket EMPTY EMPTY))
      (replicate (Z.to_nat n) EMPTY) = (buckets, next_chain) /\
    finalize true true w
    = Ok (mkWriter (path_ w) h' (records_ w) true,
          File (file_bytes h' buckets (records_ w) next_chain)).
Proof.
  intros Hf Hn.
  assert (Hnb : 0 < size (records_ w) * 133 / 100 + 1).
  { pose proof (Z.div_pos (size (records_ w) * 133) 100). lia. }
  apply finalize_file; [exact Hf|lia|now apply bucket_count_exact|lia].
Qed.

Lemma le_bytes_length (n : nat) (v : Z) : length (le_bytes n v) = n.
Proof. revert v. induction n as [|n IH]; intros v; simpl; [|rewrite IH]; reflexivity. Qed.

Lemma header_bytes_length (h : AgdHeader) : length (header_bytes h) = 64%nat.
Proof.
  unfold header_bytes. rewrite !length_app, !le_bytes_length. reflexivity.
Qed.

Lemma file_bytes_header (h : AgdHeader) (buckets : list AgdBucket)
    (records : list AgdRecord) (next_chain : list Z) :
  take 64 (file_bytes h buckets records next_chain) = header_bytes h.
Proof.
  unfold file_bytes. apply take_app_length'. exact (header_bytes_length h).
Qed.

(** C6 (amended). For a writer holding [n] records,
    [1 <= n < 52908830208803], [finalize] writes a header whose
    [num_buckets] is [floor(n * 1.33) + 1], the double [n * 1.33 + 1]
    truncated; this is [round(n * 1.33) + 1] or one less. The bound is the
    first count at which the double product is rounded up to the next
    integer. *)
Theorem bucket_count_formula (w : DamageIndexWriter) :
  finalized_ w = false -> 1 <= size (records_ w) < 52908830208803 ->
  exists w' bytes,
    finalize true true w = Ok (w', File bytes) /\
    take 64 bytes = header_bytes (header_ w') /\
    num_records (header_ w') = size (records_ w) /\
    num_buckets (header_ w') = size (records_ w) * 133 / 100 + 1 /\
    (num_buckets (header_ w') = rounded_bucket_count (size (records_ w)) \/
     num_buckets (header_ w') = rounded_bucket_count (size (records_ w)) - 1).
Proof.
  intros Hf Hn.
  assert (Hnb : 0 < size (records_ w) * 133 / 100 + 1).
  { pose proof (Z.div_pos (size (records_ w) * 133) 100). lia. }
  destruct (finalize_file w (size (records_ w) * 133 / 100 + 1) Hf)
    as (buckets & next_chain & _ & Hfin);
    [lia|now apply bucket_count_floor|lia|].
  cbv zeta in Hfin. eexists _, _. split; [exact Hfin|].
  cbn [header_ num_records num_buckets].
  split; [apply file_bytes_header|]. split; [reflexivity|]. split; [reflexivity|].
  apply floor_or_round. lia.
Qed.

(** Two records under different identifiers. *)
Definition two_records : res DamageIndexWriter :=
  do w1 <- add_record example_writer (example_gene "read1_+_0" 0 true)
             (sv "ATGACCGTTAAGCTGCGTTTT");
  add_record w1 (example_gene "read2_-_1" 1 false) (sv "GATTACAGATTACAGATTACA").

Lemma bucket_count_formula_witness :
  exists w, two_records = Ok w /\
  exists w' bytes,
    finalize true true w = Ok (w', File bytes) /\
    take 64 bytes = header_bytes (header_ w') /\
    num_records (header_ w') = size (records_ w) /\
    num_buckets (header_ w') = size (records_ w) * 133 / 100 + 1 /\
    (num_buckets (header_ w') = rounded_bucket_count (size (records_ w)) \/
     num_buckets (header_ w') = rounded_bucket_count (size (records_ w)) - 1).
Proof.
  eexists. split; [vm_compute; reflexivity|].
  apply bucket_count_formula; [reflexivity|vm_compute; split; [discriminate|reflexivity]].
Defined.

(** C6 (as stated, refuted). With two records the header holds 3 buckets
    where rounding gives 4. Nor does the formula with the floor hold for
    every count: a writer that holds 52908830208803 records is given
    70368744177709 buckets, one more than [floor(n * 1.33) + 1]. *)
Lemma two_records_three_buckets :
  (exists w w' bytes,
     two_records = Ok w /\ size (records_ w) = 2 /\
     finalize true true w = Ok (w', File bytes) /\
     num_buckets (header_ w') = 3 /\
     le_value (take 8 (drop 16 bytes)) = 3 /\
     rounded_bucket_count 2 = 4) /\
  (forall w : DamageIndexWriter,
     finalized_ w = false -> size (records_ w) = 52908830208803 ->
     exists w' bytes,
       finalize true true w = Ok (w', File bytes) /\
       num_buckets (header_ w') = 70368744177709 /\
       size (records_ w) * 133 / 100 + 1 = 70368744177708).
Proof.
  split.
  - eexists _, _, _.
    repeat (split; [vm_compute; reflexivity|]). vm_compute; reflexivity.
  - intros w Hf Hn.
    destruct (finalize_file w 70368744177709 Hf) as (buckets & next_chain & _ & Hfin);
      [rewrite Hn; lia|rewrite Hn; apply bucket_count_first_failure|lia|].
    cbv zeta in Hfin. eexists _, _. split; [exact Hfin|].
    split; [reflexivity|]. rewrite Hn. reflexivity.
Qed.

(** ** Quantization *)

Local Open Scope Q_scope.







(** The binary32 number below 1/4 by 2^-26, and its round trip. *)
Definition pct_below_quarter : spec_float := S754_finite false 16777215 (-26).

(** The slip of the percentage quantizer. The percentage 0.25 - 2^-26 lies
    in [0,100]; twice it plus 0.5 is 1 - 2^-25, which binary32 rounds to 1,
    so it quantizes to 1 where [round(damage_pct * 2.0)], the comment of the
    record's field, gives 0, and comes back as 0.5. *)
Lemma damage_pct_off_by_more_than_quarter :
  valid_binary 24 128 pct_below_quarter = true /\
  SFleb f32_0 pct_below_quarter = true /\
  SFleb pct_below_quarter f32_100 = true /\
  SF2Q pct_below_quarter == (1 # 4) - (1 # 2 ^ 26) /\
  quantize_damage_pct pct_below_quarter = Ok 1%Z /\
  round_half_up (2 * SF2Q pct_below_quarter) = 0%Z /\
  SF2Q (dequantize_damage_pct 1) == 1 # 2 /\
  (1 # 4) < Qabs (SF2Q (dequantize_damage_pct 1) - SF2Q pct_below_quarter).
Proof.
  repeat (split; [vm_compute; reflexivity|]). vm_compute; reflexivity.
Qed.



(** Round trips of a percentage and of a probability, and a tie. *)
Example quantize_examples :
  quantize_damage_pct (S754_finite false 13107200 (-19)) = Ok 50%Z /\
  SF2Q (dequantize_damage_pct 50) == 25 /\
  quantize_damage_pct (S754_finite false 8388608 (-25)) = Ok 1%Z /\
  quantize_probability (S754_finite false 13421773 (-24)) = Ok 204%Z /\
  quantize_damage_pct (S754_infinity true) = Ok 0%Z /\
  quantize_probability (S754_infinity false) = Ok 255%Z /\
  quantize_damage_pct S754_nan = Undefined.
Proof. repeat (split; [vm_compute; reflexivity|]). vm_compute; reflexivity. Qed.

Local Close Scope Q_scope.

(** ** The detector *)

(** The site one position of one codon contributes, if any. *)
Definition hit_5prime (expf : spec_float -> spec_float)
    (d_max lambda : spec_float) (i codon nt_pos : Z) : option DamageSite :=
  if f32_ltb (p_damage expf d_max lambda (i * 3 + nt_pos)) P_THRESHOLD then None
  else if observed_nt_of codon nt_pos =? 0 then
    Some (mkSite i nt_pos "T" "C" (is_ct_synonymous codon nt_pos))
  else None.

Definition hit_3prime (expf : spec_float -> spec_float)
    (d_max lambda : spec_float) (i codon nt_pos : Z) : option DamageSite :=
  if f32_ltb (p_damage expf d_max lambda (i * 3 + (2 - nt_pos))) P_THRESHOLD
  then None
  else if observed_nt_of codon nt_pos =? 2 then
    Some (mkSite i nt_pos "A" "G" (is_ga_synonymous codon nt_pos))
  else None.

Definition flag_ok (r : SynonymousDamageResult) : Prop :=
  has_synonymous_damage r = existsb is_synonymous (sites r).

Lemma record_5prime_sites site r : sites (record_5prime site r) = sites r ++ [site].
Proof. unfold record_5prime. now destruct (is_synonymous site). Qed.

Lemma record_3prime_sites site r : sites (record_3prime site r) = sites r ++ [site].
Proof. unfold record_3prime. now destruct (is_synonymous site). Qed.

Lemma record_5prime_flag site r : flag_ok r -> flag_ok (record_5prime site r).
Proof.
  unfold flag_ok, record_5prime. intros H.
  destruct (is_synonymous site) eqn:E; cbn [has_synonymous_damage sites];
    rewrite existsb_app; cbn [existsb]; rewrite E, ?H;
    now rewrite ?orb_true_r, ?orb_false_r.
Qed.

Lemma record_3prime_flag site r : flag_ok r -> flag_ok (record_3prime site r).
Proof.
  unfold flag_ok, record_3prime. intros H.
  destruct (is_synonymous site) eqn:E; cbn [has_synonymous_damage sites];
    rewrite existsb_app; cbn [existsb]; rewrite E, ?H;
    now rewrite ?orb_true_r, ?orb_false_r.
Qed.

Lemma In_option_list {A} (o : option A) (x : A) : In x (option_list o) <-> o = Some x.
Proof.
  destruct o as [y|]; simpl; [|split; [tauto|discriminate]].
  split; [intros [->|[]]; reflexivity|intros [= ->]; auto].
Qed.

Section Loops.

Variable step : spec_float -> spec_float -> Z -> Z -> Z ->
                SynonymousDamageResult -> SynonymousDamageResult.
Variable hit : spec_float -> spec_float -> Z -> Z -> Z -> option DamageSite.
Hypothesis step_sites : forall d l i c k r,
  sites (step d l i c k r) = sites r ++ option_list (hit d l i c k).
Hypothesis step_flag : forall d l i c k r,
  flag_ok r -> flag_ok (step d l i c k r).

Variable codons : list Z.
Variable n : Z.
Variables d_max lambda : spec_float.

(** The sites codon [j] contributes. *)
Definition contributes (j : Z) (s : DamageSite) : Prop :=
  exists c k, codons !! Z.to_nat j = Some c /\ c <= 63 /\ 0 <= k <= 2 /\
    hit d_max lambda j c k = Some s.

Lemma codon_round_sites i r r' s :
  codon_round step codons d_max lambda i r = Ok r' ->
  In s (sites r') <-> In s (sites r) \/ contributes i s.
Proof.
  unfold codon_round, contributes.
  destruct (codons !! Z.to_nat i) as [c|]; [|discriminate].
  destruct (Z.ltb_spec 63 c) as [Hc|Hc]; intros [= <-].
  - split; [auto|]. intros [H|(c' & k & [= <-] & ? & _)]; [exact H|lia].
  - rewrite !step_sites, !in_app_iff, !In_option_list. split.
    + intros [[[H|H]|H]|H]; [auto| | |]; right; exists c;
        [exists 0|exists 1|exists 2]; (split; [reflexivity|]);
        (split; [lia|]); (split; [lia|exact H]).
    + intros [H|(c' & k & [= <-] & _ & Hk & H)]; [auto|].
      assert (k = 0 \/ k = 1 \/ k = 2) as [->|[->| ->]] by lia; auto.
Qed.

Lemma codon_round_flag i r r' :
  codon_round step codons d_max lambda i r = Ok r' -> flag_ok r -> flag_ok r'.
Proof.
  unfold codon_round.
  destruct (codons !! Z.to_nat i) as [c|]; [|discriminate].
  destruct (63 <? c); intros [= <-]; auto.
Qed.

Lemma codon_loop_sites fuel i r r' s :
  n - i <= Z.of_nat fuel ->
  codon_loop step fuel codons n d_max lambda i r = Ok r' ->
  In s (sites r') <-> In s (sites r) \/ exists j, i <= j < n /\ contributes j s.
Proof.
  revert i r. induction fuel as [|fuel IH]; intros i r Hfuel; simpl.
  - intros [= <-]. split; [auto|]. intros [H|(j & Hj & _)]; [exact H|lia].
  - destruct (Z.ltb_spec i n) as [Hi|Hi].
    + destruct (codon_round step codons d_max lambda i r) as [r1| |] eqn:Hr;
        try discriminate.
      cbn [res_bind]. intros Hloop.
      rewrite (IH (i + 1) r1 ltac:(lia) Hloop), (codon_round_sites _ _ _ _ Hr).
      split.
      * intros [[H|H]|(j & Hj & H)]; [auto| |]; right;
          [exists i|exists j]; (split; [lia|exact H]).
      * intros [H|(j & Hj & H)]; [auto|].
        destruct (Z.eq_dec j i) as [->|Hne]; [auto|].
        right. exists j. split; [lia|exact H].
    + intros [= <-]. split; [auto|]. intros [H|(j & Hj & _)]; [exact H|lia].
Qed.

Lemma codon_loop_flag fuel i r r' :
  codon_loop step fuel codons n d_max lambda i r = Ok r' -> flag_ok r -> flag_ok r'.
Proof.
  revert i r. induction fuel as [|fuel IH]; intros i r; simpl.
  - now intros [= <-].
  - destruct (i <? n); [|now intros [= <-]].
    destruct (codon_round step codons d_max lambda i r) as [r1| |] eqn:Hr;
      try discriminate.
    cbn [res_bind]. intros Hloop Hf.
    apply (IH _ _ Hloop). now apply (codon_round_flag _ _ _ Hr).
Qed.

Lemma codon_loop_total fuel i r :
  0 <= i -> n <= Z.of_nat (length codons) ->
  exists r', codon_loop step fuel codons n d_max lambda i r = Ok r'.
Proof.
  revert i r. induction fuel as [|fuel IH]; intros i r Hi Hn; simpl; [eauto|].
  destruct (Z.ltb_spec i n) as [Hlt|Hge]; [|eauto].
  unfold codon_round.
  destruct (lookup_lt_is_Some_2 codons (Z.to_nat i) ltac:(lia)) as [c ->].
  destruct (63 <? c); cbn [res_bind]; apply IH; lia.
Qed.

End Loops.

Lemma step_5prime_sites expf d l i c k r :
  sites (step_5prime expf d l i c k r)
  = sites r ++ option_list (hit_5prime expf d l i c k).
Proof.
  unfold step_5prime, hit_5prime.
  destruct (f32_ltb _ _); [now rewrite app_nil_r|].
  destruct (_ =? 0); [apply record_5prime_sites|now rewrite app_nil_r].
Qed.

Lemma step_3prime_sites expf d l i c k r :
  sites (step_3prime expf d l i c k r)
  = sites r ++ option_list (hit_3prime expf d l i c k).
Proof.
  unfold step_3prime, hit_3prime.
  destruct (f32_ltb _ _); [now rewrite app_nil_r|].
  destruct (_ =? 2); [apply record_3prime_sites|now rewrite app_nil_r].
Qed.

Lemma step_5prime_flag expf d l i c k r :
  flag_ok r -> flag_ok (step_5prime expf d l i c k r).
Proof.
  unfold step_5prime. destruct (f32_ltb _ _); [auto|].
  destruct (_ =? 0); [apply record_5prime_flag|auto].
Qed.

Lemma step_3prime_flag expf d l i c k r :
  flag_ok r -> flag_ok (step_3prime expf d l i c k r).
Proof.
  unfold step_3prime. destruct (f32_ltb _ _); [auto|].
  destruct (_ =? 2); [apply record_3prime_flag|auto].
Qed.

(** What [detect_synonymous_damage] returns on a record whose counts fit its
    arrays: the sites are those the codons of the two arrays contribute, and
    the flag says whether one of them is synonymous. *)
Lemma detect_synonymous_damage_spec expf rec d_max lambda :
  0 <= n_5prime rec <= 5 -> 0 <= n_3prime rec <= 5 ->
  length (codons_5prime rec) = 5%nat -> length (codons_3prime rec) = 5%nat ->
  exists result,
    detect_synonymous_damage expf rec d_max lambda = Ok result /\
    has_synonymous_damage result = existsb is_synonymous (sites result) /\
    forall s, In s (sites result) <->
      (exists j, 0 <= j < n_5prime rec /\
         contributes (hit_5prime expf) (codons_5prime rec) d_max lambda j s) \/
      (exists j, 0 <= j < n_3prime rec /\
         contributes (hit_3prime expf) (codons_3prime rec) d_max lambda j s).
Proof.
  intros H5 H3 L5 L3. unfold detect_synonymous_damage.
  destruct (codon_loop_total (step_5prime expf) (codons_5prime rec)
              (n_5prime rec) d_max lambda (Z.to_nat (n_5prime rec)) 0
              empty_result ltac:(lia) ltac:(lia)) as [r1 Hr1].
  rewrite Hr1. cbn [res_bind].
  destruct (codon_loop_total (step_3prime expf) (codons_3prime rec)
              (n_3prime rec) d_max lambda (Z.to_nat (n_3prime rec)) 0
              r1 ltac:(lia) ltac:(lia)) as [r2 Hr2].
  exists r2. split; [exact Hr2|]. split.
  - apply (codon_loop_flag _ (step_3prime_flag expf) _ _ _ _ _ _ _ _ Hr2).
    apply (codon_loop_flag _ (step_5prime_flag expf) _ _ _ _ _ _ _ _ Hr1).
    reflexivity.
  - intros s.
    pose proof (fun H => codon_loop_sites _ _ (step_3prime_sites expf)
                          _ _ _ _ _ _ _ _ s H Hr2) as E2.
    pose proof (fun H => codon_loop_sites _ _ (step_5prime_sites expf)
                          _ _ _ _ _ _ _ _ s H Hr1) as E1.
    rewrite E2, E1 by lia.
    cbn [sites empty_result In]. tauto.
Qed.

Lemma hit_5prime_Some expf d l i c k s :
  hit_5prime expf d l i c k = Some s <->
  f32_ltb (p_damage expf d l (i * 3 + k)) P_THRESHOLD = false /\
  observed_nt_of c k = 0 /\
  s = mkSite i k "T" "C" (is_ct_synonymous c k).
Proof.
  unfold hit_5prime. destruct (f32_ltb _ _).
  - split; [discriminate|]. now intros [? _].
  - destruct (Z.eqb_spec (observed_nt_of c k) 0) as [E|E].
    + split; [now intros [= <-]|]. now intros (_ & _ & ->).
    + split; [discriminate|]. now intros (_ & ? & _).
Qed.

Lemma hit_3prime_observed expf d l i c k s :
  hit_3prime expf d l i c k = Some s -> observed_nt s = "A"%char.
Proof.
  unfold hit_3prime. destruct (f32_ltb _ _); [discriminate|].
  destruct (_ =? 2); [|discriminate]. now intros [= <-].
Qed.

(** A record with one 5' codon, TTT; with [d_max = 1] and [lambda = 0]
    every position has damage probability 1. *)
Definition ttt_record : AgdRecord :=
  mkRecord 0 3 0 0 0 1 0 0 [0; 255; 255; 255; 255] (replicate 5 255)
    (replicate 3 0) (replicate 3 0).

(** [std::exp] where the examples need it: with [lambda = 0] every exponent
    is a zero, where the exponential is 1. *)
Definition exp_at_zero (x : spec_float) : spec_float :=
  match x with
  | S754_zero _ => f32_1
  | _ => S754_nan
  end.

(** C4 (as stated, refuted). On a record whose only 5' codon is TTT, with
    damage probability 1 at every position, the detector records three
    C-to-T sites: positions 0 and 1 as non-synonymous (CTT is Leu, TCT is
    Ser) and position 2 as synonymous. *)
Lemma ttt_position_0_is_recorded :
  encode_codon "T" "T" "T" = 0 /\
  f32_ltb (p_damage exp_at_zero f32_1 f32_0 0) P_THRESHOLD = false /\
  detect_synonymous_damage exp_at_zero ttt_record f32_1 f32_0
  = Ok (mkResult true 1 0 2 0
          [mkSite 0 0 "T" "C" false; mkSite 0 1 "T" "C" false;
           mkSite 0 2 "T" "C" true]) /\
  (exists result,
     detect_synonymous_damage exp_at_zero ttt_record f32_1 f32_0 = Ok result /\
     In (mkSite 0 0 "T" "C" false) (sites result)).
Proof.
  split; [reflexivity|]. split; [reflexivity|]. split; [reflexivity|].
  eexists. split; [reflexivity|]. simpl. auto.
Qed.

(** C4 (amended). On a record whose counts fit its arrays, wherever the
    damage probability is not below 0.05: a 5' codon TTT (index 0) has its
    three positions recorded as C-to-T sites, position 2 as synonymous (TTC
    is Phe too) and positions 0 and 1 as non-synonymous; a 5' codon TAT
    (index 8) has position 2 recorded as synonymous (TAC is Tyr too),
    position 0 as non-synonymous and position 1, an A, not at all. Every
    C-to-T site recorded is a position of a 5' codon where a T is observed,
    and a synonymous site sets [has_synonymous_damage]. *)
Theorem detector_worked_example (expf : spec_float -> spec_float)
    (rec : AgdRecord) (d_max lambda : spec_float) :
  0 <= n_5prime rec <= 5 -> 0 <= n_3prime rec <= 5 ->
  length (codons_5prime rec) = 5%nat -> length (codons_3prime rec) = 5%nat ->
  (encode_codon "T" "T" "T", encode_codon "T" "T" "C") = (0, 1) /\
  (encode_codon "T" "A" "T", encode_codon "T" "A" "C") = (8, 9) /\
  (aa_of 0, aa_of 1, aa_of 8, aa_of 9) = ("F", "F", "Y", "Y")%char /\
  exists result,
    detect_synonymous_damage expf rec d_max lambda = Ok result /\
    (forall i k, 0 <= i < n_5prime rec -> 0 <= k <= 2 ->
       f32_ltb (p_damage expf d_max lambda (i * 3 + k)) P_THRESHOLD = false ->
       (codons_5prime rec !! Z.to_nat i = Some 0 ->
        In (mkSite i k "T" "C" (k =? 2)) (sites result)) /\
       (codons_5prime rec !! Z.to_nat i = Some 8 -> k <> 1 ->
        In (mkSite i k "T" "C" (k =? 2)) (sites result))) /\
    (forall i syn, codons_5prime rec !! Z.to_nat i = Some 8 ->
       ~ In (mkSite i 1 "T" "C" syn) (sites result)) /\
    (forall s, In s (sites result) -> observed_nt s = "T"%char ->
       exists c,
         0 <= codon_idx s < n_5prime rec /\ 0 <= nt_position s <= 2 /\
         codons_5prime rec !! Z.to_nat (codon_idx s) = Some c /\
         c <= 63 /\
         observed_nt_of c (nt_position s) = 0 /\
         f32_ltb (p_damage expf d_max lambda
                    (codon_idx s * 3 + nt_position s)) P_THRESHOLD = false /\
         expected_nt s = "C"%char /\
         is_synonymous s = is_ct_synonymous c (nt_position s)) /\
    (forall s, In s (sites result) -> is_synonymous s = true ->
       has_synonymous_damage result = true).
Proof.
  intros H5 H3 L5 L3.
  split; [reflexivity|]. split; [reflexivity|]. split; [reflexivity|].
  destruct (detect_synonymous_damage_spec expf rec d_max lambda H5 H3 L5 L3)
    as (result & Hrun & Hflag & Hsites).
  exists result. split; [exact Hrun|].
  assert (Hback : forall s, In s (sites result) -> observed_nt s = "T"%char ->
            exists c,
              0 <= codon_idx s < n_5prime rec /\ 0 <= nt_position s <= 2 /\
              codons_5prime rec !! Z.to_nat (codon_idx s) = Some c /\
              c <= 63 /\
              observed_nt_of c (nt_position s) = 0 /\
              f32_ltb (p_damage expf d_max lambda
                         (codon_idx s * 3 + nt_position s)) P_THRESHOLD = false /\
              expected_nt s = "C"%char /\
              is_synonymous s = is_ct_synonymous c (nt_position s)).
  { intros s Hin Hobs. apply Hsites in Hin.
    destruct Hin as [(j & Hj & c & k & Hc & Hc63 & Hk & Hhit)
                    |(j & Hj & c & k & Hc & Hc63 & Hk & Hhit)].
    - apply hit_5prime_Some in Hhit as (Hp & Ho & ->). exists c.
      cbn [codon_idx nt_position expected_nt is_synonymous]. auto 10.
    - apply hit_3prime_observed in Hhit. rewrite Hhit in Hobs. discriminate. }
  split; [|split; [|split; [|]]].
  - intros i k Hi Hk Hp. split.
    + intros Hc. apply Hsites. left. exists i. split; [exact Hi|].
      exists 0, k. split; [exact Hc|]. split; [lia|]. split; [exact Hk|].
      apply hit_5prime_Some. split; [exact Hp|].
      assert (k = 0 \/ k = 1 \/ k = 2) as [->|[->| ->]] by lia;
        split; reflexivity.
    + intros Hc Hk1. apply Hsites. left. exists i. split; [exact Hi|].
      exists 8, k. split; [exact Hc|]. split; [lia|]. split; [exact Hk|].
      apply hit_5prime_Some. split; [exact Hp|].
      assert (k = 0 \/ k = 2) as [->| ->] by lia; split; reflexivity.
  - intros i syn Hc Hin.
    destruct (Hback _ Hin eq_refl) as (c & _ & _ & Hc' & _ & Ho & _).
    cbn [codon_idx nt_position] in Hc', Ho.
    rewrite Hc in Hc'. injection Hc' as <-. discriminate Ho.
  - exact Hback.
  - intros s Hin Hsyn. rewrite Hflag. apply existsb_exists. eauto.
Qed.

(** A record whose 5' codons are TTT and TAT. *)
Definition ttt_tat_record : AgdRecord :=
  mkRecord 0 6 0 0 0 2 0 0 [0; 8; 255; 255; 255] (replicate 5 255)
    (replicate 3 0) (replicate 3 0).

Lemma detector_worked_example_witness :
  exists result,
    detect_synonymous_damage exp_at_zero ttt_tat_record f32_1 f32_0 = Ok result /\
    In (mkSite 0 2 "T" "C" true) (sites result) /\
    In (mkSite 1 2 "T" "C" true) (sites result) /\
    In (mkSite 0 0 "T" "C" false) (sites result) /\
    has_synonymous_damage result = true.
Proof.
  destruct (detector_worked_example exp_at_zero ttt_tat_record f32_1 f32_0)
    as (_ & _ & _ & result & Hrun & Hin & _ & _ & Hflag);
    [simpl; lia|simpl; lia|reflexivity|reflexivity|].
  exists result. split; [exact Hrun|].
  assert (H02 : In (mkSite 0 2 "T" "C" true) (sites result)).
  { destruct (Hin 0 2) as [H _]; [simpl; lia|lia|reflexivity|].
    apply H. reflexivity. }
  split; [exact H02|].
  split.
  { destruct (Hin 1 2) as [_ H]; [simpl; lia|lia|reflexivity|].
    apply H; [reflexivity|lia]. }
  split.
  { destruct (Hin 0 0) as [H _]; [simpl; lia|lia|reflexivity|].
    apply H. reflexivity. }
  exact (Hflag _ H02 eq_refl).
Defined.

(** ** Reading the file back *)

Lemma le_value_le_bytes (n : nat) (v : Z) :
  0 <= v < 256 ^ Z.of_nat n -> le_value (le_bytes n v) = v.
Proof.
  revert v. induction n as [|n IH]; intros v Hv.
  - change (256 ^ Z.of_nat 0) with 1 in Hv. simpl. lia.
  - cbn [le_bytes le_value].
    rewrite Nat2Z.inj_succ, Z.pow_succ_r in Hv by lia.
    rewrite IH.
    + pose proof (Z.div_mod v 256 ltac:(lia)). lia.
    + split; [apply Z.div_pos; lia|apply Z.div_lt_upper_bound; lia].
Qed.

Lemma bucket_bytes_length (b : AgdBucket) : length (bucket_bytes b) = 8%nat.
Proof. unfold bucket_bytes. now rewrite length_app, !le_bytes_length. Qed.

(** A record that fits the 32 bytes of the struct. *)
Definition fits (r : AgdRecord) : Prop :=
  0 <= id_hash r < 2 ^ 64 /\
  length (codons_5prime r) = 5%nat /\ length (codons_3prime r) = 5%nat /\
  length (nt_5prime r) = 3%nat /\ length (nt_3prime r) = 3%nat.

Lemma record_bytes_length (r : AgdRecord) :
  fits r -> length (record_bytes r) = 32%nat.
Proof.
  intros (_ & H5 & H3 & Hn5 & Hn3). unfold record_bytes.
  rewrite !length_app, !le_bytes_length, H5, H3, Hn5, Hn3. reflexivity.
Qed.

Lemma record_bytes_id_hash (r : AgdRecord) :
  fits r -> id_hash (record_of_bytes (record_bytes r)) = id_hash r.
Proof.
  intros (Hh & _). unfold record_of_bytes, record_bytes. cbn [id_hash].
  rewrite take_app_length' by now rewrite le_bytes_length.
  apply le_value_le_bytes. exact Hh.
Qed.

(** The [i]-th of a run of chunks of [k] elements each. *)
Lemma concat_chunk {A} (k : nat) (l : list (list A)) (i : nat) (x rest : list A) :
  Forall (fun c => length c = k) l -> l !! i = Some x ->
  take k (drop (i * k) (concat l ++ rest)) = x.
Proof.
  intros Hall. revert i. induction Hall as [|c l Hc Hall IH]; intros i Hi.
  - discriminate Hi.
  - destruct i as [|i]; cbn [concat]; rewrite <- app_assoc.
    + injection Hi as ->. now apply take_app_length'.
    + replace (S i * k)%nat with (k + i * k)%nat by lia.
      rewrite drop_app_add' by (symmetry; exact Hc). now apply IH.
Qed.

Lemma concat_chunks_length {A} (k : nat) (l : list (list A)) :
  Forall (fun c => length c = k) l -> length (concat l) = (length l * k)%nat.
Proof.
  induction 1 as [|c l Hc Hall IH]; [reflexivity|].
  cbn [concat length]. rewrite length_app, IH, Hc. lia.
Qed.

Lemma load_at (n : nat) (r : DamageIndexReader) (off : Z) :
  0 <= off -> off + Z.of_nat n <= file_size_ r ->
  load n r off = Ok (le_value (take n (drop (Z.to_nat off) (data_ r)))) /\
  load_bytes n r off = Ok (take n (drop (Z.to_nat off) (data_ r))).
Proof.
  intros H0 H1. unfold load, load_bytes.
  destruct (Z.leb_spec 0 off); [|lia].
  destruct (Z.leb_spec (off + Z.of_nat n) (file_size_ r)); [|lia].
  split; reflexivity.
Qed.

(** The image of a file: a header, then the buckets, the records and the
    chain entries, [nb] and [n] of them. *)
Record image (file : list Z) (h : AgdHeader) (buckets : list AgdBucket)
    (records : list AgdRecord) (next_chain : list Z) : Prop := mkImage {
  image_bytes : file = file_bytes h buckets records next_chain;
  image_buckets : size buckets = num_buckets h;
  image_records : size records = num_records h;
  image_chain : size next_chain = num_records h;
  image_fits : Forall fits records;
  image_small : 64 + 8 * num_buckets h + 36 * num_records h < 2 ^ 64
}.

Section Image.

Variables (file : list Z) (h : AgdHeader) (buckets : list AgdBucket)
  (records : list AgdRecord) (next_chain : list Z).
Hypothesis Himage : image file h buckets records next_chain.

Let r : DamageIndexReader := mkReader file (size file).

Lemma image_size : size file = 64 + 8 * num_buckets h + 36 * num_records h.
Proof.
  destruct Himage as [-> Hb Hr Hc Hf _]. unfold file_bytes, size in *.
  rewrite !length_app, header_bytes_length.
  rewrite (concat_chunks_length 8), (concat_chunks_length 32),
    (concat_chunks_length 4), !length_map.
  - lia.
  - apply Forall_map, Forall_true. intros c. apply le_bytes_length.
  - apply Forall_map. eapply Forall_impl; [exact Hf|].
    intros c. apply record_bytes_length.
  - apply Forall_map, Forall_true. intros b. apply bucket_bytes_length.
Qed.

Lemma image_nonneg : 0 <= num_buckets h /\ 0 <= num_records h.
Proof.
  destruct Himage as [_ Hb Hr _ _ _]. unfold size in *. lia.
Qed.

Lemma image_header_prefix : take 64 file = header_bytes h.
Proof. destruct Himage as [-> _ _ _ _ _]. apply file_bytes_header. Qed.

End Image.

Lemma four_fields (a b c d rest : list Z) :
  length a = 4%nat -> length b = 4%nat -> length c = 8%nat -> length d = 8%nat ->
  let f := a ++ b ++ c ++ d ++ rest in
  take 4 f = a /\ take 4 (drop 4 f) = b /\
  take 8 (drop 8 f) = c /\ take 8 (drop 16 f) = d.
Proof.
  intros Ha Hb Hc Hd f. unfold f. split; [|split; [|split]].
  - now apply take_app_length'.
  - rewrite drop_app_length' by now symmetry. now apply take_app_length'.
  - change 8%nat with (4 + 4)%nat at 2.
    rewrite drop_app_add' by now symmetry.
    rewrite drop_app_length' by now symmetry. now apply take_app_length'.
  - change 16%nat with (4 + (4 + 8))%nat.
    rewrite drop_app_add' by now symmetry.
    rewrite drop_app_add' by now symmetry.
    rewrite drop_app_length' by now symmetry. now apply take_app_length'.
Qed.

(** A header whose fields fit their widths. *)
Definition header_fits (h : AgdHeader) : Prop :=
  0 <= magic h < 2 ^ 32 /\ 0 <= version h < 2 ^ 32 /\
  0 <= num_records h < 2 ^ 64 /\ 0 <= num_buckets h < 2 ^ 64.

Lemma header_reads (h : AgdHeader) (rest : list Z) :
  header_fits h ->
  let r := mkReader (header_bytes h ++ rest) (size (header_bytes h ++ rest)) in
  hdr_magic r = Ok (magic h) /\ hdr_version r = Ok (version h) /\
  hdr_num_records r = Ok (num_records h) /\
  hdr_num_buckets r = Ok (num_buckets h).
Proof.
  intros (Hm & Hv & Hr & Hb) r.
  assert (Hsize : 64 <= file_size_ r).
  { unfold r. cbn [file_size_]. rewrite size_app. unfold size at 1.
    rewrite header_bytes_length. pose proof (size_nonneg rest). lia. }
  unfold hdr_magic, hdr_version, hdr_num_records, hdr_num_buckets.
  destruct (load_at 4 r 0) as [-> _]; [lia|lia|].
  destruct (load_at 4 r 4) as [-> _]; [lia|lia|].
  destruct (load_at 8 r 8) as [-> _]; [lia|lia|].
  destruct (load_at 8 r 16) as [-> _]; [lia|lia|].
  change (Z.to_nat 0) with 0%nat. change (Z.to_nat 4) with 4%nat.
  change (Z.to_nat 8) with 8%nat. change (Z.to_nat 16) with 16%nat.
  unfold r. cbn [data_]. unfold header_bytes. rewrite <- !app_assoc.
  rewrite drop_0.
  match goal with
  | |- context [le_bytes 4 (magic h) ++ le_bytes 4 (version h) ++
                le_bytes 8 (num_records h) ++ le_bytes 8 (num_buckets h) ++ ?t] =>
      destruct (four_fields (le_bytes 4 (magic h)) (le_bytes 4 (version h))
                  (le_bytes 8 (num_records h)) (le_bytes 8 (num_buckets h)) t)
        as (-> & -> & -> & ->); try apply le_bytes_length
  end.
  rewrite !le_value_le_bytes by assumption. auto.
Qed.

Section ImageReads.

Variables (file : list Z) (h : AgdHeader) (buckets : list AgdBucket)
  (records : list AgdRecord) (next_chain : list Z).
Hypothesis Himage : image file h buckets records next_chain.

Let r : DamageIndexReader := mkReader file (size file).
Let nb : Z := num_buckets h.
Let nr : Z := num_records h.

Lemma image_offsets :
  records_off nb = 64 + 8 * nb /\ chain_off nb nr = 64 + 8 * nb + 32 * nr /\
  expected_size nb nr = 64 + 8 * nb + 36 * nr.
Proof.
  pose proof (image_nonneg _ _ _ _ _ Himage) as [Hb Hr].
  pose proof (image_small _ _ _ _ _ Himage) as Hs. fold nb nr in Hb, Hr, Hs.
  unfold chain_off, records_off, expected_size, HEADER_SIZE, BUCKET_SIZE,
    RECORD_SIZE.
  rewrite !wrap64_small; rewrite ?wrap64_small; lia.
Qed.

Lemma image_split :
  file = header_bytes h ++ concat (map bucket_bytes buckets) ++
         concat (map record_bytes records) ++ concat (map (le_bytes 4) next_chain) /\
  length (header_bytes h) = 64%nat /\
  length (concat (map bucket_bytes buckets)) = (length buckets * 8)%nat /\
  length (concat (map record_bytes records)) = (length records * 32)%nat /\
  Forall (fun c => length c = 8%nat) (map bucket_bytes buckets) /\
  Forall (fun c => length c = 32%nat) (map record_bytes records) /\
  Forall (fun c => length c = 4%nat) (map (le_bytes 4) next_chain).
Proof.
  assert (H8 : Forall (fun c => length c = 8%nat) (map bucket_bytes buckets)).
  { apply Forall_map, Forall_true. intros b. apply bucket_bytes_length. }
  assert (H32 : Forall (fun c => length c = 32%nat) (map record_bytes records)).
  { apply Forall_map. eapply Forall_impl; [exact (image_fits _ _ _ _ _ Himage)|].
    intros c. apply record_bytes_length. }
  assert (H4 : Forall (fun c => length c = 4%nat) (map (le_bytes 4) next_chain)).
  { apply Forall_map, Forall_true. intros c. apply le_bytes_length. }
  split; [exact (image_bytes _ _ _ _ _ Himage)|].
  split; [apply header_bytes_length|].
  rewrite (concat_chunks_length 8), (concat_chunks_length 32), !length_map
    by assumption.
  auto.
Qed.

Lemma image_bucket (b : Z) (bk : AgdBucket) :
  0 <= b -> buckets !! Z.to_nat b = Some bk -> 0 <= record_offset bk < 2 ^ 32 ->
  load 4 r (buckets_off + b * BUCKET_SIZE) = Ok (record_offset bk).
Proof.
  intros Hb Hbk Hro.
  pose proof (image_size _ _ _ _ _ Himage) as Hsize.
  pose proof (image_buckets _ _ _ _ _ Himage) as Hnb.
  pose proof (image_nonneg _ _ _ _ _ Himage) as [_ Hnr].
  pose proof (lookup_lt_Some _ _ _ Hbk) as Hlt. unfold size in Hnb.
  destruct image_split as (Hfile & HlH & HlB & _ & H8 & _ & _).
  unfold buckets_off, HEADER_SIZE, BUCKET_SIZE.
  destruct (load_at 4 r (64 + b * 8)) as [-> _];
    [lia|unfold r; cbn [file_size_]; lia|].
  f_equal. unfold r. cbn [data_]. rewrite Hfile.
  replace (Z.to_nat (64 + b * 8)) with (64 + Z.to_nat b * 8)%nat by lia.
  rewrite drop_app_add' by (symmetry; exact HlH).
  change 4%nat with (4 `min` 8)%nat. rewrite <- take_take.
  rewrite (concat_chunk 8 _ (Z.to_nat b) (bucket_bytes bk)); [|exact H8|].
  - unfold bucket_bytes. rewrite take_app_length' by now rewrite le_bytes_length.
    apply le_value_le_bytes. exact Hro.
  - rewrite list_lookup_fmap, Hbk. reflexivity.
Qed.

Lemma image_record (k : Z) (rec : AgdRecord) :
  0 <= k -> records !! Z.to_nat k = Some rec ->
  record_at r nb k = Ok (record_of_bytes (record_bytes rec)).
Proof.
  intros Hk Hrec.
  pose proof (image_size _ _ _ _ _ Himage) as Hsize.
  pose proof (image_buckets _ _ _ _ _ Himage) as Hnb.
  pose proof (image_records _ _ _ _ _ Himage) as Hnr.
  pose proof (lookup_lt_Some _ _ _ Hrec) as Hlt. unfold size in Hnb, Hnr.
  destruct image_split as (Hfile & HlH & HlB & _ & _ & H32 & _).
  unfold record_at, RECORD_SIZE. fold nb nr in Hnb, Hnr, Hsize.
  destruct image_offsets as (-> & _ & _).
  destruct (load_at 32 r (64 + 8 * nb + k * 32)) as [_ ->];
    [lia|unfold r; cbn [file_size_]; lia|].
  cbn [res_bind]. f_equal. f_equal. unfold r. cbn [data_]. rewrite Hfile.
  replace (Z.to_nat (64 + 8 * nb + k * 32))
    with (64 + (length buckets * 8 + Z.to_nat k * 32))%nat by lia.
  rewrite drop_app_add' by (symmetry; exact HlH).
  rewrite drop_app_add' by (symmetry; exact HlB).
  apply concat_chunk; [exact H32|].
  rewrite list_lookup_fmap, Hrec. reflexivity.
Qed.

Lemma image_chain_entry (k c : Z) :
  0 <= k -> next_chain !! Z.to_nat k = Some c -> 0 <= c < 2 ^ 32 ->
  load 4 r (chain_off nb nr + k * 4) = Ok c.
Proof.
  intros Hk Hc Hrange.
  pose proof (image_size _ _ _ _ _ Himage) as Hsize.
  pose proof (image_buckets _ _ _ _ _ Himage) as Hnb.
  pose proof (image_records _ _ _ _ _ Himage) as Hnr.
  pose proof (image_chain _ _ _ _ _ Himage) as Hnc.
  pose proof (lookup_lt_Some _ _ _ Hc) as Hlt. unfold size in Hnb, Hnr, Hnc.
  destruct image_split as (Hfile & HlH & HlB & HlR & _ & _ & H4).
  destruct image_offsets as (_ & -> & _).
  fold nb nr in Hnb, Hnr, Hnc, Hsize.
  destruct (load_at 4 r (64 + 8 * nb + 32 * nr + k * 4)) as [-> _];
    [lia|unfold r; cbn [file_size_]; lia|].
  f_equal. unfold r. cbn [data_]. rewrite Hfile.
  replace (Z.to_nat (64 + 8 * nb + 32 * nr + k * 4))
    with (64 + (length buckets * 8 + (length records * 32 + Z.to_nat k * 4)))%nat
    by lia.
  rewrite drop_app_add' by (symmetry; exact HlH).
  rewrite drop_app_add' by (symmetry; exact HlB).
  rewrite drop_app_add' by (symmetry; exact HlR).
  rewrite <- (app_nil_r (concat _)).
  rewrite (concat_chunk 4 _ (Z.to_nat k) (le_bytes 4 c)); [|exact H4|].
  - apply le_value_le_bytes. exact Hrange.
  - rewrite list_lookup_fmap, Hc. reflexivity.
Qed.

End ImageReads.

(** Record [j] is on the chain that starts at record [k]: the entries lead
    from [k] down to [j]. *)
Inductive reaches (next_chain : list Z) : Z -> Z -> Prop :=
  | reaches_here (j : Z) : reaches next_chain j j
  | reaches_next (k c j : Z) :
      0 <= c < k -> next_chain !! Z.to_nat k = Some c ->
      reaches next_chain c j -> reaches next_chain k j.

Lemma reaches_le (next_chain : list Z) (k j : Z) :
  reaches next_chain k j -> j <= k.
Proof. induction 1; lia. Qed.

Lemma reaches_insert (next_chain : list Z) (k j i x : Z) :
  reaches next_chain k j -> k < i ->
  reaches (<[Z.to_nat i := x]> next_chain) k j.
Proof.
  induction 1 as [j|k c j Hc Hk Hreach IH]; intros Hi.
  - apply reaches_here.
  - apply (reaches_next _ k c j Hc); [|apply IH; lia].
    rewrite list_lookup_insert_ne by lia. exact Hk.
Qed.

Section ImageFind.

Variables (file : list Z) (h : AgdHeader) (buckets : list AgdBucket)
  (records : list AgdRecord) (next_chain : list Z).
Hypothesis Himage : image file h buckets records next_chain.
Hypothesis Hfits : header_fits h.

Let r : DamageIndexReader := mkReader file (size file).
Let nb : Z := num_buckets h.
Let nr : Z := num_records h.

Lemma image_header_reads :
  hdr_magic r = Ok (magic h) /\ hdr_version r = Ok (version h) /\
  hdr_num_records r = Ok nr /\ hdr_num_buckets r = Ok nb.
Proof.
  unfold r. rewrite (image_bytes _ _ _ _ _ Himage). unfold file_bytes.
  apply header_reads. exact Hfits.
Qed.

Lemma open_image (path : string) :
  magic h = AGD_MAGIC -> version h = AGD_VERSION ->
  open_reader io_fine path file = Ok r.
Proof.
  intros Hm Hv. unfold open_reader. cbn [io_fine open_ok fstat_ok mmap_ok negb].
  fold r. destruct image_header_reads as (-> & -> & -> & ->).
  pose proof (image_size _ _ _ _ _ Himage) as Hsize.
  pose proof (image_nonneg _ _ _ _ _ Himage) as [Hb Hr].
  destruct (image_offsets _ _ _ _ _ Himage) as (_ & _ & He).
  fold nb nr in Hsize, Hb, Hr, He.
  unfold r at 1. cbn [file_size_ res_bind]. unfold HEADER_SIZE.
  destruct (Z.ltb_spec (size file) 64); [lia|].
  rewrite Hm, Hv, !Z.eqb_refl. cbn [negb].
  unfold r at 1. cbn [file_size_]. rewrite He.
  destruct (Z.ltb_spec (size file) (64 + 8 * nb + 36 * nr)); [lia|reflexivity].
Qed.

(** The chain entries are indices of 32 bits. *)
Hypothesis Hchain : forall k c, next_chain !! k = Some c -> 0 <= c < 2 ^ 32.

Lemma find_loop_reaches (hash : Z) (j : Z) (rec : AgdRecord) (k : Z) :
  reaches next_chain k j ->
  0 <= j -> records !! Z.to_nat j = Some rec -> id_hash rec = hash ->
  k < EMPTY ->
  forall fuel : nat, k < Z.of_nat fuel ->
  exists idx rec',
    find_loop fuel r nb nr hash k = Found idx rec' /\ id_hash rec' = hash.
Proof.
  intros Hreach Hj Hrec Hhash.
  pose proof (image_records _ _ _ _ _ Himage) as Hnr.
  pose proof (image_chain _ _ _ _ _ Himage) as Hnc.
  pose proof (image_fits _ _ _ _ _ Himage) as Hall.
  unfold size in Hnr, Hnc. fold nr in Hnr, Hnc.
  assert (Hrecord : forall k rk, 0 <= k -> records !! Z.to_nat k = Some rk ->
            record_at r nb k = Ok (record_of_bytes (record_bytes rk)))
    by exact (image_record _ _ _ _ _ Himage).
  assert (Hentry : forall k c, 0 <= k -> next_chain !! Z.to_nat k = Some c ->
            0 <= c < 2 ^ 32 -> load 4 r (chain_off nb nr + k * 4) = Ok c)
    by exact (image_chain_entry _ _ _ _ _ Himage).
  induction Hreach as [j|k c j Hc Hk Hreach IH]; intros Hke fuel Hfuel.
  - destruct fuel as [|fuel]; [lia|]. cbn [find_loop].
    pose proof (lookup_lt_Some _ _ _ Hrec) as Hlt.
    destruct (Z.eqb_spec j EMPTY) as [|_]; [lia|].
    destruct (Z.ltb_spec j nr) as [_|]; [|lia]. cbn [negb andb].
    rewrite (Hrecord j rec Hj Hrec).
    assert (Hf : fits rec) by (eapply Forall_lookup_1; eassumption).
    rewrite (record_bytes_id_hash _ Hf), Hhash, Z.eqb_refl.
    eexists _, _. split; [reflexivity|].
    now rewrite (record_bytes_id_hash _ Hf).
  - destruct fuel as [|fuel]; [lia|]. cbn [find_loop].
    pose proof (lookup_lt_Some _ _ _ Hk) as Hlt.
    destruct (Z.eqb_spec k EMPTY) as [|_]; [lia|].
    destruct (Z.ltb_spec k nr) as [_|]; [|lia]. cbn [negb andb].
    destruct (lookup_lt_is_Some_2 records (Z.to_nat k) ltac:(lia)) as [rk Hrk].
    rewrite (Hrecord k rk ltac:(lia) Hrk).
    assert (Hf : fits rk) by (eapply Forall_lookup_1; eassumption).
    destruct (Z.eqb_spec (id_hash (record_of_bytes (record_bytes rk))) hash)
      as [E|_].
    + eexists _, _. split; [reflexivity|exact E].
    + rewrite (Hentry k c ltac:(lia) Hk (Hchain _ _ Hk)).
      apply IH; [exact Hj|exact Hrec|lia|lia].
Qed.

End ImageFind.

(** ** The hash table [finalize] builds *)

Lemma build_table_lengths (recs : list AgdRecord) (i nb : Z)
    (B : list AgdBucket) (C : list Z) :
  length (build_table recs i nb B C).1 = length B /\
  length (build_table recs i nb B C).2 = length C.
Proof.
  revert i B C. induction recs as [|rec recs IH]; intros i B C; [auto|].
  cbn [build_table]. cbv zeta.
  destruct (record_offset _ =? EMPTY);
    match goal with
    | |- context [build_table recs ?i' nb ?B' ?C'] =>
        destruct (IH i' B' C') as [-> ->]
    end; rewrite !length_insert; auto.
Qed.

Lemma build_table_app (l1 l2 : list AgdRecord) (i nb : Z)
    (B : list AgdBucket) (C : list Z) :
  build_table (l1 ++ l2) i nb B C
  = build_table l2 (i + size l1) nb (build_table l1 i nb B C).1
      (build_table l1 i nb B C).2.
Proof.
  revert i B C. induction l1 as [|rec l1 IH]; intros i B C.
  - cbn [app build_table fst snd]. f_equal. unfold size. simpl. lia.
  - cbn [app build_table]. cbv zeta.
    replace (i + size (rec :: l1)) with (i + 1 + size l1)
      by (unfold size; cbn [length]; lia).
    destruct (record_offset _ =? EMPTY); apply IH.
Qed.

Section Table.

Variable nb : Z.
Hypothesis Hnb : 0 < nb.
Variable n : nat.
Hypothesis Hn : Z.of_nat n <= EMPTY.

(** The table after the records [done] have been inserted. *)
Definition table_ok (done : list AgdRecord) (B : list AgdBucket) (C : list Z)
    : Prop :=
  length B = Z.to_nat nb /\ length C = n /\
  (forall b bk, B !! b = Some bk ->
     next_offset bk = EMPTY /\
     (record_offset bk = EMPTY \/ 0 <= record_offset bk < size done)) /\
  (forall k c, C !! k = Some c -> c = EMPTY \/ 0 <= c < Z.of_nat k) /\
  (forall j rec, done !! j = Some rec ->
     exists bk, B !! Z.to_nat (id_hash rec mod nb) = Some bk /\
       reaches C (record_offset bk) (Z.of_nat j)).

Lemma table_ok_init :
  table_ok [] (replicate (Z.to_nat nb) (mkBucket EMPTY EMPTY))
    (replicate n EMPTY).
Proof.
  unfold table_ok. rewrite !length_replicate.
  split; [reflexivity|]. split; [reflexivity|]. split; [|split].
  - intros b bk Hb. apply lookup_replicate in Hb as [-> _]. auto.
  - intros k c Hc. apply lookup_replicate in Hc as [-> _]. auto.
  - intros j rec Hj. discriminate Hj.
Qed.

Lemma reaches_EMPTY (C : list Z) (j : Z) :
  length C = n -> j < EMPTY -> ~ reaches C EMPTY j.
Proof.
  intros HC Hj H. inversion H as [|k c j' Hc Hk Hreach]; subst; [lia|].
  apply lookup_lt_Some in Hk. lia.
Qed.

Lemma table_ok_step (done : list AgdRecord) (rec : AgdRecord)
    (B : list AgdBucket) (C : list Z) :
  table_ok done B C -> (length done < n)%nat ->
  table_ok (done ++ [rec])
    (build_table [rec] (size done) nb B C).1
    (build_table [rec] (size done) nb B C).2.
Proof.
  intros (HB & HC & Hbk & Hch & Hreach) Hlt.
  cbn [build_table]. cbv zeta.
  set (i := size done). set (b := id_hash rec mod nb).
  assert (Hi : 0 <= i < Z.of_nat n) by (unfold i, size; lia).
  assert (Hb : 0 <= b < nb) by (apply Z.mod_pos_bound; exact Hnb).
  assert (Hwrap : wrap32 i = i).
  { apply wrap32_small. unfold EMPTY in Hn. lia. }
  destruct (lookup_lt_is_Some_2 B (Z.to_nat b) ltac:(lia)) as [bk Hbk0].
  assert (Hat : bucket_at B b = bk) by (unfold bucket_at; now rewrite Hbk0).
  rewrite Hat, Hwrap.
  destruct (Hbk _ _ Hbk0) as [Hnext Hhead].
  assert (Hsize : size (done ++ [rec]) = i + 1)
    by (rewrite size_app; reflexivity).
  assert (Hbuckets : forall b' bk',
            <[Z.to_nat b := mkBucket i (next_offset bk)]> B !! b' = Some bk' ->
            next_offset bk' = EMPTY /\
            (record_offset bk' = EMPTY \/
             0 <= record_offset bk' < size (done ++ [rec]))).
  { intros b' bk' H. rewrite Hsize.
    destruct (decide (Z.to_nat b = b')) as [<-|Hne].
    - rewrite list_lookup_insert_eq in H by lia. injection H as <-.
      cbn [next_offset record_offset]. split; [exact Hnext|right; lia].
    - rewrite list_lookup_insert_ne in H by exact Hne.
      destruct (Hbk _ _ H) as [? [?|?]]; split; auto. right. fold i. lia. }
  assert (Hold : forall j rec', done !! j = Some rec' ->
            id_hash rec' mod nb <> b ->
            exists bk', <[Z.to_nat b := mkBucket i (next_offset bk)]> B
                          !! Z.to_nat (id_hash rec' mod nb) = Some bk' /\
              reaches C (record_offset bk') (Z.of_nat j) /\
              record_offset bk' < i).
  { intros j rec' Hj Hne. destruct (Hreach _ _ Hj) as (bk' & Hbk' & Hr).
    exists bk'. pose proof (Z.mod_pos_bound (id_hash rec') nb Hnb).
    rewrite list_lookup_insert_ne by lia. split; [exact Hbk'|]. split; [exact Hr|].
    apply lookup_lt_Some in Hj.
    destruct (Hbk _ _ Hbk') as [_ [E|?]]; [|fold i in H0; lia].
    rewrite E in Hr. apply reaches_EMPTY in Hr; [contradiction|exact HC|lia]. }
  destruct (Z.eqb_spec (record_offset bk) EMPTY) as [Hem|Hne];
    cbn [fst snd]; (split; [now rewrite length_insert|]).
  - split; [exact HC|]. split; [exact Hbuckets|]. split; [exact Hch|].
    intros j rec' Hj. apply lookup_app_Some in Hj as [Hj|[Hge Hj]].
    + destruct (Z.eq_dec (id_hash rec' mod nb) b) as [E|Hneb].
      * exfalso. destruct (Hreach _ _ Hj) as (bk' & Hbk' & Hr).
        rewrite E in Hbk'. fold b in Hbk'. rewrite Hbk0 in Hbk'.
        injection Hbk' as <-. rewrite Hem in Hr.
        apply lookup_lt_Some in Hj.
        apply reaches_EMPTY in Hr; [contradiction|exact HC|lia].
      * destruct (Hold _ _ Hj Hneb) as (bk' & ? & ? & _). eauto.
    + apply list_lookup_singleton_Some in Hj as [Hj0 <-].
      exists (mkBucket i (next_offset bk)). fold b.
      rewrite list_lookup_insert_eq by lia. split; [reflexivity|].
      cbn [record_offset]. replace (Z.of_nat j) with i by (unfold i, size; lia).
      apply reaches_here.
  - destruct Hhead as [?|Hhead]; [contradiction|]. fold i in Hhead.
    split; [now rewrite length_insert|]. split; [exact Hbuckets|]. split.
    { intros k c Hk. destruct (decide (Z.to_nat i = k)) as [<-|Hnk].
      - rewrite list_lookup_insert_eq in Hk by lia. injection Hk as <-.
        right. lia.
      - rewrite list_lookup_insert_ne in Hk by exact Hnk. eauto. }
    intros j rec' Hj. apply lookup_app_Some in Hj as [Hj|[Hge Hj]].
    + destruct (Z.eq_dec (id_hash rec' mod nb) b) as [E|Hneb].
      * destruct (Hreach _ _ Hj) as (bk' & Hbk' & Hr).
        rewrite E in Hbk'. fold b in Hbk'. rewrite Hbk0 in Hbk'.
        injection Hbk' as <-.
        exists (mkBucket i (next_offset bk)). rewrite E. fold b.
        rewrite list_lookup_insert_eq by lia. split; [reflexivity|].
        cbn [record_offset].
        apply (reaches_next _ i (record_offset bk)); [lia| |].
        -- rewrite list_lookup_insert_eq by lia. reflexivity.
        -- apply reaches_insert; [exact Hr|lia].
      * destruct (Hold _ _ Hj Hneb) as (bk' & ? & ? & ?).
        exists bk'. split; [assumption|]. now apply reaches_insert.
    + apply list_lookup_singleton_Some in Hj as [Hj0 <-].
      exists (mkBucket i (next_offset bk)). fold b.
      rewrite list_lookup_insert_eq by lia. split; [reflexivity|].
      cbn [record_offset]. replace (Z.of_nat j) with i by (unfold i, size; lia).
      apply reaches_here.
Qed.

End Table.

Lemma build_table_ok (nb : Z) (n : nat) (rest done : list AgdRecord)
    (B : list AgdBucket) (C : list Z) :
  0 < nb -> Z.of_nat n <= EMPTY ->
  table_ok nb n done B C -> (length done + length rest = n)%nat ->
  table_ok nb n (done ++ rest)
    (build_table rest (size done) nb B C).1
    (build_table rest (size done) nb B C).2.
Proof.
  intros Hnb Hn. revert done B C.
  induction rest as [|rec rest IH]; intros done B C Hok Hlen.
  - rewrite app_nil_r. exact Hok.
  - change (rec :: rest) with ([rec] ++ rest).
    rewrite build_table_app, app_assoc.
    replace (size done + size [rec]) with (size (done ++ [rec]))
      by (rewrite size_app; reflexivity).
    apply IH.
    + apply table_ok_step; [exact Hnb|exact Hn|exact Hok|simpl in Hlen; lia].
    + rewrite length_app. simpl in *. lia.
Qed.

(** ** A sequence of [add_record] calls *)

(** The packed nucleotides keep their three bytes. *)
Definition nts_sized (r : AgdRecord) : Prop :=
  length (nt_5prime r) = 3%nat /\ length (nt_3prime r) = 3%nat.

Lemma pack_loop_nts (body : Z -> AgdRecord -> res AgdRecord) (len : Z) :
  (forall i rec rec', body i rec = Ok rec' -> nts_sized rec -> nts_sized rec') ->
  forall (fuel : nat) (i : Z) (rec rec' : AgdRecord),
    pack_loop fuel body len i rec = Ok rec' -> nts_sized rec -> nts_sized rec'.
Proof.
  intros Hbody. induction fuel as [|fuel IH]; intros i rec rec'; cbn [pack_loop].
  - now intros [= <-].
  - destruct ((i <? 12) && (i <? len)); [|now intros [= <-]].
    destruct (body i rec) as [rec1| |] eqn:E; try discriminate.
    cbn [res_bind]. intros Hloop Hrec. eapply IH; [exact Hloop|]. eauto.
Qed.

Lemma store_or_nts (i v : Z) (rec : AgdRecord) :
  nts_sized rec ->
  nts_sized (set_nt_5prime (store_or i v) rec) /\
  nts_sized (set_nt_3prime (store_or i v) rec).
Proof.
  intros [H5 H3]. unfold nts_sized, set_nt_5prime, set_nt_3prime, store_or.
  cbn [nt_5prime nt_3prime]. rewrite !length_alter. auto.
Qed.

Lemma pack_terminal_nucleotides_nts (dna : string_view) (is_reverse : bool)
    (rec rec' : AgdRecord) :
  pack_terminal_nucleotides dna is_reverse rec = Ok rec' -> nts_sized rec'.
Proof.
  unfold pack_terminal_nucleotides. cbv zeta.
  set (rec0 := set_nt_3prime _ _).
  assert (H0 : nts_sized rec0) by (split; reflexivity). clearbody rec0.
  assert (Hf5 : forall i r r', pack_fwd_5prime dna i r = Ok r' ->
                  nts_sized r -> nts_sized r').
  { intros i r r'. unfold pack_fwd_5prime.
    destruct (char_at dna i); try discriminate. cbn [res_bind].
    intros [= <-] H. now apply store_or_nts. }
  assert (Hf3 : forall i r r', pack_fwd_3prime dna i r = Ok r' ->
                  nts_sized r -> nts_sized r').
  { intros i r r'. unfold pack_fwd_3prime. cbv zeta.
    destruct (_ <=? _); [now intros [= <-]|].
    destruct (char_at dna _); try discriminate. cbn [res_bind].
    intros [= <-] H. now apply store_or_nts. }
  assert (Hr5 : forall i r r', pack_rev_5prime dna i r = Ok r' ->
                  nts_sized r -> nts_sized r').
  { intros i r r'. unfold pack_rev_5prime. cbv zeta.
    destruct (char_at dna _); try discriminate. cbn [res_bind].
    intros [= <-] H. now apply store_or_nts. }
  assert (Hr3 : forall i r r', pack_rev_3prime dna i r = Ok r' ->
                  nts_sized r -> nts_sized r').
  { intros i r r'. unfold pack_rev_3prime. cbv zeta.
    destruct (_ <=? _); [now intros [= <-]|].
    destruct (char_at dna _); try discriminate. cbn [res_bind].
    intros [= <-] H. now apply store_or_nts. }
  destruct is_reverse; cbn [negb].
  - destruct (pack_loop 12 (pack_rev_5prime dna) _ 0 rec0) as [rec1| |] eqn:E1;
      try discriminate.
    cbn [res_bind]. intros E2.
    apply (pack_loop_nts _ _ Hr3 _ _ _ _ E2).
    apply (pack_loop_nts _ _ Hr5 _ _ _ _ E1). exact H0.
  - destruct (pack_loop 12 (pack_fwd_5prime dna) _ 0 rec0) as [rec1| |] eqn:E1;
      try discriminate.
    cbn [res_bind]. intros E2.
    apply (pack_loop_nts _ _ Hf3 _ _ _ _ E2).
    apply (pack_loop_nts _ _ Hf5 _ _ _ _ E1). exact H0.
Qed.

Lemma add_record_nts (w w' : DamageIndexWriter) (gene : Gene) (dna : string_view) :
  add_record w gene dna = Ok w' ->
  exists rec, records_ w' = records_ w ++ [rec] /\ nts_sized rec.
Proof.
  unfold add_record. destruct (finalized_ w); [discriminate|].
  destruct (quantize_damage_pct _) as [dq| |]; try discriminate.
  destruct (quantize_probability _) as [pq| |]; try discriminate.
  cbn [res_bind]. cbv zeta.
  destruct (extract_terminal_codons _ _ _ _) as [rec1| |]; try discriminate.
  cbn [res_bind].
  destruct (pack_terminal_nucleotides _ _ _) as [rec2| |] eqn:E; try discriminate.
  cbn [res_bind]. intros [= <-]. exists rec2. split; [reflexivity|].
  exact (pack_terminal_nucleotides_nts _ _ _ _ E).
Qed.

(** The record [add_record] appends fits the struct and carries the key. *)
Lemma add_record_fits (w : DamageIndexWriter) (gene : Gene) (dna : string_view) :
  finalized_ w = false -> valid_input gene dna = true ->
  exists rec,
    add_record w gene dna
    = Ok (mkWriter (path_ w) (header_ w) (records_ w ++ [rec]) false) /\
    fits rec /\ id_hash rec = fnv1a_hash (strip_agp_suffix (read_id gene)).
Proof.
  intros Hf Hv.
  destruct (add_record_total w gene dna) as
    (rec & dq & pq & Hrun & _ & _ & Hm & Hl5 & Hl3 & _).
  { unfold add_record_pre. now rewrite Hf, Hv. }
  exists rec. split; [exact Hrun|].
  destruct (add_record_nts _ _ _ _ Hrun) as (rec' & Hrecs & Hn5 & Hn3).
  cbn [records_] in Hrecs. apply app_inj_tail in Hrecs as [_ <-].
  assert (Hh : id_hash rec = fnv1a_hash (strip_agp_suffix (read_id gene))).
  { unfold meta in Hm. now injection Hm as -> _ _ _ _ _. }
  split; [|exact Hh]. unfold fits. rewrite Hh.
  split; [apply fnv1a_hash_range|auto].
Qed.

Lemma add_records_fits (inputs : list (Gene * string_view)) (w : DamageIndexWriter) :
  finalized_ w = false ->
  Forall (fun x => valid_input x.1 x.2 = true) inputs ->
  exists recs,
    add_records w inputs
    = Ok (mkWriter (path_ w) (header_ w) (records_ w ++ recs) false) /\
    Forall2 (fun x rec => fits rec /\
               id_hash rec = fnv1a_hash (strip_agp_suffix (read_id x.1)))
      inputs recs.
Proof.
  revert w. induction inputs as [|[gene dna] inputs IH]; intros w Hf Hall.
  - exists []. rewrite app_nil_r. split; [|constructor].
    cbn [add_records]. destruct w; cbn in *. now rewrite Hf.
  - apply Forall_cons in Hall as [Hv Hall]. cbn [fst snd] in Hv.
    destruct (add_record_fits w gene dna Hf Hv) as (rec & Hrun & Hfit & Hkey).
    cbn [add_records]. rewrite Hrun. cbn [res_bind].
    destruct (IH (mkWriter (path_ w) (header_ w) (records_ w ++ [rec]) false)
                eq_refl Hall) as (recs & Hrest & Hall2).
    cbn [path_ header_ records_] in Hrest.
    exists (rec :: recs). rewrite Hrest, <- app_assoc. split; [reflexivity|].
    constructor; [split; assumption|exact Hall2].
Qed.

(** ** From the writer to the reader *)

Lemma finalize_image (w : DamageIndexWriter) :
  finalized_ w = false ->
  magic (header_ w) = AGD_MAGIC -> version (header_ w) = AGD_VERSION ->
  size (records_ w) < 2 ^ 32 -> Forall fits (records_ w) ->
  exists w' file B C,
    finalize true true w = Ok (w', File file) /\
    image file (header_ w') B (records_ w) C /\
    header_fits (header_ w') /\
    magic (header_ w') = AGD_MAGIC /\ version (header_ w') = AGD_VERSION /\
    num_records (header_ w') = size (records_ w) /\
    (records_ w = [] -> num_buckets (header_ w') = 0) /\
    (records_ w <> [] ->
     0 < num_buckets (header_ w') /\
     table_ok (num_buckets (header_ w')) (length (records_ w)) (records_ w) B C).
Proof.
  intros Hf Hm Hv Hn Hfits.
  destruct (records_ w) as [|r0 rs] eqn:Hrecs.
  - unfold finalize. rewrite Hf, Hrecs. cbn [negb].
    eexists _, _, [], []. split; [reflexivity|]. cbn [header_ magic version
      num_records num_buckets].
    split.
    { constructor; cbn [num_buckets num_records]; try reflexivity.
      constructor. }
    split.
    { unfold header_fits. cbn [magic version num_records num_buckets].
      rewrite Hm, Hv. unfold AGD_MAGIC, AGD_VERSION. lia. }
    split; [exact Hm|]. split; [exact Hv|]. split; [reflexivity|].
    split; [reflexivity|]. intros H. contradiction.
  - rewrite <- Hrecs in *.
    assert (Hn1 : 1 <= size (records_ w) < 2 ^ 32).
    { rewrite Hrecs in *. unfold size in *. cbn [length] in *. lia. }
    destruct (finalize_header w Hf Hn1) as (B & C & Hbuild & Hfin).
    cbv zeta in Hbuild, Hfin.
    set (n := size (records_ w)) in *. set (nb := n * 133 / 100 + 1) in *.
    assert (Hnb : 0 < nb <= 2 * n + 1).
    { unfold nb. pose proof (Z.div_pos (n * 133) 100).
      assert (n * 133 / 100 <= 2 * n) by (apply Z.div_le_upper_bound; lia).
      lia. }
    destruct (build_table_lengths (records_ w) 0 nb
                (replicate (Z.to_nat nb) (mkBucket EMPTY EMPTY))
                (replicate (Z.to_nat n) EMPTY)) as [HlB HlC].
    rewrite Hbuild in HlB, HlC. cbn [fst snd] in HlB, HlC.
    rewrite length_replicate in HlB. rewrite length_replicate in HlC.
    eexists _, _, B, C. split; [exact Hfin|].
    cbn [header_ magic version num_records num_buckets].
    split.
    { constructor; cbn [num_buckets num_records]; try reflexivity.
      - unfold size. lia.
      - unfold size. fold n. lia.
      - exact Hfits.
      - lia. }
    split.
    { unfold header_fits. cbn [magic version num_records num_buckets].
      rewrite Hm, Hv. unfold AGD_MAGIC, AGD_VERSION. lia. }
    split; [exact Hm|]. split; [exact Hv|]. split; [reflexivity|].
    split; [intros H; rewrite H in Hrecs; discriminate|].
    intros _. split; [lia|].
    pose proof (build_table_ok nb (length (records_ w)) (records_ w) [] _ _
                  ltac:(lia) ltac:(unfold EMPTY, n, size in *; lia)
                  (table_ok_init nb (length (records_ w))) eq_refl) as Hok.
    cbn [app] in Hok. change (size []) with 0 in Hok.
    replace (Z.to_nat n) with (length (records_ w)) in Hbuild
      by (unfold n, size; lia).
    rewrite Hbuild in Hok. exact Hok.
Qed.

Lemma find_in_image (file : list Z) (h : AgdHeader) (B : list AgdBucket)
    (recs : list AgdRecord) (C : list Z) :
  image file h B recs C -> header_fits h -> 0 < num_buckets h ->
  size recs <= EMPTY ->
  table_ok (num_buckets h) (length recs) recs B C ->
  forall (j : nat) (rec : AgdRecord) (id : string_view) (fuel : nat),
    recs !! j = Some rec ->
    id_hash rec = fnv1a_hash (strip_agp_suffix id) ->
    size recs <= Z.of_nat fuel ->
    exists idx rec',
      find fuel (mkReader file (size file)) id = Found idx rec' /\
      id_hash rec' = fnv1a_hash (strip_agp_suffix id).
Proof.
  intros Himage Hfits Hnb Hn (HlB & HlC & Hbk & Hch & Hreach) j rec id fuel
    Hj Hkey Hfuel.
  unfold find.
  destruct (image_header_reads _ _ _ _ _ Himage Hfits) as (_ & _ & -> & ->).
  destruct (Z.eqb_spec (num_buckets h) 0) as [|_]; [lia|].
  destruct (Hreach _ _ Hj) as (bk & Hbk0 & Hr). rewrite Hkey in Hbk0.
  set (hash := fnv1a_hash (strip_agp_suffix id)) in *.
  pose proof (Z.mod_pos_bound hash (num_buckets h) Hnb) as Hb.
  pose proof (lookup_lt_Some _ _ _ Hj) as Hjlt.
  assert (Hhead : 0 <= record_offset bk < size recs).
  { destruct (Hbk _ _ Hbk0) as [_ [E|?]]; [|assumption].
    rewrite E in Hr. apply (reaches_EMPTY (length recs)) in Hr;
      [contradiction|exact Hn|exact HlC|unfold size in Hn; lia]. }
  unfold EMPTY in Hn.
  assert (Hb0 : 0 <= hash mod num_buckets h) by lia.
  assert (Hh32 : 0 <= record_offset bk < 2 ^ 32) by lia.
  rewrite (image_bucket _ _ _ _ _ Himage _ bk Hb0 Hbk0 Hh32).
  apply (find_loop_reaches _ _ _ _ _ Himage) with (j := Z.of_nat j) (rec := rec).
  - intros k c Hc. destruct (Hch _ _ Hc) as [->|?]; [unfold EMPTY; lia|].
    apply lookup_lt_Some in Hc. unfold size in Hn. lia.
  - exact Hr.
  - lia.
  - now rewrite Nat2Z.id.
  - exact Hkey.
  - unfold EMPTY. lia.
  - lia.
Qed.

(** C1 (amended). For every sequence of fewer than 2^32 [add_record] calls
    on a new writer (each with a frame in 0..2 and scores that are not
    NaN), [finalize] writes a file that the reader opens, and [find] on the
    identifier of any of the calls returns a record whose [id_hash] is the
    FNV-1a hash of the stripped identifier, within as many rounds of its
    loop as there are records, however long the chain of the bucket. *)
Theorem lookup_round_trip (path : string) (profile : SampleDamageProfile)
    (inputs : list (Gene * string_view)) :
  Forall (fun x => valid_input x.1 x.2 = true) inputs ->
  size inputs < 2 ^ 32 ->
  exists w w' bytes r,
    add_records (new_writer path profile) inputs = Ok w /\
    size (records_ w) = size inputs /\
    finalize true true w = Ok (w', File bytes) /\
    open_reader io_fine path bytes = Ok r /\
    forall (gene : Gene) (dna : string_view) (fuel : nat),
      In (gene, dna) inputs -> size inputs <= Z.of_nat fuel ->
      exists idx rec,
        find fuel r (read_id gene) = Found idx rec /\
        id_hash rec = fnv1a_hash (strip_agp_suffix (read_id gene)).
Proof.
  intros Hvalid Hn.
  destruct (add_records_fits inputs (new_writer path profile) eq_refl Hvalid)
    as (recs & Hadd & Hall).
  cbn [new_writer path_ header_ records_ app] in Hadd.
  set (w := mkWriter _ _ recs false) in Hadd.
  assert (Hlen : size recs = size inputs).
  { unfold size. f_equal. symmetry. exact (Forall2_length _ _ _ Hall). }
  assert (Hfits : Forall fits recs).
  { apply Forall_lookup_2. intros j rec Hj.
    destruct (Forall2_lookup_r _ _ _ _ _ Hall Hj) as (x & _ & Hx & _).
    exact Hx. }
  destruct (finalize_image w eq_refl eq_refl eq_refl)
    as (w' & file & B & C & Hfin & Himage & Hhf & Hm & Hv & Hnr & _ & Hne);
    [cbn [w records_]; lia|exact Hfits|].
  cbn [w records_] in Himage, Hnr, Hne.
  exists w, w', file, (mkReader file (size file)).
  split; [exact Hadd|]. split; [exact Hlen|]. split; [exact Hfin|].
  split; [exact (open_image _ _ _ _ _ Himage Hhf path Hm Hv)|].
  intros gene dna fuel Hin Hfuel.
  apply list_elem_of_In, list_elem_of_lookup_1 in Hin as [j Hj].
  destruct (Forall2_lookup_l _ _ _ _ _ Hall Hj) as (rec & Hrec & _ & Hkey).
  cbn [fst] in Hkey.
  destruct Hne as [Hnb Hok]; [intros ->; discriminate Hrec|].
  apply (find_in_image _ _ _ _ _ Himage Hhf Hnb) with (j := j) (rec := rec);
    try assumption; unfold EMPTY; lia.
Qed.

(** Three calls, two of them under the same key. *)
Definition example_inputs : list (Gene * string_view) :=
  [(example_gene "read1_+_0" 0 true, sv "ATGACCGTTAAGCTGCGTTTT");
   (example_gene "read2_-_1" 1 false, sv "GATTACAGATTACAGATTACA");
   (example_gene "read1_-_2" 2 false, sv "ATGACCGTTAAGCTGCGTTTT")].

Lemma lookup_round_trip_witness :
  exists w w' bytes r,
    add_records (new_writer "out.agd" (mkProfile 0 0 "single-stranded"))
      example_inputs = Ok w /\
    size (records_ w) = size example_inputs /\
    finalize true true w = Ok (w', File bytes) /\
    open_reader io_fine "out.agd" bytes = Ok r /\
    forall (gene : Gene) (dna : string_view) (fuel : nat),
      In (gene, dna) example_inputs -> size example_inputs <= Z.of_nat fuel ->
      exists idx rec,
        find fuel r (read_id gene) = Found idx rec /\
        id_hash rec = fnv1a_hash (strip_agp_suffix (read_id gene)).
Proof.
  apply (lookup_round_trip "out.agd" (mkProfile 0 0 "single-stranded")
           example_inputs).
  - repeat (constructor; [vm_compute; reflexivity|]). constructor.
  - vm_compute. reflexivity.
Defined.

(** The file of the three calls has 4 buckets; the chain of ["read1"] starts
    at the record added last. *)
Example lookup_example :
  exists w w' bytes r rec,
    add_records example_writer example_inputs = Ok w /\
    finalize true true w = Ok (w', File bytes) /\
    size bytes = 64 + 8 * 4 + 36 * 3 /\
    open_reader io_fine "out.agd" bytes = Ok r /\
    find 3 r (sv "read1_+_0") = Found 2 rec /\
    id_hash rec = fnv1a_hash (sv "read1") /\
    find 3 r (sv "read3") = NotFound.
Proof.
  eexists _, _, _, _, _.
  repeat (split; [vm_compute; reflexivity|]). vm_compute; reflexivity.
Qed.

(** ** A file of 2^32 records *)

(** When the last of [N = 2^32] records is inserted, its index is the
    sentinel [0xFFFFFFFF]: the bucket it heads reads as empty. *)
Lemma lost_at_sentinel (N : nat) (nb : Z) (path : string)
    (profile : SampleDamageProfile) (gene : Gene) (dna : string_view) :
  Z.of_nat N = 2 ^ 32 -> valid_input gene dna = true ->
  bucket_count (2 ^ 32) = Ok nb -> 0 < nb < 2 ^ 34 ->
  exists w w' bytes r,
    add_records (new_writer path profile) (replicate N (gene, dna)) = Ok w /\
    size (records_ w) = 2 ^ 32 /\
    finalize true true w = Ok (w', File bytes) /\
    open_reader io_fine path bytes = Ok r /\
    forall fuel : nat, find fuel r (read_id gene) = NotFound.
Proof.
  intros HN Hv Hbc Hnb.
  destruct (add_records_fits (replicate N (gene, dna)) (new_writer path profile)
              eq_refl) as (recs & Hadd & Hall).
  { apply Forall_replicate. exact Hv. }
  cbn [new_writer path_ header_ records_ app] in Hadd.
  set (w := mkWriter _ _ recs false) in Hadd.
  assert (Hlen : size recs = 2 ^ 32).
  { unfold size. rewrite <- (Forall2_length _ _ _ Hall), length_replicate.
    exact HN. }
  assert (Hfits : Forall fits recs).
  { apply Forall_lookup_2. intros j rec Hj.
    destruct (Forall2_lookup_r _ _ _ _ _ Hall Hj) as (x & _ & Hx & _).
    exact Hx. }
  assert (Hkeys : forall j rec, recs !! j = Some rec ->
            id_hash rec = fnv1a_hash (strip_agp_suffix (read_id gene))).
  { intros j rec Hj.
    destruct (Forall2_lookup_r _ _ _ _ _ Hall Hj) as (x & Hx & _ & Hkey).
    apply lookup_replicate_1 in Hx as [-> _]. exact Hkey. }
  destruct (finalize_file w nb eq_refl) as (B & C & Hbuild & Hfin).
  { cbn [w records_]. lia. }
  { cbn [w records_]. rewrite Hlen. exact Hbc. }
  { lia. }
  cbv zeta in Hbuild, Hfin. cbn [w records_ header_ path_] in Hbuild, Hfin.
  set (h' := mkHeader _ _ _ _ _ _ _) in Hfin.
  set (B0 := replicate (Z.to_nat nb) _) in Hbuild.
  set (C0 := replicate (Z.to_nat (size recs)) _) in Hbuild.
  assert (HlB0 : length B0 = Z.to_nat nb) by apply length_replicate.
  assert (HlC0 : length C0 = Z.to_nat (size recs)) by apply length_replicate.
  clearbody B0 C0.
  destruct (build_table_lengths recs 0 nb B0 C0) as [HlB HlC].
  rewrite Hbuild in HlB, HlC. cbn [fst snd] in HlB, HlC.
  assert (Himage : image (file_bytes h' B recs C) h' B recs C).
  { constructor; cbn [h' num_buckets num_records]; try reflexivity.
    - unfold size. lia.
    - unfold size in *. lia.
    - exact Hfits.
    - lia. }
  assert (Hhf : header_fits h').
  { unfold header_fits, h', AGD_MAGIC, AGD_VERSION.
    cbn [magic version num_records num_buckets]. lia. }
  exists w, (mkWriter path h' recs true), (file_bytes h' B recs C),
    (mkReader (file_bytes h' B recs C) (size (file_bytes h' B recs C))).
  split; [exact Hadd|]. split; [exact Hlen|]. split; [exact Hfin|].
  split; [exact (open_image _ _ _ _ _ Himage Hhf path eq_refl eq_refl)|].
  intros fuel. unfold find.
  destruct (image_header_reads _ _ _ _ _ Himage Hhf) as (_ & _ & -> & ->).
  cbn [h' num_buckets num_records].
  destruct (Z.eqb_spec nb 0) as [|_]; [lia|].
  set (hash := fnv1a_hash (strip_agp_suffix (read_id gene))) in *.
  pose proof (Z.mod_pos_bound hash nb ltac:(lia)) as Hb.
  assert (Hlast : exists l x, recs = l ++ [x]).
  { destruct recs as [|x0 l0] using rev_ind; [|eauto].
    exfalso. unfold size in Hlen. cbn [length] in Hlen. lia. }
  destruct Hlast as (l & x & ->).
  assert (Hl : size l = EMPTY).
  { rewrite size_app in Hlen. change (size [x]) with 1 in Hlen.
    unfold EMPTY. lia. }
  assert (Hx : id_hash x = hash).
  { apply (Hkeys (length l)). rewrite lookup_app_r by lia.
    now rewrite Nat.sub_diag. }
  rewrite build_table_app in Hbuild.
  destruct (build_table_lengths l 0 nb B0 C0) as [HlB1 _].
  set (B1 := (build_table l 0 nb B0 C0).1) in *.
  set (C1 := (build_table l 0 nb B0 C0).2) in *.
  clearbody B1 C1. cbn [build_table] in Hbuild. cbv zeta in Hbuild.
  rewrite Hx, Z.add_0_l, Hl in Hbuild.
  change (wrap32 EMPTY) with EMPTY in Hbuild.
  assert (HB : B = <[Z.to_nat (hash mod nb) :=
                     mkBucket EMPTY (next_offset (bucket_at B1 (hash mod nb)))]> B1).
  { destruct (record_offset _ =? EMPTY); now injection Hbuild as <- _. }
  assert (Hbk : B !! Z.to_nat (hash mod nb)
                = Some (mkBucket EMPTY (next_offset (bucket_at B1 (hash mod nb))))).
  { rewrite HB. apply list_lookup_insert_eq. lia. }
  assert (Hb0 : 0 <= hash mod nb) by lia.
  rewrite (image_bucket _ _ _ _ _ Himage _ _ Hb0 Hbk);
    [|cbn [record_offset]; unfold EMPTY; lia].
  cbn [record_offset].
  destruct fuel; cbn [find_loop]; rewrite Z.eqb_refl; reflexivity.
Qed.

(** C1 (as stated, refuted). After 2^32 calls of [add_record] under one
    identifier, [finalize] writes a file that the reader opens and in which
    [find] does not find that identifier: the index of the last record,
    [0xFFFFFFFF], is the sentinel of an empty bucket. *)
Lemma sentinel_index_is_lost :
  exists w w' bytes r,
    add_records example_writer
      (replicate (Z.to_nat (2 ^ 32))
         (example_gene "read1_+_0" 0 true, sv "ATGACCGTTAAGCTGCGTTTT")) = Ok w /\
    size (records_ w) = 2 ^ 32 /\
    finalize true true w = Ok (w', File bytes) /\
    open_reader io_fine "out.agd" bytes = Ok r /\
    forall fuel : nat, find fuel r (sv "read1_+_0") = NotFound.
Proof.
  apply (lost_at_sentinel (Z.to_nat (2 ^ 32)) 5712306504 "out.agd"
           (mkProfile 0 0 "single-stranded")
           (example_gene "read1_+_0" 0 true) (sv "ATGACCGTTAAGCTGCGTTTT")).
  - apply Z2Nat.id. lia.
  - vm_compute. reflexivity.
  - vm_compute. reflexivity.
  - lia.
Qed.

(** ** The empty index *)

(** C9. Finalizing a writer to which no record was added writes the 64
    bytes of the header, with [num_records = 0] and [num_buckets = 0]; the
    reader opens this file, [record_count] is 0, and [find] returns
    not-found for every identifier, whatever the rounds it is given. *)
Theorem empty_round_trip (path : string) (profile : SampleDamageProfile) :
  exists w' bytes r,
    finalize true true (new_writer path profile) = Ok (w', File bytes) /\
    bytes = header_bytes (header_ w') /\ length bytes = 64%nat /\
    num_records (header_ w') = 0 /\ num_buckets (header_ w') = 0 /\
    open_reader io_fine path bytes = Ok r /\
    hdr_num_buckets r = Ok 0 /\
    record_count r = Ok 0 /\
    forall (fuel : nat) (id : string_view), find fuel r id = NotFound.
Proof.
  set (h' := mkHeader AGD_MAGIC AGD_VERSION 0 0 (profile_d_max profile)
               (profile_lambda profile)
               (library_type (header_ (new_writer path profile)))).
  assert (Himage : image (header_bytes h') h' [] [] []).
  { constructor; cbn [h' num_buckets num_records]; try reflexivity.
    constructor. }
  assert (Hhf : header_fits h').
  { unfold header_fits, h', AGD_MAGIC, AGD_VERSION.
    cbn [magic version num_records num_buckets]. lia. }
  destruct (image_header_reads _ _ _ _ _ Himage Hhf) as (_ & _ & Hnr & Hnb).
  cbn [h' num_records num_buckets] in Hnr, Hnb. fold h' in Hnr, Hnb.
  exists (mkWriter path h' [] true), (header_bytes h'),
    (mkReader (header_bytes h') (size (header_bytes h'))).
  split; [reflexivity|]. split; [reflexivity|].
  split; [apply header_bytes_length|]. split; [reflexivity|].
  split; [reflexivity|].
  split; [exact (open_image _ _ _ _ _ Himage Hhf path eq_refl eq_refl)|].
  split; [exact Hnb|]. split; [exact Hnr|].
  intros fuel id. unfold find. rewrite Hnb, Hnr. reflexivity.
Qed.

(** The bytes of the empty index of the example writer. *)
Example empty_index_bytes :
  exists w' bytes,
    finalize true true example_writer = Ok (w', File bytes) /\
    take 24 bytes
    = [65; 71; 68; 1;  1; 0; 0; 0;  0; 0; 0; 0; 0; 0; 0; 0;
       0; 0; 0; 0; 0; 0; 0; 0] /\
    length bytes = 64%nat.
Proof. eexists _, _. repeat (split; [vm_compute; reflexivity|]). reflexivity. Qed.

(** ** Opening a file *)

(** The two kinds of failure of the constructor; both are
    [std::runtime_error] and differ by the message. *)
Definition format_error (what : string) : bool :=
  String.prefix "Damage index too small: " what ||
  String.prefix "Invalid damage index magic: " what ||
  String.prefix "Unsupported damage index version: " what ||
  String.prefix "Damage index file truncated: " what.

Definition io_error (what : string) : bool := String.prefix "Failed to " what.

(** The fields of the header of a file of at least 64 bytes. *)
Definition file_magic (file : list Z) : Z := le_value (take 4 file).
Definition file_version (file : list Z) : Z := le_value (take 4 (drop 4 file)).
Definition file_num_records (file : list Z) : Z := le_value (take 8 (drop 8 file)).
Definition file_num_buckets (file : list Z) : Z := le_value (take 8 (drop 16 file)).

(** What the size check compares the file size with. *)
Definition file_expected_size (file : list Z) : Z :=
  expected_size (file_num_buckets file) (file_num_records file).

Lemma expected_size_eq (nb nr : Z) :
  expected_size nb nr = (64 + 8 * nb + 36 * nr) mod 2 ^ 64.
Proof.
  unfold expected_size, wrap64, HEADER_SIZE, BUCKET_SIZE, RECORD_SIZE.
  assert (E : forall a b, (a + b mod 2 ^ 64) mod 2 ^ 64 = (a + b) mod 2 ^ 64)
    by (intros; apply Z.add_mod_idemp_r; lia).
  set (x := (nb * 8) mod 2 ^ 64). set (y := (nr * 32) mod 2 ^ 64).
  rewrite E.
  replace (64 + x + y + nr * 4) with (64 + x + nr * 4 + y) by ring.
  unfold y. rewrite E.
  replace (64 + x + nr * 4 + nr * 32) with (64 + nr * 4 + nr * 32 + x) by ring.
  unfold x. rewrite E. f_equal. ring.
Qed.

(** The constructor never leaves defined behaviour, and fails in one of
    these ways only. *)
Lemma open_reader_cases (env : io_env) (path : string) (file : list Z) :
  let r := mkReader file (size file) in
  open_reader env path file =
    if negb (open_ok env) then Throw ("Failed to open damage index: " ++ path)
    else if negb (fstat_ok env) then Throw ("Failed to stat damage index: " ++ path)
    else if size file <? 64 then Throw ("Damage index too small: " ++ path)
    else if negb (mmap_ok env) then Throw ("Failed to mmap damage index: " ++ path)
    else if negb (file_magic file =? AGD_MAGIC)
      then Throw ("Invalid damage index magic: " ++ path)
    else if negb (file_version file =? AGD_VERSION)
      then Throw ("Unsupported damage index version: " ++ path)
    else if size file <? file_expected_size file
      then Throw ("Damage index file truncated: " ++ path)
    else Ok r.
Proof.
  intros r. unfold open_reader. fold r.
  destruct (open_ok env); [|reflexivity]. destruct (fstat_ok env); [|reflexivity].
  cbn [negb]. unfold HEADER_SIZE. change (file_size_ r) with (size file).
  destruct (Z.ltb_spec (size file) 64) as [|Hsize]; [reflexivity|].
  destruct (mmap_ok env); [|reflexivity]. cbn [negb].
  unfold hdr_magic, hdr_version, hdr_num_buckets, hdr_num_records.
  destruct (load_at 4 r 0) as [-> _]; [lia|cbn; lia|].
  destruct (load_at 4 r 4) as [-> _]; [lia|cbn; lia|].
  destruct (load_at 8 r 8) as [-> _]; [lia|cbn; lia|].
  destruct (load_at 8 r 16) as [-> _]; [lia|cbn; lia|].
  cbn [res_bind r data_]. rewrite drop_0.
  fold (file_magic file). destruct (file_magic file =? AGD_MAGIC); [|reflexivity].
  cbn [negb]. reflexivity.
Qed.

(** X17. With working system calls, the constructor fails with a format error
    exactly when the file is shorter than the header, or the magic or the
    version differs, or the file is shorter than the size computed from the
    header's counts in 64-bit arithmetic; a format error is never an I/O
    error. *)
Lemma open_reader_format_error (path : string) (file : list Z) :
  (exists what, open_reader io_fine path file = Throw what /\
                format_error what = true /\ io_error what = false) <->
  size file < 64 \/ file_magic file <> AGD_MAGIC \/
  file_version file <> AGD_VERSION \/
  size file < (64 + 8 * file_num_buckets file + 36 * file_num_records file)
              mod 2 ^ 64.
Proof.
  rewrite <- expected_size_eq. fold (file_expected_size file).
  rewrite open_reader_cases. cbn [io_fine open_ok fstat_ok mmap_ok negb].
  destruct (Z.ltb_spec (size file) 64) as [Hs|Hs].
  { split; [auto|]. intros _. eexists. split; [reflexivity|].
    destruct path; split; reflexivity. }
  destruct (Z.eqb_spec (file_magic file) AGD_MAGIC) as [Hm|Hm]; cbn [negb].
  2:{ split; [auto|]. intros _. eexists. split; [reflexivity|].
      destruct path; split; reflexivity. }
  destruct (Z.eqb_spec (file_version file) AGD_VERSION) as [Hv|Hv]; cbn [negb].
  2:{ split; [auto|]. intros _. eexists. split; [reflexivity|].
      destruct path; split; reflexivity. }
  destruct (Z.ltb_spec (size file) (file_expected_size file)) as [He|He].
  { split; [auto|]. intros _. eexists. split; [reflexivity|].
    destruct path; split; reflexivity. }
  split; [intros (what & H & _); discriminate H|].
  intros [?|[?|[?|?]]]; [lia|contradiction|contradiction|lia].
Qed.

(** A file that [finalize] wrote, cut anywhere after the header, is
    refused as truncated. *)
Lemma open_truncated (file : list Z) (h : AgdHeader) (B : list AgdBucket)
    (recs : list AgdRecord) (C : list Z) (path : string) (k : nat) :
  image file h B recs C -> header_fits h ->
  magic h = AGD_MAGIC -> version h = AGD_VERSION ->
  (64 <= k < length file)%nat ->
  open_reader io_fine path (take k file)
  = Throw ("Damage index file truncated: " ++ path).
Proof.
  intros Himage Hhf Hm Hv Hk.
  pose proof (image_size _ _ _ _ _ Himage) as Hsize.
  pose proof (image_nonneg _ _ _ _ _ Himage) as [Hnb Hnr].
  pose proof (image_small _ _ _ _ _ Himage) as Hsmall.
  assert (Hcut : take k file
                 = header_bytes h ++ take (k - 64) (drop 64 file)).
  { rewrite <- (image_header_prefix _ _ _ _ _ Himage).
    rewrite <- (take_drop 64 file) at 1.
    rewrite take_app_ge; rewrite length_take; [|lia].
    replace (64 `min` length file)%nat with 64%nat by lia. reflexivity. }
  assert (Hlen : size (take k file) = Z.of_nat k).
  { unfold size. rewrite length_take. lia. }
  unfold open_reader. cbn [io_fine open_ok fstat_ok mmap_ok negb file_size_].
  rewrite Hlen. unfold HEADER_SIZE.
  destruct (Z.ltb_spec (Z.of_nat k) 64); [lia|].
  rewrite <- Hlen, Hcut.
  destruct (header_reads h (take (k - 64) (drop 64 file)) Hhf)
    as (-> & -> & -> & ->).
  cbn [res_bind]. rewrite Hm, Hv, !Z.eqb_refl. cbn [negb].
  rewrite <- Hcut, Hlen, expected_size_eq, Z.mod_small by lia.
  unfold size in Hsize.
  destruct (Z.ltb_spec (Z.of_nat k) (64 + 8 * num_buckets h + 36 * num_records h));
    [reflexivity|lia].
Qed.

(** X18. Whatever a new writer is given, fewer than 2^32 times, the file it
    writes is refused once it is cut short: as too small when less than the
    header is left, as truncated otherwise. *)
Lemma written_file_truncated (path : string) (profile : SampleDamageProfile)
    (inputs : list (Gene * string_view)) (k : nat) :
  Forall (fun x => valid_input x.1 x.2 = true) inputs ->
  size inputs < 2 ^ 32 ->
  exists w w' bytes,
    add_records (new_writer path profile) inputs = Ok w /\
    finalize true true w = Ok (w', File bytes) /\
    ((k < length bytes)%nat ->
     open_reader io_fine path (take k bytes)
     = Throw ((if (k <? 64)%nat then "Damage index too small: "
               else "Damage index file truncated: ") ++ path)).
Proof.
  intros Hvalid Hn.
  destruct (add_records_fits inputs (new_writer path profile) eq_refl Hvalid)
    as (recs & Hadd & Hall).
  cbn [new_writer path_ header_ records_ app] in Hadd.
  set (w := mkWriter _ _ recs false) in Hadd.
  assert (Hlen : size recs = size inputs).
  { unfold size. f_equal. symmetry. exact (Forall2_length _ _ _ Hall). }
  assert (Hfits : Forall fits recs).
  { apply Forall_lookup_2. intros j rec Hj.
    destruct (Forall2_lookup_r _ _ _ _ _ Hall Hj) as (x & _ & Hx & _).
    exact Hx. }
  destruct (finalize_image w eq_refl eq_refl eq_refl)
    as (w' & file & B & C & Hfin & Himage & Hhf & Hm & Hv & _);
    [cbn [w records_]; lia|exact Hfits|].
  exists w, w', file. split; [exact Hadd|]. split; [exact Hfin|].
  intros Hk. destruct (Nat.ltb_spec k 64) as [Hlt|Hge].
  - rewrite open_reader_cases. cbn [io_fine open_ok fstat_ok mmap_ok negb].
    unfold size. rewrite length_take.
    destruct (Z.ltb_spec (Z.of_nat (k `min` length file)) 64); [reflexivity|lia].
  - apply (open_truncated _ _ _ _ _ _ _ Himage Hhf Hm Hv). lia.
Qed.

Lemma written_file_truncated_witness :
  exists w w' bytes,
    add_records (new_writer "out.agd" (mkProfile 0 0 "single-stranded"))
      example_inputs = Ok w /\
    finalize true true w = Ok (w', File bytes) /\
    ((100 < length bytes)%nat ->
     open_reader io_fine "out.agd" (take 100 bytes)
     = Throw ((if (100 <? 64)%nat then "Damage index too small: "
               else "Damage index file truncated: ") ++ "out.agd")).
Proof.
  apply (written_file_truncated "out.agd" (mkProfile 0 0 "single-stranded")
           example_inputs 100).
  - repeat (constructor; [vm_compute; reflexivity|]). constructor.
  - vm_compute. reflexivity.
Defined.

(** A header that declares no records and 2^61 buckets, as a file of its
    own. *)
Definition overflow_header : AgdHeader :=
  mkHeader AGD_MAGIC AGD_VERSION 0 (2 ^ 61) 0 0 0.

Definition overflow_file : list Z := header_bytes overflow_header.

(** C5. The size check is made in 64-bit arithmetic: on a file of 64 bytes
    whose header has the right magic and version, no records and 2^61
    buckets, the product [num_buckets * 8] wraps to 0, the expected size is
    64 and the constructor succeeds, although the file is shorter than
    [64 + num_buckets * 8] bytes; a [find] on this reader then reads outside
    the mapping. *)
Theorem open_accepts_overflowing_header :
  size overflow_file = 64 /\
  file_magic overflow_file = AGD_MAGIC /\
  file_version overflow_file = AGD_VERSION /\
  file_num_records overflow_file = 0 /\
  file_num_buckets overflow_file = 2 ^ 61 /\
  size overflow_file
  < 64 + 8 * file_num_buckets overflow_file + 36 * file_num_records overflow_file /\
  file_expected_size overflow_file = 64 /\
  open_reader io_fine "index.agd" overflow_file
  = Ok (mkReader overflow_file 64) /\
  find 1 (mkReader overflow_file 64) (sv "read1") = FindUndefined.
Proof.
  repeat (split; [vm_compute; reflexivity|]). vm_compute; reflexivity.
Qed.

(** The failures of the system calls are I/O errors, and a short file is
    refused before it is mapped. *)
Example open_reader_io_errors :
  open_reader (mkEnv false true true) "index.agd" overflow_file
  = Throw "Failed to open damage index: index.agd" /\
  open_reader (mkEnv true false true) "index.agd" overflow_file
  = Throw "Failed to stat damage index: index.agd" /\
  open_reader (mkEnv true true false) "index.agd" overflow_file
  = Throw "Failed to mmap damage index: index.agd" /\
  open_reader (mkEnv true true false) "index.agd" (take 63 overflow_file)
  = Throw "Damage index too small: index.agd" /\
  io_error "Failed to mmap damage index: index.agd" = true /\
  format_error "Failed to mmap damage index: index.agd" = false.
Proof.
  repeat (split; [vm_compute; reflexivity|]). vm_compute; reflexivity.
Qed.

(** * The rest of the code *)

(** ** The codecs of damage_index.hpp *)

Lemma forallb_range (n : nat) (P : Z -> bool) :
  forallb P (map Z.of_nat (seq 0 n)) = true ->
  forall z, 0 <= z < Z.of_nat n -> P z = true.
Proof.
  intros H z Hz. rewrite forallb_forall in H. apply H.
  apply in_map_iff. exists (Z.to_nat z). split; [lia|]. apply in_seq. lia.
Qed.

Lemma encode_nucleotide_cases (c : ascii) :
  encode_nucleotide c = -1 \/ encode_nucleotide c = 0 \/
  encode_nucleotide c = 1 \/ encode_nucleotide c = 2 \/ encode_nucleotide c = 3.
Proof. pose proof (encode_nucleotide_range c). lia. Qed.

(** The upper-case letter of a base. *)
Definition upper (c : ascii) : ascii :=
  (if Ascii.eqb c "t" then "T" else if Ascii.eqb c "c" then "C"
   else if Ascii.eqb c "a" then "A" else if Ascii.eqb c "g" then "G"
   else c)%char.

Lemma encode_nucleotide_base (c : ascii) :
  0 <= encode_nucleotide c -> BASES (encode_nucleotide c) = upper c.
Proof.
  unfold encode_nucleotide, upper.
  destruct (Ascii.eqb_spec c "T") as [->|?]; [reflexivity|].
  destruct (Ascii.eqb_spec c "t") as [->|?]; [reflexivity|]. cbn [orb].
  destruct (Ascii.eqb_spec c "C") as [->|?]; [reflexivity|].
  destruct (Ascii.eqb_spec c "c") as [->|?]; [reflexivity|]. cbn [orb].
  destruct (Ascii.eqb_spec c "A") as [->|?]; [reflexivity|].
  destruct (Ascii.eqb_spec c "a") as [->|?]; [reflexivity|]. cbn [orb].
  destruct (Ascii.eqb_spec c "G") as [->|?]; [reflexivity|].
  destruct (Ascii.eqb_spec c "g") as [->|?]; [reflexivity|]. cbn [orb].
  lia.
Qed.

(** X1. Codon indices and codons: decoding an index below 64 and encoding the
    three letters gives the index back; encoding three characters and
    decoding gives their bases (upper case) when all three are one of
    [ACGTacgt], and [NNN] otherwise. *)
Theorem codon_round_trip :
  (forall idx, 0 <= idx <= 63 ->
     let '(c0, c1, c2) := decode_codon idx in encode_codon c0 c1 c2 = idx) /\
  (forall c0 c1 c2,
     decode_codon (encode_codon c0 c1 c2)
     = if (0 <=? encode_nucleotide c0) && (0 <=? encode_nucleotide c1) &&
          (0 <=? encode_nucleotide c2)
       then (BASES (encode_nucleotide c0), BASES (encode_nucleotide c1),
             BASES (encode_nucleotide c2))
       else ("N", "N", "N")%char) /\
  (forall c, 0 <= encode_nucleotide c -> BASES (encode_nucleotide c) = upper c) /\
  (forall idx, 63 < idx -> decode_codon idx = ("N", "N", "N")%char) /\
  decode_codon (encode_codon "a" "T" "g") = ("A", "T", "G")%char.
Proof.
  split; [|split; [|split; [exact encode_nucleotide_base|split]]].
  - intros idx Hidx.
    pose proof (forallb_range 64
                  (fun idx => let '(c0, c1, c2) := decode_codon idx in
                              encode_codon c0 c1 c2 =? idx)
                  ltac:(vm_compute; reflexivity) idx ltac:(lia)) as H.
    cbv beta in H.
    destruct (decode_codon idx) as [[c0 c1] c2]. now apply Z.eqb_eq.
  - intros c0 c1 c2. unfold encode_codon.
    destruct (encode_nucleotide_cases c0) as [->|[->|[->|[->| ->]]]];
      destruct (encode_nucleotide_cases c1) as [->|[->|[->|[->| ->]]]];
      destruct (encode_nucleotide_cases c2) as [->|[->|[->|[->| ->]]]];
      reflexivity.
  - intros idx Hidx. unfold decode_codon.
    destruct (Z.ltb_spec 63 idx); [reflexivity|lia].
  - reflexivity.
Qed.

(** X2. Frame and strand: the byte is below 256, the strand comes back as it
    went in, and the frame comes back modulo 4 (so unchanged for 0..3). *)
Theorem frame_strand_round_trip (frame : Z) (is_reverse : bool) :
  0 <= encode_frame_strand frame is_reverse < 256 /\
  decode_frame (encode_frame_strand frame is_reverse) = frame mod 4 /\
  decode_is_reverse (encode_frame_strand frame is_reverse) = is_reverse.
Proof.
  unfold encode_frame_strand, decode_frame, decode_is_reverse.
  change 3 with (Z.ones 2). rewrite Z.land_ones by lia. change (2 ^ 2) with 4.
  pose proof (Z.mod_pos_bound frame 4 ltac:(lia)) as H.
  assert (Hk : frame mod 4 = 0 \/ frame mod 4 = 1 \/ frame mod 4 = 2 \/
               frame mod 4 = 3) by lia.
  destruct Hk as [->|[->|[->| ->]]]; destruct is_reverse; repeat split;
    try reflexivity; vm_compute; congruence.
Qed.

(** What packing makes of a character: its base, and T for anything that is
    not a base. *)
Definition packed_base (c : ascii) : ascii := BASES (nt_code c).

Lemma nt_code_cases (c : ascii) :
  nt_code c = 0 \/ nt_code c = 1 \/ nt_code c = 2 \/ nt_code c = 3.
Proof.
  unfold nt_code. destruct (encode_nucleotide_cases c) as [->|[->|[->|[->| ->]]]];
    cbn; auto.
Qed.

Lemma pack_round_nt_code (packed i : Z) (c : ascii) :
  pack_round packed i c = wrap8 (Z.lor packed (Z.shiftl (nt_code c) (6 - 2 * i))).
Proof. reflexivity. Qed.

(** X3. Four nucleotides and a byte: unpacking what was packed gives the four
    bases, with T where the character was not a base, and packing what a
    byte unpacks to gives the byte back. *)
Theorem pack_nucleotides_4_round_trip :
  (forall n0 n1 n2 n3,
     0 <= pack_nucleotides_4 n0 n1 n2 n3 <= 255 /\
     unpack_nucleotides_4 (pack_nucleotides_4 n0 n1 n2 n3)
     = (packed_base n0, packed_base n1, packed_base n2, packed_base n3)) /\
  (forall packed, 0 <= packed <= 255 ->
     let '(n0, n1, n2, n3) := unpack_nucleotides_4 packed in
     pack_nucleotides_4 n0 n1 n2 n3 = packed) /\
  unpack_nucleotides_4 (pack_nucleotides_4 "g" "N" "C" "a")
  = ("G", "T", "C", "A")%char.
Proof.
  split; [|split].
  - intros n0 n1 n2 n3. unfold pack_nucleotides_4, packed_base.
    rewrite !pack_round_nt_code.
    destruct (nt_code_cases n0) as [->|[->|[->| ->]]];
      destruct (nt_code_cases n1) as [->|[->|[->| ->]]];
      destruct (nt_code_cases n2) as [->|[->|[->| ->]]];
      destruct (nt_code_cases n3) as [->|[->|[->| ->]]];
      (split; [vm_compute; split; congruence|reflexivity]).
  - intros packed Hp.
    pose proof (forallb_range 256
                  (fun packed => let '(n0, n1, n2, n3) := unpack_nucleotides_4 packed in
                                 pack_nucleotides_4 n0 n1 n2 n3 =? packed)
                  ltac:(vm_compute; reflexivity) packed ltac:(lia)) as H.
    cbv beta in H.
    destruct (unpack_nucleotides_4 packed) as [[[n0 n1] n2] n3].
    now apply Z.eqb_eq.
  - reflexivity.
Qed.

(** ** Bytes through the quantizers *)

Local Open Scope Q_scope.

(** X4. A stored byte survives dequantizing and quantizing again: every
    probability byte, and every percentage byte up to 200 (a larger one
    comes back as 200). *)
Theorem quantize_dequantize_byte (q : Z) :
  (0 <= q <= 255)%Z ->
  quantize_probability (dequantize_probability q) = Ok q /\
  quantize_damage_pct (dequantize_damage_pct q) = Ok (Z.min q 200).
Proof.
  intros Hq.
  pose proof (forallb_range 256
                (fun q =>
                   match quantize_probability (dequantize_probability q),
                         quantize_damage_pct (dequantize_damage_pct q) with
                   | Ok a, Ok b => (a =? q)%Z && (b =? Z.min q 200)%Z
                   | _, _ => false
                   end)
                ltac:(vm_compute; reflexivity) q ltac:(lia)) as H.
  cbv beta in H.
  destruct (quantize_probability _) as [a| |]; try discriminate.
  destruct (quantize_damage_pct _) as [b| |]; try discriminate.
  apply andb_true_iff in H as [Ha Hb].
  apply Z.eqb_eq in Ha, Hb. now subst.
Qed.

Lemma quantize_dequantize_byte_witness :
  quantize_probability (dequantize_probability 77) = Ok 77%Z /\
  quantize_damage_pct (dequantize_damage_pct 77) = Ok (Z.min 77 200).
Proof. apply (quantize_dequantize_byte 77). lia. Defined.

Local Close Scope Q_scope.

(** ** Which changes are synonymous *)

(** The codons as indices: TTA, TTG, TAA, TGA and ATA. *)
Definition TTA : Z := 2.
Definition TTG : Z := 3.
Definition TAA : Z := 10.
Definition TGA : Z := 14.
Definition ATA : Z := 34.

(** X5. In the table of the standard code, a T that may have been a C is
    synonymous at the third position of every codon, at the first position
    of TTA and TTG (Leu), and nowhere else; an A that may have been a G is
    synonymous at the third position of every codon but TGA (stop, Trp) and
    ATA (Ile, Met), at the second position of TAA (stop), and nowhere else.
    Sentinels are never synonymous. *)
Theorem synonymous_changes (codon nt_pos : Z) :
  0 <= nt_pos <= 2 ->
  (0 <= codon <= 63 ->
   is_ct_synonymous codon nt_pos
   = (observed_nt_of codon nt_pos =? 0) &&
     ((nt_pos =? 2) || ((nt_pos =? 0) && ((codon =? TTA) || (codon =? TTG)))) /\
   is_ga_synonymous codon nt_pos
   = (observed_nt_of codon nt_pos =? 2) &&
     (((nt_pos =? 2) && negb (codon =? TGA) && negb (codon =? ATA)) ||
      ((nt_pos =? 1) && (codon =? TAA)))) /\
  (63 < codon ->
   is_ct_synonymous codon nt_pos = false /\
   is_ga_synonymous codon nt_pos = false).
Proof.
  intros Hpos. split.
  - intros Hc.
    pose proof (forallb_range 64
      (fun codon => forallb (fun nt_pos =>
         Bool.eqb (is_ct_synonymous codon nt_pos)
           ((observed_nt_of codon nt_pos =? 0) &&
            ((nt_pos =? 2) ||
             ((nt_pos =? 0) && ((codon =? TTA) || (codon =? TTG))))) &&
         Bool.eqb (is_ga_synonymous codon nt_pos)
           ((observed_nt_of codon nt_pos =? 2) &&
            (((nt_pos =? 2) && negb (codon =? TGA) && negb (codon =? ATA)) ||
             ((nt_pos =? 1) && (codon =? TAA))))) [0; 1; 2])
      ltac:(vm_compute; reflexivity) codon ltac:(lia)) as H.
    cbv beta in H. rewrite forallb_forall in H.
    assert (Hin : In nt_pos [0; 1; 2]) by (simpl; lia).
    apply H in Hin. apply andb_true_iff in Hin as [H1 H2].
    apply Bool.eqb_prop in H1, H2. auto.
  - intros Hc. unfold is_ct_synonymous, is_ga_synonymous.
    destruct (Z.ltb_spec 63 codon); [auto|lia].
Qed.

Lemma synonymous_changes_witness :
  (0 <= TTA <= 63 ->
   is_ct_synonymous TTA 0
   = (observed_nt_of TTA 0 =? 0) &&
     ((0 =? 2) || ((0 =? 0) && ((TTA =? TTA) || (TTA =? TTG)))) /\
   is_ga_synonymous TTA 0
   = (observed_nt_of TTA 0 =? 2) &&
     (((0 =? 2) && negb (TTA =? TGA) && negb (TTA =? ATA)) ||
      ((0 =? 1) && (TTA =? TAA)))) /\
  (63 < TTA -> is_ct_synonymous TTA 0 = false /\ is_ga_synonymous TTA 0 = false).
Proof. apply (synonymous_changes TTA 0). lia. Defined.

Example synonymous_examples :
  encode_codon "T" "T" "A" = TTA /\ encode_codon "A" "T" "A" = ATA /\
  is_ct_synonymous TTA 0 = true /\ is_ga_synonymous TTA 2 = true /\
  is_ga_synonymous ATA 2 = false /\ is_ga_synonymous TAA 1 = true /\
  is_ct_synonymous 255 2 = false.
Proof. repeat split. Qed.

(** ** Terminal codons of the reverse strand *)

(** The reverse complement of a sequence: the complements of its bases, last
    first; a character that is not a base becomes N. *)
Definition revcomp (dna : string_view) : string_view :=
  map complement (reverse dna).

Lemma size_revcomp (dna : string_view) : size (revcomp dna) = size dna.
Proof. unfold size, revcomp. now rewrite length_map, length_reverse. Qed.

Lemma char_or_N_revcomp (dna : string_view) (i : Z) :
  0 <= i < size dna ->
  char_or_N (revcomp dna) i = complement (char_or_N dna (size dna - 1 - i)).
Proof.
  intros Hi. unfold char_or_N, revcomp, size in *.
  rewrite list_lookup_fmap, reverse_lookup by lia.
  replace (length dna - S (Z.to_nat i))%nat
    with (Z.to_nat (Z.of_nat (length dna) - 1 - i)) by lia.
  assert (Hlt : (Z.to_nat (Z.of_nat (length dna) - 1 - i) < length dna)%nat)
    by lia.
  destruct (lookup_lt_is_Some_2 dna _ Hlt) as [c ->].
  reflexivity.
Qed.

Lemma codon_of_revcomp (dna : string_view) (p : Z) :
  0 <= p -> p + 3 <= size dna ->
  codon_of (revcomp dna) p = revcomp_codon_of dna (size dna - 3 - p).
Proof.
  intros H0 H3. unfold codon_of, revcomp_codon_of.
  rewrite !char_or_N_revcomp by lia.
  replace (size dna - 1 - p) with (size dna - 3 - p + 2) by lia.
  replace (size dna - 1 - (p + 1)) with (size dna - 3 - p + 1) by lia.
  replace (size dna - 1 - (p + 2)) with (size dna - 3 - p) by lia.
  reflexivity.
Qed.

(** X6. Reverse strand: the 5' array holds the reverse-complement codons that
    end [frame] bases before the end of the sequence and walk back by 3,
    the 3' array those that start at [frame] and walk forward by 3; both
    hold [min(5, (len - frame) / 3)] codons, all inside the sequence, and
    the sentinel after them. *)
Theorem reverse_terminal_codons (dna : string_view) (frame : Z)
    (rec : AgdRecord) :
  size dna < 2 ^ 63 -> 0 <= frame <= 2 ->
  exists rec',
    extract_terminal_codons dna frame true rec = Ok rec' /\
    let len := size dna in
    let n := codon_count len frame in
    n_5prime rec' = n /\ n_3prime rec' = n /\
    n = Z.max 0 (Z.min 5 ((len - frame) / 3)) /\
    (forall j : nat, Z.of_nat j < n ->
       0 <= len - frame - 3 - 3 * Z.of_nat j /\
       codons_5prime rec' !! j
       = Some (revcomp_codon_of dna (len - frame - 3 - 3 * Z.of_nat j)) /\
       frame + 3 * Z.of_nat j + 3 <= len /\
       codons_3prime rec' !! j
       = Some (revcomp_codon_of dna (frame + 3 * Z.of_nat j))) /\
    (forall j : nat, n <= Z.of_nat j < 5 ->
       codons_5prime rec' !! j = Some 255 /\ codons_3prime rec' !! j = Some 255).
Proof.
  intros Hlen Hframe.
  destruct (extract_reverse_spec dna frame rec Hlen Hframe)
    as (rec' & Hrun & _ & _ & _ & _ & Hn5 & Hn3 & Hin & Hout).
  exists rec'. split; [exact Hrun|]. cbv zeta.
  split; [exact Hn5|]. split; [exact Hn3|]. split; [reflexivity|].
  split; [|exact Hout].
  intros j Hj. destruct (Hin j Hj) as [H5 H3].
  destruct (codon_count_fits (size dna) frame (Z.of_nat j)) as (? & ? & ?); [lia|].
  repeat (split; [first [assumption|lia]|]). assumption.
Qed.

Lemma reverse_terminal_codons_witness :
  exists rec',
    extract_terminal_codons (sv "ACGTNACGTACGTAAGGTTCA") 1 true zero_record
    = Ok rec' /\
    let len := size (sv "ACGTNACGTACGTAAGGTTCA") in
    let n := codon_count len 1 in
    n_5prime rec' = n /\ n_3prime rec' = n /\
    n = Z.max 0 (Z.min 5 ((len - 1) / 3)) /\
    (forall j : nat, Z.of_nat j < n ->
       0 <= len - 1 - 3 - 3 * Z.of_nat j /\
       codons_5prime rec' !! j
       = Some (revcomp_codon_of (sv "ACGTNACGTACGTAAGGTTCA")
                 (len - 1 - 3 - 3 * Z.of_nat j)) /\
       1 + 3 * Z.of_nat j + 3 <= len /\
       codons_3prime rec' !! j
       = Some (revcomp_codon_of (sv "ACGTNACGTACGTAAGGTTCA") (1 + 3 * Z.of_nat j))) /\
    (forall j : nat, n <= Z.of_nat j < 5 ->
       codons_5prime rec' !! j = Some 255 /\ codons_3prime rec' !! j = Some 255).
Proof.
  apply (reverse_terminal_codons (sv "ACGTNACGTACGTAAGGTTCA") 1 zero_record).
  - vm_compute. reflexivity.
  - lia.
Defined.

Lemma codon_arrays_eq (a b : list Z) (n : Z) (f : Z -> Z) :
  length a = 5%nat -> length b = 5%nat ->
  (forall j : nat, Z.of_nat j < n -> a !! j = Some (f (Z.of_nat j))) ->
  (forall j : nat, Z.of_nat j < n -> b !! j = Some (f (Z.of_nat j))) ->
  (forall j : nat, n <= Z.of_nat j < 5 -> a !! j = Some 255) ->
  (forall j : nat, n <= Z.of_nat j < 5 -> b !! j = Some 255) ->
  a = b.
Proof.
  intros La Lb Ha Hb Ha' Hb'. apply list_eq. intros i.
  destruct (Z.lt_ge_cases (Z.of_nat i) n) as [Hi|Hi].
  - now rewrite Ha, Hb.
  - destruct (Z.lt_ge_cases (Z.of_nat i) 5) as [Hi5|Hi5].
    + rewrite Ha', Hb' by lia. reflexivity.
    + rewrite !lookup_ge_None_2 by lia. reflexivity.
Qed.

(** X7. The source reads the reverse strand "as if the DNA had been reverse
    complemented first": the 5' codons of the reverse strand are the 5'
    codons of the forward strand of the reverse complement, in the same
    frame, and the counts agree. The 3' codons agree as well when the frame
    counted from the other end is the same, [(len - frame) mod 3 = frame];
    they start at [frame] from the start of the sequence whatever its
    length. *)
Theorem reverse_strand_is_forward_of_revcomp (dna : string_view) (frame : Z)
    (rec : AgdRecord) :
  size dna < 2 ^ 63 -> 0 <= frame <= 2 ->
  exists rr rf,
    extract_terminal_codons dna frame true rec = Ok rr /\
    extract_terminal_codons (revcomp dna) frame false rec = Ok rf /\
    n_5prime rr = n_5prime rf /\ n_3prime rr = n_3prime rf /\
    codons_5prime rr = codons_5prime rf /\
    ((size dna - frame) mod 3 = frame -> rr = rf).
Proof.
  intros Hlen Hframe.
  destruct (extract_reverse_spec dna frame rec Hlen Hframe)
    as (rr & Hrr & Hmr & Hnr & Hl5r & Hl3r & Hn5r & Hn3r & Hinr & Houtr).
  destruct (extract_forward_spec (revcomp dna) frame rec
              ltac:(rewrite size_revcomp; exact Hlen) Hframe)
    as (rf & Hrf & Hmf & Hnf & Hl5f & Hl3f & Hn5f & Hn3f & Hinf & Houtf).
  rewrite size_revcomp in *.
  set (n := codon_count (size dna) frame) in *.
  assert (H5 : codons_5prime rr = codons_5prime rf).
  { apply (codon_arrays_eq _ _ n
             (fun j => revcomp_codon_of dna (size dna - frame - 3 - 3 * j)));
      try assumption.
    - intros j Hj. apply Hinr. exact Hj.
    - intros j Hj. destruct (Hinf j Hj) as [-> _].
      destruct (codon_count_fits (size dna) frame (Z.of_nat j)) as (? & _);
        [fold n; lia|].
      rewrite codon_of_revcomp by lia. do 2 f_equal. lia.
    - intros j Hj. apply Houtr. exact Hj.
    - intros j Hj. apply Houtf. exact Hj. }
  exists rr, rf. split; [exact Hrr|]. split; [exact Hrf|].
  split; [congruence|]. split; [congruence|]. split; [exact H5|].
  intros Halign.
  assert (H3 : codons_3prime rr = codons_3prime rf).
  { apply (codon_arrays_eq _ _ n
             (fun j => revcomp_codon_of dna (frame + 3 * j)));
      try assumption.
    - intros j Hj. apply Hinr. exact Hj.
    - intros j Hj. destruct (Hinf j Hj) as [_ ->].
      destruct (codon_count_fits (size dna) frame (Z.of_nat j)) as (_ & ? & ?);
        [fold n; lia|].
      rewrite codon_of_revcomp by lia. do 2 f_equal.
      unfold coding_length.
      pose proof (Z.div_mod (size dna - frame) 3 ltac:(lia)). lia.
    - intros j Hj. apply Houtr. exact Hj.
    - intros j Hj. apply Houtf. exact Hj. }
  unfold meta, nts in *.
  destruct rr, rf. cbn in *. congruence.
Qed.

Lemma reverse_strand_is_forward_of_revcomp_witness :
  exists rr rf,
    extract_terminal_codons (sv "GATTACAGN") 0 true zero_record = Ok rr /\
    extract_terminal_codons (revcomp (sv "GATTACAGN")) 0 false zero_record
    = Ok rf /\
    n_5prime rr = n_5prime rf /\ n_3prime rr = n_3prime rf /\
    codons_5prime rr = codons_5prime rf /\
    ((size (sv "GATTACAGN") - 0) mod 3 = 0 -> rr = rf).
Proof.
  apply (reverse_strand_is_forward_of_revcomp (sv "GATTACAGN") 0 zero_record).
  - vm_compute. reflexivity.
  - lia.
Defined.

(** When the two frames differ, so do the 3' codons: on a sequence of 7
    bases in frame 0 the reverse strand stores the codons of the first six
    bases, the forward strand of the reverse complement those of the last
    six. *)
Example reverse_strand_3prime_differs :
  revcomp (sv "GATTACA") = sv "TGTAATC" /\
  exists rr rf,
    extract_terminal_codons (sv "GATTACA") 0 true zero_record = Ok rr /\
    extract_terminal_codons (revcomp (sv "GATTACA")) 0 false zero_record
    = Ok rf /\
    codons_3prime rr = [encode_codon "A" "T" "C"; encode_codon "G" "T" "A";
                        255; 255; 255] /\
    codons_3prime rf = [encode_codon "A" "A" "T"; encode_codon "T" "G" "T";
                        255; 255; 255].
Proof. split; [reflexivity|]. eexists _, _. repeat split. Qed.

(** ** Terminal nucleotides *)

(** The 2-bit code at position [i] of a packed array: what
    [unpack_nucleotides_4] reads at position [i mod 4] of byte [i / 4]. *)
Definition slot (a : list Z) (i : Z) : Z :=
  Z.land (Z.shiftr (default 0 (a !! Z.to_nat (i / 4))) (6 - 2 * (i mod 4))) 3.

Definition is_byte (b : Z) : Prop := 0 <= b <= 255.

Lemma or_into_byte (b v p q : Z) :
  0 <= b <= 255 -> 0 <= v <= 3 -> 0 <= p <= 3 -> 0 <= q <= 3 ->
  let b' := wrap8 (Z.lor b (Z.shiftl v (6 - 2 * p))) in
  0 <= b' <= 255 /\
  Z.land (Z.shiftr b' (6 - 2 * q)) 3
  = if p =? q then Z.lor (Z.land (Z.shiftr b (6 - 2 * p)) 3) v
    else Z.land (Z.shiftr b (6 - 2 * q)) 3.
Proof.
  intros Hb Hv Hp Hq.
  pose proof (forallb_range 256 (fun b =>
    forallb (fun v => forallb (fun p => forallb (fun q =>
      let b' := wrap8 (Z.lor b (Z.shiftl v (6 - 2 * p))) in
      (0 <=? b') && (b' <=? 255) &&
      (Z.land (Z.shiftr b' (6 - 2 * q)) 3
       =? if p =? q then Z.lor (Z.land (Z.shiftr b (6 - 2 * p)) 3) v
          else Z.land (Z.shiftr b (6 - 2 * q)) 3))
      [0; 1; 2; 3]) [0; 1; 2; 3]) [0; 1; 2; 3])
    ltac:(vm_compute; reflexivity) b ltac:(lia)) as H.
  cbv beta in H. rewrite forallb_forall in H.
  specialize (H v ltac:(simpl; lia)). rewrite forallb_forall in H.
  specialize (H p ltac:(simpl; lia)). rewrite forallb_forall in H.
  specialize (H q ltac:(simpl; lia)). cbv zeta in H |- *.
  apply andb_true_iff in H as [H H3]. apply andb_true_iff in H as [H1 H2].
  apply Z.leb_le in H1, H2. apply Z.eqb_eq in H3. auto.
Qed.

Lemma slot_store_or (a : list Z) (i j v : Z) :
  Forall is_byte a -> (Z.to_nat (i / 4) < length a)%nat ->
  0 <= i -> 0 <= j -> 0 <= v <= 3 ->
  Forall is_byte (store_or (i / 4) (packed i v) a) /\
  slot (store_or (i / 4) (packed i v) a) j
  = if i =? j then Z.lor (slot a i) v else slot a j.
Proof.
  intros Hall Hlen Hi Hj Hv. unfold store_or, packed, slot.
  destruct (lookup_lt_is_Some_2 a _ Hlen) as [b Hb].
  assert (Hbyte : is_byte b) by (eapply Forall_lookup_1; eassumption).
  pose proof (Z.mod_pos_bound i 4 ltac:(lia)) as Hp.
  pose proof (Z.mod_pos_bound j 4 ltac:(lia)) as Hq.
  destruct (or_into_byte b v (i mod 4) (j mod 4) Hbyte Hv ltac:(lia) ltac:(lia))
    as [Hb' Hslot]. cbv zeta in Hb', Hslot.
  split.
  - apply Forall_lookup_2. intros k x Hk.
    destruct (decide (Z.to_nat (i / 4) = k)) as [<-|Hne].
    + rewrite list_lookup_alter_eq, Hb in Hk. injection Hk as <-. exact Hb'.
    + rewrite list_lookup_alter_ne in Hk by exact Hne.
      eapply Forall_lookup_1; eassumption.
  - destruct (Z.eq_dec (i / 4) (j / 4)) as [E|Hne].
    + rewrite <- E, list_lookup_alter_eq, Hb.
      cbn [fmap option_fmap option_map default from_option]. unfold id.
      rewrite Hslot.
      destruct (Z.eqb_spec (i mod 4) (j mod 4)) as [Em|Hm].
      * assert (i = j).
        { pose proof (Z.div_mod i 4 ltac:(lia)).
          pose proof (Z.div_mod j 4 ltac:(lia)). lia. }
        subst j. now rewrite Z.eqb_refl.
      * destruct (Z.eqb_spec i j) as [->|_]; [contradiction|reflexivity].
    + rewrite list_lookup_alter_ne.
      * destruct (Z.eqb_spec i j) as [->|_]; [contradiction|reflexivity].
      * intros E. apply Hne.
        pose proof (Z.div_pos i 4 Hi ltac:(lia)).
        pose proof (Z.div_pos j 4 Hj ltac:(lia)). lia.
Qed.

Section PackLoop.

(** One of the two arrays, read by [get] and written by [set]; [other] is
    any field [set] leaves alone; [code i] is what round [i] ors in. *)
Variable get : AgdRecord -> list Z.
Variable set : (list Z -> list Z) -> AgdRecord -> AgdRecord.
Variable code : Z -> Z.
Variable len : Z.
Variable body : Z -> AgdRecord -> res AgdRecord.

Hypothesis get_set : forall f r, get (set f r) = f (get r).
Hypothesis code_range : forall i, 0 <= code i <= 3.
Hypothesis body_round : forall i r, 0 <= i < 12 -> i < len ->
  body i r = Ok (set (store_or (i / 4) (packed i (code i))) r) \/
  (code i = 0 /\ body i r = Ok r).

(** The array when the loop is about to run round [i]. *)
Definition packed_upto (i : Z) (a : list Z) : Prop :=
  length a = 3%nat /\ Forall is_byte a /\
  forall j, 0 <= j < 12 -> slot a j = if j <? i then code j else 0.

Lemma pack_loop_slots (fuel : nat) (i : Z) (r : AgdRecord) :
  0 <= i <= len \/ i = 0 -> 12 <= i + Z.of_nat fuel ->
  packed_upto i (get r) ->
  exists r',
    pack_loop fuel body len i r = Ok r' /\
    length (get r') = 3%nat /\ Forall is_byte (get r') /\
    forall j, 0 <= j < 12 ->
      slot (get r') j = if j <? len then code j else 0.
Proof.
  revert i r. induction fuel as [|fuel IH]; intros i r Hi Hfuel (Hl & Hb & Hs).
  - exists r. split; [reflexivity|]. split; [exact Hl|]. split; [exact Hb|].
    intros j Hj. rewrite (Hs j Hj).
    destruct (Z.ltb_spec j i); [|lia].
    destruct (Z.ltb_spec j len); [reflexivity|lia].
  - cbn [pack_loop].
    destruct (Z.ltb_spec i 12) as [H12|H12]; cbn [andb].
    2:{ exists r. split; [reflexivity|]. split; [exact Hl|]. split; [exact Hb|].
        intros j Hj. rewrite (Hs j Hj).
        destruct (Z.ltb_spec j i); [|lia].
        destruct (Z.ltb_spec j len); [reflexivity|lia]. }
    destruct (Z.ltb_spec i len) as [Hlen|Hlen].
    2:{ exists r. split; [reflexivity|]. split; [exact Hl|]. split; [exact Hb|].
        intros j Hj. rewrite (Hs j Hj).
        destruct (Z.ltb_spec j i); destruct (Z.ltb_spec j len);
          try reflexivity; lia. }
    assert (Hi0 : 0 <= i) by lia.
    assert (Hidx : (Z.to_nat (i / 4) < length (get r))%nat).
    { rewrite Hl. assert (i / 4 < 3) by (apply Z.div_lt_upper_bound; lia).
      pose proof (Z.div_pos i 4 Hi0 ltac:(lia)). lia. }
    assert (Hstep : exists r1, body i r = Ok r1 /\ packed_upto (i + 1) (get r1)).
    { destruct (body_round i r ltac:(lia) Hlen) as [E|[E0 E]].
      - eexists. split; [exact E|]. rewrite get_set.
        split; [unfold store_or; now rewrite length_alter|].
        split.
        { now destruct (slot_store_or (get r) i 0 (code i) Hb Hidx Hi0
                          ltac:(lia) (code_range i)) as [Hbytes _]. }
        intros j Hj.
        destruct (slot_store_or (get r) i j (code i) Hb Hidx Hi0 ltac:(lia)
                    (code_range i)) as [_ ->].
        destruct (Z.eqb_spec i j) as [<-|Hne].
        + rewrite (Hs i ltac:(lia)).
          destruct (Z.ltb_spec i i); [lia|].
          destruct (Z.ltb_spec i (i + 1)); [|lia]. apply Z.lor_0_l.
        + rewrite (Hs j Hj).
          destruct (Z.ltb_spec j i); destruct (Z.ltb_spec j (i + 1));
            try reflexivity; lia.
      - exists r. split; [exact E|]. split; [exact Hl|]. split; [exact Hb|].
        intros j Hj. rewrite (Hs j Hj).
        destruct (Z.ltb_spec j i); destruct (Z.ltb_spec j (i + 1));
          try reflexivity; try lia.
        assert (j = i) by lia. subst j. now rewrite E0. }
    destruct Hstep as (r1 & -> & Hr1). cbn [res_bind].
    apply IH; [lia|lia|exact Hr1].
Qed.

End PackLoop.

Lemma pack_loop_keeps (P : AgdRecord -> Prop)
    (body : Z -> AgdRecord -> res AgdRecord) (len : Z) :
  (forall i r r', body i r = Ok r' -> P r -> P r') ->
  forall (fuel : nat) (i : Z) (r r' : AgdRecord),
    pack_loop fuel body len i r = Ok r' -> P r -> P r'.
Proof.
  intros Hbody. induction fuel as [|fuel IH]; intros i r r'; cbn [pack_loop].
  - now intros [= <-].
  - destruct ((i <? 12) && (i <? len)); [|now intros [= <-]].
    destruct (body i r) as [r1| |] eqn:E; try discriminate.
    cbn [res_bind]. intros Hloop Hr. eapply IH; [exact Hloop|]. eauto.
Qed.

Lemma complement_code_range (c : ascii) : 0 <= complement_code c <= 3.
Proof.
  unfold complement_code.
  repeat match goal with |- context [if ?b then _ else _] => destruct b end; lia.
Qed.

Lemma nt_code_range (c : ascii) : 0 <= nt_code c <= 3.
Proof. pose proof (nt_code_cases c). lia. Qed.

(** The code a slot of the packed arrays holds, for a sequence and a
    strand: 0 (a T) where the loops write nothing. *)
Definition nt_5prime_code (dna : string_view) (is_reverse : bool) (i : Z) : Z :=
  if i <? size dna then
    if is_reverse then complement_code (char_or_N dna (size dna - 1 - i))
    else nt_code (char_or_N dna i)
  else 0.

Definition nt_3prime_code (dna : string_view) (is_reverse : bool) (i : Z) : Z :=
  if (i <? size dna) && (0 <=? size dna - 12 + i) then
    if is_reverse then complement_code (char_or_N dna (11 - i))
    else nt_code (char_or_N dna (size dna - 12 + i))
  else 0.

Lemma slot_zeros (j : Z) : slot (replicate 3 0) j = 0.
Proof.
  unfold slot. destruct (replicate 3 0 !! Z.to_nat (j / 4)) as [b|] eqn:E.
  - apply lookup_replicate_1 in E as [-> _]. cbn [default from_option].
    unfold id. now rewrite Z.shiftr_0_l.
  - cbn [default from_option]. now rewrite Z.shiftr_0_l.
Qed.

Lemma packed_upto_zeros (code : Z -> Z) : packed_upto code 0 (replicate 3 0).
Proof.
  split; [reflexivity|]. split.
  - apply Forall_replicate. unfold is_byte. lia.
  - intros j Hj. rewrite slot_zeros. destruct (Z.ltb_spec j 0); [lia|reflexivity].
Qed.

(** What [pack_terminal_nucleotides] leaves in the two arrays, slot by
    slot. *)
Lemma pack_terminal_nucleotides_slots (dna : string_view) (is_reverse : bool)
    (rec : AgdRecord) :
  size dna < 2 ^ 63 ->
  exists rec',
    pack_terminal_nucleotides dna is_reverse rec = Ok rec' /\
    eq_but_nts rec rec' /\
    length (nt_5prime rec') = 3%nat /\ length (nt_3prime rec') = 3%nat /\
    Forall is_byte (nt_5prime rec') /\ Forall is_byte (nt_3prime rec') /\
    forall j, 0 <= j < 12 ->
      slot (nt_5prime rec') j = nt_5prime_code dna is_reverse j /\
      slot (nt_3prime rec') j = nt_3prime_code dna is_reverse j.
Proof.
  intros Hlen. pose proof (size_nonneg dna) as Hnn.
  destruct (pack_terminal_nucleotides_spec dna is_reverse rec Hlen)
    as (rec' & Hrun & Heq).
  exists rec'. split; [exact Hrun|]. split; [exact Heq|].
  revert Hrun. unfold pack_terminal_nucleotides. cbv zeta.
  set (rec0 := set_nt_3prime _ _).
  assert (H05 : nt_5prime rec0 = replicate 3 0) by reflexivity.
  assert (H03 : nt_3prime rec0 = replicate 3 0) by reflexivity.
  clearbody rec0.
  set (c5 := fun i => if is_reverse
                      then complement_code (char_or_N dna (size dna - 1 - i))
                      else nt_code (char_or_N dna i)).
  set (c3 := fun i => if 0 <=? size dna - 12 + i
                      then if is_reverse
                           then complement_code (char_or_N dna (11 - i))
                           else nt_code (char_or_N dna (size dna - 12 + i))
                      else 0).
  assert (Hc5 : forall i, 0 <= c5 i <= 3).
  { intros i. unfold c5. destruct is_reverse;
      [apply complement_code_range|apply nt_code_range]. }
  assert (Hc3 : forall i, 0 <= c3 i <= 3).
  { intros i. unfold c3. destruct (_ <=? _); [|lia]. destruct is_reverse;
      [apply complement_code_range|apply nt_code_range]. }
  assert (Hkeep3 : forall body, (forall i r r', body i r = Ok r' ->
              exists f, r' = set_nt_5prime f r) ->
            forall r r', pack_loop 12 body (size dna) 0 r = Ok r' ->
              nt_3prime r' = nt_3prime r).
  { intros body Hbody r r' Hloop.
    apply (pack_loop_keeps (fun x => nt_3prime x = nt_3prime r) body (size dna))
      with (fuel := 12%nat) (i := 0) (r := r); [|exact Hloop|reflexivity].
    intros i x x' Hx Hp. destruct (Hbody i x x' Hx) as [f ->]. exact Hp. }
  assert (Hkeep5 : forall body, (forall i r r', body i r = Ok r' ->
              r' = r \/ exists f, r' = set_nt_3prime f r) ->
            forall r r', pack_loop 12 body (size dna) 0 r = Ok r' ->
              nt_5prime r' = nt_5prime r).
  { intros body Hbody r r' Hloop.
    apply (pack_loop_keeps (fun x => nt_5prime x = nt_5prime r) body (size dna))
      with (fuel := 12%nat) (i := 0) (r := r); [|exact Hloop|reflexivity].
    intros i x x' Hx Hp. destruct (Hbody i x x' Hx) as [->|[f ->]]; exact Hp. }
  assert (Hfinal : forall body5 body3,
    (forall i r, 0 <= i < 12 -> i < size dna ->
       body5 i r = Ok (set_nt_5prime (store_or (i / 4) (packed i (c5 i))) r) \/
       (c5 i = 0 /\ body5 i r = Ok r)) ->
    (forall i r, 0 <= i < 12 -> i < size dna ->
       body3 i r = Ok (set_nt_3prime (store_or (i / 4) (packed i (c3 i))) r) \/
       (c3 i = 0 /\ body3 i r = Ok r)) ->
    (forall i r r', body5 i r = Ok r' -> exists f, r' = set_nt_5prime f r) ->
    (forall i r r', body3 i r = Ok r' ->
       r' = r \/ exists f, r' = set_nt_3prime f r) ->
    (do rec1 <- pack_loop 12 body5 (size dna) 0 rec0;
     pack_loop 12 body3 (size dna) 0 rec1) = Ok rec' ->
    length (nt_5prime rec') = 3%nat /\ length (nt_3prime rec') = 3%nat /\
    Forall is_byte (nt_5prime rec') /\ Forall is_byte (nt_3prime rec') /\
    forall j, 0 <= j < 12 ->
      slot (nt_5prime rec') j = (if j <? size dna then c5 j else 0) /\
      slot (nt_3prime rec') j = (if j <? size dna then c3 j else 0)).
  { intros body5 body3 Hb5 Hb3 Hs5 Hs3.
    destruct (pack_loop_slots nt_5prime set_nt_5prime c5 (size dna) body5
                ltac:(reflexivity) Hc5 Hb5 12 0 rec0)
      as (rec1 & Hrun1 & Hl1 & Hby1 & Hsl1); [lia|lia| |].
    { rewrite H05. apply packed_upto_zeros. }
    rewrite Hrun1. cbn [res_bind].
    pose proof (Hkeep3 body5 Hs5 _ _ Hrun1) as Hk3.
    destruct (pack_loop_slots nt_3prime set_nt_3prime c3 (size dna) body3
                ltac:(reflexivity) Hc3 Hb3 12 0 rec1)
      as (rec2 & Hrun2 & Hl2 & Hby2 & Hsl2); [lia|lia| |].
    { rewrite Hk3, H03. apply packed_upto_zeros. }
    rewrite Hrun2. intros [= <-].
    pose proof (Hkeep5 body3 Hs3 _ _ Hrun2) as Hk5.
    rewrite Hk5. repeat (split; [assumption|]).
    intros j Hj. split; [apply Hsl1|apply Hsl2]; exact Hj. }
  assert (Hgoal : forall j,
            (if j <? size dna then c5 j else 0) = nt_5prime_code dna is_reverse j /\
            (if j <? size dna then c3 j else 0) = nt_3prime_code dna is_reverse j).
  { intros j. unfold nt_5prime_code, nt_3prime_code, c5, c3.
    destruct (j <? size dna); destruct (0 <=? size dna - 12 + j);
      split; reflexivity. }
  destruct is_reverse; cbn [negb]; intros Hrun;
    (eapply Hfinal in Hrun;
     [destruct Hrun as (? & ? & ? & ? & Hsl);
      repeat (split; [assumption|]);
      intros j Hj; destruct (Hsl j Hj) as [E5 E3];
      destruct (Hgoal j) as [G5 G3]; rewrite E5, E3; auto
     | | | | ]).
  - intros i r Hi Hl. left. unfold pack_rev_5prime. cbv zeta.
    rewrite wrap64_small by lia. rewrite char_at_ok by lia. reflexivity.
  - intros i r Hi Hl. unfold pack_rev_3prime, c3. cbv zeta.
    rewrite wrap64_small by lia.
    destruct (Z.leb_spec (size dna) (11 - i));
      destruct (Z.leb_spec 0 (size dna - 12 + i)); try lia.
    + right. auto.
    + left. rewrite char_at_ok by lia. reflexivity.
  - intros i r r'. unfold pack_rev_5prime. cbv zeta.
    destruct (char_at dna _); try discriminate. cbn [res_bind].
    intros [= <-]. eauto.
  - intros i r r'. unfold pack_rev_3prime. cbv zeta.
    destruct (_ <=? _); [intros [= <-]; auto|].
    destruct (char_at dna _); try discriminate. cbn [res_bind].
    intros [= <-]. eauto.
  - intros i r Hi Hl. left. unfold pack_fwd_5prime.
    rewrite char_at_ok by lia. reflexivity.
  - intros i r Hi Hl. unfold pack_fwd_3prime, c3. cbv zeta.
    destruct (Z.leb_spec 0 (size dna - 12 + i)) as [Hpos|Hneg].
    + rewrite wrap64_small by lia.
      destruct (Z.leb_spec (size dna) (size dna - 12 + i)); [lia|].
      left. rewrite char_at_ok by lia. reflexivity.
    + right. split; [reflexivity|].
      replace (wrap64 (size dna - 12 + i)) with (size dna - 12 + i + 2 ^ 64).
      * destruct (Z.leb_spec (size dna) (size dna - 12 + i + 2 ^ 64));
          [reflexivity|lia].
      * unfold wrap64.
        replace (size dna - 12 + i)
          with (size dna - 12 + i + 2 ^ 64 + (-1) * 2 ^ 64) at 2 by lia.
        rewrite Z.mod_add, Z.mod_small by lia. reflexivity.
  - intros i r r'. unfold pack_fwd_5prime.
    destruct (char_at dna _); try discriminate. cbn [res_bind].
    intros [= <-]. eauto.
  - intros i r r'. unfold pack_fwd_3prime. cbv zeta.
    destruct (_ <=? _); [intros [= <-]; auto|].
    destruct (char_at dna _); try discriminate. cbn [res_bind].
    intros [= <-]. eauto.
Qed.

Lemma slot_at (a : list Z) (k : nat) (b p : Z) :
  a !! k = Some b -> 0 <= p <= 3 ->
  slot a (4 * Z.of_nat k + p) = Z.land (Z.shiftr b (6 - 2 * p)) 3.
Proof.
  intros Hb Hp. unfold slot.
  replace ((4 * Z.of_nat k + p) / 4) with (Z.of_nat k)
    by (apply (Z.div_unique _ 4 _ p); lia).
  replace ((4 * Z.of_nat k + p) mod 4) with p
    by (apply (Z.mod_unique _ 4 (Z.of_nat k) p); lia).
  now rewrite Nat2Z.id, Hb.
Qed.

Lemma unpack_slots (a : list Z) (k : nat) (b : Z) :
  a !! k = Some b ->
  unpack_nucleotides_4 b
  = (BASES (slot a (4 * Z.of_nat k + 0)), BASES (slot a (4 * Z.of_nat k + 1)),
     BASES (slot a (4 * Z.of_nat k + 2)), BASES (slot a (4 * Z.of_nat k + 3))).
Proof.
  intros Hb. rewrite !(slot_at a k b) by (assumption || lia). reflexivity.
Qed.

(** X8. The packed nucleotides, read back with [unpack_nucleotides_4]. Slot [i]
    of the 5' array (position [i mod 4] of byte [i / 4]) holds base [i] of
    the strand that is read: [dna[i]] forward, the complement of
    [dna[len - 1 - i]] reverse. Slot [i] of the 3' array holds base
    [len - 12 + i] of that strand: [dna[len - 12 + i]] forward, the
    complement of [dna[11 - i]] reverse; in a sequence shorter than 12 this
    leaves the slots below [12 - len] and from [len] on empty. A character
    that is not a base, and an empty slot, read back as T. The other fields
    of the record are kept. *)
Theorem terminal_nucleotides (dna : string_view) (is_reverse : bool)
    (rec : AgdRecord) :
  size dna < 2 ^ 63 ->
  exists rec',
    pack_terminal_nucleotides dna is_reverse rec = Ok rec' /\
    meta rec' = meta rec /\ five rec' = five rec /\ three rec' = three rec /\
    forall k : nat, (k < 3)%nat ->
      exists b5 b3,
        nt_5prime rec' !! k = Some b5 /\ nt_3prime rec' !! k = Some b3 /\
        0 <= b5 <= 255 /\ 0 <= b3 <= 255 /\
        unpack_nucleotides_4 b5
        = (BASES (nt_5prime_code dna is_reverse (4 * Z.of_nat k + 0)),
           BASES (nt_5prime_code dna is_reverse (4 * Z.of_nat k + 1)),
           BASES (nt_5prime_code dna is_reverse (4 * Z.of_nat k + 2)),
           BASES (nt_5prime_code dna is_reverse (4 * Z.of_nat k + 3))) /\
        unpack_nucleotides_4 b3
        = (BASES (nt_3prime_code dna is_reverse (4 * Z.of_nat k + 0)),
           BASES (nt_3prime_code dna is_reverse (4 * Z.of_nat k + 1)),
           BASES (nt_3prime_code dna is_reverse (4 * Z.of_nat k + 2)),
           BASES (nt_3prime_code dna is_reverse (4 * Z.of_nat k + 3))).
Proof.
  intros Hlen.
  destruct (pack_terminal_nucleotides_slots dna is_reverse rec Hlen)
    as (rec' & Hrun & (Hm & Hf & Ht) & Hl5 & Hl3 & Hb5 & Hb3 & Hslots).
  exists rec'. split; [exact Hrun|]. repeat (split; [now symmetry|]).
  intros k Hk.
  destruct (lookup_lt_is_Some_2 (nt_5prime rec') k ltac:(lia)) as [b5 E5].
  destruct (lookup_lt_is_Some_2 (nt_3prime rec') k ltac:(lia)) as [b3 E3].
  exists b5, b3. split; [exact E5|]. split; [exact E3|].
  split; [exact (Forall_lookup_1 _ _ _ _ Hb5 E5)|].
  split; [exact (Forall_lookup_1 _ _ _ _ Hb3 E3)|].
  rewrite (unpack_slots _ _ _ E5), (unpack_slots _ _ _ E3).
  destruct (Hslots (4 * Z.of_nat k + 0) ltac:(lia)) as [-> ->].
  destruct (Hslots (4 * Z.of_nat k + 1) ltac:(lia)) as [-> ->].
  destruct (Hslots (4 * Z.of_nat k + 2) ltac:(lia)) as [-> ->].
  destruct (Hslots (4 * Z.of_nat k + 3) ltac:(lia)) as [-> ->].
  split; reflexivity.
Qed.

Lemma terminal_nucleotides_witness :
  exists rec',
    pack_terminal_nucleotides (sv "GATTACAGATTACAGN") false zero_record = Ok rec' /\
    meta rec' = meta zero_record /\ five rec' = five zero_record /\
    three rec' = three zero_record /\
    forall k : nat, (k < 3)%nat ->
      exists b5 b3,
        nt_5prime rec' !! k = Some b5 /\ nt_3prime rec' !! k = Some b3 /\
        0 <= b5 <= 255 /\ 0 <= b3 <= 255 /\
        unpack_nucleotides_4 b5
        = (BASES (nt_5prime_code (sv "GATTACAGATTACAGN") false (4 * Z.of_nat k + 0)),
           BASES (nt_5prime_code (sv "GATTACAGATTACAGN") false (4 * Z.of_nat k + 1)),
           BASES (nt_5prime_code (sv "GATTACAGATTACAGN") false (4 * Z.of_nat k + 2)),
           BASES (nt_5prime_code (sv "GATTACAGATTACAGN") false (4 * Z.of_nat k + 3))) /\
        unpack_nucleotides_4 b3
        = (BASES (nt_3prime_code (sv "GATTACAGATTACAGN") false (4 * Z.of_nat k + 0)),
           BASES (nt_3prime_code (sv "GATTACAGATTACAGN") false (4 * Z.of_nat k + 1)),
           BASES (nt_3prime_code (sv "GATTACAGATTACAGN") false (4 * Z.of_nat k + 2)),
           BASES (nt_3prime_code (sv "GATTACAGATTACAGN") false (4 * Z.of_nat k + 3))).
Proof.
  apply (terminal_nucleotides (sv "GATTACAGATTACAGN") false zero_record).
  vm_compute. reflexivity.
Defined.

(** The packed ends of a sequence of 16, of its reverse strand, and of a
    sequence of 8, whose 3' array holds its first four bases in the second
    byte. *)
Example terminal_nucleotides_examples :
  exists r1 r2 r3,
    pack_terminal_nucleotides (sv "GATTACAGATTACAGN") false zero_record = Ok r1 /\
    (map unpack_nucleotides_4 (nt_5prime r1), map unpack_nucleotides_4 (nt_3prime r1))
    = ([("G", "A", "T", "T"); ("A", "C", "A", "G"); ("A", "T", "T", "A")],
       [("A", "C", "A", "G"); ("A", "T", "T", "A"); ("C", "A", "G", "T")])%char /\
    pack_terminal_nucleotides (sv "GATTACAGATTACAGN") true zero_record = Ok r2 /\
    (map unpack_nucleotides_4 (nt_5prime r2), map unpack_nucleotides_4 (nt_3prime r2))
    = ([("T", "C", "T", "G"); ("T", "A", "A", "T"); ("C", "T", "G", "T")],
       [("T", "A", "A", "T"); ("C", "T", "G", "T"); ("A", "A", "T", "C")])%char /\
    pack_terminal_nucleotides (sv "GATTACAG") false zero_record = Ok r3 /\
    (map unpack_nucleotides_4 (nt_5prime r3), map unpack_nucleotides_4 (nt_3prime r3))
    = ([("G", "A", "T", "T"); ("A", "C", "A", "G"); ("T", "T", "T", "T")],
       [("T", "T", "T", "T"); ("G", "A", "T", "T"); ("T", "T", "T", "T")])%char.
Proof. eexists _, _, _. repeat split. Qed.

Lemma nt_code_complement (c : ascii) : nt_code (complement c) = complement_code c.
Proof.
  unfold complement, complement_code.
  repeat match goal with |- context [if ?b then _ else _] => destruct b end;
    reflexivity.
Qed.

Lemma byte_of_slots (b : Z) :
  is_byte b ->
  b = 64 * Z.land (Z.shiftr b 6) 3 + 16 * Z.land (Z.shiftr b 4) 3 +
      4 * Z.land (Z.shiftr b 2) 3 + Z.land (Z.shiftr b 0) 3.
Proof.
  intros Hb. apply Z.eqb_eq.
  exact (forallb_range 256
           (fun b => b =? 64 * Z.land (Z.shiftr b 6) 3 + 16 * Z.land (Z.shiftr b 4) 3 +
                          4 * Z.land (Z.shiftr b 2) 3 + Z.land (Z.shiftr b 0) 3)
           ltac:(vm_compute; reflexivity) b ltac:(unfold is_byte in Hb; lia)).
Qed.

Lemma slots_determine (a b : list Z) :
  length a = 3%nat -> length b = 3%nat -> Forall is_byte a -> Forall is_byte b ->
  (forall j, 0 <= j < 12 -> slot a j = slot b j) -> a = b.
Proof.
  intros La Lb Ha Hb Hs. apply list_eq. intros k.
  destruct (Nat.lt_ge_cases k 3) as [Hk|Hk].
  2:{ rewrite !lookup_ge_None_2 by lia. reflexivity. }
  destruct (lookup_lt_is_Some_2 a k ltac:(lia)) as [x Ex].
  destruct (lookup_lt_is_Some_2 b k ltac:(lia)) as [y Ey].
  rewrite Ex, Ey. f_equal.
  rewrite (byte_of_slots x (Forall_lookup_1 _ _ _ _ Ha Ex)).
  rewrite (byte_of_slots y (Forall_lookup_1 _ _ _ _ Hb Ey)).
  pose proof (Hs (4 * Z.of_nat k + 0) ltac:(lia)) as H0.
  pose proof (Hs (4 * Z.of_nat k + 1) ltac:(lia)) as H1.
  pose proof (Hs (4 * Z.of_nat k + 2) ltac:(lia)) as H2.
  pose proof (Hs (4 * Z.of_nat k + 3) ltac:(lia)) as H3.
  rewrite (slot_at a k x), (slot_at b k y) in H0, H1, H2, H3
    by (assumption || lia).
  change (6 - 2 * 0) with 6 in H0. change (6 - 2 * 1) with 4 in H1.
  change (6 - 2 * 2) with 2 in H2. change (6 - 2 * 3) with 0 in H3.
  now rewrite H0, H1, H2, H3.
Qed.

Lemma nt_codes_revcomp (dna : string_view) (j : Z) :
  0 <= j < 12 ->
  nt_5prime_code dna true j = nt_5prime_code (revcomp dna) false j /\
  nt_3prime_code dna true j = nt_3prime_code (revcomp dna) false j.
Proof.
  intros Hj. unfold nt_5prime_code, nt_3prime_code. rewrite size_revcomp.
  split.
  - destruct (Z.ltb_spec j (size dna)); [|reflexivity].
    rewrite char_or_N_revcomp by lia. now rewrite nt_code_complement.
  - destruct (Z.ltb_spec j (size dna)); [|reflexivity].
    destruct (Z.leb_spec 0 (size dna - 12 + j)); [|reflexivity]. cbn [andb].
    rewrite char_or_N_revcomp by lia. rewrite nt_code_complement.
    do 2 f_equal. lia.
Qed.

(** X9. The packed nucleotides of the reverse strand are those of the forward
    strand of the reverse complement: the two calls leave the same record. *)
Theorem reverse_nucleotides_are_forward_of_revcomp (dna : string_view)
    (rec : AgdRecord) :
  size dna < 2 ^ 63 ->
  exists rec',
    pack_terminal_nucleotides dna true rec = Ok rec' /\
    pack_terminal_nucleotides (revcomp dna) false rec = Ok rec'.
Proof.
  intros Hlen.
  destruct (pack_terminal_nucleotides_slots dna true rec Hlen)
    as (r1 & Hrun1 & (Hm1 & Hf1 & Ht1) & Hl51 & Hl31 & Hb51 & Hb31 & Hs1).
  destruct (pack_terminal_nucleotides_slots (revcomp dna) false rec
              ltac:(rewrite size_revcomp; exact Hlen))
    as (r2 & Hrun2 & (Hm2 & Hf2 & Ht2) & Hl52 & Hl32 & Hb52 & Hb32 & Hs2).
  exists r1. split; [exact Hrun1|]. rewrite Hrun2. f_equal.
  assert (E5 : nt_5prime r2 = nt_5prime r1).
  { apply slots_determine; try assumption. intros j Hj.
    destruct (Hs1 j Hj) as [-> _]. destruct (Hs2 j Hj) as [-> _].
    symmetry. apply nt_codes_revcomp. lia. }
  assert (E3 : nt_3prime r2 = nt_3prime r1).
  { apply slots_determine; try assumption. intros j Hj.
    destruct (Hs1 j Hj) as [_ ->]. destruct (Hs2 j Hj) as [_ ->].
    symmetry. apply nt_codes_revcomp. lia. }
  unfold meta, five, three in *. destruct r1, r2. cbn in *. congruence.
Qed.

Lemma reverse_nucleotides_are_forward_of_revcomp_witness :
  exists rec',
    pack_terminal_nucleotides (sv "GATTACAGnTTAC") true zero_record = Ok rec' /\
    pack_terminal_nucleotides (revcomp (sv "GATTACAGnTTAC")) false zero_record
    = Ok rec'.
Proof.
  apply (reverse_nucleotides_are_forward_of_revcomp (sv "GATTACAGnTTAC")
           zero_record).
  vm_compute. reflexivity.
Defined.

(** ** Records through the file *)

(** A record whose 16-bit length fits too: all its 32 bytes come back. *)
Definition fits_fully (r : AgdRecord) : Prop :=
  fits r /\ 0 <= seq_len r < 2 ^ 16.

Lemma record_round_trip (r : AgdRecord) :
  fits_fully r -> record_of_bytes (record_bytes r) = r.
Proof.
  intros [(Hh & H5 & H3 & Hn5 & Hn3) Hs].
  destruct r as [h s fs dq pq n5 n3 pd c5 c3 t5 t3].
  cbn [id_hash seq_len codons_5prime codons_3prime nt_5prime nt_3prime]
    in Hh, H5, H3, Hn5, Hn3, Hs.
  destruct c5 as [|a0 [|a1 [|a2 [|a3 [|a4 [|]]]]]]; try discriminate H5.
  destruct c3 as [|b0 [|b1 [|b2 [|b3 [|b4 [|]]]]]]; try discriminate H3.
  destruct t5 as [|d0 [|d1 [|d2 [|]]]]; try discriminate Hn5.
  destruct t3 as [|e0 [|e1 [|e2 [|]]]]; try discriminate Hn3.
  unfold record_bytes, record_of_bytes. cbn [id_hash seq_len frame_strand
    damage_pct_q p_damaged_q n_5prime n_3prime pad_ codons_5prime codons_3prime
    nt_5prime nt_3prime].
  pose proof (le_value_le_bytes 8 h Hh) as Eh.
  pose proof (le_value_le_bytes 2 s Hs) as Es.
  pose proof (le_bytes_length 8 h) as L8.
  pose proof (le_bytes_length 2 s) as L2.
  destruct (le_bytes 8 h) as [|x0 [|x1 [|x2 [|x3 [|x4 [|x5 [|x6 [|x7 [|]]]]]]]]];
    try discriminate L8.
  destruct (le_bytes 2 s) as [|y0 [|y1 [|]]]; try discriminate L2.
  cbn [app take drop firstn skipn lookup_total list_lookup_total].
  rewrite Eh, Es. reflexivity.
Qed.

Lemma add_record_fits_fully (w : DamageIndexWriter) (gene : Gene)
    (dna : string_view) :
  finalized_ w = false -> valid_input gene dna = true ->
  exists rec,
    add_record w gene dna
    = Ok (mkWriter (path_ w) (header_ w) (records_ w ++ [rec]) false) /\
    fits_fully rec.
Proof.
  intros Hf Hv.
  destruct (add_record_fits w gene dna Hf Hv) as (rec & Hrun & Hfit & _).
  exists rec. split; [exact Hrun|]. split; [exact Hfit|].
  destruct (add_record_total w gene dna) as
    (rec' & dq & pq & Hrun' & _ & _ & Hm & _).
  { unfold add_record_pre. now rewrite Hf, Hv. }
  rewrite Hrun in Hrun'. injection Hrun' as Hrecs.
  apply app_inj_tail in Hrecs as [_ <-].
  unfold meta in Hm. injection Hm as _ -> _ _ _ _.
  pose proof (size_nonneg dna). lia.
Qed.

Lemma add_records_fits_fully (inputs : list (Gene * string_view))
    (w : DamageIndexWriter) :
  finalized_ w = false ->
  Forall (fun x => valid_input x.1 x.2 = true) inputs ->
  exists recs,
    add_records w inputs
    = Ok (mkWriter (path_ w) (header_ w) (records_ w ++ recs) false) /\
    length recs = length inputs /\ Forall fits_fully recs.
Proof.
  revert w. induction inputs as [|[gene dna] inputs IH]; intros w Hf Hall.
  - exists []. rewrite app_nil_r. split; [|split; [reflexivity|constructor]].
    cbn [add_records]. destruct w; cbn in *. now rewrite Hf.
  - apply Forall_cons in Hall as [Hv Hall]. cbn [fst snd] in Hv.
    destruct (add_record_fits_fully w gene dna Hf Hv) as (rec & Hrun & Hfit).
    cbn [add_records]. rewrite Hrun. cbn [res_bind].
    destruct (IH (mkWriter (path_ w) (header_ w) (records_ w ++ [rec]) false)
                eq_refl Hall) as (recs & Hrest & Hlen & Hall2).
    cbn [path_ header_ records_] in Hrest.
    exists (rec :: recs). rewrite Hrest, <- app_assoc. split; [reflexivity|].
    split; [cbn [length]; now rewrite Hlen|].
    constructor; assumption.
Qed.

(** What a new writer, its calls and [finalize] leave: the writer's
    records, the file and its parts. *)
Lemma written_index (path : string) (profile : SampleDamageProfile)
    (inputs : list (Gene * string_view)) :
  Forall (fun x => valid_input x.1 x.2 = true) inputs ->
  size inputs < 2 ^ 32 ->
  exists w w' file B C,
    add_records (new_writer path profile) inputs = Ok w /\
    finalized_ w = false /\ header_ w = header_ (new_writer path profile) /\
    size (records_ w) = size inputs /\ Forall fits_fully (records_ w) /\
    finalize true true w = Ok (w', File file) /\
    image file (header_ w') B (records_ w) C /\ header_fits (header_ w') /\
    open_reader io_fine path file = Ok (mkReader file (size file)) /\
    num_records (header_ w') = size inputs /\
    (records_ w = [] -> num_buckets (header_ w') = 0) /\
    (records_ w <> [] ->
     0 < num_buckets (header_ w') /\
     table_ok (num_buckets (header_ w')) (length (records_ w)) (records_ w) B C).
Proof.
  intros Hvalid Hn.
  destruct (add_records_fits_fully inputs (new_writer path profile) eq_refl Hvalid)
    as (recs & Hadd & Hlen & Hfull).
  cbn [new_writer path_ header_ records_ app] in Hadd.
  set (w := mkWriter _ _ recs false) in Hadd.
  assert (Hsize : size recs = size inputs) by (unfold size; now rewrite Hlen).
  assert (Hfits : Forall fits recs).
  { eapply Forall_impl; [exact Hfull|]. now intros r [? _]. }
  destruct (finalize_image w eq_refl eq_refl eq_refl)
    as (w' & file & B & C & Hfin & Himage & Hhf & Hm & Hv & Hnr & Hnil & Hne);
    [cbn [w records_]; lia|exact Hfits|].
  exists w, w', file, B, C.
  split; [exact Hadd|]. split; [reflexivity|]. split; [reflexivity|].
  split; [exact Hsize|]. split; [exact Hfull|]. split; [exact Hfin|].
  split; [exact Himage|]. split; [exact Hhf|].
  split; [exact (open_image _ _ _ _ _ Himage Hhf path Hm Hv)|].
  split; [cbn [w records_] in Hnr; lia|]. split; assumption.
Qed.

(** X11. Records by index: after any calls of [add_record] on a new writer
    (fewer than 2^32) and [finalize], the reader's [record_count] is the
    writer's, [get_record(idx)] is the record the writer held at [idx], all
    32 bytes of it, and [get_record] of any other index is null. *)
Theorem get_record_round_trip (path : string) (profile : SampleDamageProfile)
    (inputs : list (Gene * string_view)) :
  Forall (fun x => valid_input x.1 x.2 = true) inputs ->
  size inputs < 2 ^ 32 ->
  exists w w' bytes r,
    add_records (new_writer path profile) inputs = Ok w /\
    finalize true true w = Ok (w', File bytes) /\
    open_reader io_fine path bytes = Ok r /\
    writer_record_count w = size inputs /\
    record_count r = Ok (size inputs) /\
    (forall (idx : nat) (rec : AgdRecord), records_ w !! idx = Some rec ->
       get_record r (Z.of_nat idx) = Ok (Some rec)) /\
    (forall idx : Z, size inputs <= idx -> get_record r idx = Ok None).
Proof.
  intros Hvalid Hn.
  destruct (written_index path profile inputs Hvalid Hn)
    as (w & w' & file & B & C & Hadd & _ & _ & Hsize & Hfull & Hfin & Himage &
        Hhf & Hopen & Hnr & _).
  destruct (image_header_reads _ _ _ _ _ Himage Hhf) as (_ & _ & Hrn & Hrb).
  rewrite Hnr in Hrn.
  exists w, w', file, (mkReader file (size file)).
  split; [exact Hadd|]. split; [exact Hfin|]. split; [exact Hopen|].
  split; [exact Hsize|]. split; [exact Hrn|]. split.
  - intros idx rec Hrec. unfold get_record. rewrite Hrb, Hrn. cbn [res_bind].
    pose proof (lookup_lt_Some _ _ _ Hrec) as Hlt.
    destruct (Z.leb_spec (size inputs) (Z.of_nat idx)) as [Hge|_];
      [unfold size in Hsize, Hge; lia|].
    assert (H0 : 0 <= Z.of_nat idx) by lia.
    rewrite (image_record _ _ _ _ _ Himage (Z.of_nat idx) rec H0);
      [|now rewrite Nat2Z.id].
    cbn [res_bind]. rewrite record_round_trip; [reflexivity|].
    eapply Forall_lookup_1; eassumption.
  - intros idx Hidx. unfold get_record. rewrite Hrb, Hrn. cbn [res_bind].
    destruct (Z.leb_spec (size inputs) idx); [reflexivity|lia].
Qed.

Lemma get_record_round_trip_witness :
  exists w w' bytes r,
    add_records (new_writer "out.agd" (mkProfile 0 0 "single-stranded"))
      example_inputs = Ok w /\
    finalize true true w = Ok (w', File bytes) /\
    open_reader io_fine "out.agd" bytes = Ok r /\
    writer_record_count w = size example_inputs /\
    record_count r = Ok (size example_inputs) /\
    (forall (idx : nat) (rec : AgdRecord), records_ w !! idx = Some rec ->
       get_record r (Z.of_nat idx) = Ok (Some rec)) /\
    (forall idx : Z, size example_inputs <= idx -> get_record r idx = Ok None).
Proof.
  apply (get_record_round_trip "out.agd" (mkProfile 0 0 "single-stranded")
           example_inputs).
  - repeat (constructor; [vm_compute; reflexivity|]). constructor.
  - vm_compute. reflexivity.
Defined.

(** ** Which record [find] returns *)

Lemma find_loop_EMPTY (fuel : nat) (r : DamageIndexReader) (nb nr hash : Z) :
  find_loop fuel r nb nr hash EMPTY = NotFound.
Proof. destruct fuel; cbn [find_loop]; rewrite Z.eqb_refl; reflexivity. Qed.

Section ImageWalk.

Variables (file : list Z) (h : AgdHeader) (B : list AgdBucket)
  (recs : list AgdRecord) (C : list Z).
Hypothesis Himage : image file h B recs C.
Hypothesis Hfull : Forall fits_fully recs.
Hypothesis Hn : size recs <= EMPTY.
Hypothesis Hchain : forall k c, C !! k = Some c -> c = EMPTY \/ 0 <= c < Z.of_nat k.
Variable hash : Z.

Let r : DamageIndexReader := mkReader file (size file).
Let nb : Z := num_buckets h.
Let nr : Z := num_records h.

(** One round of the loop at a record index [k]. *)
Lemma find_loop_round (fuel : nat) (k : Z) :
  0 <= k < size recs ->
  exists rk c,
    recs !! Z.to_nat k = Some rk /\ C !! Z.to_nat k = Some c /\
    (c = EMPTY \/ 0 <= c < k) /\
    find_loop (S fuel) r nb nr hash k
    = if id_hash rk =? hash then Found k rk
      else find_loop fuel r nb nr hash c.
Proof.
  intros Hk.
  pose proof (image_records _ _ _ _ _ Himage) as Hnr.
  pose proof (image_chain _ _ _ _ _ Himage) as Hnc.
  fold nr in Hnr, Hnc. unfold size in Hk, Hn, Hnr, Hnc.
  destruct (lookup_lt_is_Some_2 recs (Z.to_nat k) ltac:(lia)) as [rk Hrk].
  destruct (lookup_lt_is_Some_2 C (Z.to_nat k) ltac:(lia)) as [c Hc].
  exists rk, c. split; [exact Hrk|]. split; [exact Hc|].
  assert (Hcr : c = EMPTY \/ 0 <= c < k).
  { destruct (Hchain _ _ Hc); [auto|right; lia]. }
  split; [exact Hcr|]. cbn [find_loop].
  destruct (Z.eqb_spec k EMPTY) as [|_]; [lia|].
  destruct (Z.ltb_spec k nr) as [_|]; [|lia]. cbn [negb andb].
  assert (Hrecord : record_at r nb k = Ok (record_of_bytes (record_bytes rk)))
    by exact (image_record _ _ _ _ _ Himage k rk ltac:(lia) Hrk).
  rewrite Hrecord.
  rewrite record_round_trip by (eapply Forall_lookup_1; eassumption).
  destruct (id_hash rk =? hash); [reflexivity|].
  assert (Hentry : load 4 r (chain_off nb nr + k * 4) = Ok c).
  { apply (image_chain_entry _ _ _ _ _ Himage k c); [lia|exact Hc|].
    unfold EMPTY in *. lia. }
  now rewrite Hentry.
Qed.

Lemma find_loop_missing (fuel : nat) (k : Z) :
  (forall j rec, recs !! j = Some rec -> id_hash rec <> hash) ->
  0 <= k < size recs -> k < Z.of_nat fuel ->
  find_loop fuel r nb nr hash k = NotFound.
Proof.
  intros Hno. revert k. induction fuel as [|fuel IH]; intros k Hk Hfuel; [lia|].
  destruct (find_loop_round fuel k Hk) as (rk & c & Hrk & _ & Hc & ->).
  destruct (Z.eqb_spec (id_hash rk) hash) as [E|_].
  { now destruct (Hno _ _ Hrk). }
  destruct Hc as [->|Hc]; [apply find_loop_EMPTY|]. apply IH; lia.
Qed.

Lemma find_loop_first (k j : Z) (rec : AgdRecord) :
  reaches C k j ->
  recs !! Z.to_nat j = Some rec -> id_hash rec = hash -> 0 <= j ->
  (forall j' rec', reaches C k j' -> j < j' ->
     recs !! Z.to_nat j' = Some rec' -> id_hash rec' <> hash) ->
  k < size recs ->
  forall fuel : nat, k < Z.of_nat fuel ->
    find_loop fuel r nb nr hash k = Found j rec.
Proof.
  intros Hreach Hrec Hhash Hj.
  induction Hreach as [j|k c j Hc Hk Hreach IH]; intros Hlater Hlt fuel Hfuel.
  - destruct fuel as [|fuel]; [lia|].
    destruct (find_loop_round fuel j ltac:(lia)) as (rk & c & Hrk & _ & _ & ->).
    rewrite Hrec in Hrk. injection Hrk as <-.
    now rewrite Hhash, Z.eqb_refl.
  - destruct fuel as [|fuel]; [lia|].
    pose proof (reaches_le _ _ _ Hreach) as Hle.
    destruct (find_loop_round fuel k ltac:(lia)) as (rk & c' & Hrk & Hc' & _ & ->).
    rewrite Hk in Hc'. injection Hc' as <-.
    destruct (Z.eqb_spec (id_hash rk) hash) as [E|_].
    { exfalso. apply (Hlater k rk); [apply reaches_here|lia|exact Hrk|exact E]. }
    apply IH; [exact Hrec|exact Hj| |lia|lia].
    intros j' rec' Hr'. apply Hlater.
    now apply (reaches_next _ k c j' Hc Hk).
Qed.

End ImageWalk.

Lemma find_written (file : list Z) (h : AgdHeader) (B : list AgdBucket)
    (recs : list AgdRecord) (C : list Z) (id : string_view) (fuel : nat) :
  image file h B recs C -> header_fits h -> Forall fits_fully recs ->
  size recs < 2 ^ 32 -> num_records h = size recs ->
  (recs = [] -> num_buckets h = 0) ->
  (recs <> [] -> 0 < num_buckets h /\
                 table_ok (num_buckets h) (length recs) recs B C) ->
  size recs <= Z.of_nat fuel ->
  let key := fnv1a_hash (strip_agp_suffix id) in
  let r := mkReader file (size file) in
  (forall (j : nat) (rec : AgdRecord),
     recs !! j = Some rec -> id_hash rec = key ->
     (forall (j' : nat) rec', recs !! j' = Some rec' -> (j < j')%nat ->
        id_hash rec' <> key) ->
     find fuel r id = Found (Z.of_nat j) rec) /\
  ((forall (j : nat) (rec : AgdRecord), recs !! j = Some rec ->
      id_hash rec <> key) ->
   find fuel r id = NotFound).
Proof.
  intros Himage Hhf Hfull Hn Hnr Hnil Hne Hfuel key r. subst r.
  set (r := mkReader file (size file)).
  assert (Hreads : hdr_num_records r = Ok (num_records h) /\
                   hdr_num_buckets r = Ok (num_buckets h)).
  { now destruct (image_header_reads _ _ _ _ _ Himage Hhf) as (_ & _ & ? & ?). }
  destruct Hreads as [Hrn Hrb].
  assert (Hhead : recs <> [] ->
            0 < num_buckets h /\
            exists bk,
              B !! Z.to_nat (key mod num_buckets h) = Some bk /\
              (record_offset bk = EMPTY \/ 0 <= record_offset bk < size recs) /\
              find fuel r id
              = find_loop fuel r (num_buckets h) (num_records h) key
                  (record_offset bk) /\
              (forall k c, C !! k = Some c -> c = EMPTY \/ 0 <= c < Z.of_nat k) /\
              (forall j rec, recs !! j = Some rec -> id_hash rec = key ->
                 reaches C (record_offset bk) (Z.of_nat j))).
  { intros Hrecs. destruct (Hne Hrecs) as (Hnb & HlB & HlC & Hbk & Hch & Hreach).
    split; [exact Hnb|].
    pose proof (Z.mod_pos_bound key (num_buckets h) Hnb) as Hb.
    destruct (lookup_lt_is_Some_2 B (Z.to_nat (key mod num_buckets h))
                ltac:(lia)) as [bk Hbk0].
    destruct (Hbk _ _ Hbk0) as [_ Hro].
    exists bk. split; [exact Hbk0|]. split; [exact Hro|]. split.
    - unfold find. rewrite Hrb, Hrn.
      destruct (Z.eqb_spec (num_buckets h) 0) as [|_]; [lia|]. fold key.
      assert (Hb0 : 0 <= key mod num_buckets h) by lia.
      assert (Hr32 : 0 <= record_offset bk < 2 ^ 32)
        by (unfold EMPTY in Hro; lia).
      assert (Hload : load 4 r (buckets_off + key mod num_buckets h * BUCKET_SIZE)
                      = Ok (record_offset bk))
        by exact (image_bucket _ _ _ _ _ Himage _ bk Hb0 Hbk0 Hr32).
      now rewrite Hload.
    - split; [exact Hch|]. intros j rec Hj Hkey.
      destruct (Hreach _ _ Hj) as (bk' & Hbk' & Hr). rewrite Hkey in Hbk'.
      rewrite Hbk0 in Hbk'. now injection Hbk' as <-. }
  assert (Hle : size recs <= EMPTY) by (unfold EMPTY; lia).
  split.
  - intros j rec Hj Hkey Hlast.
    assert (Hrecs : recs <> []) by (intros ->; discriminate Hj).
    destruct (Hhead Hrecs) as (Hnb & bk & Hbk0 & Hro & -> & Hch & Hreach).
    pose proof (Hreach _ _ Hj Hkey) as Hr.
    pose proof (lookup_lt_Some _ _ _ Hj) as Hjlt.
    assert (Hvalid : 0 <= record_offset bk < size recs).
    { destruct Hro as [E|?]; [|assumption]. rewrite E in Hr.
      apply (reaches_EMPTY (length recs)) in Hr; [contradiction|exact Hle| |].
      - now destruct (Hne Hrecs) as (_ & _ & ? & _).
      - unfold size in Hle. lia. }
    apply (find_loop_first _ _ _ _ _ Himage Hfull Hle Hch key _ _ rec Hr);
      [now rewrite Nat2Z.id|exact Hkey|lia| |lia|lia].
    intros j' rec' Hr' Hlt Hrec'.
    apply (Hlast (Z.to_nat j') rec' Hrec'). lia.
  - intros Hno. destruct recs as [|r0 rs] eqn:Erecs.
    + unfold find. rewrite Hrb, Hrn, (Hnil eq_refl). reflexivity.
    + rewrite <- Erecs in *.
      assert (Hrecs : recs <> []) by (rewrite Erecs; discriminate).
      destruct (Hhead Hrecs) as (Hnb & bk & Hbk0 & Hro & -> & Hch & _).
      destruct Hro as [->|Hro]; [apply find_loop_EMPTY|].
      apply (find_loop_missing _ _ _ _ _ Himage Hfull Hle Hch key);
        [exact Hno|exact Hro|lia].
Qed.

(** X12. Duplicates: when several records carry the key of an identifier, [find]
    returns the one added last, with the index and all the fields the
    writer gave it. (The key is the hash: two identifiers with the same
    hash are the same to [find].) *)
Theorem find_returns_latest (path : string) (profile : SampleDamageProfile)
    (inputs : list (Gene * string_view)) :
  Forall (fun x => valid_input x.1 x.2 = true) inputs ->
  size inputs < 2 ^ 32 ->
  exists w w' bytes r,
    add_records (new_writer path profile) inputs = Ok w /\
    finalize true true w = Ok (w', File bytes) /\
    open_reader io_fine path bytes = Ok r /\
    forall (id : string_view) (fuel : nat) (j : nat) (rec : AgdRecord),
      size inputs <= Z.of_nat fuel ->
      records_ w !! j = Some rec ->
      id_hash rec = fnv1a_hash (strip_agp_suffix id) ->
      (forall (j' : nat) rec', records_ w !! j' = Some rec' -> (j < j')%nat ->
         id_hash rec' <> fnv1a_hash (strip_agp_suffix id)) ->
      find fuel r id = Found (Z.of_nat j) rec.
Proof.
  intros Hvalid Hn.
  destruct (written_index path profile inputs Hvalid Hn)
    as (w & w' & file & B & C & Hadd & _ & _ & Hsize & Hfull & Hfin & Himage &
        Hhf & Hopen & Hnr & Hnil & Hne).
  exists w, w', file, (mkReader file (size file)).
  split; [exact Hadd|]. split; [exact Hfin|]. split; [exact Hopen|].
  intros id fuel j rec Hfuel Hj Hkey Hlast.
  destruct (find_written file (header_ w') B (records_ w) C id fuel Himage Hhf
              Hfull ltac:(lia) ltac:(lia) Hnil Hne ltac:(lia)) as [Hfound _].
  now apply Hfound.
Qed.

(** X13. A missing key: when no record carries the key of an identifier, [find]
    returns null, also on the empty index. *)
Theorem find_missing_key (path : string) (profile : SampleDamageProfile)
    (inputs : list (Gene * string_view)) :
  Forall (fun x => valid_input x.1 x.2 = true) inputs ->
  size inputs < 2 ^ 32 ->
  exists w w' bytes r,
    add_records (new_writer path profile) inputs = Ok w /\
    finalize true true w = Ok (w', File bytes) /\
    open_reader io_fine path bytes = Ok r /\
    forall (id : string_view) (fuel : nat),
      size inputs <= Z.of_nat fuel ->
      (forall (j : nat) (rec : AgdRecord), records_ w !! j = Some rec ->
         id_hash rec <> fnv1a_hash (strip_agp_suffix id)) ->
      find fuel r id = NotFound.
Proof.
  intros Hvalid Hn.
  destruct (written_index path profile inputs Hvalid Hn)
    as (w & w' & file & B & C & Hadd & _ & _ & Hsize & Hfull & Hfin & Himage &
        Hhf & Hopen & Hnr & Hnil & Hne).
  exists w, w', file, (mkReader file (size file)).
  split; [exact Hadd|]. split; [exact Hfin|]. split; [exact Hopen|].
  intros id fuel Hfuel Hno.
  destruct (find_written file (header_ w') B (records_ w) C id fuel Himage Hhf
              Hfull ltac:(lia) ltac:(lia) Hnil Hne ltac:(lia)) as [_ Hmiss].
  now apply Hmiss.
Qed.

Lemma find_returns_latest_witness :
  exists w w' bytes r,
    add_records (new_writer "out.agd" (mkProfile 0 0 "single-stranded"))
      example_inputs = Ok w /\
    finalize true true w = Ok (w', File bytes) /\
    open_reader io_fine "out.agd" bytes = Ok r /\
    forall (id : string_view) (fuel : nat) (j : nat) (rec : AgdRecord),
      size example_inputs <= Z.of_nat fuel ->
      records_ w !! j = Some rec ->
      id_hash rec = fnv1a_hash (strip_agp_suffix id) ->
      (forall (j' : nat) rec', records_ w !! j' = Some rec' -> (j < j')%nat ->
         id_hash rec' <> fnv1a_hash (strip_agp_suffix id)) ->
      find fuel r id = Found (Z.of_nat j) rec.
Proof.
  apply (find_returns_latest "out.agd" (mkProfile 0 0 "single-stranded")
           example_inputs).
  - repeat (constructor; [vm_compute; reflexivity|]). constructor.
  - vm_compute. reflexivity.
Defined.

Lemma find_missing_key_witness :
  exists w w' bytes r,
    add_records (new_writer "out.agd" (mkProfile 0 0 "single-stranded"))
      example_inputs = Ok w /\
    finalize true true w = Ok (w', File bytes) /\
    open_reader io_fine "out.agd" bytes = Ok r /\
    forall (id : string_view) (fuel : nat),
      size example_inputs <= Z.of_nat fuel ->
      (forall (j : nat) (rec : AgdRecord), records_ w !! j = Some rec ->
         id_hash rec <> fnv1a_hash (strip_agp_suffix id)) ->
      find fuel r id = NotFound.
Proof.
  apply (find_missing_key "out.agd" (mkProfile 0 0 "single-stranded")
           example_inputs).
  - repeat (constructor; [vm_compute; reflexivity|]). constructor.
  - vm_compute. reflexivity.
Defined.

(** ** The key, from [add_record] to [find] *)

(** Among the records that carry a key there is a last one. *)
Lemma last_with_key (recs : list AgdRecord) (key : Z) (j0 : nat)
    (rec0 : AgdRecord) :
  recs !! j0 = Some rec0 -> id_hash rec0 = key ->
  exists (j : nat) (rec : AgdRecord),
    recs !! j = Some rec /\ id_hash rec = key /\
    forall (j' : nat) rec', recs !! j' = Some rec' -> (j < j')%nat ->
      id_hash rec' <> key.
Proof.
  revert j0 rec0. induction recs as [|x recs IH] using rev_ind;
    intros j0 rec0 Hj0 Hkey; [discriminate Hj0|].
  destruct (Z.eq_dec (id_hash x) key) as [Hx|Hx].
  - exists (length recs), x. split; [apply list_lookup_middle; reflexivity|].
    split; [exact Hx|]. intros j' rec' Hj' Hlt.
    apply lookup_lt_Some in Hj'. rewrite length_app in Hj'. cbn [length] in Hj'.
    lia.
  - assert (Hlt0 : (j0 < length recs)%nat).
    { pose proof (lookup_lt_Some _ _ _ Hj0) as Hl.
      rewrite length_app in Hl. cbn [length] in Hl.
      destruct (Nat.eq_dec j0 (length recs)) as [->|]; [|lia].
      rewrite list_lookup_middle in Hj0 by reflexivity.
      injection Hj0 as <-. contradiction. }
    rewrite lookup_app_l in Hj0 by exact Hlt0.
    destruct (IH j0 rec0 Hj0 Hkey) as (j & rec & Hj & Hk & Hlast).
    exists j, rec. split; [apply lookup_app_l_Some; exact Hj|].
    split; [exact Hk|]. intros j' rec' Hj' Hlt.
    destruct (Nat.lt_ge_cases j' (length recs)) as [Hin|Hout].
    + rewrite lookup_app_l in Hj' by exact Hin. now apply (Hlast j' rec').
    + pose proof (lookup_lt_Some _ _ _ Hj') as Hl.
      rewrite length_app in Hl. cbn [length] in Hl.
      assert (j' = length recs) as -> by lia.
      rewrite list_lookup_middle in Hj' by reflexivity.
      injection Hj' as <-. exact Hx.
Qed.

(** C7. The key of an identifier is the 64-bit FNV-1a hash of the identifier
    with a trailing [_<+|-><0|1|2>] removed: ["read42_+_1"] and ["read42"]
    both strip to ["read42"]; an identifier that ends in the pattern loses
    exactly these four characters and any other identifier is unchanged; the
    hash starts from the offset basis and, for each byte in order, xors the
    byte in and multiplies by the FNV prime modulo 2^64. [add_record] stores
    this key in [id_hash]. [find] hashes the stripped identifier too: on the
    file of any calls (fewer than 2^32), [find] under an identifier that
    strips to the same name as the identifier of one of the calls returns a
    record the writer stored under this key, the last one; it depends on
    the identifier through the key only and returns only records that carry
    it. In the file of the three calls ["read1_+_0"], ["read2_-_1"],
    ["read1_-_2"], the second record is found under ["read2_-_1"],
    ["read2_+_0"] and ["read2"], and not under ["read2_-_3"], whose suffix
    is not of the pattern. *)
Theorem key_derivation :
  strip_agp_suffix (sv "read42_+_1") = sv "read42" /\
  strip_agp_suffix (sv "read42") = sv "read42" /\
  (forall base c1 c3, strand_char c1 -> frame_char c3 ->
     strip_agp_suffix (base ++ ["_"%char; c1; "_"%char; c3]) = base) /\
  (forall id,
     (forall base c1 c3, strand_char c1 -> frame_char c3 ->
        id <> base ++ ["_"%char; c1; "_"%char; c3]) ->
     strip_agp_suffix id = id) /\
  fnv1a_hash [] = 14695981039346656037 /\
  (forall str c,
     fnv1a_hash (str ++ [c])
     = (Z.lxor (fnv1a_hash str) (uchar c) * 1099511628211) mod 2 ^ 64) /\
  (forall w gene dna, add_record_pre w gene dna = true ->
     exists rec,
       add_record w gene dna
       = Ok (mkWriter (path_ w) (header_ w) (records_ w ++ [rec]) false) /\
       id_hash rec = fnv1a_hash (strip_agp_suffix (read_id gene))) /\
  (forall path profile inputs,
     Forall (fun x => valid_input x.1 x.2 = true) inputs ->
     size inputs < 2 ^ 32 ->
     exists w w' bytes r,
       add_records (new_writer path profile) inputs = Ok w /\
       finalize true true w = Ok (w', File bytes) /\
       open_reader io_fine path bytes = Ok r /\
       forall (gene : Gene) (dna id : string_view) (fuel : nat),
         In (gene, dna) inputs ->
         strip_agp_suffix id = strip_agp_suffix (read_id gene) ->
         size inputs <= Z.of_nat fuel ->
         exists (idx : nat) (rec : AgdRecord),
           find fuel r id = Found (Z.of_nat idx) rec /\
           records_ w !! idx = Some rec /\
           id_hash rec = fnv1a_hash (strip_agp_suffix (read_id gene)) /\
           forall (j : nat) rec', records_ w !! j = Some rec' -> (idx < j)%nat ->
             id_hash rec' <> fnv1a_hash (strip_agp_suffix (read_id gene))) /\
  (exists w w' bytes r rec,
     add_records example_writer example_inputs = Ok w /\
     finalize true true w = Ok (w', File bytes) /\
     open_reader io_fine "out.agd" bytes = Ok r /\
     records_ w !! 1%nat = Some rec /\
     id_hash rec = fnv1a_hash (sv "read2") /\
     find 3 r (sv "read2_-_1") = Found 1 rec /\
     find 3 r (sv "read2_+_0") = Found 1 rec /\
     find 3 r (sv "read2") = Found 1 rec /\
     find 3 r (sv "read2_-_3") = NotFound) /\
  (forall fuel r id id',
     fnv1a_hash (strip_agp_suffix id) = fnv1a_hash (strip_agp_suffix id') ->
     find fuel r id = find fuel r id') /\
  (forall fuel r id idx rec, find fuel r id = Found idx rec ->
     id_hash rec = fnv1a_hash (strip_agp_suffix id)).
Proof.
  split; [reflexivity|]. split; [reflexivity|].
  split; [exact strip_agp_suffix_strips|].
  split.
  { intros id Hno. destruct (strip_agp_suffix_cases id) as [[H _]|H];
      [exact H|].
    destruct H as (base & c1 & c3 & H1 & H3 & Hid & _).
    now destruct (Hno base c1 c3 H1 H3). }
  split; [reflexivity|]. split; [exact fnv1a_hash_snoc|].
  split.
  { intros w gene dna Hpre.
    destruct (add_record_total w gene dna Hpre)
      as (rec & dq & pq & Hrun & _ & _ & Hm & _).
    exists rec. split; [exact Hrun|].
    unfold meta in Hm. now injection Hm as -> _ _ _ _ _. }
  split.
  { intros path profile inputs Hvalid Hn.
    destruct (written_index path profile inputs Hvalid Hn)
      as (w & w' & file & B & C & Hadd & _ & _ & Hsize & Hfull & Hfin & Himage &
          Hhf & Hopen & Hnr & Hnil & Hne).
    destruct (add_records_fits inputs (new_writer path profile) eq_refl Hvalid)
      as (recs & Hadd' & Hall).
    cbn [new_writer path_ header_ records_ app] in Hadd'.
    assert (Hrecs : records_ w = recs).
    { cbn [new_writer] in Hadd. rewrite Hadd' in Hadd. now injection Hadd as <-. }
    exists w, w', file, (mkReader file (size file)).
    split; [exact Hadd|]. split; [exact Hfin|]. split; [exact Hopen|].
    intros gene dna id fuel Hin Hstrip Hfuel.
    apply list_elem_of_In, list_elem_of_lookup_1 in Hin as [j0 Hj0].
    destruct (Forall2_lookup_l _ _ _ _ _ Hall Hj0) as (rec0 & Hrec0 & _ & Hkey0).
    cbn [fst] in Hkey0. rewrite <- Hrecs in Hrec0.
    destruct (last_with_key _ _ _ _ Hrec0 Hkey0) as (j & rec & Hj & Hk & Hlast).
    exists j, rec.
    destruct (find_written file (header_ w') B (records_ w) C id fuel Himage Hhf
                Hfull ltac:(lia) ltac:(lia) Hnil Hne ltac:(lia)) as [Hfound _].
    cbv zeta in Hfound. rewrite Hstrip in Hfound.
    split; [now apply Hfound|]. auto. }
  split.
  { eexists _, _, _, _, _.
    repeat (split; [vm_compute; reflexivity|]). vm_compute; reflexivity. }
  split; [exact find_by_key|exact find_found_hash].
Qed.

(** ** The header through the file *)

Lemma header_tail_fields (h : AgdHeader) (rest : list Z) :
  let f := header_bytes h ++ rest in
  take 4 (drop 24 f) = le_bytes 4 (d_max h) /\
  take 4 (drop 28 f) = le_bytes 4 (lambda h) /\
  take 1 (drop 32 f) = [library_type h].
Proof.
  intros f. unfold f, header_bytes. rewrite <- !app_assoc.
  assert (L4 : forall v, 4%nat = length (le_bytes 4 v))
    by (intros; now rewrite le_bytes_length).
  assert (L8 : forall v, 8%nat = length (le_bytes 8 v))
    by (intros; now rewrite le_bytes_length).
  split; [|split].
  - change 24%nat with (4 + (4 + (8 + (8 + 0))))%nat.
    rewrite !drop_app_add' by auto. rewrite drop_0.
    apply take_app_length'. auto.
  - change 28%nat with (4 + (4 + (8 + (8 + (4 + 0)))))%nat.
    rewrite !drop_app_add' by auto. rewrite drop_0.
    apply take_app_length'. auto.
  - change 32%nat with (4 + (4 + (8 + (8 + (4 + (4 + 0))))))%nat.
    rewrite !drop_app_add' by auto. rewrite drop_0. reflexivity.
Qed.

Lemma finalize_keeps_profile (can_open write_ok : bool) (w w' : DamageIndexWriter)
    (f : written) :
  finalized_ w = false -> finalize can_open write_ok w = Ok (w', f) ->
  d_max (header_ w') = d_max (header_ w) /\
  lambda (header_ w') = lambda (header_ w) /\
  library_type (header_ w') = library_type (header_ w) /\
  finalized_ w' = true /\ records_ w' = records_ w.
Proof.
  intros Hf. unfold finalize. rewrite Hf.
  destruct (records_ w) as [|r0 rs] eqn:Hrecs.
  - destruct can_open; cbn [negb]; [|discriminate]. intros [= <- _]. auto.
  - destruct (bucket_count _) as [nb| |]; try discriminate. cbn [res_bind].
    destruct (nb =? 0); [discriminate|].
    destruct (build_table _ _ _ _ _) as [B C].
    destruct can_open; cbn [negb]; [|discriminate].
    destruct write_ok; cbn [negb]; [|discriminate].
    intros [= <- _]. cbn. auto.
Qed.

(** The library type the writer's constructor stores. *)
Definition library_code (name : string) : Z :=
  if String.eqb name "single-stranded" then 1
  else if String.eqb name "double-stranded" then 2 else 0.

(** X14. The header through the file: the reader's [d_max()] and [lambda()] are
    the bits of the floats the writer was constructed with, its
    [library_type()] is 1 for "single-stranded", 2 for "double-stranded" and
    0 for any other name, and its [record_count()] is the number of calls of
    [add_record]. *)
Theorem header_round_trip (path : string) (profile : SampleDamageProfile)
    (inputs : list (Gene * string_view)) :
  Forall (fun x => valid_input x.1 x.2 = true) inputs ->
  size inputs < 2 ^ 32 ->
  0 <= profile_d_max profile < 2 ^ 32 -> 0 <= profile_lambda profile < 2 ^ 32 ->
  exists w w' bytes r,
    add_records (new_writer path profile) inputs = Ok w /\
    finalize true true w = Ok (w', File bytes) /\
    open_reader io_fine path bytes = Ok r /\
    reader_d_max r = Ok (profile_d_max profile) /\
    reader_lambda r = Ok (profile_lambda profile) /\
    reader_library_type r = Ok (library_code (profile_library_type profile)) /\
    record_count r = Ok (size inputs).
Proof.
  intros Hvalid Hn Hd Hl.
  destruct (written_index path profile inputs Hvalid Hn)
    as (w & w' & file & B & C & Hadd & Hnf & Hh & Hsize & Hfull & Hfin & Himage &
        Hhf & Hopen & Hnr & _).
  destruct (finalize_keeps_profile _ _ _ _ _ Hnf Hfin) as (Ed & El & Et & _).
  rewrite Hh in Ed, El, Et. cbn [new_writer header_ d_max lambda library_type]
    in Ed, El, Et.
  destruct (image_header_reads _ _ _ _ _ Himage Hhf) as (_ & _ & Hrn & _).
  rewrite Hnr in Hrn.
  exists w, w', file, (mkReader file (size file)).
  split; [exact Hadd|]. split; [exact Hfin|]. split; [exact Hopen|].
  pose proof (image_size _ _ _ _ _ Himage) as Hs.
  pose proof (image_nonneg _ _ _ _ _ Himage) as [Hb0 Hr0].
  enough (H3 : reader_d_max (mkReader file (size file))
               = Ok (profile_d_max profile) /\
               reader_lambda (mkReader file (size file))
               = Ok (profile_lambda profile) /\
               reader_library_type (mkReader file (size file))
               = Ok (library_code (profile_library_type profile)))
    by (destruct H3 as (? & ? & ?); auto).
  unfold reader_d_max, reader_lambda, reader_library_type.
  destruct (load_at 4 (mkReader file (size file)) 24) as [-> _];
    [lia|cbn [file_size_]; lia|].
  destruct (load_at 4 (mkReader file (size file)) 28) as [-> _];
    [lia|cbn [file_size_]; lia|].
  destruct (load_at 1 (mkReader file (size file)) 32) as [-> _];
    [lia|cbn [file_size_]; lia|].
  cbn [data_]. change (Z.to_nat 24) with 24%nat.
  change (Z.to_nat 28) with 28%nat. change (Z.to_nat 32) with 32%nat.
  rewrite (image_bytes _ _ _ _ _ Himage). unfold file_bytes.
  destruct (header_tail_fields (header_ w')
              (concat (map bucket_bytes B) ++
               concat (map record_bytes (records_ w)) ++
               concat (map (le_bytes 4) C))) as (-> & -> & ->).
  rewrite !le_value_le_bytes by (rewrite ?Ed, ?El; assumption).
  rewrite Ed, El, Et. cbn [le_value].
  split; [reflexivity|]. split; [reflexivity|].
  f_equal. unfold library_code.
  destruct (String.eqb _ "single-stranded"); [reflexivity|].
  destruct (String.eqb _ "double-stranded"); reflexivity.
Qed.

Lemma header_round_trip_witness :
  exists w w' bytes r,
    add_records (new_writer "out.agd" (mkProfile 1050253722 1036831949
                                         "double-stranded")) example_inputs
    = Ok w /\
    finalize true true w = Ok (w', File bytes) /\
    open_reader io_fine "out.agd" bytes = Ok r /\
    reader_d_max r = Ok 1050253722 /\
    reader_lambda r = Ok 1036831949 /\
    reader_library_type r = Ok (library_code "double-stranded") /\
    record_count r = Ok (size example_inputs).
Proof.
  apply (header_round_trip "out.agd"
           (mkProfile 1050253722 1036831949 "double-stranded") example_inputs).
  - repeat (constructor; [vm_compute; reflexivity|]). constructor.
  - vm_compute. reflexivity.
  - cbn [profile_d_max]. lia.
  - cbn [profile_lambda]. lia.
Defined.

(** ** The size of the file *)

(** X15. The file of [n] records, [1 <= n < 2^32], has 64 bytes of header, 8 for
    each of the [floor(n * 1.33) + 1] buckets, and 32 + 4 for each record
    and its chain entry; the file of no record has the 64 bytes of the
    header. *)
Theorem written_file_size (path : string) (profile : SampleDamageProfile)
    (inputs : list (Gene * string_view)) :
  Forall (fun x => valid_input x.1 x.2 = true) inputs ->
  size inputs < 2 ^ 32 ->
  exists w w' bytes,
    add_records (new_writer path profile) inputs = Ok w /\
    finalize true true w = Ok (w', File bytes) /\
    size bytes
    = if size inputs =? 0 then 64
      else 64 + 8 * (size inputs * 133 / 100 + 1) + 36 * size inputs.
Proof.
  intros Hvalid Hn.
  destruct (written_index path profile inputs Hvalid Hn)
    as (w & w' & file & B & C & Hadd & Hnf & _ & Hsize & _ & Hfin & Himage &
        _ & _ & Hnr & Hnil & _).
  exists w, w', file. split; [exact Hadd|]. split; [exact Hfin|].
  rewrite (image_size _ _ _ _ _ Himage), Hnr.
  destruct (Z.eqb_spec (size inputs) 0) as [E0|Hne].
  - rewrite Hnil; [lia|]. destruct (records_ w); [reflexivity|].
    unfold size in Hsize, E0. cbn [length] in Hsize. lia.
  - pose proof (size_nonneg inputs).
    destruct (finalize_header w Hnf ltac:(lia)) as (B' & C' & _ & Hfin').
    cbv zeta in Hfin'. rewrite Hfin in Hfin'. injection Hfin' as -> _.
    cbn [header_ num_buckets]. rewrite Hsize. reflexivity.
Qed.

Lemma written_file_size_witness :
  exists w w' bytes,
    add_records (new_writer "out.agd" (mkProfile 0 0 "single-stranded"))
      example_inputs = Ok w /\
    finalize true true w = Ok (w', File bytes) /\
    size bytes
    = if size example_inputs =? 0 then 64
      else 64 + 8 * (size example_inputs * 133 / 100 + 1)
           + 36 * size example_inputs.
Proof.
  apply (written_file_size "out.agd" (mkProfile 0 0 "single-stranded")
           example_inputs).
  - repeat (constructor; [vm_compute; reflexivity|]). constructor.
  - vm_compute. reflexivity.
Defined.

(** ** After [finalize] *)

(** X16. Once [finalize] has returned, [add_record] throws and a second
    [finalize] returns without writing anything. *)
Theorem after_finalize (can_open write_ok : bool) (w w' : DamageIndexWriter)
    (f : written) :
  finalize can_open write_ok w = Ok (w', f) ->
  (forall gene dna,
     add_record w' gene dna = Throw "Cannot add records after finalize()") /\
  (forall can_open' write_ok',
     finalize can_open' write_ok' w' = Ok (w', NoFile)) /\
  writer_record_count w' = writer_record_count w.
Proof.
  intros Hfin.
  assert (H : finalized_ w' = true /\ records_ w' = records_ w).
  { destruct (finalized_ w) eqn:Hf.
    - unfold finalize in Hfin. rewrite Hf in Hfin. injection Hfin as <- _. auto.
    - now destruct (finalize_keeps_profile _ _ _ _ _ Hf Hfin) as (_ & _ & _ & ? & ?). }
  destruct H as [Hf' Hrecs].
  split; [|split].
  - intros gene dna. unfold add_record. now rewrite Hf'.
  - intros c o. unfold finalize. now rewrite Hf'.
  - unfold writer_record_count. now rewrite Hrecs.
Qed.

Lemma after_finalize_witness :
  exists w' f,
    finalize true true example_writer = Ok (w', f) /\
    (forall gene dna,
       add_record w' gene dna = Throw "Cannot add records after finalize()") /\
    (forall can_open' write_ok',
       finalize can_open' write_ok' w' = Ok (w', NoFile)) /\
    writer_record_count w' = writer_record_count example_writer.
Proof.
  destruct (finalize true true example_writer) as [[w' f]| |] eqn:E;
    [|vm_compute in E; discriminate E..].
  exists w', f. split; [reflexivity|].
  exact (after_finalize true true example_writer w' f E).
Defined.

(** ** The counters of the detector *)

(** The number of recorded sites with the given observed base and the given
    synonymity. *)
Definition count_sites (o : ascii) (syn : bool) (l : list DamageSite) : Z :=
  Z.of_nat (length (List.filter
    (fun s => Ascii.eqb (observed_nt s) o && Bool.eqb (is_synonymous s) syn) l)).

Record counts_ok (r : SynonymousDamageResult) : Prop := {
  counts_5prime_syn : synonymous_5prime r = count_sites "T" true (sites r);
  counts_5prime_non : nonsynonymous_5prime r = count_sites "T" false (sites r);
  counts_3prime_syn : synonymous_3prime r = count_sites "A" true (sites r);
  counts_3prime_non : nonsynonymous_3prime r = count_sites "A" false (sites r);
  counts_sum :
    synonymous_5prime r + nonsynonymous_5prime r + synonymous_3prime r
    + nonsynonymous_3prime r = size (sites r);
  counts_flag :
    has_synonymous_damage r = (0 <? synonymous_5prime r + synonymous_3prime r)
}.

Lemma count_sites_nonneg o syn l : 0 <= count_sites o syn l.
Proof. unfold count_sites. lia. Qed.

Lemma count_sites_snoc o syn l s :
  count_sites o syn (l ++ [s])
  = count_sites o syn l
    + if Ascii.eqb (observed_nt s) o && Bool.eqb (is_synonymous s) syn
      then 1 else 0.
Proof.
  unfold count_sites. rewrite List.filter_app, length_app. cbn [List.filter].
  destruct (_ && _); cbn [length]; lia.
Qed.

Lemma size_snoc {A} (l : list A) (x : A) : size (l ++ [x]) = size l + 1.
Proof. unfold size. rewrite length_app. cbn [length]. lia. Qed.

Lemma record_5prime_counts i k b r :
  counts_ok r -> counts_ok (record_5prime (mkSite i k "T" "C" b) r).
Proof.
  intros [H1 H2 H3 H4 H5 H6].
  pose proof (count_sites_nonneg "T" true (sites r)).
  pose proof (count_sites_nonneg "A" true (sites r)).
  unfold record_5prime. cbn [is_synonymous].
  destruct b; constructor;
    cbn [synonymous_5prime nonsynonymous_5prime synonymous_3prime
         nonsynonymous_3prime has_synonymous_damage sites];
    rewrite ?count_sites_snoc, ?size_snoc;
    cbn [observed_nt is_synonymous Ascii.eqb Bool.eqb andb];
    try lia; exact H6.
Qed.

Lemma record_3prime_counts i k b r :
  counts_ok r -> counts_ok (record_3prime (mkSite i k "A" "G" b) r).
Proof.
  intros [H1 H2 H3 H4 H5 H6].
  pose proof (count_sites_nonneg "T" true (sites r)).
  pose proof (count_sites_nonneg "A" true (sites r)).
  unfold record_3prime. cbn [is_synonymous].
  destruct b; constructor;
    cbn [synonymous_5prime nonsynonymous_5prime synonymous_3prime
         nonsynonymous_3prime has_synonymous_damage sites];
    rewrite ?count_sites_snoc, ?size_snoc;
    cbn [observed_nt is_synonymous Ascii.eqb Bool.eqb andb];
    try lia; exact H6.
Qed.

Lemma step_5prime_counts expf d l i c k r :
  counts_ok r -> counts_ok (step_5prime expf d l i c k r).
Proof.
  unfold step_5prime. destruct (f32_ltb _ _); [auto|].
  destruct (_ =? 0); [apply record_5prime_counts|auto].
Qed.

Lemma step_3prime_counts expf d l i c k r :
  counts_ok r -> counts_ok (step_3prime expf d l i c k r).
Proof.
  unfold step_3prime. destruct (f32_ltb _ _); [auto|].
  destruct (_ =? 2); [apply record_3prime_counts|auto].
Qed.

Lemma step_5prime_size expf d l i c k r :
  size (sites r) <= size (sites (step_5prime expf d l i c k r)) <= size (sites r) + 1.
Proof.
  rewrite step_5prime_sites. unfold size. rewrite length_app.
  destruct (hit_5prime _ _ _ _ _ _); simpl; lia.
Qed.

Lemma step_3prime_size expf d l i c k r :
  size (sites r) <= size (sites (step_3prime expf d l i c k r)) <= size (sites r) + 1.
Proof.
  rewrite step_3prime_sites. unfold size. rewrite length_app.
  destruct (hit_3prime _ _ _ _ _ _); simpl; lia.
Qed.

Section LoopInvariant.

Variable step : spec_float -> spec_float -> Z -> Z -> Z ->
                SynonymousDamageResult -> SynonymousDamageResult.
Variable P : SynonymousDamageResult -> Prop.
Hypothesis step_P : forall d l i c k r, P r -> P (step d l i c k r).
Hypothesis step_size : forall d l i c k r,
  size (sites r) <= size (sites (step d l i c k r)) <= size (sites r) + 1.

Lemma codon_loop_invariant fuel codons n d l i r r' :
  codon_loop step fuel codons n d l i r = Ok r' ->
  P r -> 0 <= i <= n ->
  P r' /\ size (sites r) <= size (sites r') <= size (sites r) + 3 * (n - i).
Proof.
  revert i r. induction fuel as [|fuel IH]; intros i r; simpl.
  - intros [= <-]. split; [assumption|lia].
  - destruct (Z.ltb_spec i n) as [Hi|Hi]; [|intros [= <-]; split; [assumption|lia]].
    unfold codon_round. destruct (codons !! Z.to_nat i) as [c|]; [|discriminate].
    destruct (63 <? c); cbn [res_bind]; intros Hloop HP Hin.
    + destruct (IH _ _ Hloop HP ltac:(lia)) as [HP' Hs]. split; [exact HP'|lia].
    + pose proof (step_size d l i c 0 r).
      pose proof (step_size d l i c 1 (step d l i c 0 r)).
      pose proof (step_size d l i c 2 (step d l i c 1 (step d l i c 0 r))).
      destruct (IH _ _ Hloop ltac:(auto) ltac:(lia)) as [HP' Hs].
      split; [exact HP'|lia].
Qed.

End LoopInvariant.

(** X19. On a record whose counts fit its arrays the four counters count the
    recorded sites: [synonymous_5prime] the synonymous sites where a T is
    observed, [nonsynonymous_5prime] the others where a T is observed, and
    so for an A and the 3' counters; together they count every site; there
    are at most three sites for each codon; and [has_synonymous_damage] is
    set exactly when one of the two synonymous counters is positive. *)
Theorem detector_counts (expf : spec_float -> spec_float) (rec : AgdRecord)
    (d_max lambda : spec_float) :
  0 <= n_5prime rec <= 5 -> 0 <= n_3prime rec <= 5 ->
  length (codons_5prime rec) = 5%nat -> length (codons_3prime rec) = 5%nat ->
  exists result,
    detect_synonymous_damage expf rec d_max lambda = Ok result /\
    synonymous_5prime result = count_sites "T" true (sites result) /\
    nonsynonymous_5prime result = count_sites "T" false (sites result) /\
    synonymous_3prime result = count_sites "A" true (sites result) /\
    nonsynonymous_3prime result = count_sites "A" false (sites result) /\
    synonymous_5prime result + nonsynonymous_5prime result
    + synonymous_3prime result + nonsynonymous_3prime result
    = size (sites result) /\
    size (sites result) <= 3 * (n_5prime rec + n_3prime rec) /\
    has_synonymous_damage result
    = (0 <? synonymous_5prime result + synonymous_3prime result).
Proof.
  intros H5 H3 L5 L3.
  destruct (detect_synonymous_damage_spec expf rec d_max lambda H5 H3 L5 L3)
    as (result & Hrun & _).
  exists result. split; [exact Hrun|].
  unfold detect_synonymous_damage in Hrun.
  destruct (codon_loop _ _ (codons_5prime rec) _ _ _ _ _) as [r1| |] eqn:Hr1;
    try discriminate.
  cbn [res_bind] in Hrun.
  assert (H0 : counts_ok empty_result) by (constructor; reflexivity).
  destruct (codon_loop_invariant _ counts_ok (step_5prime_counts expf)
              (step_5prime_size expf) _ _ _ _ _ _ _ _ Hr1 H0 ltac:(lia))
    as [Hc1 Hs1].
  destruct (codon_loop_invariant _ counts_ok (step_3prime_counts expf)
              (step_3prime_size expf) _ _ _ _ _ _ _ _ Hrun Hc1 ltac:(lia))
    as [[C1 C2 C3 C4 C5 C6] Hs2].
  change (size (sites empty_result)) with 0 in Hs1.
  repeat (split; [assumption|]). split; [lia|exact C6].
Qed.

(** A record with the 5' codon TTT and the 3' codons GAA and AAA. *)
Definition both_ends_record : AgdRecord :=
  mkRecord 0 9 0 0 0 1 2 0 [0; 255; 255; 255; 255] [58; 42; 255; 255; 255]
    (replicate 3 0) (replicate 3 0).

Lemma detector_counts_witness :
  exists result,
    detect_synonymous_damage exp_at_zero both_ends_record f32_1 f32_0
    = Ok result /\
    synonymous_5prime result = count_sites "T" true (sites result) /\
    nonsynonymous_5prime result = count_sites "T" false (sites result) /\
    synonymous_3prime result = count_sites "A" true (sites result) /\
    nonsynonymous_3prime result = count_sites "A" false (sites result) /\
    synonymous_5prime result + nonsynonymous_5prime result
    + synonymous_3prime result + nonsynonymous_3prime result
    = size (sites result) /\
    size (sites result)
    <= 3 * (n_5prime both_ends_record + n_3prime both_ends_record) /\
    has_synonymous_damage result
    = (0 <? synonymous_5prime result + synonymous_3prime result).
Proof.
  apply (detector_counts exp_at_zero both_ends_record f32_1 f32_0);
    [simpl; lia|simpl; lia|reflexivity|reflexivity].
Defined.

Example detector_counts_example :
  (encode_codon "G" "A" "A", encode_codon "A" "A" "A") = (58, 42) /\
  detect_synonymous_damage exp_at_zero both_ends_record f32_1 f32_0
  = Ok (mkResult true 1 2 2 3
          [mkSite 0 0 "T" "C" false; mkSite 0 1 "T" "C" false;
           mkSite 0 2 "T" "C" true;
           mkSite 0 1 "A" "G" false; mkSite 0 2 "A" "G" true;
           mkSite 1 0 "A" "G" false; mkSite 1 1 "A" "G" false;
           mkSite 1 2 "A" "G" true]).
Proof. split; vm_compute; reflexivity. Qed.

(** ** The 3' side of the detector *)

Lemma hit_3prime_Some expf d l i c k s :
  hit_3prime expf d l i c k = Some s <->
  f32_ltb (p_damage expf d l (i * 3 + (2 - k))) P_THRESHOLD = false /\
  observed_nt_of c k = 2 /\
  s = mkSite i k "A" "G" (is_ga_synonymous c k).
Proof.
  unfold hit_3prime. destruct (f32_ltb _ _).
  - split; [discriminate|]. now intros [? _].
  - destruct (Z.eqb_spec (observed_nt_of c k) 2) as [E|E].
    + split; [now intros [= <-]|]. now intros (_ & _ & ->).
    + split; [discriminate|]. now intros (_ & ? & _).
Qed.

(** X20. On a record whose counts fit its arrays, position [k] of the 3' codon
    [i] is at distance [3 i + (2 - k)] from the 3' end; where the damage
    probability at that distance is not below 0.05, the codon is no sentinel
    and an A is observed, the position is recorded as a G-to-A site,
    synonymous as [is_ga_synonymous] says. Every site where an A is observed
    arises so, and every site is a T for a C or an A for a G. *)
Theorem detector_3prime_sites (expf : spec_float -> spec_float)
    (rec : AgdRecord) (d_max lambda : spec_float) :
  0 <= n_5prime rec <= 5 -> 0 <= n_3prime rec <= 5 ->
  length (codons_5prime rec) = 5%nat -> length (codons_3prime rec) = 5%nat ->
  exists result,
    detect_synonymous_damage expf rec d_max lambda = Ok result /\
    (forall i k c, 0 <= i < n_3prime rec -> 0 <= k <= 2 ->
       codons_3prime rec !! Z.to_nat i = Some c -> c <= 63 ->
       observed_nt_of c k = 2 ->
       f32_ltb (p_damage expf d_max lambda (i * 3 + (2 - k))) P_THRESHOLD
       = false ->
       In (mkSite i k "A" "G" (is_ga_synonymous c k)) (sites result)) /\
    (forall s, In s (sites result) -> observed_nt s = "A"%char ->
       exists c,
         0 <= codon_idx s < n_3prime rec /\ 0 <= nt_position s <= 2 /\
         codons_3prime rec !! Z.to_nat (codon_idx s) = Some c /\
         c <= 63 /\
         observed_nt_of c (nt_position s) = 2 /\
         f32_ltb (p_damage expf d_max lambda
                    (codon_idx s * 3 + (2 - nt_position s))) P_THRESHOLD
         = false /\
         is_synonymous s = is_ga_synonymous c (nt_position s)) /\
    (forall s, In s (sites result) ->
       (observed_nt s, expected_nt s) = ("T", "C")%char \/
       (observed_nt s, expected_nt s) = ("A", "G")%char).
Proof.
  intros H5 H3 L5 L3.
  destruct (detect_synonymous_damage_spec expf rec d_max lambda H5 H3 L5 L3)
    as (result & Hrun & _ & Hsites).
  exists result. split; [exact Hrun|]. split; [|split].
  - intros i k c Hi Hk Hc Hc63 Ho Hp. apply Hsites. right.
    exists i. split; [exact Hi|]. exists c, k.
    split; [exact Hc|]. split; [exact Hc63|]. split; [exact Hk|].
    apply hit_3prime_Some. auto.
  - intros s Hin Hobs. apply Hsites in Hin.
    destruct Hin as [(j & Hj & c & k & Hc & Hc63 & Hk & Hhit)
                    |(j & Hj & c & k & Hc & Hc63 & Hk & Hhit)].
    + apply hit_5prime_Some in Hhit as (_ & _ & ->). discriminate Hobs.
    + apply hit_3prime_Some in Hhit as (Hp & Ho & ->). exists c.
      cbn [codon_idx nt_position is_synonymous]. auto 10.
  - intros s Hin. apply Hsites in Hin.
    destruct Hin as [(j & Hj & c & k & Hc & Hc63 & Hk & Hhit)
                    |(j & Hj & c & k & Hc & Hc63 & Hk & Hhit)].
    + apply hit_5prime_Some in Hhit as (_ & _ & ->). now left.
    + apply hit_3prime_Some in Hhit as (_ & _ & ->). now right.
Qed.

Lemma detector_3prime_sites_witness :
  exists result,
    detect_synonymous_damage exp_at_zero both_ends_record f32_1 f32_0
    = Ok result /\
    In (mkSite 0 2 "A" "G" true) (sites result) /\
    In (mkSite 1 0 "A" "G" false) (sites result).
Proof.
  destruct (detector_3prime_sites exp_at_zero both_ends_record f32_1 f32_0)
    as (result & Hrun & Hin & _);
    [simpl; lia|simpl; lia|reflexivity|reflexivity|].
  exists result. split; [exact Hrun|]. split.
  - apply (Hin 0 2 58); [simpl; lia|lia|reflexivity|lia|reflexivity|reflexivity].
  - apply (Hin 1 0 42); [simpl; lia|lia|reflexivity|lia|reflexivity|reflexivity].
Defined.

(** ** Reading a stored record back *)

(** The strand a record describes: the sequence itself, or its reverse
    complement. *)
Definition read_strand (dna : string_view) (is_reverse : bool) : string_view :=
  if is_reverse then revcomp dna else dna.

(** The three bases at [p], in upper case, or NNN when one of them is no
    base. *)
Definition bases_at (s : string_view) (p : Z) : ascii * ascii * ascii :=
  let c0 := char_or_N s p in
  let c1 := char_or_N s (p + 1) in
  let c2 := char_or_N s (p + 2) in
  if (0 <=? encode_nucleotide c0) && (0 <=? encode_nucleotide c1) &&
     (0 <=? encode_nucleotide c2)
  then (upper c0, upper c1, upper c2)
  else ("N", "N", "N")%char.

Lemma decode_codon_of (s : string_view) (p : Z) :
  decode_codon (codon_of s p) = bases_at s p.
Proof.
  unfold codon_of, bases_at, encode_codon. cbv zeta.
  pose proof (encode_nucleotide_base (char_or_N s p)) as H0.
  pose proof (encode_nucleotide_base (char_or_N s (p + 1))) as H1.
  pose proof (encode_nucleotide_base (char_or_N s (p + 2))) as H2.
  destruct (encode_nucleotide_cases (char_or_N s p)) as [E0|[E0|[E0|[E0|E0]]]];
    destruct (encode_nucleotide_cases (char_or_N s (p + 1)))
      as [E1|[E1|[E1|[E1|E1]]]];
    destruct (encode_nucleotide_cases (char_or_N s (p + 2)))
      as [E2|[E2|[E2|[E2|E2]]]];
    rewrite E0, E1, E2 in *; try reflexivity;
    rewrite <- H0, <- H1, <- H2 by lia; reflexivity.
Qed.

(** The start, on the read strand, of the [j]-th codon from the 3' end. *)
Definition start_3prime (len frame : Z) (is_reverse : bool) (j : Z) : Z :=
  if is_reverse then len - 3 - frame - 3 * j
  else frame + coding_length len frame - 3 - 3 * j.

(** X10. What a user decodes from the record [add_record] stores: the frame and
    the strand as given, the [j]-th 5' codon as the three bases of the read
    strand (the sequence, or its reverse complement for a reverse gene) at
    [frame + 3 j], and the [j]-th 3' codon as the three bases at
    [start_3prime]; a codon with a character that is no base decodes to
    NNN. *)
Theorem stored_record_decodes (w : DamageIndexWriter) (gene : Gene)
    (dna : string_view) :
  add_record_pre w gene dna = true ->
  exists rec,
    add_record w gene dna
    = Ok (mkWriter (path_ w) (header_ w) (records_ w ++ [rec]) false) /\
    decode_frame (frame_strand rec) = frame gene /\
    decode_is_reverse (frame_strand rec) = negb (is_forward gene) /\
    let is_reverse := negb (is_forward gene) in
    let s := read_strand dna is_reverse in
    forall j : nat, Z.of_nat j < n_5prime rec ->
      exists c5 c3,
        codons_5prime rec !! j = Some c5 /\
        codons_3prime rec !! j = Some c3 /\
        decode_codon c5 = bases_at s (frame gene + 3 * Z.of_nat j) /\
        decode_codon c3
        = bases_at s (start_3prime (size dna) (frame gene) is_reverse (Z.of_nat j)).
Proof.
  intros Hpre.
  destruct (add_record_total w gene dna Hpre)
    as (rec & dq & pq & Hrun & _ & _ & Hmeta & _ & _ & Hn5 & _ & Hin & _).
  assert (Hframe : 0 <= frame gene <= 2).
  { unfold add_record_pre, valid_input in Hpre.
    repeat (apply andb_true_iff in Hpre as [Hpre ?]).
    repeat match goal with
           | Hl : (_ <=? _) = true |- _ => apply Z.leb_le in Hl
           end.
    lia. }
  exists rec. split; [exact Hrun|].
  assert (Hfs : frame_strand rec
                = encode_frame_strand (frame gene) (negb (is_forward gene)))
    by (unfold meta in Hmeta; congruence).
  rewrite Hfs.
  unfold encode_frame_strand, decode_frame, decode_is_reverse.
  assert (Hk : frame gene = 0 \/ frame gene = 1 \/ frame gene = 2) by lia.
  split; [destruct Hk as [->|[->| ->]]; now destruct (is_forward gene)|].
  split; [destruct Hk as [->|[->| ->]]; now destruct (is_forward gene)|].
  cbv zeta. rewrite Hn5. intros j Hj.
  destruct (Hin j Hj) as [H5 H3].
  destruct (codon_count_fits (size dna) (frame gene) (Z.of_nat j))
    as (Hfit & Hlo & Hhi); [lia|].
  eexists _, _. split; [exact H5|]. split; [exact H3|].
  unfold codon_5prime_of, codon_3prime_of, read_strand, start_3prime.
  destruct (negb (is_forward gene)).
  - rewrite <- !decode_codon_of, !codon_of_revcomp by lia.
    split; f_equal; f_equal; lia.
  - now rewrite <- !decode_codon_of.
Qed.

Lemma stored_record_decodes_witness :
  exists rec,
    add_record example_writer (example_gene "read42_-_2" 2 false) (sv "ACGTACGT")
    = Ok (mkWriter "out.agd" (header_ example_writer) [rec] false) /\
    decode_frame (frame_strand rec) = 2 /\
    decode_is_reverse (frame_strand rec) = true /\
    forall j : nat, Z.of_nat j < n_5prime rec ->
      exists c5 c3,
        codons_5prime rec !! j = Some c5 /\
        codons_3prime rec !! j = Some c3 /\
        decode_codon c5
        = bases_at (revcomp (sv "ACGTACGT")) (2 + 3 * Z.of_nat j) /\
        decode_codon c3
        = bases_at (revcomp (sv "ACGTACGT"))
            (start_3prime 8 2 true (Z.of_nat j)).
Proof.
  apply (stored_record_decodes example_writer
           (example_gene "read42_-_2" 2 false) (sv "ACGTACGT")).
  vm_compute. reflexivity.
Defined.

(** X21. The detector runs on every record [add_record] stores: it reads no
    entry outside the two arrays of five codons, and records at most 30
    sites. *)
Theorem detector_accepts_stored_records (expf : spec_float -> spec_float)
    (w : DamageIndexWriter) (gene : Gene) (dna : string_view)
    (d_max lambda : spec_float) :
  add_record_pre w gene dna = true ->
  exists rec result,
    add_record w gene dna
    = Ok (mkWriter (path_ w) (header_ w) (records_ w ++ [rec]) false) /\
    detect_synonymous_damage expf rec d_max lambda = Ok result /\
    size (sites result) <= 30 /\
    forall s, In s (sites result) ->
      0 <= codon_idx s < codon_count (size dna) (frame gene) /\
      0 <= nt_position s <= 2.
Proof.
  intros Hpre.
  destruct (add_record_total w gene dna Hpre)
    as (rec & dq & pq & Hrun & _ & _ & _ & Hl5 & Hl3 & Hn5 & Hn3 & _ & _).
  pose proof (codon_count_range (size dna) (frame gene)) as Hr.
  destruct (detect_synonymous_damage_spec expf rec d_max lambda
              ltac:(lia) ltac:(lia) Hl5 Hl3) as (result & Hdet & _ & Hsites).
  exists rec, result. split; [exact Hrun|]. split; [exact Hdet|]. split.
  - unfold detect_synonymous_damage in Hdet.
    destruct (codon_loop _ _ (codons_5prime rec) _ _ _ _ _) as [r1| |] eqn:Hr1;
      try discriminate.
    cbn [res_bind] in Hdet.
    destruct (codon_loop_invariant _ (fun _ => True)
                (fun _ _ _ _ _ _ _ => I) (step_5prime_size expf)
                _ _ _ _ _ _ _ _ Hr1 I ltac:(lia)) as [_ Hs1].
    destruct (codon_loop_invariant _ (fun _ => True)
                (fun _ _ _ _ _ _ _ => I) (step_3prime_size expf)
                _ _ _ _ _ _ _ _ Hdet I ltac:(lia)) as [_ Hs2].
    change (size (sites empty_result)) with 0 in Hs1. lia.
  - intros s Hin. apply Hsites in Hin. rewrite Hn5, Hn3 in Hin.
    destruct Hin as [(j & Hj & c & k & _ & _ & Hk & Hhit)
                    |(j & Hj & c & k & _ & _ & Hk & Hhit)].
    + apply hit_5prime_Some in Hhit as (_ & _ & ->). now cbn.
    + apply hit_3prime_Some in Hhit as (_ & _ & ->). now cbn.
Qed.

Lemma detector_accepts_stored_records_witness :
  exists rec result,
    add_record example_writer (example_gene "read42_-_2" 2 false) (sv "ACGTACGT")
    = Ok (mkWriter "out.agd" (header_ example_writer) [rec] false) /\
    detect_synonymous_damage exp_at_zero rec f32_1 f32_0 = Ok result /\
    size (sites result) <= 30 /\
    forall s, In s (sites result) ->
      0 <= codon_idx s < codon_count 8 2 /\ 0 <= nt_position s <= 2.
Proof.
  apply (detector_accepts_stored_records exp_at_zero example_writer
           (example_gene "read42_-_2" 2 false) (sv "ACGTACGT") f32_1 f32_0).
  vm_compute. reflexivity.
Defined.
